(* ===== verification/_CoqProject ===== *)
-Q . S2P
Prelude.v
Bytes.v
Nlmsg.v
UserTab.v
RateCheck.v
CapState.v
CapPool.v
Capture.v
CapSystem.v
CapTypes.v
Broadcast.v
CapStale.v
CapConc.v
CapLogic.v
CapConcSafe.v
CapConcLive.v
CapPorts.v
CapUnload.v
Getopt.v
Netctrl.v
NetctrlApp.v
NetctrlE2E.v
UserClient.v
CapClient.v
Proc.v
Mon.v
Workqueue.v
SkbTx.v
NicTx.v
Garp.v
NicDev.v
Kthread.v
Timers.v
Probes.v
Notifier.v
Demos.v
