(* ===== verification/Prelude.v ===== *)
(** * Verification of a collection of Linux kernel modules

    The repository holds small, independent kernel modules and the user-space
    programs that talk to them.  This library models the modules that carry
    logic of their own and proves what they do.

    ** The programs and the files that model them

    - [src/netlink/netlink.c], the capture module.  A netfilter hook copies
      every outgoing packet into a netlink message and queues it; the thread
      [kcapd] sends the queue to the registered client; clients register
      through netlink commands; a pool of capture buffers and a rate limiter
      stand between.  [UserTab] is the client table (a record of slots and a
      counter), [RateCheck] the limiter, [CapState] the module's globals and
      the kernel services it calls, [CapPool] the pool ([cap_buffer_alloc],
      [cap_buffer_free]), [Capture] the handlers ([hook_func_queue],
      [hook_func], [kcapd_thread], [cap_receive], [app_init], [app_exit]) and
      [CapSystem] the transition system in which the handlers interleave;
      [CapTypes] shows the ranges of its globals, [Broadcast] what the direct
      hook [hook_func] does, [CapStale] what becomes of messages whose client
      has left.  Five files take the same code apart into statements:
      [CapConc] has the hook, the command path and the thread as programs with
      their locks and the wait queue, [CapLogic] a small program logic for
      them, [CapConcSafe], [CapConcLive] and [CapPorts] what holds when they
      run at the same time; [CapUnload] adds [app_exit] to them.
    - [src/netlink/user_client.c], its client: [UserClient]; [CapClient] joins
      module and client.
    - [src/netctrl/netctrl.c], a module configured over netlink, and
      [src/netctrl/app.c], the command that configures it: [Netctrl],
      [NetctrlApp], and [NetctrlE2E] for the two together; [Getopt] is the C
      library's [getopt_long], which splits the command line.
    - the receive loop both netlink modules share: [Nlmsg].
    - [src/proc/foobar.c], two writable procfs files: [Proc].
    - [src/mon/mon.c], a network device with private ioctls: [Mon].
    - [src/tasklet_workqueue/myworkqueue.c], work items freed by their
      handler: [Workqueue].
    - [src/nic/udp.c], [src/nic/tcp.c] and [src/nic/garp.c], packets built
      inside the kernel: [SkbTx] (the buffer interface), [NicTx] and [Garp].
    - [src/nic/nic.c], a network device with netfilter hooks: [NicDev].
    - [src/kthread], threads around a semaphore and a single thread: [Kthread]
      (with its Module [MyThread]).
    - [src/timer] and [src/tasklet_workqueue/tasklet.c], deferred calls:
      [Timers] (Modules [StdTimer], [HrTimer], [Tasklet]).
    - [src/kprobe] and [src/funcexectime], probes: [Probes] (Modules [Kprobe],
      [FuncExecTime]).
    - [src/notifierchain], three modules around one chain: [Notifier].
    - [src/tty], [src/usermode_helper], [src/multifile]: [Demos].

    [Bytes] has byte objects, little-endian fields and the C string functions;
    this file has the monad, machine integers and automation all others use.

    ** How code becomes definitions

    A function of a module is a value of [M K S Ev A]: it reads and writes the
    module's globals [S] (a record with the source's names), asks the kernel
    [K] and appends each call to the trace [list Ev], newest last.  The kernel
    is code outside the repository, so [K] is a record of functions the
    theorems quantify over; such a function sees the whole trace so far and may
    answer the same question differently each time.  Where a theorem relies on
    the kernel, a named hypothesis states the documented behaviour ([cap_laws],
    [KListsLaws], [NlmsgLaws], [SkbLaws], [tx_laws], [garp_laws], [mon_net_ok],
    [nic_net_ok], [RwSemLaws], [DeferralLaws], [JiffiesLaws], [RawChainLaws],
    [unload_laws]), and a
    concrete instance shows it can hold.  A null or dangling pointer, an access
    outside an object, [BUG_ON] and [exit] are the constructors of [fault], so
    "the function returns" is part of every statement of the form
    [... = (Ok _, _, _)].  Integers are [Z]; conversions to [u16], [u32] and
    [int] are written where the source converts.

    Where a module's code runs concurrently with its callbacks or threads
    ([Kthread], [Timers], [FuncExecTime]; [Workqueue] as a relation) each actor has a program
    counter with one constructor per statement and a function from state to
    next state ([None] while it is blocked); invariants hold along every
    interleaving ([acts], [rtc_invariant]), and termination is proved for every
    fair schedule ([fair_termination], [helpful_termination]).  The capture
    module has both views: in [CapSystem] a handler is one step, which is what
    a client sees when calls do not overlap; in [CapConc] a statement that
    touches shared memory is one step, any number of calls are in progress and
    a lock that is taken blocks; any packet may arrive, also one with bytes in
    page fragments, and any command buffer.  [uninterrupted_calls] shows that a call that
    is not interrupted does the same in both.

    Loops that are not structural take fuel: [nlmsg_walk] needs at most one
    more iteration than there are bytes ([walk_receive_all]), [kcapd_thread]
    one more pass than there are messages ([kcapd_drains]), [recv_loop] as many
    as the count on the command line ([client_session]), the option loop as
    many as there are words ([getopts_enough]).

    ** What the theorems show

    - Capture: under every interleaving of handlers the client receives
      unmodified copies of captured packets in order ([capture_delivery]); the
      pool's bookkeeping is exact ([capture_pool_invariant]); the hook keeps no
      buffer when the limiter is off ([hook_conserves_buffers]); the thread
      empties its queue ([kcapd_drains]) and accounts for its references
      ([kcapd_reply_references]); commands have exactly their effect
      ([cap_receive_commands]); the client table implements a bounded multiset
      ([usertab_refines_bag]); the limiter enforces its rate
      ([rate_limit_enforced], [rate_window_exact]); all globals keep their C
      types ([capture_typed]); the direct hook is a broadcast
      ([hook_func_broadcast]).  Its defects are theorems too:
      [hook_limited_leaks], [hook_kmalloc_failure], [delete_all_user_shrinks],
      [user_join_pid_zero], [stale_message_loops_back].
    - Capture, statement by statement: in every interleaving the locks keep the
      pool exact and every buffer with one owner ([concurrent_pool]), the only
      faults are the ones the code does not guard against, each with its cause
      ([concurrent_faults]), messages are neither lost nor reordered nor
      changed ([concurrent_delivery]), and no wake-up is lost: a queued message
      is sent under every schedule that is fair to the thread and the calls in
      progress ([queued_is_sent]).  The one global without a lock holds only
      ports that registered, so nobody else is sent packets
      ([concurrent_destinations]), but it has a race ([registration_lost]).
      Unloading waits for the calls but not for the thread, which no code of the
      module ever stops ([capture_unload]).
    - Netlink: the receive loop finds exactly the messages put into a buffer
      ([nlmsg_walk_roundtrip]); the programs and the modules agree end to end
      ([client_session], [netctrl_end_to_end]), with the limits
      [netctrl_overread] and [netctrl_long_address]; every spelling of the
      options on the command line has the effect of the option
      ([app_command_line]); what the capture client prints are the first bytes
      of packets the hook saw ([capture_to_client]).
    - Proc: the files are string cells ([proc_files_refine]), loading is all
      or nothing ([proc_load_unload]), [proc_jiffies_text].
    - Mon: ioctl round trips ([mon_lover_roundtrip], [mon_maxsta_roundtrip]),
      safety for arbitrary requests ([mon_char128_safe], [mon_lover_long]), the
      tables against the handlers ([mon_subcommands_routed]) and the device
      ([mon_device_lifecycle]).
    - Workqueue: all outcomes of all interleavings ([wq_outcomes],
      [wq_failures]), each of which occurs ([wq_outcomes_occur]).
    - NicTx: frames, checksums and ownership ([udp_frame_checksums],
      [tcp_frame_checksums], [nic_sender_ownership]).
    - Garp, NicDev: the announcements sent ([garp_frames]) and what load and
      unload obtain and give back ([nic_lifecycle]).
    - Kthread: the counter under the semaphore is atomic ([sema_counter]), and
      unloading ends under every fair schedule ([sema_unload_terminates],
      [mythread_unload]).
    - Timers: count and period of the timer, also when [jiffies] wraps around
      ([stdtimer_periodic]), when
      unloading is safe ([stdtimer_unload], [oneshot_modules_safe]).
    - Probes: planting, rollback and removal ([probe_load_unload]), measured
      durations and the race on their numbers ([fet_durations]).
    - Notifier: order of the calls and the effect of a failed registration
      ([notifier_modules]).

    ** What is not modelled

    Memory is sequentially consistent, and in [CapConc] a statement that
    touches no shared memory takes no step of its own.  Interrupts and softirqs
    appear only as calls that start at any time.  In [CapConc] the calls start
    when [app_init] has returned: a hook or command call during initialisation
    is not modelled.  What the kernel waits for while the capture module is
    removed is a parameter with laws ([unload_kernel], [unload_laws]); what
    [flush_workqueue] and [kthread_stop] wait for is written into the steps of
    [Workqueue] and [Kthread].
    [printk] appears only where the printed object decides whether memory is
    read out of bounds, or where the output is the function's purpose.
    Of a [struct sk_buff] only the bytes and the room around them are modelled,
    not its metadata (device, protocol, route).  Functions that only print at
    load or unload, code under [#if 0] and the branches for kernels up to
    2.6.9 are left out. *)

From stdpp Require Export base list list_numbers numbers option gmap gmultiset strings.
From Stdlib Require Export ZArith Lia.

#[global] Open Scope Z_scope.
#[export] Set Warnings "-clear-no-such-hyp".

(** ** Outcomes of kernel code *)

(** What stops a handler before it returns.  The sources never test for these;
    each is a memory or kernel error of the C program. *)
Inductive fault :=
| NullDeref        (* a NULL pointer is dereferenced *)
| UseAfterFree     (* an object is touched after kfree *)
| BadPointer       (* an ERR_PTR value is used as a pointer *)
| OutOfBounds      (* an array or buffer access leaves its object *)
| BugOn            (* BUG_ON(cond) with cond true *)
| WrongMember      (* a union member other than the one stored is read *)
| ExitCall         (* a user-space program calls exit() *)
| OutOfFuel.       (* the model's loop bound was too small *)

#[global] Instance fault_eq_dec : EqDecision fault.
Proof. solve_decision. Defined.

Inductive outcome (A : Type) :=
| Ok (a : A)
| Crash (f : fault).
Arguments Ok {A} a.
Arguments Crash {A} f.

#[global] Instance outcome_eq_dec {A} `{EqDecision A} : EqDecision (outcome A).
Proof. solve_decision. Defined.

(** ** The module monad

    A handler of a kernel module reads the module's globals [S], calls kernel
    services [K] and leaves a trace of the calls [Ev] (newest last).  [K] is a
    record of functions which the component's theorems quantify over; a kernel
    function receives the trace of all earlier calls, so it may answer the
    same question differently each time. *)
Section Monad.
Context {K S Ev : Type}.

Definition M (A : Type) : Type := K → S → list Ev → outcome A * S * list Ev.

Definition ret {A} (a : A) : M A := λ _ s t, (Ok a, s, t).

Definition bind {A B} (m : M A) (f : A → M B) : M B := λ k s t,
  match m k s t with
  | (Ok a, s', t') => f a k s' t'
  | (Crash e, s', t') => (Crash e, s', t')
  end.

Definition crash {A} (f : fault) : M A := λ _ s t, (Crash f, s, t).

Definition get {A} (f : S → A) : M A := λ _ s t, (Ok (f s), s, t).

Definition modify (f : S → S) : M unit := λ _ s t, (Ok tt, f s, t).

(** A call whose answer comes from the kernel and is recorded. *)
Definition kcall {A} (ask : K → list Ev → A) (ev : A → Ev) : M A := λ k s t,
  let a := ask k t in (Ok a, s, t ++ [ev a]).

(** A call without an answer. *)
Definition emit (e : Ev) : M unit := λ _ s t, (Ok tt, s, t ++ [e]).

(** A pure kernel helper: answers from its arguments alone. *)
Definition kpure {A} (ask : K → A) : M A := λ k s t, (Ok (ask k), s, t).

(** A kernel variable or predicate that may change over time. *)
Definition kpeek {A} (ask : K → list Ev → A) : M A := λ k s t, (Ok (ask k t), s, t).

(** A pointer that is dereferenced. *)
Definition deref {A} (o : option A) : M A :=
  match o with Some a => ret a | None => crash NullDeref end.

(** An array access. *)
Definition index {A} (o : option A) : M A :=
  match o with Some a => ret a | None => crash OutOfBounds end.
End Monad.

Arguments M : clear implicits.

Lemma bind_ok {K S Ev A B} (m : M K S Ev A) (f : A → M K S Ev B) k s t a s' t' :
  m k s t = (Ok a, s', t') → bind m f k s t = f a k s' t'.
Proof. intros E. unfold bind. by rewrite E. Qed.

Lemma bind_assoc {K S Ev A B C} (m : M K S Ev A) (f : A → M K S Ev B) (g : B → M K S Ev C) k s t :
  bind (bind m f) g k s t = bind m (λ a, bind (f a) g) k s t.
Proof. unfold bind. by destruct (m k s t) as [[[]]]. Qed.

Lemma bind_crash {K S Ev A B} (m : M K S Ev A) (f : A → M K S Ev B) k s t e s' t' :
  m k s t = (Crash e, s', t') → bind m f k s t = (Crash e, s', t').
Proof. intros E. unfold bind. by rewrite E. Qed.

Declare Scope kmod_scope.
Delimit Scope kmod_scope with kmod.

Notation "x <- m ;; k" := (bind m (λ x, k))
  (at level 100, m at next level, right associativity) : kmod_scope.
Notation "m1 ;; m2" := (bind m1 (λ _, m2))
  (at level 100, right associativity) : kmod_scope.
Notation "'when' b 'do' m" := (if b then m else ret tt)
  (at level 99, b at level 9, m at level 98, only parsing) : kmod_scope.

#[global] Open Scope kmod_scope.

(** ** Preservation

    [preserves k I m]: [m] keeps the invariant [I] of state and trace, however
    it ends. *)
Section Preserves.
Context {K S Ev : Type} (k : K) (I : S → list Ev → Prop).

Definition preserves {A} (m : M K S Ev A) : Prop :=
  ∀ s t, I s t → let r := m k s t in I r.1.2 r.2.

Lemma preserves_ret {A} (a : A) : preserves (ret a).
Proof. by intros s t. Qed.

Lemma preserves_crash {A} f : preserves (@crash K S Ev A f).
Proof. by intros s t. Qed.

Lemma preserves_bind {A B} (m : M K S Ev A) (f : A → M K S Ev B) :
  preserves m → (∀ a, preserves (f a)) → preserves (bind m f).
Proof.
  intros Hm Hf s t HI. specialize (Hm s t HI). unfold bind in *. simpl in *.
  destruct (m k s t) as [[[a|e] s'] t']; [by apply Hf|done].
Qed.

Lemma preserves_get {A} (f : S → A) : preserves (get f).
Proof. by intros s t. Qed.

Lemma preserves_kpure {A} (f : K → A) : preserves (kpure f).
Proof. by intros s t. Qed.

Lemma preserves_kpeek {A} (f : K → list Ev → A) : preserves (kpeek f).
Proof. by intros s t. Qed.

Lemma preserves_index {A} (o : option A) : preserves (index o).
Proof. by destruct o; intros s t. Qed.

Lemma preserves_deref {A} (o : option A) : preserves (deref o).
Proof. by destruct o; intros s t. Qed.

Lemma preserves_modify f : (∀ s t, I s t → I (f s) t) → preserves (modify f).
Proof. intros Hf s t HI. by apply Hf. Qed.

Lemma preserves_emit e : (∀ s t, I s t → I s (t ++ [e])) → preserves (emit e).
Proof. intros Hf s t HI. by apply Hf. Qed.

Lemma preserves_kcall {A} (ask : K → list Ev → A) ev :
  (∀ s t a, I s t → I s (t ++ [ev a])) → preserves (kcall ask ev).
Proof. intros Hf s t HI. by apply Hf. Qed.

Lemma preserves_if {A} (b : bool) (m1 m2 : M K S Ev A) :
  preserves m1 → preserves m2 → preserves (if b then m1 else m2).
Proof. by destruct b. Qed.
End Preserves.

(** ** Transition systems *)

(** Zero or more steps of [R]; invariants are lifted along it once and for
    all. *)
Section Runs.
Context {St : Type} (step : St → St → Prop).

Definition invariant_of (I : St → Prop) : Prop := ∀ s s', step s s' → I s → I s'.

Lemma rtc_invariant (I : St → Prop) s s' :
  invariant_of I → rtc step s s' → I s → I s'.
Proof. intros HI. induction 1; eauto. Qed.
End Runs.

(** ** Scheduled runs

    The actors of a system take turns: [step a s] is the next state, or [None]
    while [a] is blocked. *)
Section Schedules.
Context {Actor St : Type} (step : Actor → St → option St).

Definition acts (s s' : St) : Prop := ∃ a, step a s = Some s'.

Definition sched_step (a : Actor) (s : St) : St := default s (step a s).

Fixpoint sched (σ : nat → Actor) (n : nat) (s : St) : St :=
  match n with
  | O => s
  | S n => sched (λ i, σ (S i)) n (sched_step (σ O) s)
  end.

(** Every actor of [P] gets its turn again and again. *)
Definition fair_on (P : Actor → Prop) (σ : nat → Actor) : Prop :=
  ∀ a, P a → ∀ n, ∃ m, (n ≤ m)%nat ∧ σ m = a.
Definition fair (σ : nat → Actor) : Prop := ∀ a n, ∃ m, (n ≤ m)%nat ∧ σ m = a.

Lemma fair_tail P σ : fair_on P σ → fair_on P (λ i, σ (S i)).
Proof. intros Hf a Ha n. destruct (Hf a Ha (S n)) as ([|m] & Hm & E); [lia|]. exists m. split; [lia|done]. Qed.

Lemma sched_invariant (I : St → Prop) σ n s :
  invariant_of acts I → I s → I (sched σ n s).
Proof.
  intros HI. revert σ s. induction n as [|n IH]; intros σ s Hs; [done|]. apply IH. unfold sched_step.
  destruct (step (σ O) s) as [s'|] eqn:E; [|done]. eapply HI; [by exists (σ O)|done].
Qed.

Lemma sched_reachable σ n s : rtc (acts) s (sched σ n s).
Proof. apply (sched_invariant (rtc acts s)); [|done]. intros s1 s2 Hstep Hs. by eapply rtc_r. Qed.

(** The rule of helpful directions: as long as the goal is not reached, some
    actor that gets its turn can act and brings it nearer, and nobody takes
    that away from it. *)
Lemma helpful_termination (P : Actor → Prop) (I final : St → Prop) (μ : St → nat) (helps : St → Actor → Prop) :
  (∀ s, Decision (final s)) →
  invariant_of acts I →
  (∀ s, I s → ¬ final s → ∃ a, P a ∧ helps s a) →
  (∀ s a, I s → ¬ final s → helps s a → ∃ s', step a s = Some s' ∧ (μ s' < μ s)%nat) →
  (∀ a s s', I s → ¬ final s → step a s = Some s' →
    (μ s' < μ s)%nat ∨ μ s' = μ s ∧ ∀ b, helps s b → helps s' b) →
  ∀ s σ, fair_on P σ → I s → ∃ n, final (sched σ n s).
Proof.
  intros Hdec HI Hsome Hhelp Hother s. induction s as [s IH] using (induction_ltof1 _ μ).
  unfold ltof in IH. intros σ Hf Hs.
  destruct (decide (final s)) as [Hfin|Hfin]; [by exists O|].
  destruct (Hsome s Hs Hfin) as (a & Pa & Ha). clear Hfin.
  destruct (Hf a Pa O) as (m & _ & Hm). revert s σ IH Hf Hs Ha Hm.
  induction m as [|m IHm]; intros s σ IH Hf Hs Ha Hm; destruct (decide (final s)) as [Hfin|Hfin]; try by exists O.
  - destruct (Hhelp s a Hs Hfin Ha) as (s' & E & Hlt). destruct (IH s' Hlt (λ i, σ (S i))) as [n Hn].
    + by apply fair_tail.
    + eapply HI; [by eexists|done].
    + exists (S n). simpl. unfold sched_step. by rewrite Hm, E.
  - assert (∃ n, final (sched (λ i, σ (S i)) n (sched_step (σ O) s))) as [n Hn]; [|by exists (S n)].
    unfold sched_step. destruct (step (σ O) s) as [s'|] eqn:E; simpl.
    + assert (I s') by (eapply HI; [by eexists|done]).
      destruct (Hother _ _ _ Hs Hfin E) as [Hlt|[Heq Hsame]].
      * apply IH; [done|by apply fair_tail|done].
      * apply IHm; [|by apply fair_tail|done|by apply Hsame|done]. intros s2 H2. apply IH. lia.
    + apply IHm; [done|by apply fair_tail|done..].
Qed.

(** The same with one helpful actor per state, all actors getting their turn. *)
Lemma fair_termination (I final : St → Prop) (μ : St → nat) (helpful : St → Actor) :
  (∀ s, Decision (final s)) →
  invariant_of acts I →
  (∀ s, I s → ¬ final s → ∃ s', step (helpful s) s = Some s' ∧ (μ s' < μ s)%nat) →
  (∀ a s s', I s → ¬ final s → step a s = Some s' →
    (μ s' < μ s)%nat ∨ μ s' = μ s ∧ helpful s' = helpful s) →
  ∀ s σ, fair σ → I s → ∃ n, final (sched σ n s).
Proof.
  intros Hdec HI Hhelp Hother s σ Hf.
  apply (helpful_termination (λ _, True) I final μ (λ s a, a = helpful s)); try done.
  - intros s0 _ _. by exists (helpful s0).
  - intros s0 a Hs Hfin ->. by apply Hhelp.
  - intros a s0 s' Hs Hfin E. destruct (Hother _ _ _ Hs Hfin E) as [?|[? Hsame]]; [by left|right].
    split; [done|]. intros b ->. by rewrite Hsame.
  - intros a _. apply Hf.
Qed.
End Schedules.

(** ** Lists *)

Lemma filter_all {A} (P : A → Prop) `{∀ x, Decision (P x)} l : Forall P l → filter P l = l.
Proof. induction 1 as [|x l Hx _ IH]; [done|]. by rewrite filter_cons_True, IH. Qed.

Lemma filter_none {A} (P : A → Prop) `{∀ x, Decision (P x)} l : Forall (λ x, ¬ P x) l → filter P l = [].
Proof. induction 1 as [|x l Hx _ IH]; [done|]. by rewrite filter_cons_False, IH. Qed.

(** Changing one element of a list whose order does not matter. *)
Lemma insert_perm {A} (l : list A) i x y : l !! i = Some x → <[i := y]> l ≡ₚ y :: delete i l.
Proof.
  intros Hi. apply lookup_lt_Some in Hi. rewrite insert_take_drop by done.
  rewrite delete_take_drop. symmetry. apply Permutation_middle.
Qed.

(** ** Machine integers *)

Definition u8 (z : Z) : Z := z mod 2 ^ 8.
Definition u16 (z : Z) : Z := z mod 2 ^ 16.
Definition u32 (z : Z) : Z := z mod 2 ^ 32.

(** Conversion to the signed 32-bit type [int] (two's complement). *)
Definition s32 (z : Z) : Z := (z + 2 ^ 31) mod 2 ^ 32 - 2 ^ 31.

(** On the 64-bit machines, [unsigned long] and [long long]. *)
Definition ulong (z : Z) : Z := z mod 2 ^ 64.
Definition s64 (z : Z) : Z := (z + 2 ^ 63) mod 2 ^ 64 - 2 ^ 63.

Lemma ulong_succ z : ulong (ulong z + 1) = ulong (z + 1).
Proof. unfold ulong. by rewrite Zplus_mod_idemp_l. Qed.

Lemma u32_range z : 0 ≤ u32 z < 2 ^ 32.
Proof. unfold u32. apply Z.mod_pos_bound. lia. Qed.

Lemma u16_range z : 0 ≤ u16 z < 2 ^ 16.
Proof. unfold u16. apply Z.mod_pos_bound. lia. Qed.

Lemma u32_small z : 0 ≤ z < 2 ^ 32 → u32 z = z.
Proof. intros. unfold u32. by apply Z.mod_small. Qed.

Lemma u16_small z : 0 ≤ z < 2 ^ 16 → u16 z = z.
Proof. intros. unfold u16. by apply Z.mod_small. Qed.

Lemma s32_small z : - 2 ^ 31 ≤ z < 2 ^ 31 → s32 z = z.
Proof. intros. unfold s32. rewrite Z.mod_small; lia. Qed.

Lemma s32_range z : - 2 ^ 31 ≤ s32 z < 2 ^ 31.
Proof. unfold s32. pose proof (Z.mod_pos_bound (z + 2 ^ 31) (2 ^ 32)). lia. Qed.

Lemma s32_u32 z : s32 (u32 z) = s32 z.
Proof. unfold s32, u32. by rewrite Zplus_mod_idemp_l. Qed.

Lemma s32_succ z : s32 (s32 z + 1) = s32 (z + 1).
Proof.
  unfold s32. replace ((z + 2 ^ 31) mod 2 ^ 32 - 2 ^ 31 + 1 + 2 ^ 31) with ((z + 2 ^ 31) mod 2 ^ 32 + 1) by lia.
  rewrite Zplus_mod_idemp_l. do 2 f_equal. lia.
Qed.

Create Rewrite HintDb kmod.
Create HintDb kmod discriminated.
#[export] Hint Rewrite u32_small u16_small s32_small using lia : kmod.

(** ** Automation *)

(** Case analysis on every scrutinee of the goal. *)
Ltac split_matches :=
  repeat match goal with
  | |- context [match ?x with _ => _ end] => destruct x eqn:?; simplify_eq/=
  end.

(** Run the monadic operations that are already determined. *)
Ltac mstep := unfold bind, ret, crash, get, modify, kcall, emit, kpure, deref, index; simpl.

(** Run the first command of a sequence, whose result [E] gives. *)
Ltac mrun E := rewrite (bind_ok _ _ _ _ _ _ _ _ E).

(** Discharge the premises of hypotheses that are at hand. *)
Ltac use_facts :=
  repeat match goal with
  | H : ?P → _, H' : ?P |- _ => specialize (H H')
  | H : ?b = ?b → _ |- _ => specialize (H eq_refl)
  end.

(** Turn boolean comparisons of [Z] into propositions. *)
Ltac zbool :=
  repeat match goal with
  | H : (_ <? _) = true |- _ => apply Z.ltb_lt in H
  | H : (_ <? _) = false |- _ => apply Z.ltb_ge in H
  | H : (_ <=? _) = true |- _ => apply Z.leb_le in H
  | H : (_ <=? _) = false |- _ => apply Z.leb_gt in H
  | H : (_ =? _) = true |- _ => apply Z.eqb_eq in H
  | H : (_ =? _) = false |- _ => apply Z.eqb_neq in H
  end.

(** Reduce preservation to the commands that change state or trace. *)
Ltac preserve1 :=
  first
  [ apply preserves_ret | apply preserves_crash | apply preserves_get | apply preserves_kpure
  | apply preserves_kpeek | apply preserves_index | apply preserves_deref
  | apply preserves_bind; [|intros ?] | apply preserves_if
  | lazymatch goal with |- preserves _ _ (match ?x with _ => _ end) => destruct x end ].
Ltac preserve := repeat preserve1.

#[export] Hint Resolve preserves_ret preserves_crash preserves_get preserves_kpure preserves_kpeek
  preserves_index preserves_deref preserves_bind preserves_if : kmod.
