(* ===== verification/Bytes.v ===== *)
(** * Bytes, structure layout and C strings

    Memory objects are lists of byte values ([Z] in [0..255]).  Multi-byte
    fields are little endian, as on the x86 machines the modules run on.  The
    C library functions the sources use on such objects ([memcpy], [strncpy],
    [strlen], the [%s] conversion) are modelled here. *)

From S2P Require Import Prelude.

Definition is_byte (b : Z) : Prop := 0 ≤ b < 256.
Definition bytes (bs : list Z) : Prop := Forall is_byte bs.

#[global] Instance is_byte_dec b : Decision (is_byte b).
Proof. unfold is_byte. apply _. Defined.

(** ** Little-endian fields *)

Definition le_enc (n z : Z) : list Z := Z_to_little_endian n 8 z.
Definition le_dec (bs : list Z) : Z := little_endian_to_Z 8 bs.
#[global] Arguments le_enc : simpl never.
#[global] Arguments le_dec : simpl never.

Lemma length_le_enc n z : 0 ≤ n → length (le_enc n z) = Z.to_nat n.
Proof. intros. unfold le_enc. pose proof (length_Z_to_little_endian n 8 z). lia. Qed.

Lemma le_dec_enc n z : 0 ≤ n → le_dec (le_enc n z) = z mod 2 ^ (n * 8).
Proof. intros. by apply little_endian_to_Z_to_little_endian. Qed.

Lemma le_dec_enc_small n z : 0 ≤ n → 0 ≤ z < 2 ^ (n * 8) → le_dec (le_enc n z) = z.
Proof. intros. rewrite le_dec_enc by done. by apply Z.mod_small. Qed.

Lemma le_enc_bytes n z : 0 ≤ n → bytes (le_enc n z).
Proof. intros. by apply (Z_to_little_endian_bound n 8 z). Qed.

Lemma le_dec_bound bs : bytes bs → 0 ≤ le_dec bs < 2 ^ (Z.of_nat (length bs) * 8).
Proof. intros. by apply (little_endian_to_Z_bound 8 bs). Qed.

Lemma le_enc_dec bs : bytes bs → le_enc (Z.of_nat (length bs)) (le_dec bs) = bs.
Proof. intros. by apply (Z_to_little_endian_to_Z _ 8 bs). Qed.

Lemma le_enc_2 z : le_enc 2 z = [z mod 256; z / 256 mod 256].
Proof.
  unfold le_enc. change 2 with (Z.succ (Z.succ 0)) at 1.
  rewrite !Z_to_little_endian_succ, Z_to_little_endian_0 by lia.
  by rewrite !Z.land_ones, Z.shiftr_div_pow2 by lia.
Qed.

(** ** Reading and writing parts of an object *)

(** [n] bytes at offset [off]; [None] when the access leaves the object. *)
Definition slice (off n : nat) (buf : list Z) : option (list Z) :=
  if decide (off + n ≤ length buf)%nat then Some (take n (drop off buf)) else None.

(** [memcpy(buf + off, bs, length bs)]; [None] when it leaves the object. *)
Definition splice (off : nat) (bs buf : list Z) : option (list Z) :=
  if decide (off + length bs ≤ length buf)%nat
  then Some (take off buf ++ bs ++ drop (off + length bs) buf) else None.

Lemma slice_Some off n buf bs :
  slice off n buf = Some bs → length bs = n ∧ (off + n ≤ length buf)%nat.
Proof.
  unfold slice. case_decide; intros; simplify_eq.
  rewrite length_take, length_drop. lia.
Qed.

Lemma slice_app off n pre bs post :
  off = length pre → n = length bs → slice off n (pre ++ bs ++ post) = Some bs.
Proof.
  intros -> ->. unfold slice. rewrite decide_True by (rewrite !length_app; lia).
  by rewrite drop_app_length, take_app_length.
Qed.

Lemma slice_0_app n bs post : n = length bs → slice 0 n (bs ++ post) = Some bs.
Proof. intros. by apply (slice_app 0 n []). Qed.

Lemma splice_Some off bs buf buf' :
  splice off bs buf = Some buf' → length buf' = length buf ∧ slice off (length bs) buf' = Some bs.
Proof.
  unfold splice. case_decide; intros; simplify_eq. split.
  - rewrite !length_app, length_take, length_drop. lia.
  - apply slice_app; [rewrite length_take; lia|done].
Qed.

Lemma splice_is_Some off bs buf :
  (off + length bs ≤ length buf)%nat → is_Some (splice off bs buf).
Proof. intros. unfold splice. rewrite decide_True by done. eauto. Qed.

Lemma splice_bytes off bs buf buf' :
  splice off bs buf = Some buf' → bytes bs → bytes buf → bytes buf'.
Proof.
  unfold splice, bytes. case_decide; intros; simplify_eq.
  apply Forall_app; split; [by apply Forall_take|].
  apply Forall_app; split; [done|by apply Forall_drop].
Qed.

(** ** C strings *)

(** The characters before the first NUL; [None] when the object holds no NUL,
    so that [strlen] or a [%s] conversion runs off its end. *)
Fixpoint cstr (buf : list Z) : option (list Z) :=
  match buf with
  | [] => None
  | b :: buf' => if b =? 0 then Some [] else (b ::.) <$> cstr buf'
  end.

Definition no_nul (s : list Z) : Prop := Forall (λ b, b ≠ 0) s.

#[global] Instance no_nul_dec s : Decision (no_nul s).
Proof. unfold no_nul. apply _. Defined.

Definition strlen (buf : list Z) : option Z := (λ s, Z.of_nat (length s)) <$> cstr buf.

(** What [strncpy(dst, src, n)] stores into the [n] bytes of [dst], for the
    string [s] at [src]: at most [n] characters, padded with NULs. *)
Definition strncpy (s : list Z) (n : nat) : list Z := take n (s ++ replicate n 0).

(** The characters of a string constant. *)
Fixpoint chars (s : string) : list Z :=
  match s with
  | EmptyString => []
  | String a s => Z.of_N (Ascii.N_of_ascii a) :: chars s
  end.

(** A string constant with its terminating NUL. *)
Definition cstring (s : list Z) : list Z := s ++ [0].

Lemma cstr_app s post : no_nul s → cstr (s ++ 0 :: post) = Some s.
Proof.
  induction 1 as [|b s Hb _ IH]; [done|]. simpl. rewrite IH.
  by rewrite (proj2 (Z.eqb_neq b 0)).
Qed.

Lemma cstr_Some buf s :
  cstr buf = Some s ↔ no_nul s ∧ ∃ post, buf = s ++ 0 :: post.
Proof.
  split; [|intros (? & post & ->); by apply cstr_app].
  revert s. induction buf as [|b buf IH]; intros s; [done|]. simpl.
  destruct (b =? 0) eqn:Hb; zbool; intros H; simplify_eq.
  - split; [constructor|]. by exists buf.
  - destruct (cstr buf) as [s'|] eqn:Hc; simplify_eq/=.
    destruct (IH s' eq_refl) as (? & post & ->).
    split; [by constructor|]. by exists post.
Qed.

Lemma cstr_None buf : cstr buf = None ↔ no_nul buf.
Proof.
  induction buf as [|b buf IH]; simpl; [by split; [constructor|]|].
  destruct (b =? 0) eqn:Hb; zbool.
  - split; [done|]. by inversion 1.
  - destruct (cstr buf); simpl; [|split; [constructor; tauto|done]].
    split; [done|]. intros Hall%Forall_cons. discriminate (proj2 IH (proj2 Hall)).
Qed.

Lemma cstr_app_None pre post : no_nul pre → cstr (pre ++ post) = (pre ++.) <$> cstr post.
Proof.
  induction 1 as [|b pre Hb _ IH]; simpl; [by destruct (cstr post)|].
  rewrite (proj2 (Z.eqb_neq b 0)), IH by done. by destruct (cstr post).
Qed.

Lemma length_strncpy s n : length (strncpy s n) = n.
Proof. unfold strncpy. rewrite length_take, length_app, length_replicate. lia. Qed.

(** A string shorter than the destination arrives whole and terminated. *)
Lemma cstr_strncpy s n : no_nul s → (length s < n)%nat → cstr (strncpy s n) = Some s.
Proof.
  intros Hs Hn. unfold strncpy. rewrite take_app_ge by lia.
  destruct (n - length s)%nat as [|m] eqn:Hm; [lia|].
  destruct n as [|n]; [lia|]. simpl. by apply cstr_app.
Qed.

(** A string that fills the destination is not terminated. *)
Lemma cstr_strncpy_full s n : no_nul s → (n ≤ length s)%nat → cstr (strncpy s n) = None.
Proof.
  intros Hs Hn. unfold strncpy. rewrite take_app_le by lia. apply cstr_None.
  by apply Forall_take.
Qed.

#[export] Hint Rewrite length_le_enc le_dec_enc_small using lia : kmod.
#[export] Hint Rewrite length_strncpy : kmod.
#[export] Hint Resolve le_enc_bytes : kmod.

(** Fields stay folded in goals; evaluation still sees through them. *)
#[global] Opaque le_enc le_dec.
