(* ===== verification/Nlmsg.v ===== *)
(** * Netlink messages and the walk over a received buffer

    Both kernel modules that speak netlink ([src/netlink/netlink.c] and
    [src/netctrl/netctrl.c]) walk a received buffer with the same loop.  The
    macros and inline helpers of the netlink header ([NLMSG_ALIGN], [nlmsg_ok],
    [nlmsg_next]) are not part of the repository: they are the fields of
    [NlmsgApi], and what their documentation promises is [NlmsgLaws]. *)

From S2P Require Import Prelude Bytes.

(** [struct nlmsghdr], 16 bytes. *)
Record nlmsghdr := MkHdr {
  nlmsg_len : Z;     (* u32 *)
  nlmsg_type : Z;    (* u16 *)
  nlmsg_flags : Z;   (* u16 *)
  nlmsg_seq : Z;     (* u32 *)
  nlmsg_pid : Z;     (* u32 *)
}.

#[global] Instance nlmsghdr_eq_dec : EqDecision nlmsghdr.
Proof. solve_decision. Defined.

Definition NLMSG_HDRLEN : Z := 16.
Definition NLMSG_ALIGNTO : Z := 4.
Definition NLMSG_DONE : Z := 3.
Definition NLM_F_MULTI : Z := 2.
Definition NLM_F_ACK : Z := 4.
Definition EINVAL : Z := 22.
Definition ENOMEM : Z := 12.
Definition EFAULT : Z := 14.
Definition ECONNREFUSED : Z := 111.
Definition EOPNOTSUPP : Z := 95.

Definition enc_hdr (h : nlmsghdr) : list Z :=
  le_enc 4 (nlmsg_len h) ++ le_enc 2 (nlmsg_type h) ++ le_enc 2 (nlmsg_flags h)
  ++ le_enc 4 (nlmsg_seq h) ++ le_enc 4 (nlmsg_pid h).

Definition field (off n : nat) (buf : list Z) : option Z := le_dec <$> slice off n buf.

Definition dec_hdr (buf : list Z) : option nlmsghdr :=
  l ← field 0 4 buf; ty ← field 4 2 buf; fl ← field 6 2 buf;
  sq ← field 8 4 buf; p ← field 12 4 buf;
  Some (MkHdr l ty fl sq p).

(** The header fits its field widths. *)
Record hdr_wf (h : nlmsghdr) : Prop := {
  wf_len : 0 ≤ nlmsg_len h < 2 ^ 32;
  wf_type : 0 ≤ nlmsg_type h < 2 ^ 16;
  wf_flags : 0 ≤ nlmsg_flags h < 2 ^ 16;
  wf_seq : 0 ≤ nlmsg_seq h < 2 ^ 32;
  wf_pid : 0 ≤ nlmsg_pid h < 2 ^ 32;
}.

Lemma length_enc_hdr h : length (enc_hdr h) = 16%nat.
Proof. unfold enc_hdr. rewrite !length_app, !length_le_enc by lia. reflexivity. Qed.

Lemma field_app off n m pre z post :
  off = length pre → n = Z.to_nat m → 0 ≤ m → 0 ≤ z < 2 ^ (m * 8) →
  field off n (pre ++ le_enc m z ++ post) = Some z.
Proof.
  intros -> -> Hm Hz. unfold field. rewrite slice_app; [|done|rewrite length_le_enc; lia].
  simpl. by rewrite le_dec_enc_small by lia.
Qed.

Lemma field_front n m z post :
  n = Z.to_nat m → 0 ≤ m → 0 ≤ z < 2 ^ (m * 8) → field 0 n (le_enc m z ++ post) = Some z.
Proof. by apply (field_app 0 n m []). Qed.

Lemma dec_enc_hdr h rest : hdr_wf h → dec_hdr (enc_hdr h ++ rest) = Some h.
Proof.
  intros [H1 H2 H3 H4 H5]. destruct h as [l ty fl sq p]; simpl in *.
  unfold dec_hdr, enc_hdr. cbn [nlmsg_len nlmsg_type nlmsg_flags nlmsg_seq nlmsg_pid].
  rewrite <-!app_assoc.
  rewrite (field_front 4 4) by (done || lia). simpl.
  rewrite (field_app 4 2 2 (le_enc 4 l)) by (rewrite ?length_le_enc; done || lia). simpl.
  rewrite (app_assoc (le_enc 4 l)).
  rewrite (field_app 6 2 2) by (rewrite ?length_app, ?length_le_enc; done || lia). simpl.
  rewrite (app_assoc _ (le_enc 2 fl)).
  rewrite (field_app 8 4 4) by (rewrite ?length_app, ?length_le_enc; done || lia). simpl.
  rewrite (app_assoc _ (le_enc 4 sq)).
  rewrite (field_app 12 4 4) by (rewrite ?length_app, ?length_le_enc; done || lia). done.
Qed.

(** ** The netlink header's helpers *)

Class NlmsgApi := {
  NLMSG_ALIGN : Z → Z;
  (* nlmsg_ok(nlh, remaining): [nlh] is the memory from the header on *)
  nlmsg_ok : list Z → Z → bool;
  (* nlmsg_next(nlh, &remaining): new offset of [nlh] and new [remaining] *)
  nlmsg_next : nlmsghdr → Z → Z → Z * Z;
}.

Class NlmsgLaws `{NlmsgApi} : Prop := {
  align_ge : ∀ n, 0 ≤ n → n ≤ NLMSG_ALIGN n;
  align_lt : ∀ n, 0 ≤ n → NLMSG_ALIGN n < n + NLMSG_ALIGNTO;
  align_mult : ∀ n, 0 ≤ n → NLMSG_ALIGN n mod NLMSG_ALIGNTO = 0;
  ok_iff : ∀ nlh rem, nlmsg_ok nlh rem = true ↔
    NLMSG_HDRLEN ≤ rem ∧ ∃ h, dec_hdr nlh = Some h ∧ NLMSG_HDRLEN ≤ nlmsg_len h ≤ rem;
  next_eq : ∀ h off rem, nlmsg_next h off rem =
    (off + NLMSG_ALIGN (nlmsg_len h), rem - NLMSG_ALIGN (nlmsg_len h));
}.

(** Lengths of a message with [n] bytes of payload, without and with the
    trailing padding. *)
Definition NLMSG_LENGTH (n : Z) : Z := NLMSG_HDRLEN + n.
Definition NLMSG_SPACE `{NlmsgApi} (n : Z) : Z := NLMSG_ALIGN (NLMSG_LENGTH n).

Lemma align_unique `{NlmsgLaws} n m :
  0 ≤ n → n ≤ m < n + 4 → m mod 4 = 0 → NLMSG_ALIGN n = m.
Proof.
  intros Hn Hm Hmod. pose proof (align_ge n Hn). pose proof (align_lt n Hn) as Hlt.
  pose proof (align_mult n Hn) as Ha. unfold NLMSG_ALIGNTO in *.
  pose proof (Z.div_mod (NLMSG_ALIGN n) 4). pose proof (Z.div_mod m 4). lia.
Qed.

Lemma align_fixed `{NlmsgLaws} n : 0 ≤ n → n mod 4 = 0 → NLMSG_ALIGN n = n.
Proof. intros. apply align_unique; lia. Qed.

(** ** The receive loop *)

Section Walk.
Context {K S Ev : Type} `{NlmsgApi}.
Context (netlink_ack : nlmsghdr → Z → Ev).
Context (receive_msg : list Z → nlmsghdr → M K S Ev Z).

(** One iteration: [err = receive_msg(skb, nlh)], acknowledged when there is
    an error or the sender asked for an answer. *)
Definition receive_one (nlh : list Z) (h : nlmsghdr) : M K S Ev unit :=
  err <- receive_msg nlh h ;;
  when (negb (err =? 0) || negb (Z.land (nlmsg_flags h) NLM_F_ACK =? 0))
    do emit (netlink_ack h err).

(** [while (nlmsg_ok(nlh, len)) { ...; nlh = nlmsg_next(nlh, &len); }] *)
Fixpoint nlmsg_walk (fuel : nat) (buf : list Z) (off rem : Z) : M K S Ev unit :=
  match fuel with
  | O => crash OutOfFuel
  | Datatypes.S fuel =>
      let nlh := drop (Z.to_nat off) buf in
      if nlmsg_ok nlh rem then
        h <- index (dec_hdr nlh) ;;
        receive_one nlh h ;;
        let '(off', rem') := nlmsg_next h off rem in
        nlmsg_walk fuel buf off' rem'
      else ret tt
  end.

(** The same loop over messages already split apart. *)
Fixpoint receive_all (ms : list (list Z * nlmsghdr)) : M K S Ev unit :=
  match ms with
  | [] => ret tt
  | (nlh, h) :: ms => receive_one nlh h ;; receive_all ms
  end.
End Walk.

(** The messages the loop finds. *)
Fixpoint nlmsgs `{NlmsgApi} (fuel : nat) (buf : list Z) (off rem : Z) : list (list Z * nlmsghdr) :=
  match fuel with
  | O => []
  | Datatypes.S fuel =>
      let nlh := drop (Z.to_nat off) buf in
      if nlmsg_ok nlh rem then
        match dec_hdr nlh with
        | Some h => let '(off', rem') := nlmsg_next h off rem in (nlh, h) :: nlmsgs fuel buf off' rem'
        | None => []
        end
      else []
  end.

Section WalkFacts.
Context {K S Ev : Type} `{NlmsgLaws}.
Context (netlink_ack : nlmsghdr → Z → Ev).
Context (receive_msg : list Z → nlmsghdr → M K S Ev Z).

(** The loop terminates: [rem] shrinks by at least 16 on every iteration, so
    [rem + 1] iterations are always enough, and it then does exactly what
    processing the messages one by one does. *)
Lemma walk_receive_all fuel buf off rem k s t :
  rem ≤ Z.of_nat fuel →
  nlmsg_walk netlink_ack receive_msg (Datatypes.S fuel) buf off rem k s t =
  receive_all netlink_ack receive_msg (nlmsgs (Datatypes.S fuel) buf off rem) k s t.
Proof.
  revert off rem s t. induction fuel as [|fuel IH]; intros off rem s t Hf.
  - simpl. destruct (nlmsg_ok _ rem) eqn:Hok; [|done].
    apply ok_iff in Hok. unfold NLMSG_HDRLEN in *. lia.
  - remember (Datatypes.S fuel) as fuel' eqn:Hfuel. cbn [nlmsg_walk nlmsgs].
    destruct (nlmsg_ok _ rem) eqn:Hok; [|done].
    apply ok_iff in Hok as (_ & h & Hdec & Hlen). rewrite Hdec, next_eq.
    unfold NLMSG_HDRLEN in Hlen. pose proof (align_ge (nlmsg_len h)).
    cbn [receive_all index]. unfold bind, ret.
    destruct (receive_one _ _ _ h k s t) as [[[u|f] s'] t']; [|done].
    subst fuel'. rewrite next_eq. apply IH. lia.
Qed.

(** An invariant of every message handler is an invariant of the loop. *)
Lemma preserves_walk k (I : S → list Ev → Prop) fuel buf off rem :
  (∀ h err s t, I s t → I s (t ++ [netlink_ack h err])) →
  (∀ nlh h, preserves k I (receive_msg nlh h)) →
  preserves k I (nlmsg_walk netlink_ack receive_msg fuel buf off rem).
Proof.
  intros Hack Hmsg. revert off rem. induction fuel as [|fuel IH]; intros off rem; simpl.
  { apply preserves_crash. }
  apply preserves_if; [|apply preserves_ret]. apply preserves_bind; [apply preserves_index|].
  intros h. apply preserves_bind.
  - unfold receive_one. apply preserves_bind; [apply Hmsg|]. intros err.
    apply preserves_if; [|apply preserves_ret]. apply preserves_emit. eauto.
  - intros _. destruct (nlmsg_next h off rem) as [off' rem']. apply IH.
Qed.

(** Any larger bound finds the same messages. *)
Lemma nlmsgs_fuel fuel fuel' buf off rem :
  rem ≤ Z.of_nat fuel → rem ≤ Z.of_nat fuel' →
  nlmsgs (Datatypes.S fuel) buf off rem = nlmsgs (Datatypes.S fuel') buf off rem.
Proof.
  revert fuel' off rem. induction fuel as [|fuel IH]; intros fuel' off rem Hf Hf'; simpl.
  all: destruct (nlmsg_ok _ rem) eqn:Hok; [|done].
  all: apply ok_iff in Hok as (_ & h & Hdec & Hlen); rewrite Hdec, next_eq.
  all: unfold NLMSG_HDRLEN in Hlen; pose proof (align_ge (nlmsg_len h)).
  { lia. }
  destruct fuel' as [|fuel']; [lia|]. f_equal. apply IH; lia.
Qed.
End WalkFacts.

(** ** Messages in a buffer *)

(** A message: its header and payload, padded to the alignment. *)
Definition nlmsg_pad (n : Z) : nat := Z.to_nat ((- n) mod NLMSG_ALIGNTO).

Definition nlmsg_bytes (m : nlmsghdr * list Z) : list Z :=
  enc_hdr m.1 ++ m.2 ++ replicate (nlmsg_pad (nlmsg_len m.1)) 0.

Definition nlmsg_wf (m : nlmsghdr * list Z) : Prop :=
  hdr_wf m.1 ∧ nlmsg_len m.1 = NLMSG_HDRLEN + Z.of_nat (length m.2).

(** Header and payload of a message found at [nlh]. *)
Definition nlmsg_view (x : list Z * nlmsghdr) : nlmsghdr * option (list Z) :=
  (x.2, slice 16 (Z.to_nat (nlmsg_len x.2 - NLMSG_HDRLEN)) x.1).

Section Parse.
Context `{NlmsgLaws}.

Lemma length_nlmsg_bytes m :
  nlmsg_wf m → Z.of_nat (length (nlmsg_bytes m)) = NLMSG_ALIGN (nlmsg_len m.1).
Proof.
  intros [_ Hlen]. symmetry. unfold NLMSG_HDRLEN in Hlen.
  pose proof (Z.mod_pos_bound (- nlmsg_len m.1) 4).
  unfold nlmsg_bytes, nlmsg_pad, NLMSG_ALIGNTO.
  rewrite !length_app, length_enc_hdr, length_replicate, !Nat2Z.inj_add, Z2Nat.id by lia.
  apply align_unique; [lia|lia|].
  pose proof (Z.div_mod (- nlmsg_len m.1) 4).
  replace (_ + _) with (- (- nlmsg_len m.1 / 4) * 4) by lia. apply Z.mod_mul. lia.
Qed.

(** The message at the front of [nlh] is found, whatever follows it. *)
Lemma nlmsgs_cons fuel pre h p rest rem :
  nlmsg_wf (h, p) → nlmsg_len h ≤ rem →
  nlmsgs (S fuel) (pre ++ enc_hdr h ++ p ++ rest) (Z.of_nat (length pre)) rem =
  (enc_hdr h ++ p ++ rest, h) ::
  nlmsgs fuel (pre ++ enc_hdr h ++ p ++ rest) (Z.of_nat (length pre) + NLMSG_ALIGN (nlmsg_len h))
    (rem - NLMSG_ALIGN (nlmsg_len h)).
Proof.
  intros [Hwf Hlen] Hrem. simpl in *. rewrite Nat2Z.id, drop_app_length.
  assert (nlmsg_ok (enc_hdr h ++ p ++ rest) rem = true) as ->.
  { apply ok_iff. unfold NLMSG_HDRLEN in *. split; [lia|].
    exists h. split; [by apply dec_enc_hdr|lia]. }
  rewrite dec_enc_hdr by done. by rewrite next_eq.
Qed.

Lemma nlmsgs_stop fuel buf off rem : rem < NLMSG_HDRLEN → nlmsgs fuel buf off rem = [].
Proof.
  intros Hrem. destruct fuel as [|fuel]; [done|]. simpl.
  destruct (nlmsg_ok _ rem) eqn:Hok; [|done]. apply ok_iff in Hok. lia.
Qed.

Lemma nlmsg_view_front h p rest :
  nlmsg_wf (h, p) → nlmsg_view (enc_hdr h ++ p ++ rest, h) = (h, Some p).
Proof.
  intros [_ Hlen]. unfold nlmsg_view. simpl in *. f_equal.
  apply slice_app; [by rewrite length_enc_hdr|lia].
Qed.

(** A buffer with one message, as a client sends it (without padding), in
    front of any memory. *)
Lemma walk_single {K S Ev} (netlink_ack : nlmsghdr → Z → Ev)
    (receive_msg : list Z → nlmsghdr → M K S Ev Z) h p tail k s t :
  nlmsg_wf (h, p) →
  nlmsg_walk netlink_ack receive_msg (Datatypes.S (Z.to_nat (nlmsg_len h))) (enc_hdr h ++ p ++ tail) 0
    (nlmsg_len h) k s t =
  receive_one netlink_ack receive_msg (enc_hdr h ++ p ++ tail) h k s t.
Proof.
  intros Hwf. pose proof Hwf as [_ Hlen]. simpl in Hlen. unfold NLMSG_HDRLEN in Hlen.
  rewrite walk_receive_all by lia.
  pose proof (nlmsgs_cons (Z.to_nat (nlmsg_len h)) [] h p tail (nlmsg_len h) Hwf ltac:(lia)) as E.
  change (Z.of_nat (length [])) with 0 in E. rewrite !app_nil_l in E. rewrite E.
  pose proof (align_ge (nlmsg_len h)). rewrite nlmsgs_stop by (unfold NLMSG_HDRLEN; lia).
  cbn [receive_all]. unfold bind. by destruct (receive_one _ _ _ _ k s t) as [[[[]|]]].
Qed.

(** The loop's view [x] of the message [m]: its header, and the memory from
    there on, which starts with the message. *)
Definition found (x : list Z * nlmsghdr) (m : nlmsghdr * list Z) : Prop :=
  ∃ rest, x = (enc_hdr m.1 ++ m.2 ++ rest, m.1).

Lemma nlmsgs_concat_from ms pre fuel :
  Forall nlmsg_wf ms → (length (concat (nlmsg_bytes <$> ms)) ≤ fuel)%nat →
  Forall2 found
    (nlmsgs (S fuel) (pre ++ concat (nlmsg_bytes <$> ms)) (Z.of_nat (length pre))
      (Z.of_nat (length (concat (nlmsg_bytes <$> ms))))) ms.
Proof.
  intros Hms. revert pre fuel. induction Hms as [|[h p] ms Hm Hms IH]; intros pre fuel Hf.
  { by rewrite nlmsgs_stop. }
  rewrite !fmap_cons in *. cbn [concat] in *.
  pose proof (length_nlmsg_bytes _ Hm) as Hlen. simpl in Hlen.
  pose proof Hm as [Hwf Hl]. simpl in Hl. unfold NLMSG_HDRLEN in Hl.
  pose proof (align_ge (nlmsg_len h)).
  rewrite length_app in *. destruct fuel as [|fuel]; [lia|].
  assert (∀ x, pre ++ nlmsg_bytes (h, p) ++ x
    = pre ++ enc_hdr h ++ p ++ replicate (nlmsg_pad (nlmsg_len h)) 0 ++ x) as Heq.
  { intros x. unfold nlmsg_bytes. simpl. by rewrite <-!app_assoc. }
  rewrite Heq, (nlmsgs_cons (S fuel)) by (done || lia). constructor; [by eexists|].
  specialize (IH (pre ++ nlmsg_bytes (h, p)) fuel ltac:(lia)).
  rewrite <-Heq, app_assoc. rewrite length_app in IH.
  replace (_ + NLMSG_ALIGN _) with (Z.of_nat (length pre + length (nlmsg_bytes (h, p)))) by lia.
  replace (_ - NLMSG_ALIGN _) with (Z.of_nat (length (concat (nlmsg_bytes <$> ms)))) by lia.
  exact IH.
Qed.

Lemma nlmsgs_concat ms :
  Forall nlmsg_wf ms →
  let buf := concat (nlmsg_bytes <$> ms) in
  Forall2 found (nlmsgs (S (length buf)) buf 0 (Z.of_nat (length buf))) ms.
Proof. intros Hms. by apply (nlmsgs_concat_from ms [] _ Hms). Qed.

Lemma found_view xs ms :
  Forall nlmsg_wf ms → Forall2 found xs ms → nlmsg_view <$> xs = (λ m, (m.1, Some m.2)) <$> ms.
Proof.
  intros Hms Hf. induction Hf as [|x [h p] xs ms [rest ->] _ IH]; [done|].
  apply Forall_cons in Hms as [Hm Hms]. rewrite !fmap_cons. f_equal; [|auto].
  by apply nlmsg_view_front.
Qed.

(** C9: the receive loop terminates and finds exactly the messages that were
    put into the buffer.  For any list of well-formed messages, padded and
    concatenated as a sender does, and any message handler, running the loop
    is the same as handling, one after the other, messages whose headers and
    payloads are those put in. *)
Theorem nlmsg_walk_roundtrip {K S Ev} (netlink_ack : nlmsghdr → Z → Ev)
    (receive_msg : list Z → nlmsghdr → M K S Ev Z) ms :
  Forall nlmsg_wf ms →
  let buf := concat (nlmsg_bytes <$> ms) in
  ∃ xs, nlmsg_view <$> xs = (λ m, (m.1, Some m.2)) <$> ms ∧ ∀ k s t,
    nlmsg_walk netlink_ack receive_msg (Datatypes.S (length buf)) buf 0 (Z.of_nat (length buf)) k s t =
    receive_all netlink_ack receive_msg xs k s t.
Proof.
  intros Hms buf. eexists. split; [by apply found_view, nlmsgs_concat|].
  intros k s t. by apply walk_receive_all.
Qed.
End Parse.

(** ** A concrete instance

    The helpers as the netlink documentation describes them; the witnesses of
    the development run on it. *)
#[export] Instance linux_nlmsg : NlmsgApi := {|
  NLMSG_ALIGN n := Z.land (n + 3) (Z.lnot 3);
  nlmsg_ok nlh rem :=
    (NLMSG_HDRLEN <=? rem) &&
    match dec_hdr nlh with
    | Some h => (NLMSG_HDRLEN <=? nlmsg_len h) && (nlmsg_len h <=? rem)
    | None => false
    end;
  nlmsg_next h off rem :=
    let n := Z.land (nlmsg_len h + 3) (Z.lnot 3) in (off + n, rem - n);
|}.

Lemma align4 n : Z.land (n + 3) (Z.lnot 3) = (n + 3) / 4 * 4.
Proof.
  rewrite <-Z.ldiff_land. change 3 with (Z.ones 2) at 2.
  rewrite Z.ldiff_ones_r by lia. rewrite Z.shiftr_div_pow2, Z.shiftl_mul_pow2 by lia. done.
Qed.

#[export] Instance linux_nlmsg_laws : NlmsgLaws.
Proof.
  split; unfold NLMSG_ALIGNTO; simpl; intros.
  1-3: rewrite align4; pose proof (Z.div_mod (n + 3) 4); pose proof (Z.mod_pos_bound (n + 3) 4).
  - lia.
  - lia.
  - apply Z.mod_mul. lia.
  - rewrite andb_true_iff, Z.leb_le. destruct (dec_hdr nlh) as [h|].
    + rewrite andb_true_iff, !Z.leb_le. split; [intros (? & ? & ?); eauto|].
      intros (? & h' & ? & ?). simplify_eq. lia.
    + split; [by intros []|]. by intros (_ & h & ? & _).
  - done.
Qed.

Definition demo_msgs : list (nlmsghdr * list Z) :=
  [(MkHdr 19 0 4 1 42, [104; 105; 0]); (MkHdr 20 1 0 2 42, [98; 121; 101; 0])].

Lemma demo_msgs_wf : Forall nlmsg_wf demo_msgs.
Proof. repeat constructor; simpl; lia. Qed.

Lemma nlmsg_walk_roundtrip_witness :
  let buf := concat (nlmsg_bytes <$> demo_msgs) in
  ∃ xs, nlmsg_view <$> xs = (λ m, (m.1, Some m.2)) <$> demo_msgs ∧ ∀ k s t,
    nlmsg_walk (K:=unit) (S:=unit) pair (λ _ h, ret (nlmsg_type h)) (S (length buf)) buf 0
      (Z.of_nat (length buf)) k s t =
    receive_all pair (λ _ h, ret (nlmsg_type h)) xs k s t.
Proof.
  exact (nlmsg_walk_roundtrip pair (λ _ h, ret (nlmsg_type h)) demo_msgs demo_msgs_wf).
Defined.
