(* ===== verification/UserTab.v ===== *)
(** * The table of registered clients ([src/netlink/netlink.c])

    [usrtab] is an array of 32 slots, [usrcnt] counts the registered clients.
    The abstract specification is a multiset of pids of bounded size;
    [user_join] and [user_leave] refine its insertion and removal.  The bound
    is 32 minus the drift of [usrcnt]: [delete_all_user] empties the table but
    not the counter, and a client with pid 0 is counted but not stored. *)

From S2P Require Import Prelude.

Record usrconf := MkUsr { pid : Z; cmd : Z }.

#[global] Instance usrconf_eq_dec : EqDecision usrconf.
Proof. solve_decision. Defined.

Definition MAX_TAB_SIZE : nat := 32.

Record usertab := MkTab { usrcnt : Z; usrtab : list usrconf }.

(** ** Operations *)

(** [usertab_init]: the loop writes every slot; [usrcnt] is not touched. *)
Fixpoint usertab_init_loop (n i : nat) (tab : list usrconf) : option (list usrconf) :=
  match n with
  | O => Some tab
  | S n =>
      match tab !! i with
      | Some _ => usertab_init_loop n (S i) (<[i := MkUsr 0 0]> tab)
      | None => None
      end
  end.

Definition usertab_init (u : usertab) : option usertab :=
  tab ← usertab_init_loop MAX_TAB_SIZE 0 (usrtab u); Some (MkTab (usrcnt u) tab).

Definition delete_all_user (u : usertab) : option usertab := usertab_init u.

(** The search loops of [user_leave] and [user_join]: slot [i] is tested
    against [key]; the first match gets [new] as its pid.  [None] stands for
    an access outside the array. *)
Fixpoint slot_loop (n i : nat) (key new : Z) (tab : list usrconf) : option (option (list usrconf)) :=
  match n with
  | O => Some None
  | S n =>
      match tab !! i with
      | Some c =>
          if pid c =? key then Some (Some (<[i := MkUsr new (cmd c)]> tab))
          else slot_loop n (S i) key new tab
      | None => None
      end
  end.

Definition user_leave (p : Z) (u : usertab) : option (Z * usertab) :=
  if usrcnt u <=? 0 then Some (0, u) else
  r ← slot_loop MAX_TAB_SIZE 0 p 0 (usrtab u);
  match r with
  | Some tab => Some (1, MkTab (s32 (usrcnt u - 1)) tab)
  | None => Some (0, u)
  end.

Definition user_join (p : Z) (u : usertab) : option (Z * usertab) :=
  if Z.of_nat MAX_TAB_SIZE <=? usrcnt u then Some (0, u) else
  r ← slot_loop MAX_TAB_SIZE 0 0 p (usrtab u);
  match r with
  | Some tab => Some (1, MkTab (s32 (usrcnt u + 1)) tab)
  | None => Some (0, u)
  end.

(** ** Abstraction and invariant *)

Definition live (p : Z) : bool := negb (p =? 0).

(** The registered pids, in slot order. *)
Definition pids (tab : list usrconf) : list Z := filter live (pid <$> tab).

(** The multiset of registered clients. *)
Definition clients (u : usertab) : gmultiset Z := list_to_set_disj (pids (usrtab u)).

(** The counter exceeds the number of occupied slots by the drift [d]; a
    table that was only used through [user_join] and [user_leave] with nonzero
    pids has drift 0. *)
Record tab_ok (d : nat) (u : usertab) : Prop := {
  tab_size : length (usrtab u) = MAX_TAB_SIZE;
  tab_count : usrcnt u = Z.of_nat (length (pids (usrtab u)) + d);
  tab_bound : (length (pids (usrtab u)) + d ≤ MAX_TAB_SIZE)%nat;
}.

(** ** The search loop *)

Lemma slot_loop_spec n i key new tab :
  (i + n = length tab)%nat →
  slot_loop n i key new tab =
  Some ((λ jc : nat * usrconf, <[(i + jc.1)%nat := MkUsr new (cmd jc.2)]> tab) <$>
    list_find (λ c, pid c = key) (drop i tab)).
Proof.
  revert i. induction n as [|n IH]; intros i Hi; simpl.
  { rewrite drop_ge by lia. done. }
  destruct (lookup_lt_is_Some_2 tab i) as [c Hc]; [lia|]. rewrite Hc, (drop_S _ c) by done.
  simpl. destruct (pid c =? key) eqn:Hk; zbool.
  - rewrite decide_True by done. simpl. by rewrite Nat.add_0_r.
  - rewrite decide_False by done. rewrite IH by lia.
    destruct (list_find _ _) as [[j d]|]; [|done]. simpl. do 3 f_equal. lia.
Qed.

Lemma slot_loop_length n i key new tab tab' :
  slot_loop n i key new tab = Some (Some tab') → length tab' = length tab.
Proof.
  revert i. induction n as [|n IH]; intros i; simpl; [done|].
  destruct (tab !! i) as [c|]; [|done]. destruct (pid c =? key); [|apply IH].
  intros. simplify_eq. apply length_insert.
Qed.

(** The array keeps its size under both operations, whatever the pid. *)
Lemma user_join_length p u r u' :
  user_join p u = Some (r, u') → length (usrtab u') = length (usrtab u).
Proof.
  unfold user_join. destruct (_ <=? _); [by intros; simplify_eq|].
  destruct (slot_loop _ _ _ _ _) as [[tab|]|] eqn:E; [|by intros [= <- <-]|done].
  intros [= <- <-]. exact (slot_loop_length _ _ _ _ _ _ E).
Qed.

Lemma user_leave_length p u r u' :
  user_leave p u = Some (r, u') → length (usrtab u') = length (usrtab u).
Proof.
  unfold user_leave. destruct (_ <=? _); [by intros; simplify_eq|].
  destruct (slot_loop _ _ _ _ _) as [[tab|]|] eqn:E; [|by intros [= <- <-]|done].
  intros [= <- <-]. exact (slot_loop_length _ _ _ _ _ _ E).
Qed.

Lemma pids_insert tab i c new :
  tab !! i = Some c →
  pids (<[i := MkUsr new (cmd c)]> tab) =
  pids (take i tab) ++ (if live new then [new] else []) ++ pids (drop (S i) tab).
Proof.
  intros Hc. pose proof (lookup_lt_Some _ _ _ Hc) as Hlt.
  rewrite insert_take_drop by done. unfold pids.
  rewrite fmap_app, filter_app, fmap_cons, filter_cons.
  f_equal. simpl. destruct (live new); [|done]. done.
Qed.

Lemma pids_split tab i c :
  tab !! i = Some c →
  pids tab = pids (take i tab) ++ (if live (pid c) then [pid c] else []) ++ pids (drop (S i) tab).
Proof.
  intros Hc. rewrite <-(pids_insert tab i c (pid c)) by done.
  f_equal. symmetry. destruct c. by apply list_insert_id.
Qed.

Lemma pids_length tab : (length (pids tab) ≤ length tab)%nat.
Proof. unfold pids. rewrite length_filter, length_fmap. done. Qed.

Lemma pids_full tab :
  Forall (λ c, ¬ pid c = 0) tab → length (pids tab) = length tab.
Proof.
  induction 1 as [|c tab Hc _ IH]; [done|]. unfold pids in *. rewrite fmap_cons, filter_cons.
  rewrite decide_True; [simpl; by rewrite IH|]. unfold live. by apply Z.eqb_neq in Hc as ->.
Qed.

Lemma pids_In tab p : p ≠ 0 → p ∈ pids tab ↔ ∃ c, c ∈ tab ∧ pid c = p.
Proof.
  intros Hp. unfold pids. rewrite list_elem_of_filter, list_elem_of_fmap. unfold live.
  rewrite (proj2 (Z.eqb_neq p 0) Hp). split; [intros (_ & c & -> & Hc)|intros (c & Hc & <-)]; eauto.
Qed.

(** ** The abstract specification: a bounded multiset of pids *)

Definition bag_join (cap : nat) (p : Z) (X : gmultiset Z) : Z * gmultiset Z :=
  if decide (size X < cap)%nat then (1, {[+ p +]} ⊎ X) else (0, X).

Definition bag_leave (p : Z) (X : gmultiset Z) : Z * gmultiset Z :=
  if decide (p ∈ X) then (1, X ∖ {[+ p +]}) else (0, X).

Inductive tab_op := Join (p : Z) | Leave (p : Z).

Definition op_pid (o : tab_op) : Z := match o with Join p | Leave p => p end.

Definition tab_do (o : tab_op) (u : usertab) : option (Z * usertab) :=
  match o with Join p => user_join p u | Leave p => user_leave p u end.

Definition bag_do (cap : nat) (o : tab_op) (X : gmultiset Z) : Z * gmultiset Z :=
  match o with Join p => bag_join cap p X | Leave p => bag_leave p X end.

(** A sequence of operations with the results they return. *)
Fixpoint tab_run (os : list tab_op) (u : usertab) : option (list Z * usertab) :=
  match os with
  | [] => Some ([], u)
  | o :: os =>
      r ← tab_do o u; rs ← tab_run os r.2; Some (r.1 :: rs.1, rs.2)
  end.

Fixpoint bag_run (cap : nat) (os : list tab_op) (X : gmultiset Z) : list Z * gmultiset Z :=
  match os with
  | [] => ([], X)
  | o :: os => let r := bag_do cap o X in let rs := bag_run cap os r.2 in (r.1 :: rs.1, rs.2)
  end.

(** ** Refinement *)

Lemma size_list_to_set_disj (l : list Z) : size (list_to_set_disj l : gmultiset Z) = length l.
Proof.
  induction l as [|x l IH]; [done|].
  by rewrite list_to_set_disj_cons, gmultiset_size_disj_union, gmultiset_size_singleton, IH.
Qed.

Lemma clients_size u : size (clients u) = length (pids (usrtab u)).
Proof. apply size_list_to_set_disj. Qed.

Lemma clients_elem u p : p ∈ clients u ↔ p ∈ pids (usrtab u).
Proof. unfold clients. by rewrite elem_of_list_to_set_disj. Qed.

(** The slot search finds the first slot holding [key]. *)
Lemma slot_search key new u :
  length (usrtab u) = MAX_TAB_SIZE →
  slot_loop MAX_TAB_SIZE 0 key new (usrtab u) =
  Some ((λ jc : nat * usrconf, <[jc.1 := MkUsr new (cmd jc.2)]> (usrtab u)) <$>
    list_find (λ c, pid c = key) (usrtab u)).
Proof. intros Hlen. rewrite slot_loop_spec by lia. by rewrite drop_0. Qed.

Lemma live_true p : p ≠ 0 → live p = true.
Proof. intros Hp. unfold live. by rewrite (proj2 (Z.eqb_neq p 0) Hp). Qed.

(** [user_join] with any pid: refused when the counter is at its limit,
    otherwise stored in the first free slot. *)
Lemma user_join_cases d p u :
  tab_ok d u →
  (length (pids (usrtab u)) + d = MAX_TAB_SIZE)%nat ∧ user_join p u = Some (0, u) ∨
  (length (pids (usrtab u)) + d < MAX_TAB_SIZE)%nat ∧ ∃ l r tab,
    user_join p u = Some (1, MkTab (usrcnt u + 1) tab) ∧ length tab = MAX_TAB_SIZE ∧
    pids (usrtab u) = l ++ r ∧ pids tab = l ++ (if live p then [p] else []) ++ r.
Proof.
  intros [Hsz Hc Hb]. unfold user_join, MAX_TAB_SIZE in *.
  destruct (Z.of_nat 32 <=? usrcnt u) eqn:Hfull; zbool; [left; split; [lia|done]|right].
  split; [lia|]. change 32%nat with MAX_TAB_SIZE. rewrite slot_search by done.
  destruct (list_find _ _) as [[j c]|] eqn:Hfind; simpl.
  - apply list_find_Some in Hfind as (Hj & Hz & _).
    pose proof (pids_split _ _ _ Hj) as Hsp. rewrite Hz in Hsp.
    eexists _, _, _. rewrite s32_small by lia.
    split_and!; [done|by rewrite length_insert|exact Hsp|by apply pids_insert].
  - apply list_find_None in Hfind. pose proof (pids_full _ Hfind). lia.
Qed.

Lemma user_join_refines d p u :
  p ≠ 0 → tab_ok d u →
  ∃ r u', user_join p u = Some (r, u') ∧ tab_ok d u' ∧
    bag_join (MAX_TAB_SIZE - d) p (clients u) = (r, clients u').
Proof.
  intros Hp Hok. unfold bag_join. rewrite clients_size.
  destruct (user_join_cases d p u Hok) as [[Hb ->]|(Hb & l & r & tab & -> & Hlen & Hold & Hnew)].
  { exists 0, u. rewrite decide_False by lia. done. }
  rewrite live_true in Hnew by done. rewrite decide_True by lia.
  exists 1, (MkTab (usrcnt u + 1) tab). destruct Hok as [_ Hc _]. rewrite Hold in Hb, Hc.
  rewrite length_app in Hb, Hc. split_and!; [done| |].
  - split; simpl; rewrite ?Hnew, ?length_app; simpl; [done|lia|lia].
  - unfold clients. simpl. rewrite Hnew, Hold, !list_to_set_disj_app. f_equal.
    rewrite list_to_set_disj_cons, list_to_set_disj_nil. multiset_solver.
Qed.

Lemma user_leave_refines d p u :
  p ≠ 0 → tab_ok d u →
  ∃ r u', user_leave p u = Some (r, u') ∧ tab_ok d u' ∧ bag_leave p (clients u) = (r, clients u').
Proof.
  intros Hp Hok. pose proof Hok as [Hsz Hc Hb]. unfold user_leave, bag_leave, MAX_TAB_SIZE in *.
  destruct (usrcnt u <=? 0) eqn:Hz; zbool.
  { exists 0, u. rewrite decide_False; [done|]. rewrite clients_elem.
    destruct (pids (usrtab u)); [|simpl in Hc; lia]. apply not_elem_of_nil. }
  change 32%nat with MAX_TAB_SIZE. rewrite slot_search by done.
  destruct (list_find _ _) as [[j c]|] eqn:Hfind; simpl.
  - apply list_find_Some in Hfind as (Hj & Hk & _).
    pose proof (pids_insert _ _ _ 0 Hj) as Hins. pose proof (pids_split _ _ _ Hj) as Hsp.
    rewrite Hk, live_true in Hsp by done. simpl in Hins.
    rewrite decide_True by (rewrite clients_elem, Hsp; set_solver).
    eexists 1, _. rewrite s32_small by lia. rewrite Hsp, !length_app in Hc, Hb. simpl in Hc, Hb.
    split_and!; [done| |].
    + split; simpl; rewrite ?length_insert, ?Hins, ?length_app; unfold MAX_TAB_SIZE; lia.
    + unfold clients. simpl. rewrite Hins, Hsp, !list_to_set_disj_app, list_to_set_disj_cons.
      f_equal. rewrite list_to_set_disj_nil. multiset_solver.
  - apply list_find_None in Hfind. rewrite decide_False; [by exists 0, u|].
    rewrite clients_elem, pids_In by done. intros (c & Hin & Hpc).
    by apply (proj1 (Forall_forall _ _) Hfind c).
Qed.

Lemma tab_do_refines d o u :
  op_pid o ≠ 0 → tab_ok d u →
  ∃ r u', tab_do o u = Some (r, u') ∧ tab_ok d u' ∧
    bag_do (MAX_TAB_SIZE - d) o (clients u) = (r, clients u').
Proof. destruct o as [p|p]; [apply (user_join_refines d p)|apply (user_leave_refines d p)]. Qed.

(** On an array of the declared size the operations never leave it. *)
Lemma user_join_total p u :
  length (usrtab u) = MAX_TAB_SIZE → ∃ r u', user_join p u = Some (r, u').
Proof.
  intros Hlen. unfold user_join. destruct (_ <=? _); [by eauto|].
  rewrite slot_search by done. by destruct (list_find _ _) as [[]|]; simpl; eauto.
Qed.

Lemma user_leave_total p u :
  length (usrtab u) = MAX_TAB_SIZE → ∃ r u', user_leave p u = Some (r, u').
Proof.
  intros Hlen. unfold user_leave. destruct (_ <=? _); [by eauto|].
  rewrite slot_search by done. by destruct (list_find _ _) as [[]|]; simpl; eauto.
Qed.

(** ** [delete_all_user] and pid 0 *)

Lemma usertab_init_loop_spec n i tab :
  (i + n = length tab)%nat →
  usertab_init_loop n i tab = Some (take i tab ++ replicate n (MkUsr 0 0)).
Proof.
  revert i tab. induction n as [|n IH]; intros i tab Hi; simpl.
  { by rewrite take_ge, app_nil_r by lia. }
  destruct (lookup_lt_is_Some_2 tab i) as [c Hc]; [lia|]. rewrite Hc, IH by (rewrite length_insert; lia).
  f_equal. rewrite (take_S_r _ i (MkUsr 0 0)) by (apply list_lookup_insert_eq; lia).
  rewrite take_insert_ge by lia. by rewrite <-app_assoc.
Qed.

Lemma pids_blank n : pids (replicate n (MkUsr 0 0)) = [].
Proof. by induction n. Qed.

Lemma usertab_init_spec u :
  length (usrtab u) = MAX_TAB_SIZE →
  ∃ u', usertab_init u = Some u' ∧ usrcnt u' = usrcnt u ∧ clients u' = ∅ ∧
    usrtab u' = replicate MAX_TAB_SIZE (MkUsr 0 0).
Proof.
  intros Hsz. unfold usertab_init. rewrite usertab_init_loop_spec by (by rewrite Hsz).
  rewrite take_0. exists (MkTab (usrcnt u) (replicate MAX_TAB_SIZE (MkUsr 0 0))).
  split_and!; [done|done| |done]. unfold clients. cbn [usrtab]. by rewrite pids_blank.
Qed.

Lemma delete_all_user_spec d u :
  tab_ok d u →
  ∃ u', delete_all_user u = Some u' ∧ usrcnt u' = usrcnt u ∧ clients u' = ∅ ∧
    tab_ok (length (pids (usrtab u)) + d) u'.
Proof.
  intros [Hsz Hc Hb]. destruct (usertab_init_spec u Hsz) as (u' & Hi & Hcnt & Hemp & Htab).
  exists u'. split_and!; [done|done|done|].
  split; rewrite Htab, ?pids_blank; [by rewrite length_replicate|simpl; lia|simpl; lia].
Qed.

Lemma tab_run_refines d os u :
  tab_ok d u → Forall (λ o, op_pid o ≠ 0) os →
  ∃ rs u', tab_run os u = Some (rs, u') ∧ tab_ok d u' ∧
    bag_run (MAX_TAB_SIZE - d) os (clients u) = (rs, clients u').
Proof.
  intros Hok Hos. revert u Hok. induction Hos as [|o os Ho _ IH]; intros u Hok.
  { by exists [], u. }
  destruct (tab_do_refines d o u Ho Hok) as (r & u1 & Heq & Hok1 & Hbag).
  destruct (IH u1 Hok1) as (rs & u2 & Heq2 & Hok2 & Hbag2).
  exists (r :: rs), u2. cbn [tab_run bag_run]. rewrite Heq, Hbag. simpl. by rewrite Heq2, Hbag2.
Qed.

(** ** Properties *)

(** C4: a table cleared by [usertab_init] with its counter at 0 (as at module
    load) implements a multiset of at most 32 clients: any sequence of
    registrations and departures with nonzero pids stays inside the array,
    returns exactly the results the multiset returns, and ends with the
    counter equal to the number of clients and the same clients. *)
Theorem usertab_refines_bag os u :
  length (usrtab u) = MAX_TAB_SIZE → usrcnt u = 0 → Forall (λ o, op_pid o ≠ 0) os →
  ∃ u0 rs u', usertab_init u = Some u0 ∧ tab_run os u0 = Some (rs, u') ∧
    usrcnt u' = Z.of_nat (size (clients u')) ∧ bag_run MAX_TAB_SIZE os ∅ = (rs, clients u').
Proof.
  intros Hlen Hcnt Hos. destruct (usertab_init_spec u Hlen) as (u0 & Hinit & Hcnt0 & Hemp & Htab).
  assert (tab_ok 0 u0) as Hok.
  { split; rewrite Htab, ?pids_blank; [done|by rewrite Hcnt0|unfold MAX_TAB_SIZE; simpl; lia]. }
  destruct (tab_run_refines 0 os u0 Hok Hos) as (rs & u' & Hrun & [_ Hc _] & Hbag).
  exists u0, rs, u'. rewrite Hemp in Hbag. rewrite clients_size. split_and!; [done|done|lia|done].
Qed.

Definition demo_ops : list tab_op := [Join 7; Join 9; Leave 7; Leave 7].

Definition usertab0 : usertab := MkTab 0 (replicate MAX_TAB_SIZE (MkUsr 0 0)).

Lemma usertab0_ok : tab_ok 0 usertab0.
Proof. split; vm_compute; lia. Qed.

Lemma usertab_refines_bag_witness :
  ∃ u0 rs u', usertab_init usertab0 = Some u0 ∧ tab_run demo_ops u0 = Some (rs, u') ∧
    usrcnt u' = Z.of_nat (size (clients u')) ∧ bag_run MAX_TAB_SIZE demo_ops ∅ = (rs, clients u').
Proof.
  refine (usertab_refines_bag demo_ops usertab0 eq_refl eq_refl _).
  repeat constructor; discriminate.
Defined.

(** C39: [delete_all_user] (called when a client has gone away) empties the
    table but keeps the counter, so every client that was registered costs one
    slot for good: from then on the table behaves like a multiset bounded by
    the number of slots that were free.  After deleting 32 clients every later
    registration is refused although the table is empty. *)
Theorem delete_all_user_shrinks u os :
  tab_ok 0 u → Forall (λ o, op_pid o ≠ 0) os →
  ∃ u1 rs u2, delete_all_user u = Some u1 ∧ clients u1 = ∅ ∧ tab_run os u1 = Some (rs, u2) ∧
    bag_run (MAX_TAB_SIZE - size (clients u)) os ∅ = (rs, clients u2).
Proof.
  intros Hok Hos. destruct (delete_all_user_spec 0 u Hok) as (u1 & Hdel & _ & Hemp & Hok1).
  rewrite Nat.add_0_r in Hok1.
  destruct (tab_run_refines _ os u1 Hok1 Hos) as (rs & u2 & Hrun & _ & Hbag).
  exists u1, rs, u2. rewrite clients_size. by rewrite Hemp in Hbag.
Qed.

Definition full_tab : usertab := MkTab 32 (replicate 32 (MkUsr 5 0)).

Lemma full_tab_ok : tab_ok 0 full_tab.
Proof. split; vm_compute; lia. Qed.

(** On a full table: three registrations, all refused. *)
Lemma delete_all_user_shrinks_witness :
  (∃ u1 rs u2, delete_all_user full_tab = Some u1 ∧ clients u1 = ∅ ∧
    tab_run [Join 7; Join 8; Join 9] u1 = Some (rs, u2) ∧
    bag_run (MAX_TAB_SIZE - size (clients full_tab)) [Join 7; Join 8; Join 9] ∅ = (rs, clients u2)) ∧
  (u1 ← delete_all_user full_tab; r ← tab_run [Join 7; Join 8; Join 9] u1; Some r.1) = Some [0; 0; 0].
Proof.
  split; [|vm_compute; reflexivity].
  refine (delete_all_user_shrinks full_tab [Join 7; Join 8; Join 9] full_tab_ok _).
  repeat constructor; discriminate.
Defined.

(** A registration with pid 0 is answered with success and counted, but
    occupies no slot: the set of clients is unchanged and the capacity of the
    table shrinks by one. *)
Theorem user_join_pid_zero d u :
  tab_ok d u → (length (pids (usrtab u)) + d < MAX_TAB_SIZE)%nat →
  ∃ u', user_join 0 u = Some (1, u') ∧ clients u' = clients u ∧ tab_ok (S d) u'.
Proof.
  intros Hok Hlt. destruct (user_join_cases d 0 u Hok) as [[Hb _]|(Hb & l & r & tab & -> & Hlen & Hold & Hnew)].
  { lia. }
  eexists. split; [done|]. destruct Hok as [_ Hc _]. simpl in Hnew.
  split; [unfold clients; simpl; by rewrite Hnew, Hold|].
  split; simpl; rewrite ?Hnew, <-?Hold; [done|lia|lia].
Qed.

Lemma user_join_pid_zero_witness :
  ∃ u', user_join 0 usertab0 = Some (1, u') ∧ clients u' = clients usertab0 ∧ tab_ok 1 u'.
Proof. refine (user_join_pid_zero 0 usertab0 usertab0_ok _). vm_compute. lia. Defined.
