(* ===== verification/RateCheck.v ===== *)
(** * The capture rate limiter ([cap_rate_check] of [src/netlink/netlink.c])

    The two function-local statics are the limiter's state.  [jiffies] and
    [HZ] come from the kernel, [unsigned long] is [W] bits wide. *)

From S2P Require Import Prelude.

Record rate := MkRate {
  last_check : Z;   (* static unsigned long *)
  packets : Z;      (* static int *)
}.

Definition rate0 : rate := MkRate 0 0.

Section Limiter.
Context (W HZ : Z).

(** [++packets < cap_rate_limit] compares as [u32]; [elapsed] wraps at the
    width of [unsigned long]. *)
Definition cap_rate_check (cap_rate_limit jiffies : Z) (r : rate) : Z * rate :=
  if cap_rate_limit =? 0 then (1, r) else
  let p := s32 (packets r + 1) in
  if u32 p <? cap_rate_limit then (1, MkRate (last_check r) p) else
  let elapsed := (jiffies - last_check r) mod 2 ^ W in
  if HZ <? elapsed then (1, MkRate jiffies 0) else (0, MkRate (last_check r) p).

(** A sequence of calls at the given times, with their answers. *)
Fixpoint rate_run (limit : Z) (nows : list Z) (r : rate) : list Z * rate :=
  match nows with
  | [] => ([], r)
  | now :: nows =>
      let a := cap_rate_check limit now r in
      let rest := rate_run limit nows a.2 in (a.1 :: rest.1, rest.2)
  end.

(** The number of packets let through. *)
Definition passed (answers : list Z) : Z := foldr Z.add 0 answers.

(** Times that do not run backwards and stay below [tend]. *)
Fixpoint mono (lo : Z) (nows : list Z) (tend : Z) : Prop :=
  match nows with
  | [] => lo ≤ tend
  | now :: nows => lo ≤ now ∧ mono now nows tend
  end.

Lemma mono_le lo nows tend : mono lo nows tend → lo ≤ tend.
Proof. revert lo. induction nows as [|now nows IH]; simpl; [done|]. intros lo [? ?%IH]. lia. Qed.

(** One call, without wrap-around. *)
Lemma rate_check_cases limit now r :
  0 < limit < 2 ^ 32 → 0 ≤ packets r → packets r + 1 < 2 ^ 31 →
  0 ≤ last_check r ≤ now → now < 2 ^ W →
  let p := packets r + 1 in
  p < limit ∧ cap_rate_check limit now r = (1, MkRate (last_check r) p) ∨
  limit ≤ p ∧ HZ < now - last_check r ∧ cap_rate_check limit now r = (1, MkRate now 0) ∨
  limit ≤ p ∧ now - last_check r ≤ HZ ∧ cap_rate_check limit now r = (0, MkRate (last_check r) p).
Proof.
  intros Hl Hp Hp' Hlc Hnow p. unfold cap_rate_check.
  rewrite (proj2 (Z.eqb_neq limit 0)) by lia. rewrite s32_small by lia. fold p.
  rewrite u32_small by lia. rewrite Z.mod_small by lia.
  destruct (p <? limit) eqn:?; zbool; [by left|right].
  destruct (HZ <? _) eqn:?; zbool; [by left|by right].
Qed.

(** The budget that is left: one full quota for every period that can still
    end before [tend], and what the running period has not used. *)
Definition budget (limit tend : Z) (r : rate) : Z :=
  limit * ((tend - last_check r) / (HZ + 1)) + Z.max 0 (limit - 1 - packets r).

Lemma budget_reset limit tend now r :
  0 < limit → 0 ≤ HZ → HZ < now - last_check r → now ≤ tend →
  1 + budget limit tend (MkRate now 0) ≤ budget limit tend r.
Proof.
  intros Hl HH He Hn. unfold budget. simpl.
  assert ((tend - now) / (HZ + 1) + 1 ≤ (tend - last_check r) / (HZ + 1)).
  { rewrite <-Z.div_add by lia. apply Z.div_le_mono; lia. }
  nia.
Qed.

Lemma rate_run_budget limit nows lo tend r :
  0 < limit < 2 ^ 32 → 0 ≤ HZ → tend < 2 ^ W → 0 ≤ last_check r ≤ lo → mono lo nows tend →
  0 ≤ packets r → packets r + Z.of_nat (length nows) < 2 ^ 31 →
  passed (rate_run limit nows r).1 ≤ budget limit tend r.
Proof.
  intros Hl HH HW. revert lo r. induction nows as [|now nows IH]; intros lo r Hlc Hm Hp Hlen.
  { simpl in *. unfold budget. assert (0 ≤ (tend - last_check r) / (HZ + 1)) by (apply Z.div_pos; lia). nia. }
  destruct Hm as [Hlo Hm]. pose proof (mono_le _ _ _ Hm). simpl length in Hlen.
  cbn [rate_run]. unfold passed. simpl.
  change (foldr Z.add 0 ?l) with (passed l).
  destruct (rate_check_cases limit now r) as [(Hlt & ->)|[(Hge & He & ->)|(Hge & He & ->)]]; try lia; simpl.
  - pose proof (IH now (MkRate (last_check r) (packets r + 1)) ltac:(simpl; lia) Hm
      ltac:(simpl; lia) ltac:(simpl; lia)).
    assert (budget limit tend (MkRate (last_check r) (packets r + 1)) + 1 ≤ budget limit tend r).
    { unfold budget. simpl. lia. }
    lia.
  - pose proof (IH now (MkRate now 0) ltac:(simpl; lia) Hm ltac:(simpl; lia) ltac:(simpl; lia)).
    pose proof (budget_reset limit tend now r). lia.
  - pose proof (IH now (MkRate (last_check r) (packets r + 1)) ltac:(simpl; lia) Hm
      ltac:(simpl; lia) ltac:(simpl; lia)).
    assert (budget limit tend (MkRate (last_check r) (packets r + 1)) ≤ budget limit tend r).
    { unfold budget. simpl. lia. }
    lia.
Qed.

(** C12: the limiter enforces its rate.  With a nonzero limit, over calls made
    at non-decreasing times up to [tend] (before [jiffies] wraps), at most
    [limit] packets pass for every full second since [last_check], plus fewer
    than [limit] in the current one. *)
Theorem rate_limit_enforced limit nows lo tend r :
  0 < limit < 2 ^ 32 → 0 ≤ HZ → tend < 2 ^ W → 0 ≤ last_check r ≤ lo → mono lo nows tend →
  packets r = 0 → Z.of_nat (length nows) < 2 ^ 31 →
  passed (rate_run limit nows r).1 ≤
    limit * ((tend - last_check r) / (HZ + 1)) + (limit - 1).
Proof.
  intros Hl HH HW Hlc Hm Hp Hlen.
  pose proof (rate_run_budget limit nows lo tend r Hl HH HW Hlc Hm ltac:(lia) ltac:(lia)) as Hb.
  unfold budget in Hb.
  rewrite Hp in Hb. lia.
Qed.

(** Inside one period (no more than [HZ] ticks after [last_check], with
    nothing counted yet) exactly the first [limit - 1] packets pass and every
    later one is refused. *)
Theorem rate_window_exact limit nows r :
  0 < limit < 2 ^ 32 → 0 ≤ last_check r → packets r = 0 → Z.of_nat (length nows) < 2 ^ 31 →
  Forall (λ now, last_check r ≤ now ≤ last_check r + HZ ∧ now < 2 ^ W) nows →
  let n := Nat.min (length nows) (Z.to_nat (limit - 1)) in
  (rate_run limit nows r).1 = replicate n 1 ++ replicate (length nows - n) 0.
Proof.
  intros Hl Hlc Hp Hlen Hw. simpl.
  enough (∀ p, 0 ≤ p → p + Z.of_nat (length nows) < 2 ^ 31 →
    let n := Nat.min (length nows) (Z.to_nat (limit - 1 - p)) in
    (rate_run limit nows (MkRate (last_check r) p)).1 = replicate n 1 ++ replicate (length nows - n) 0)
    as Hgen.
  { specialize (Hgen 0). rewrite Z.sub_0_r in Hgen. destruct r as [lc pk]. simpl in *. subst pk.
    apply Hgen; lia. }
  clear Hlen Hp. induction Hw as [|now nows [Hnow HnowW] _ IH]; intros p Hp Hlen; [done|].
  simpl length in *. cbn [rate_run].
  destruct (rate_check_cases limit now (MkRate (last_check r) p)) as [(Hlt & ->)|[(Hge & He & ->)|(Hge & He & ->)]];
    simpl in *; try lia.
  - rewrite IH by lia.
    replace (Z.to_nat (limit - 1 - p)) with (S (Z.to_nat (limit - 1 - (p + 1)))) by lia. done.
  - rewrite IH by lia. replace (Z.to_nat (limit - 1 - p)) with 0%nat by lia.
    replace (Z.to_nat (limit - 1 - (p + 1))) with 0%nat by lia.
    rewrite !Nat.min_0_r, Nat.sub_0_r. done.
Qed.
End Limiter.

(** Ten calls within three seconds at a limit of two per second. *)
Lemma rate_limit_enforced_witness :
  passed (rate_run 32 100 2 [10; 20; 30; 110; 120; 130; 220; 230; 240; 250] rate0).1 ≤
    2 * ((250 - 0) / 101) + 1 ∧
  passed (rate_run 32 100 2 [10; 20; 30; 110; 120; 130; 220; 230; 240; 250] rate0).1 = 5.
Proof.
  split; [|vm_compute; reflexivity].
  refine (rate_limit_enforced 32 100 2 _ 0 250 rate0 _ _ _ _ _ _ _); simpl; lia.
Defined.

Lemma rate_window_exact_witness :
  (rate_run 32 100 3 [10; 20; 30; 40] rate0).1 = [1; 1; 0; 0].
Proof.
  refine (rate_window_exact 32 100 3 [10; 20; 30; 40] rate0 _ _ _ _ _); simpl; try lia.
  repeat constructor; simpl; lia.
Defined.
