(* ===== verification/CapState.v ===== *)
(** * State and kernel interface of the capture module ([src/netlink/netlink.c])

    The module's globals are the record [cap_state].  The kernel services it
    calls are the record [cap_kernel] of functions and the class [KLists] of
    list and queue operations; what the kernel documents about them is
    [cap_laws] and [KListsLaws]. *)

From S2P Require Import Prelude Bytes Nlmsg UserTab RateCheck.

(** ** Data *)

(** A socket buffer the module builds: its identity, the bytes reserved for
    the message, the netlink header once [nlmsg_put] has written one, the
    payload area behind the header and [skb->len]. *)
Record sk_buff := MkSkb {
  sk_id : Z;
  sk_room : Z;
  sk_hdr : option nlmsghdr;
  sk_payload : list Z;
  sk_len : Z;
}.

(** A packet handed to the netfilter hook: the linear bytes at [skb->data] and
    the number of bytes it has in page fragments. *)
Record packet := MkPkt { pk_data : list Z; pk_paged : nat }.

(** [skb->len] counts both. *)
Definition pk_len (pkt : packet) : Z := Z.of_nat (length (pk_data pkt) + pk_paged pkt).

(** [struct cap_buffer] without its list linkage ([data] is a pointer, 0 for
    NULL). *)
Record cap_buffer := MkCb { cb_skb : option sk_buff; cb_data : Z; cb_gfp : Z }.

Definition CAP_ADD : Z := 0.
Definition CAP_DEL : Z := 1.
Definition CAP_PACKET : Z := 2.
Definition CAP_GET_PACKET : Z := 3.

Definition MAX_SKB_BUFSIZE : Z := 2000.
Definition CAP_MAXFREE : Z := 1024.
Definition NF_ACCEPT : Z := 1.
Definition GFP_KERNEL : Z := 208.

(** ** Kernel lists and queues *)

(** [struct list_head] of capture buffers (by address) and
    [struct sk_buff_head]. *)
Class KLists := {
  lh : Type;
  INIT_LIST_HEAD : lh;
  list_add : Z → lh → lh;
  list_empty : lh → bool;
  list_first : lh → option Z;
  list_del : Z → lh → lh;
  skq : Type;
  skb_queue_head_init : skq;
  skb_queue_tail : sk_buff → skq → skq;
  skb_dequeue : skq → option sk_buff * skq;
  skb_queue_len : skq → Z;
}.

(** Documented behaviour: a [list_head] keeps the newest entry first, an
    [sk_buff_head] is a FIFO. *)
Class KListsLaws `{KLists} := {
  lh_elems : lh → list Z;
  lh_init : lh_elems INIT_LIST_HEAD = [];
  lh_add : ∀ a l, lh_elems (list_add a l) = a :: lh_elems l;
  lh_empty : ∀ l, list_empty l = bool_decide (lh_elems l = []);
  lh_first : ∀ l, list_first l = head (lh_elems l);
  lh_del : ∀ a l r, lh_elems l = a :: r → lh_elems (list_del a l) = r;
  q_elems : skq → list sk_buff;
  q_init : q_elems skb_queue_head_init = [];
  q_tail : ∀ x q, q_elems (skb_queue_tail x q) = q_elems q ++ [x];
  q_deq_nil : ∀ q, q_elems q = [] → skb_dequeue q = (None, q);
  q_deq_cons : ∀ q x r, q_elems q = x :: r → (skb_dequeue q).1 = Some x ∧ q_elems (skb_dequeue q).2 = r;
  q_len : ∀ q, skb_queue_len q = Z.of_nat (length (q_elems q));
}.

(** ** Calls into the kernel *)

Inductive cap_ev :=
| EvKmalloc (r : option Z)
| EvKfree (a : Z)
| EvNlmsgNew (r : option sk_buff)
| EvKfreeSkb (id : Z)
| EvSkbGet (id : Z)
| EvConsumeSkb (id : Z)
| EvUnicast (skb : sk_buff) (portid err : Z)
| EvQueueTail (skb : sk_buff)
| EvWakeKcapd
| EvWakeBacklog
| EvKthreadRun (r : Z + Z)
| EvKthreadStop
| EvAck (h : nlmsghdr) (err : Z)
| EvKernelCreate (r : option Z)
| EvRelease (sock : option Z)
| EvRegisterHook (hooknum : Z)
| EvUnregisterHook.

Record cap_kernel := {
  k_kmalloc : list cap_ev → option Z;
  k_nlmsg_new : list cap_ev → Z → option sk_buff;
  k_nlmsg_put : sk_buff → Z → Z → Z → Z → Z → option sk_buff;
  k_jiffies : list cap_ev → Z;
  k_unicast : list cap_ev → sk_buff → Z → Z;
  (* the task, or the error code the pointer encodes *)
  k_kthread_run : list cap_ev → Z + Z;
  k_kernel_create : list cap_ev → option Z;
  k_should_stop : list cap_ev → bool;
  k_HZ : Z;
  k_long_bits : Z;
}.

(** The addresses handed out by [kmalloc] and not given back yet. *)
Definition live_ev (X : gset Z) (e : cap_ev) : gset Z :=
  match e with
  | EvKmalloc (Some a) => {[a]} ∪ X
  | EvKfree a => X ∖ {[a]}
  | _ => X
  end.

Definition live_cbs (t : list cap_ev) : gset Z := foldl live_ev ∅ t.

Record cap_laws `{NlmsgApi} (k : cap_kernel) : Prop := {
  (* kmalloc returns memory nobody else owns *)
  law_kmalloc : ∀ t a, k_kmalloc k t = Some a → a ∉ live_cbs t;
  (* a fresh message buffer has room for a payload of the requested size,
     or more *)
  law_nlmsg_new : ∀ t n skb, k_nlmsg_new k t n = Some skb →
    sk_hdr skb = None ∧ sk_len skb = 0 ∧ NLMSG_ALIGN (NLMSG_HDRLEN + n) ≤ sk_room skb;
  (* nlmsg_put reserves and fills the header, or fails for lack of tailroom *)
  law_nlmsg_put : ∀ skb portid seq ty len flags, 0 ≤ len → sk_len skb = 0 →
    if decide (NLMSG_ALIGN (NLMSG_HDRLEN + len) ≤ sk_room skb) then
      ∃ area, length area = Z.to_nat len ∧
        k_nlmsg_put k skb portid seq ty len flags =
          Some (MkSkb (sk_id skb) (sk_room skb)
            (Some (MkHdr (NLMSG_HDRLEN + len) (u16 ty) (u16 flags) (u32 seq) (u32 portid)))
            area (NLMSG_ALIGN (NLMSG_HDRLEN + len)))
    else k_nlmsg_put k skb portid seq ty len flags = None;
  (* an error pointer encodes a negative code *)
  law_kthread_run : ∀ t e, k_kthread_run k t = inl e → e < 0;
}.

(** ** Module globals *)

Section State.
Context `{KLists}.

(** The pool of capture buffers: [cap_freelist], its counter, and the memory
    of the buffers themselves. *)
Record cap_pool := MkPool {
  cap_freelist : lh;
  cap_freelist_count : Z;
  cbs : gmap Z cap_buffer;
}.

Record cap_state := MkCap {
  cap_nlk_portid : Z;
  utab : usertab;
  pool : cap_pool;
  cap_skb_queue : skq;
  kcapd_task : option Z;
  cap_rate : rate;
  cap_rate_limit : Z;
  cap_backlog_limit : Z;
  cap_sock : option Z;
}.

Definition set_portid (p : Z) (s : cap_state) : cap_state :=
  MkCap p (utab s) (pool s) (cap_skb_queue s) (kcapd_task s) (cap_rate s)
    (cap_rate_limit s) (cap_backlog_limit s) (cap_sock s).

Definition set_utab (u : usertab) (s : cap_state) : cap_state :=
  MkCap (cap_nlk_portid s) u (pool s) (cap_skb_queue s) (kcapd_task s) (cap_rate s)
    (cap_rate_limit s) (cap_backlog_limit s) (cap_sock s).

Definition set_pool (p : cap_pool) (s : cap_state) : cap_state :=
  MkCap (cap_nlk_portid s) (utab s) p (cap_skb_queue s) (kcapd_task s) (cap_rate s)
    (cap_rate_limit s) (cap_backlog_limit s) (cap_sock s).

Definition set_queue (q : skq) (s : cap_state) : cap_state :=
  MkCap (cap_nlk_portid s) (utab s) (pool s) q (kcapd_task s) (cap_rate s)
    (cap_rate_limit s) (cap_backlog_limit s) (cap_sock s).

Definition set_kcapd (r : option Z) (s : cap_state) : cap_state :=
  MkCap (cap_nlk_portid s) (utab s) (pool s) (cap_skb_queue s) r (cap_rate s)
    (cap_rate_limit s) (cap_backlog_limit s) (cap_sock s).

Definition set_rate (r : rate) (s : cap_state) : cap_state :=
  MkCap (cap_nlk_portid s) (utab s) (pool s) (cap_skb_queue s) (kcapd_task s) r
    (cap_rate_limit s) (cap_backlog_limit s) (cap_sock s).

Definition set_sock (r : option Z) (s : cap_state) : cap_state :=
  MkCap (cap_nlk_portid s) (utab s) (pool s) (cap_skb_queue s) (kcapd_task s) (cap_rate s)
    (cap_rate_limit s) (cap_backlog_limit s) r.

(** The globals as the loader leaves them, before [app_init]. *)
Definition cap_state0 : cap_state :=
  MkCap 0 (MkTab 0 (replicate MAX_TAB_SIZE (MkUsr 0 0))) (MkPool INIT_LIST_HEAD 0 ∅)
    skb_queue_head_init None rate0 0 64 None.

Definition CM (A : Type) : Type := M cap_kernel cap_state cap_ev A.
End State.

(** ** Concrete instances for the witnesses *)

#[export] Instance list_lists : KLists := {|
  lh := list Z;
  INIT_LIST_HEAD := [];
  list_add := cons;
  list_empty l := match l with [] => true | _ => false end;
  list_first := head;
  list_del _ l := tail l;
  skq := list sk_buff;
  skb_queue_head_init := [];
  skb_queue_tail x q := q ++ [x];
  skb_dequeue q := match q with [] => (None, []) | x :: r => (Some x, r) end;
  skb_queue_len q := Z.of_nat (length q);
|}.

#[export, program] Instance list_lists_laws : KListsLaws := {|
  lh_elems := id : lh → list Z;
  q_elems := id : skq → list sk_buff;
|}.
Solve Obligations with intros; simpl in *; unfold id in *; subst; try done.
Next Obligation. by intros [|]. Qed.

(** A kernel whose memory allocations always succeed, whose netlink peer is
    always there and whose clock stands at 0. *)
Definition demo_put (skb : sk_buff) (portid seq ty len flags : Z) : option sk_buff :=
  if decide (NLMSG_ALIGN (NLMSG_HDRLEN + len) ≤ sk_room skb) then
    Some (MkSkb (sk_id skb) (sk_room skb)
      (Some (MkHdr (NLMSG_HDRLEN + len) (u16 ty) (u16 flags) (u32 seq) (u32 portid)))
      (replicate (Z.to_nat len) 0) (NLMSG_ALIGN (NLMSG_HDRLEN + len)))
  else None.

Definition demo_kernel : cap_kernel := {|
  k_kmalloc t := Some (fresh (live_cbs t));
  k_nlmsg_new t n := Some (MkSkb (Z.of_nat (length t)) (NLMSG_ALIGN (NLMSG_HDRLEN + n)) None [] 0);
  k_nlmsg_put := demo_put;
  k_jiffies _ := 0;
  k_unicast _ _ _ := 0;
  k_kthread_run _ := inr 1;
  k_kernel_create _ := Some 1;
  k_should_stop _ := false;
  k_HZ := 250;
  k_long_bits := 32;
|}.

Lemma demo_laws : cap_laws demo_kernel.
Proof.
  split.
  - intros t a Ha. injection Ha as <-. apply is_fresh.
  - intros t n skb Hs. injection Hs as <-. split_and!; [done|done|simpl; lia].
  - intros skb portid seq ty len flags Hlen _. cbn [k_nlmsg_put demo_kernel].
    unfold demo_put. case_decide; [|done].
    exists (replicate (Z.to_nat len) 0). split; [by rewrite length_replicate|done].
  - done.
Qed.
