(* ===== verification/CapPool.v ===== *)
(** * The capture-buffer pool of [src/netlink/netlink.c]

    [cap_buffer_alloc] and [cap_buffer_free], the pool's invariant, and what
    the two functions do on every path. *)

From S2P Require Import Prelude Bytes Nlmsg UserTab RateCheck CapState.

Section Pool.
Context `{NlmsgApi} `{KLists}.

(** ** Access to a capture buffer *)

Definition cb_read (a : Z) : CM cap_buffer :=
  o <- get (λ s, cbs (pool s) !! a) ;;
  match o with Some cb => ret cb | None => crash UseAfterFree end.

Definition upd_cbs (f : gmap Z cap_buffer → gmap Z cap_buffer) (s : cap_state) : cap_state :=
  set_pool (MkPool (cap_freelist (pool s)) (cap_freelist_count (pool s)) (f (cbs (pool s)))) s.

Definition upd_list (f : lh → lh) (s : cap_state) : cap_state :=
  set_pool (MkPool (f (cap_freelist (pool s))) (cap_freelist_count (pool s)) (cbs (pool s))) s.

Definition upd_count (f : Z → Z) (s : cap_state) : cap_state :=
  set_pool (MkPool (cap_freelist (pool s)) (f (cap_freelist_count (pool s))) (cbs (pool s))) s.

Definition cb_write (a : Z) (f : cap_buffer → cap_buffer) : CM unit :=
  cb <- cb_read a ;; modify (upd_cbs <[a := f cb]>).

Definition set_skb (o : option sk_buff) (cb : cap_buffer) : cap_buffer :=
  MkCb o (cb_data cb) (cb_gfp cb).

(** ** [cap_buffer_free] *)

(** The null test is the one of the source: [if (!cb) kfree_skb(cb->skb)]. *)
Definition cap_buffer_free (cb : option Z) : CM unit :=
  match cb with
  | None => crash NullDeref
  | Some a =>
      n <- get (λ s, cap_freelist_count (pool s)) ;;
      if CAP_MAXFREE <=? n then
        emit (EvKfree a) ;; modify (upd_cbs (delete a))
      else
        modify (upd_count (λ n, s32 (n + 1))) ;;
        cb_read a ;;
        modify (upd_list (list_add a))
  end.

(** ** [cap_buffer_alloc] *)

(** Take the first buffer off the free list, if there is one. *)
Definition take_free : CM (option Z) :=
  e <- get (λ s, list_empty (cap_freelist (pool s))) ;;
  if e then ret None else
  a <- get (λ s, list_first (cap_freelist (pool s))) ;;
  a <- deref a ;;
  cb_read a ;;
  modify (upd_list (list_del a)) ;;
  modify (upd_count (λ n, s32 (n - 1))) ;;
  ret (Some a).

(** [kmalloc] and [memset] of a new one. *)
Definition new_cb : CM (option Z) :=
  r <- kcall (λ k t, k_kmalloc k t) EvKmalloc ;;
  match r with
  | None => ret None
  | Some a => modify (upd_cbs <[a := MkCb None 0 0]>) ;; ret (Some a)
  end.

(** From [cb->data = data] on: the message is allocated, the packet copied
    into it; the two error exits give everything back. *)
Definition fill_cb (a : Z) (pkt : packet) (data gfp_mask type : Z) : CM (option Z) :=
  cb_write a (λ cb, MkCb (cb_skb cb) data gfp_mask) ;;
  r <- kcall (λ k t, k_nlmsg_new k t MAX_SKB_BUFSIZE) EvNlmsgNew ;;
  cb_write a (set_skb r) ;;
  match r with
  | None => cap_buffer_free (Some a) ;; ret None                     (* goto err *)
  | Some skb =>
      portid <- get cap_nlk_portid ;;
      nlh <- kpure (λ k, k_nlmsg_put k skb portid 0 type (pk_len pkt) 0) ;;
      match nlh with
      | None =>                                                      (* out_kfree_skb *)
          emit (EvKfreeSkb (sk_id skb)) ;;
          cb_write a (set_skb None) ;;
          cap_buffer_free (Some a) ;; ret None
      | Some skb =>
          src <- index (slice 0 (Z.to_nat (pk_len pkt)) (pk_data pkt)) ;;
          pdata <- index (splice 0 src (sk_payload skb)) ;;
          cb_write a (set_skb (Some
            (MkSkb (sk_id skb) (sk_room skb) (sk_hdr skb) pdata (sk_len skb)))) ;;
          ret (Some a)
      end
  end.

Definition cap_buffer_alloc (pkt : packet) (data gfp_mask type : Z) : CM (option Z) :=
  cb <- take_free ;;
  cb <- match cb with Some a => ret (Some a) | None => new_cb end ;;
  match cb with
  | None => cap_buffer_free None ;; ret None                         (* goto err *)
  | Some a => fill_cb a pkt data gfp_mask type
  end.
End Pool.

(** ** The pool's invariant *)

Section Facts.
Context `{NlmsgLaws} `{KListsLaws}.

Definition free_elems (p : cap_pool) : list Z := lh_elems (cap_freelist p).

(** The counter is the length of the free list and never exceeds
    [CAP_MAXFREE]; the list holds distinct, live buffers that own no socket
    buffer; the buffers in memory are those [kmalloc] gave out. *)
Record pool_inv (p : cap_pool) (t : list cap_ev) : Prop := {
  pool_count : cap_freelist_count p = Z.of_nat (length (free_elems p));
  pool_bound : Z.of_nat (length (free_elems p)) ≤ CAP_MAXFREE;
  pool_nodup : NoDup (free_elems p);
  pool_live : ∀ a, a ∈ free_elems p → ∃ cb, cbs p !! a = Some cb ∧ cb_skb cb = None;
  pool_mem : dom (cbs p) = live_cbs t;
}.

(** Buffers that are neither on the free list nor freed. *)
Definition in_use (p : cap_pool) : Z := Z.of_nat (size (cbs p)) - Z.of_nat (length (free_elems p)).

(** Buffer [a] is taken: in memory with contents [cb], and not on the list. *)
Record holds (a : Z) (cb : cap_buffer) (p : cap_pool) (t : list cap_ev) : Prop := {
  holds_inv : pool_inv p t;
  holds_mem : cbs p !! a = Some cb;
  holds_off : a ∉ free_elems p;
}.

(** What was handed to the send queue and to [netlink_unicast]. *)
Definition queued (t : list cap_ev) : list sk_buff :=
  omap (λ e, match e with EvQueueTail x => Some x | _ => None end) t.
Definition sent (t : list cap_ev) : list sk_buff :=
  omap (λ e, match e with EvUnicast x _ _ => Some x | _ => None end) t.

(** Between two points of the trace nothing was queued or sent. *)
Definition quiet (t t' : list cap_ev) : Prop := queued t' = queued t ∧ sent t' = sent t.

Lemma quiet_snoc t e : queued [e] = [] → sent [e] = [] → quiet t (t ++ [e]).
Proof.
  intros Hq Hs. unfold quiet, queued, sent in *. rewrite !omap_app, Hq, Hs.
  by rewrite !app_nil_r.
Qed.

#[local] Instance quiet_preorder : PreOrder quiet.
Proof. split; [done|]. intros t1 t2 t3 [] []. split; etrans; eauto. Qed.

Lemma live_cbs_snoc t e : live_cbs (t ++ [e]) = live_ev (live_cbs t) e.
Proof. unfold live_cbs. by rewrite foldl_app. Qed.

Lemma pool_inv_snoc p t e :
  (∀ X, live_ev X e = X) → pool_inv p t → pool_inv p (t ++ [e]).
Proof. intros He [????]. split; [done..|]. by rewrite live_cbs_snoc, He. Qed.

Lemma holds_snoc a cb p t e :
  (∀ X, live_ev X e = X) → holds a cb p t → holds a cb p (t ++ [e]).
Proof. intros He [???]. split; [by apply pool_inv_snoc|done..]. Qed.

Lemma cb_write_ok k a f cb s t :
  holds a cb (pool s) t →
  ∃ p', cb_write a f k s t = (Ok tt, set_pool p' s, t) ∧ holds a (f cb) p' t ∧ in_use p' = in_use (pool s).
Proof.
  intros [[Hc Hb Hn Hl Hd] Hm Ho]. unfold cb_write, cb_read, bind, get, ret, modify. rewrite Hm.
  eexists. split; [reflexivity|]. split; [split; [split; simpl|..]|]; simpl; try done.
  - intros a' Ha'. destruct (Hl a' Ha') as (cb' & ? & ?). exists cb'.
    rewrite lookup_insert_ne by (by intros ->). done.
  - rewrite dom_insert_lookup_L; [done|eauto].
  - by rewrite lookup_insert_eq.
  - unfold in_use, free_elems. simpl. by rewrite map_size_insert_Some by eauto.
Qed.

Lemma cap_buffer_free_ok k a cb s t :
  holds a cb (pool s) t → cb_skb cb = None →
  ∃ p' t', cap_buffer_free (Some a) k s t = (Ok tt, set_pool p' s, t') ∧
    pool_inv p' t' ∧ in_use p' = in_use (pool s) - 1 ∧ quiet t t'.
Proof.
  intros [[Hc Hb Hn Hl Hd] Hm Ho] Hskb. unfold cap_buffer_free, cb_read, bind, get, ret, emit, modify.
  destruct (CAP_MAXFREE <=? _) eqn:Hmax; zbool.
  - eexists _, _. split; [reflexivity|]. split_and!; [split; simpl; try done|..].
    + intros a' Ha'. destruct (Hl a' Ha') as (cb' & ? & ?). exists cb'.
      rewrite lookup_delete_ne by (by intros ->). done.
    + rewrite dom_delete_L, Hd, live_cbs_snoc. done.
    + unfold in_use, free_elems. simpl. rewrite map_size_delete_Some by eauto.
      assert (size (cbs (pool s)) ≠ 0%nat) by (intros He%map_size_empty_inv; by rewrite He, lookup_empty in Hm). lia.
    + by apply quiet_snoc.
  - cbn [pool set_pool upd_count cbs]. rewrite Hm. eexists _, _. split; [reflexivity|].
    assert (cap_freelist_count (pool s) + 1 < 2 ^ 31) by (unfold CAP_MAXFREE in *; lia).
    split_and!; [split; simpl; unfold free_elems in *; simpl; rewrite ?lh_add|..].
    + rewrite s32_small by lia. simpl. lia.
    + simpl. lia.
    + by constructor.
    + intros a' [->|Ha']%elem_of_cons; eauto.
    + done.
    + unfold in_use, free_elems. simpl. rewrite lh_add. simpl. lia.
    + done.
Qed.

(** Taking a buffer: the first free one, or new memory. *)
Definition acquire : CM (option Z) :=
  cb <- take_free ;; match cb with Some a => ret (Some a) | None => new_cb end.

Lemma take_free_ok k s t :
  pool_inv (pool s) t →
  match free_elems (pool s) with
  | [] => take_free k s t = (Ok None, s, t)
  | a :: l => ∃ p' cb, take_free k s t = (Ok (Some a), set_pool p' s, t) ∧
      holds a cb p' t ∧ cb_skb cb = None ∧ in_use p' = in_use (pool s) + 1
  end.
Proof.
  intros [Hc Hb Hn Hl Hd]. unfold take_free, cb_read, bind, get, ret, deref, modify.
  rewrite lh_empty. unfold free_elems in *.
  destruct (lh_elems _) as [|a l] eqn:He; simpl; [done|]. rewrite lh_first, He. simpl.
  destruct (Hl a) as (cb & Hm & Hskb); [apply elem_of_cons; by left|]. rewrite Hm.
  apply NoDup_cons in Hn as [Ha Hn]. eexists _, cb. split; [reflexivity|]. simpl in *.
  assert (lh_elems (list_del a (cap_freelist (pool s))) = l) as Hdel by (by apply lh_del).
  split_and!; [split; [split|..]|done|]; unfold in_use, free_elems; simpl; rewrite ?Hdel; try done.
  - unfold CAP_MAXFREE in *. rewrite s32_small; lia.
  - lia.
  - intros a' Ha'. apply Hl, elem_of_cons. by right.
  - rewrite He. simpl. lia.
Qed.

Lemma acquire_ok k s t :
  cap_laws k → pool_inv (pool s) t →
  (free_elems (pool s) = [] ∧ k_kmalloc k t = None ∧ ∃ t', acquire k s t = (Ok None, s, t')) ∨
  (∃ a cb p' t', acquire k s t = (Ok (Some a), set_pool p' s, t') ∧
    holds a cb p' t' ∧ cb_skb cb = None ∧ in_use p' = in_use (pool s) + 1 ∧ quiet t t').
Proof.
  intros Hk Hinv. pose proof (take_free_ok k s t Hinv) as Htake. unfold acquire.
  destruct (free_elems (pool s)) as [|a l] eqn:He.
  - rewrite (bind_ok _ _ _ _ _ _ _ _ Htake). unfold new_cb, bind, kcall, modify, ret.
    destruct (k_kmalloc k t) as [a|] eqn:Hm; [right|left; by eauto].
    pose proof (law_kmalloc k Hk _ _ Hm) as Hfresh.
    destruct Hinv as [Hc Hb Hn Hl Hd]. rewrite <-Hd, not_elem_of_dom in Hfresh.
    eexists a, (MkCb None 0 0), _, _. split; [reflexivity|]. unfold in_use, free_elems in *. simpl.
    split_and!; [split; [split|..]|done|..]; unfold free_elems; simpl; rewrite ?He in *; try done.
    + intros a' Ha'. by apply elem_of_nil in Ha'.
    + by rewrite dom_insert_L, live_cbs_snoc, Hd.
    + by rewrite lookup_insert_eq.
    + apply not_elem_of_nil.
    + rewrite map_size_insert_None by done. simpl. lia.
    + by apply quiet_snoc.
  - destruct Htake as (p' & cb & Htake & Hh & Hs & Hu). right.
    exists a, cb, p', t. rewrite (bind_ok _ _ _ _ _ _ _ _ Htake). done.
Qed.

(** The message [cap_buffer_alloc] builds for a captured packet. *)
Definition captured (portid type : Z) (pkt : packet) (skb : sk_buff) : Prop :=
  sk_payload skb = pk_data pkt ∧
  sk_len skb = NLMSG_ALIGN (NLMSG_HDRLEN + pk_len pkt) ∧
  sk_hdr skb = Some (MkHdr (NLMSG_HDRLEN + pk_len pkt) (u16 type) 0 0 (u32 portid)).

Lemma splice_all src buf : length src = length buf → splice 0 src buf = Some src.
Proof.
  intros Hlen. unfold splice. rewrite decide_True by lia. simpl.
  by rewrite drop_ge, app_nil_r by lia.
Qed.

Lemma fill_cb_ok k a cb pkt data gfp type s t :
  cap_laws k → holds a cb (pool s) t → cb_skb cb = None →
  pk_len pkt = Z.of_nat (length (pk_data pkt)) →
  (∃ p' t', fill_cb a pkt data gfp type k s t = (Ok None, set_pool p' s, t') ∧
    pool_inv p' t' ∧ in_use p' = in_use (pool s) - 1 ∧ quiet t t') ∨
  (∃ cb' skb p' t',
    fill_cb a pkt data gfp type k s t = (Ok (Some a), set_pool p' s, t') ∧
    holds a cb' p' t' ∧ cb_skb cb' = Some skb ∧ captured (cap_nlk_portid s) type pkt skb ∧
    in_use p' = in_use (pool s) ∧ quiet t t').
Proof.
  intros Hk Hh Hskb Hlen. unfold fill_cb.
  destruct (cb_write_ok k a (λ cb, MkCb (cb_skb cb) data gfp) cb s t Hh) as (p1 & E1 & Hh1 & U1).
  mrun E1. set (t1 := t ++ [EvNlmsgNew (k_nlmsg_new k t MAX_SKB_BUFSIZE)]).
  erewrite bind_ok by reflexivity. fold t1.
  assert (quiet t t1) as Hq by (by apply quiet_snoc).
  apply (holds_snoc _ _ _ _ (EvNlmsgNew (k_nlmsg_new k t MAX_SKB_BUFSIZE))) in Hh1; [|done].
  destruct (cb_write_ok k a (set_skb (k_nlmsg_new k t MAX_SKB_BUFSIZE)) _ (set_pool p1 s) t1 Hh1)
    as (p2 & E2 & Hh2 & U2).
  mrun E2. cbn [pool set_pool] in *.
  destruct (k_nlmsg_new k t MAX_SKB_BUFSIZE) as [skb|] eqn:Hnew.
  - destruct (law_nlmsg_new k Hk _ _ _ Hnew) as (Hhdr & Hl0 & Hroom).
    erewrite bind_ok by reflexivity. erewrite bind_ok by reflexivity.
    pose proof (law_nlmsg_put k Hk skb (cap_nlk_portid s) 0 type (pk_len pkt) 0
      ltac:(lia) Hl0) as Hput. cbn [cap_nlk_portid set_pool].
    case_decide as Hfit.
    + destruct Hput as (area & Harea & ->). right. rewrite Hlen, Nat2Z.id in *.
      assert (slice 0 (length (pk_data pkt)) (pk_data pkt) = Some (pk_data pkt)) as Hsl.
      { rewrite <-(app_nil_r (pk_data pkt)) at 2. by apply slice_0_app. }
      rewrite Hsl. erewrite bind_ok by reflexivity. cbn [sk_payload].
      rewrite splice_all by done. erewrite bind_ok by reflexivity.
      match goal with |- context [cb_write a ?f] =>
        destruct (cb_write_ok k a f _ (set_pool p2 (set_pool p1 s)) t1 Hh2) as (p3 & E3 & Hh3 & U3)
      end.
      mrun E3.
      cbn [pool set_pool] in *. eexists _, _, p3, t1. split; [reflexivity|]. simpl.
      split_and!; [done|done| |lia|done]. unfold captured. simpl. by rewrite Hlen.
    + rewrite Hput. left. erewrite bind_ok by reflexivity.
      apply (holds_snoc _ _ _ _ (EvKfreeSkb (sk_id skb))) in Hh2; [|done].
      destruct (cb_write_ok k a (set_skb None) _ (set_pool p2 (set_pool p1 s)) _ Hh2) as (p3 & E3 & Hh3 & U3).
      cbn [pool set_pool] in *. mrun E3.
      destruct (cap_buffer_free_ok k a _ (set_pool p3 (set_pool p2 (set_pool p1 s))) _ Hh3 eq_refl)
        as (p4 & t4 & E4 & I4 & U4 & Q4).
      mrun E4. exists p4, t4. split_and!; [done|done|simpl in *; lia|].
      etrans; [exact Hq|]. etrans; [|exact Q4]. by apply quiet_snoc.
  - left. destruct (cap_buffer_free_ok k a _ (set_pool p2 (set_pool p1 s)) _ Hh2 eq_refl)
      as (p4 & t4 & E4 & I4 & U4 & Q4).
    mrun E4. exists p4, t4. split_and!; [done|done|simpl in *; lia|]. by etrans.
Qed.

(** [cap_buffer_alloc] on a packet whose bytes are all linear: the only way it
    does not return is the null pointer on a failed [kmalloc]; it fails
    cleanly, giving the buffer back, when there is no memory for the message
    or the packet does not fit; otherwise it hands out a buffer with a copy of
    the packet. *)
Lemma cap_buffer_alloc_ok k pkt data gfp type s t :
  cap_laws k → pool_inv (pool s) t → pk_len pkt = Z.of_nat (length (pk_data pkt)) →
  (free_elems (pool s) = [] ∧ k_kmalloc k t = None ∧
    ∃ t', cap_buffer_alloc pkt data gfp type k s t = (Crash NullDeref, s, t')) ∨
  (∃ p' t', cap_buffer_alloc pkt data gfp type k s t = (Ok None, set_pool p' s, t') ∧
    pool_inv p' t' ∧ in_use p' = in_use (pool s) ∧ quiet t t') ∨
  (∃ a cb skb p' t',
    cap_buffer_alloc pkt data gfp type k s t = (Ok (Some a), set_pool p' s, t') ∧
    holds a cb p' t' ∧ cb_skb cb = Some skb ∧ captured (cap_nlk_portid s) type pkt skb ∧
    in_use p' = in_use (pool s) + 1 ∧ quiet t t').
Proof.
  intros Hk Hinv Hlen. unfold cap_buffer_alloc. rewrite <-bind_assoc. change (bind take_free _) with acquire.
  destruct (acquire_ok k s t Hk Hinv) as [(He & Hm & t' & E)|(a & cb & p1 & t1 & E & Hh & Hs & Hu & Hq)].
  - left. mrun E. unfold cap_buffer_free. split_and!; [done|done|]. by eexists.
  - right. mrun E.
    destruct (fill_cb_ok k a cb pkt data gfp type (set_pool p1 s) t1 Hk Hh Hs Hlen)
      as [(p' & t' & E' & I' & U' & Q')|(cb' & skb & p' & t' & E' & H' & Hsk & Hcap & U' & Q')].
    + left. exists p', t'. cbn [pool set_pool] in *. split_and!; [exact E'|done|lia|by etrans].
    + right. exists a, cb', skb, p', t'. cbn [pool set_pool] in *.
      split_and!; [exact E'|done|done|exact Hcap|lia|by etrans].
Qed.
End Facts.
