(* ===== verification/Capture.v ===== *)
(** * Handlers of the capture module ([src/netlink/netlink.c])

    The netfilter hook that captures packets, the [kcapd] thread that sends
    them to the client, the netlink receive path that registers clients, and
    module load and unload. *)

From S2P Require Import Prelude Bytes Nlmsg UserTab RateCheck CapState CapPool.

Section Handlers.
Context `{NlmsgApi} `{KLists}.

(** ** Client table and rate limiter on the module state *)

Definition on_utab {A} (f : usertab → option (A * usertab)) : CM A :=
  u <- get utab ;;
  r <- index (f u) ;;
  modify (set_utab r.2) ;;
  ret r.1.

Definition do_delete_all_user : CM unit := on_utab (λ u, u' ← delete_all_user u; Some (tt, u')).

Definition do_rate_check : CM Z :=
  limit <- get cap_rate_limit ;;
  r <- get cap_rate ;;
  now <- kpeek k_jiffies ;;
  a <- kpure (λ k, cap_rate_check (k_long_bits k) (k_HZ k) limit now r) ;;
  modify (set_rate a.2) ;;
  ret a.1.

(** ** The capture hook *)

(** [printk] of the first twelve bytes. *)
Definition print_head (pkt : packet) : CM (list Z) := index (slice 0 12 (pk_data pkt)).

(** [nlh->nlmsg_len = cb->skb->len] *)
Definition set_nlmsg_len (skb : sk_buff) : option sk_buff :=
  h ← sk_hdr skb;
  Some (MkSkb (sk_id skb) (sk_room skb)
    (Some (MkHdr (sk_len skb) (nlmsg_type h) (nlmsg_flags h) (nlmsg_seq h) (nlmsg_pid h)))
    (sk_payload skb) (sk_len skb)).

Definition hook_func_queue (pkt : packet) : CM Z :=
  print_head pkt ;;
  portid <- get cap_nlk_portid ;;
  if portid =? 0 then ret NF_ACCEPT else
  cb <- cap_buffer_alloc pkt 0 GFP_KERNEL NLMSG_DONE ;;
  match cb with
  | None => ret NF_ACCEPT
  | Some a =>
      ok <- do_rate_check ;;
      if ok =? 0 then ret NF_ACCEPT else
      cb <- cb_read a ;;
      skb <- deref (cb_skb cb) ;;
      skb <- deref (set_nlmsg_len skb) ;;
      cb_write a (set_skb (Some skb)) ;;
      emit (EvQueueTail skb) ;;
      modify (λ s, set_queue (skb_queue_tail skb (cap_skb_queue s)) s) ;;
      emit EvWakeKcapd ;;
      cb_write a (set_skb None) ;;
      cap_buffer_free (Some a) ;;
      ret NF_ACCEPT
  end.

(** ** The hook that sends to every registered client directly *)

Definition cap_make_reply (portid seq type done multi : Z) (payload : list Z) (size : Z) : CM (option sk_buff) :=
  let flags := if multi =? 0 then 0 else NLM_F_MULTI in
  let ty := if done =? 0 then type else NLMSG_DONE in
  skb <- kcall (λ k t, k_nlmsg_new k t size) EvNlmsgNew ;;
  match skb with
  | None => ret None
  | Some skb =>
      nlh <- kpure (λ k, k_nlmsg_put k skb portid seq ty size flags) ;;
      match nlh with
      | None => emit (EvKfreeSkb (sk_id skb)) ;; ret None
      | Some skb =>
          src <- index (slice 0 (Z.to_nat size) payload) ;;
          data <- index (splice 0 src (sk_payload skb)) ;;
          ret (Some (MkSkb (sk_id skb) (sk_room skb) (sk_hdr skb) data (sk_len skb)))
      end
  end.

Fixpoint hook_loop (n i : nat) (pkt : packet) : CM unit :=
  match n with
  | O => ret tt
  | S n =>
      c <- get (λ s, usrtab (utab s) !! i) ;;
      c <- index c ;;
      (if pid c =? 0 then ret tt else
        tmp <- cap_make_reply (u32 (pid c)) 0 NLMSG_DONE 1 0 (pk_data pkt) (pk_len pkt) ;;
        match tmp with
        | None => ret tt
        | Some skb =>
            err <- kcall (λ k t, k_unicast k t skb (u32 (pid c))) (EvUnicast skb (u32 (pid c))) ;;
            when (err =? - ECONNREFUSED) do do_delete_all_user
        end) ;;
      hook_loop n (S i) pkt
  end.

Definition hook_func (pkt : packet) : CM Z :=
  print_head pkt ;;
  hook_loop MAX_TAB_SIZE 0 pkt ;;
  ret NF_ACCEPT.

(** ** The sending thread *)

Definition kcapd_send_reply (skb : sk_buff) : CM unit :=
  emit (EvSkbGet (sk_id skb)) ;;
  portid <- get cap_nlk_portid ;;
  err <- kcall (λ k t, k_unicast k t skb (u32 portid)) (EvUnicast skb (u32 portid)) ;;
  if err <? 0 then
    (if err =? - ECONNREFUSED then ret tt else crash BugOn) ;;
    modify (set_portid 0)
  else emit (EvConsumeSkb (sk_id skb)).

(** One pass of the thread's loop: [true] when it sent a message and goes on,
    [false] when it goes to sleep on [kcapd_wait]. *)
Definition kcapd_pass : CM bool :=
  r <- get (λ s, skb_dequeue (cap_skb_queue s)) ;;
  modify (set_queue r.2) ;;
  match r.1 with
  | Some skb =>
      n <- get (λ s, skb_queue_len (cap_skb_queue s)) ;;
      limit <- get cap_backlog_limit ;;
      (when (u32 n <=? limit) do emit EvWakeBacklog) ;;
      kcapd_send_reply skb ;;
      ret true
  | None => ret false
  end.

(** [kcapd_thread] until it sleeps ([None]) or returns. *)
Fixpoint kcapd_thread (fuel : nat) : CM (option Z) :=
  match fuel with
  | O => crash OutOfFuel
  | S fuel =>
      stop <- kpeek k_should_stop ;;
      if (stop : bool) then ret (Some 0) else
      more <- kcapd_pass ;;
      if (more : bool) then kcapd_thread fuel else ret None
  end.

(** ** Netlink commands *)

Definition cap_netlink_ok (msg_type : Z) : Z :=
  if msg_type =? CAP_ADD then 0
  else if msg_type =? CAP_DEL then 0
  else if msg_type =? CAP_GET_PACKET then 0
  else - EINVAL.

(** As soon as there is a sign of a client, the thread is started. *)
Definition start_kcapd : CM Z :=
  task <- get kcapd_task ;;
  match task with
  | Some _ => ret 0
  | None =>
      r <- kcall k_kthread_run EvKthreadRun ;;
      match r with
      | inl err => modify (set_kcapd None) ;; ret err
      | inr task => modify (set_kcapd (Some task)) ;; ret 0
      end
  end.

(** [nlh] is the received memory from the header on; its payload is printed
    as a string. *)
Definition cap_receive_msg (nlh : list Z) (h : nlmsghdr) : CM Z :=
  let msg_type := nlmsg_type h in
  let err := cap_netlink_ok msg_type in
  if negb (err =? 0) then ret err else
  err <- start_kcapd ;;
  if negb (err =? 0) then ret err else
  let pid := s32 (nlmsg_pid h) in
  index (cstr (drop 16 nlh)) ;;
  (if msg_type =? CAP_ADD then
    modify (set_portid pid) ;; on_utab (user_join pid) ;; ret tt
  else if msg_type =? CAP_DEL then
    modify (set_portid 0) ;; on_utab (user_leave pid) ;; ret tt
  else ret tt) ;;
  ret 0.

Definition cap_receive_skb (buf : list Z) : CM Z :=
  let len := Z.of_nat (length buf) in
  nlmsg_walk EvAck cap_receive_msg (S (length buf)) buf 0 len ;;
  ret 0.

(** [cap_receive] runs [cap_receive_skb] under [cap_cmd_mutex]. *)
Definition cap_receive (buf : list Z) : CM unit := cap_receive_skb buf ;; ret tt.

(** ** Load and unload *)

Definition NF_IP_LOCAL_OUT : Z := 3.

Definition cap_hook_init : CM Z := emit (EvRegisterHook NF_IP_LOCAL_OUT) ;; ret 0.

Definition app_init : CM Z :=
  sock <- kcall k_kernel_create EvKernelCreate ;;
  modify (set_sock sock) ;;
  match sock with
  | None => ret (- ENOMEM)
  | Some _ =>
      on_utab (λ u, u' ← usertab_init u; Some (tt, u')) ;;
      cap_hook_init ;;
      modify (set_queue skb_queue_head_init) ;;
      modify (set_portid 0) ;;
      ret 0
  end.

Definition app_exit : CM unit :=
  sock <- get cap_sock ;;
  emit (EvRelease sock) ;;
  emit EvUnregisterHook.
End Handlers.
