(* ===== verification/CapSystem.v ===== *)
(** * Correctness of the capture module ([src/netlink/netlink.c])

    What the hook does on every path; the module as a transition system whose
    steps are the handlers; the invariants of its reachable states: pool
    accounting, order and content of what is sent to the client; the reference
    count of a sent message; the netlink receive path. *)

From S2P Require Import Prelude Bytes Nlmsg UserTab RateCheck CapState CapPool Capture.

Section System.
Context `{NlmsgLaws} `{KListsLaws}.

(** ** The hook *)

(** The packet is one linear area of at least an IP header's first 12 bytes. *)
Definition linear (pkt : packet) : Prop :=
  pk_len pkt = Z.of_nat (length (pk_data pkt)) ∧ 12 ≤ pk_len pkt.

(** The message a client receives for a packet. *)
Definition forwarded (portid : Z) (pkt : packet) (skb : sk_buff) : Prop :=
  sk_payload skb = pk_data pkt ∧
  sk_hdr skb = Some (MkHdr (NLMSG_ALIGN (NLMSG_HDRLEN + pk_len pkt)) NLMSG_DONE 0 0 (u32 portid)).

(** The bytes of a message: header, payload, and the zero padding
    [nlmsg_put] leaves up to [nlmsg_len]. *)
Definition datagram (skb : sk_buff) : option (list Z) :=
  h ← sk_hdr skb;
  Some (enc_hdr h ++ sk_payload skb ++
    replicate (Z.to_nat (nlmsg_len h - NLMSG_HDRLEN - Z.of_nat (length (sk_payload skb)))) 0).

(** The four ways a packet passes through the hook. *)
Inductive hook_effect (pkt : packet) (s : cap_state) (t : list cap_ev)
    (s' : cap_state) (t' : list cap_ev) : Prop :=
| hook_nobody :                 (* no client *)
    cap_nlk_portid s = 0 → s' = s → t' = t → hook_effect pkt s t s' t'
| hook_nomem :                  (* no memory, or too long a packet *)
    in_use (pool s') = in_use (pool s) → quiet t t' →
    q_elems (cap_skb_queue s') = q_elems (cap_skb_queue s) → hook_effect pkt s t s' t'
| hook_limited :                (* over the rate limit *)
    cap_rate_limit s ≠ 0 →
    in_use (pool s') = in_use (pool s) + 1 → quiet t t' →
    q_elems (cap_skb_queue s') = q_elems (cap_skb_queue s) → hook_effect pkt s t s' t'
| hook_queued skb :             (* handed to the thread *)
    cap_nlk_portid s ≠ 0 → forwarded (cap_nlk_portid s) pkt skb →
    in_use (pool s') = in_use (pool s) → queued t' = queued t ++ [skb] → sent t' = sent t →
    q_elems (cap_skb_queue s') = q_elems (cap_skb_queue s) ++ [skb] → hook_effect pkt s t s' t'.

Lemma do_rate_check_ok k s t :
  ∃ a r, do_rate_check k s t = (Ok a, set_rate r s, t) ∧ (a = 0 → cap_rate_limit s ≠ 0).
Proof.
  unfold do_rate_check, bind, get, kpeek, kpure, modify, ret. eexists _, _.
  split; [reflexivity|]. unfold cap_rate_check. destruct (cap_rate_limit s =? 0) eqn:?; zbool; done.
Qed.

(** The tail of the hook: the message of a held buffer is queued and the
    buffer is given back. *)
Lemma enqueue_ok k a cb skb s t :
  holds a cb (pool s) t →
  ∃ p' t',
    (cb_write a (set_skb (Some skb)) ;;
     emit (EvQueueTail skb) ;;
     modify (λ s, set_queue (skb_queue_tail skb (cap_skb_queue s)) s) ;;
     emit EvWakeKcapd ;;
     cb_write a (set_skb None) ;;
     cap_buffer_free (Some a) ;;
     ret NF_ACCEPT) k s t =
    (Ok NF_ACCEPT, set_pool p' (set_queue (skb_queue_tail skb (cap_skb_queue s)) s), t') ∧
    pool_inv p' t' ∧ in_use p' = in_use (pool s) - 1 ∧
    queued t' = queued t ++ [skb] ∧ sent t' = sent t.
Proof.
  intros Hh.
  destruct (cb_write_ok k a (set_skb (Some skb)) cb s t Hh) as (p1 & E1 & Hh1 & U1). mrun E1.
  do 3 (erewrite bind_ok by reflexivity).
  set (s1 := set_queue _ _). set (t1 := (t ++ [EvQueueTail skb]) ++ [EvWakeKcapd]).
  assert (holds a (set_skb (Some skb) cb) (pool s1) t1) as Hh1'.
  { apply holds_snoc; [done|]. by apply holds_snoc. }
  destruct (cb_write_ok k a (set_skb None) _ s1 t1 Hh1') as (p2 & E2 & Hh2 & U2). mrun E2.
  destruct (cap_buffer_free_ok k a _ (set_pool p2 s1) t1 Hh2 eq_refl) as (p3 & t3 & E3 & I3 & U3 & Q3).
  mrun E3. exists p3, t3. split_and!; [done|done| |..].
  - cbn [pool set_pool set_queue s1] in *. lia.
  - destruct Q3 as [-> _]. unfold t1, queued. rewrite !omap_app. simpl. by rewrite app_nil_r.
  - destruct Q3 as [_ ->]. unfold t1, sent. rewrite !omap_app. simpl. by rewrite !app_nil_r.
Qed.

(** Every path of [hook_func_queue] on a linear packet. *)
Lemma hook_func_queue_ok k pkt s t :
  cap_laws k → pool_inv (pool s) t → linear pkt →
  (cap_nlk_portid s ≠ 0 ∧ free_elems (pool s) = [] ∧ k_kmalloc k t = None ∧
    ∃ t', hook_func_queue pkt k s t = (Crash NullDeref, s, t')) ∨
  (∃ s' t', hook_func_queue pkt k s t = (Ok NF_ACCEPT, s', t') ∧
    pool_inv (pool s') t' ∧ utab s' = utab s ∧ hook_effect pkt s t s' t').
Proof.
  intros Hk Hinv [Hlen H12]. unfold hook_func_queue.
  assert (∃ bs, print_head pkt k s t = (Ok bs, s, t)) as [bs Eh].
  { unfold print_head, slice. rewrite decide_True by lia. by eexists. }
  mrun Eh. erewrite bind_ok by reflexivity.
  destruct (cap_nlk_portid s =? 0) eqn:Hport; zbool.
  { right. exists s, t. split_and!; [done..|]. by apply hook_nobody. }
  destruct (cap_buffer_alloc_ok k pkt 0 GFP_KERNEL NLMSG_DONE s t Hk Hinv Hlen)
    as [(He & Hm & t' & E)|[(p' & t' & E & I & U & Q)|(a & cb & skb & p1 & t1 & E & Hh & Hs & Hcap & U & Q)]].
  - left. rewrite (bind_crash _ _ _ _ _ _ _ _ E). by eauto.
  - right. mrun E. exists (set_pool p' s), t'. split_and!; [done..|]. by apply hook_nomem.
  - right. mrun E. destruct (do_rate_check_ok k (set_pool p1 s) t1) as (ok & r & Er & Hr). mrun Er.
    destruct (ok =? 0) eqn:Hok; zbool.
    { eexists _, t1. split; [reflexivity|]. destruct Hh as [I _ _].
      split_and!; [done..|]. apply hook_limited; [by apply Hr|done..]. }
    assert (cb_read a k (set_rate r (set_pool p1 s)) t1 = (Ok cb, set_rate r (set_pool p1 s), t1)) as Ec.
    { unfold cb_read, bind, get, ret. simpl. by rewrite (holds_mem _ _ _ _ Hh). }
    mrun Ec. rewrite Hs. erewrite bind_ok by reflexivity.
    destruct Hcap as (Hp & Hl & Hhd). unfold set_nlmsg_len at 1. rewrite Hhd.
    erewrite bind_ok by reflexivity. cbn [nlmsg_type nlmsg_flags nlmsg_seq nlmsg_pid].
    set (skb' := MkSkb _ _ _ _ _).
    destruct (enqueue_ok k a cb skb' (set_rate r (set_pool p1 s)) t1 Hh)
      as (p2 & t2 & -> & I2 & U2 & Q2 & S2).
    eexists _, t2. split; [reflexivity|]. split_and!; [done..|]. destruct Q as [Qq Qs].
    apply (hook_queued _ _ _ _ _ skb'); cbn [pool set_pool set_queue set_rate cap_skb_queue] in *;
      [done| |lia|congruence|congruence|apply q_tail].
    split; simpl; [done|]. by rewrite Hl.
Qed.

(** ** The transition system *)

(** What holds in every reachable state; [seen] are the packets that went
    through the hook, oldest first. *)
Record cap_inv (seen : list packet) (s : cap_state) (t : list cap_ev) : Prop := {
  ci_pool : pool_inv (pool s) t;
  ci_tab : length (usrtab (utab s)) = MAX_TAB_SIZE;
  (* nothing is lost, duplicated or reordered between queue and client *)
  ci_fifo : queued t = sent t ++ q_elems (cap_skb_queue s);
  (* what is queued are copies of packets seen, in their order *)
  ci_content : ∃ pkts, sublist pkts seen ∧
    Forall2 (λ pkt skb, ∃ p, p ≠ 0 ∧ forwarded p pkt skb) pkts (queued t);
}.

Definition sys : Type := list packet * cap_state * list cap_ev.

(** The kernel calls the handlers one at a time. *)
Inductive cap_step (k : cap_kernel) : sys → sys → Prop :=
| step_hook pkt seen s t v s' t' :
    linear pkt → hook_func_queue pkt k s t = (Ok v, s', t') →
    cap_step k (seen, s, t) (seen ++ [pkt], s', t')
| step_receive buf seen s t s' t' :
    cap_receive buf k s t = (Ok tt, s', t') → cap_step k (seen, s, t) (seen, s', t')
| step_kcapd more seen s t s' t' :
    kcapd_pass k s t = (Ok more, s', t') → cap_step k (seen, s, t) (seen, s', t').

Lemma hook_inv k pkt seen s t v s' t' :
  cap_laws k → linear pkt → hook_func_queue pkt k s t = (Ok v, s', t') →
  cap_inv seen s t → cap_inv (seen ++ [pkt]) s' t'.
Proof.
  intros Hk Hlin E [Hp Ht Hf (pkts & Hsub & Hall)].
  destruct (hook_func_queue_ok k pkt s t Hk Hp Hlin) as [(_ & _ & _ & t1 & E')|(s1 & t1 & E' & Hp' & Hu & Heff)];
    rewrite E' in E; simplify_eq.
  assert (sublist pkts (seen ++ [pkt])) by (by apply sublist_inserts_r).
  destruct Heff as [Hz -> ->|Hin [Hq Hs] Hqe|_ Hin [Hq Hs] Hqe|skb Hport Hfw Hin Hq Hs Hqe].
  - split; [done..|]. by exists pkts.
  - split; [done|by rewrite Hu|by rewrite Hq, Hs, Hqe|]. exists pkts. by rewrite Hq.
  - split; [done|by rewrite Hu|by rewrite Hq, Hs, Hqe|]. exists pkts. by rewrite Hq.
  - split; [done|by rewrite Hu|by rewrite Hq, Hs, Hqe, Hf, app_assoc|].
    exists (pkts ++ [pkt]). rewrite Hq. split; [by apply sublist_app|].
    apply Forall2_app; [done|]. repeat constructor. by exists (cap_nlk_portid s).
Qed.

(** An event of the receive path changes nothing the invariant speaks of. *)
Definition neutral (e : cap_ev) : Prop := (∀ X, live_ev X e = X) ∧ queued [e] = [] ∧ sent [e] = [].

Lemma cap_inv_neutral seen s t e : neutral e → cap_inv seen s t → cap_inv seen s (t ++ [e]).
Proof.
  intros (Hl & Hq & Hs) [Hp Ht Hf Hc]. destruct (quiet_snoc t e Hq Hs) as [Eq Es].
  split; [by apply pool_inv_snoc|done|by rewrite Eq, Es|by rewrite Eq].
Qed.

Lemma preserves_on_utab k seen {A} (f : usertab → option (A * usertab)) :
  (∀ u a u', f u = Some (a, u') → length (usrtab u') = length (usrtab u)) →
  preserves k (cap_inv seen) (on_utab f).
Proof.
  intros Hf s t Hinv. unfold on_utab, bind, get, index, modify, ret, crash.
  destruct (f (utab s)) as [[a u']|] eqn:E; [|done]. simpl.
  destruct Hinv as [Hp Ht Hq Hc]. split; [done| |done..]. simpl. by rewrite (Hf _ _ _ E).
Qed.

Lemma receive_msg_inv k seen nlh h : preserves k (cap_inv seen) (cap_receive_msg nlh h).
Proof.
  assert (∀ g, (∀ s, pool (g s) = pool s) → (∀ s, utab (g s) = utab s) →
    (∀ s, cap_skb_queue (g s) = cap_skb_queue s) → preserves k (cap_inv seen) (modify g)) as Hmod.
  { intros g Hg1 Hg2 Hg3. apply preserves_modify. intros s t [Hp Ht Hq Hc].
    split; [by rewrite Hg1|by rewrite Hg2|by rewrite Hg3|done]. }
  assert (preserves k (cap_inv seen) start_kcapd) as Hstart.
  { unfold start_kcapd. apply preserves_bind; [auto with kmod|]. intros [task|]; [auto with kmod|].
    apply preserves_bind.
    - apply preserves_kcall. intros s t a. by apply cap_inv_neutral.
    - intros [e|task]; (apply preserves_bind; [by apply Hmod|auto with kmod]). }
  assert (∀ g {A} (m : CM A), (∀ s, pool (g s) = pool s) → (∀ s, utab (g s) = utab s) →
    (∀ s, cap_skb_queue (g s) = cap_skb_queue s) → preserves k (cap_inv seen) m →
    preserves k (cap_inv seen) (modify g ;; m ;; ret tt)) as Hcmd.
  { intros g A m Hg1 Hg2 Hg3 Hm. apply preserves_bind; [by apply Hmod|]. intros _.
    apply preserves_bind; [exact Hm|]. intros _. apply preserves_ret. }
  unfold cap_receive_msg. apply preserves_if; [apply preserves_ret|].
  apply preserves_bind; [exact Hstart|]. intros err. apply preserves_if; [apply preserves_ret|].
  apply preserves_bind; [apply preserves_index|]. intros _.
  apply preserves_bind; [|intros _; apply preserves_ret].
  apply preserves_if; [|apply preserves_if; [|apply preserves_ret]].
  - apply Hcmd; [done..|]. apply preserves_on_utab, user_join_length.
  - apply Hcmd; [done..|]. apply preserves_on_utab, user_leave_length.
Qed.

Lemma receive_inv k seen buf : preserves k (cap_inv seen) (cap_receive buf).
Proof.
  unfold cap_receive, cap_receive_skb. apply preserves_bind; [|auto with kmod].
  apply preserves_bind; [|auto with kmod].
  apply preserves_walk; [|apply receive_msg_inv]. intros. by apply cap_inv_neutral.
Qed.

(** ** The sending thread *)

(** The answer [netlink_unicast] gives for [skb]. *)
Definition unicast_answer (k : cap_kernel) (skb : sk_buff) (s : cap_state) (t : list cap_ev) : Z :=
  k_unicast k (t ++ [EvSkbGet (sk_id skb)]) skb (u32 (cap_nlk_portid s)).

Lemma kcapd_send_reply_eq k skb s t :
  let err := unicast_answer k skb s t in
  let t' := (t ++ [EvSkbGet (sk_id skb)]) ++ [EvUnicast skb (u32 (cap_nlk_portid s)) err] in
  kcapd_send_reply skb k s t =
    if err <? 0 then
      if err =? - ECONNREFUSED then (Ok tt, set_portid 0 s, t') else (Crash BugOn, s, t')
    else (Ok tt, s, t' ++ [EvConsumeSkb (sk_id skb)]).
Proof.
  unfold kcapd_send_reply, bind, emit, get, kcall, modify, crash, ret, unicast_answer.
  split_matches; reflexivity.
Qed.

Lemma sent_app t1 t2 : sent (t1 ++ t2) = sent t1 ++ sent t2.
Proof. apply omap_app. Qed.

Lemma queued_app t1 t2 : queued (t1 ++ t2) = queued t1 ++ queued t2.
Proof. apply omap_app. Qed.

(** One pass over a non-empty queue: the oldest message goes out. *)
Lemma kcapd_pass_cons k s t skb rest :
  q_elems (cap_skb_queue s) = skb :: rest →
  (∃ s' t' t1 p, kcapd_pass k s t = (Crash BugOn, s', t') ∧
    k_unicast k t1 skb p < 0 ∧ k_unicast k t1 skb p ≠ - ECONNREFUSED) ∨
  (∃ q' p' ev, kcapd_pass k s t = (Ok true, set_portid p' (set_queue q' s), t ++ ev) ∧
    q_elems q' = rest ∧ sent ev = [skb] ∧ queued ev = [] ∧ Forall (λ e, ∀ X, live_ev X e = X) ev ∧
    (p' = cap_nlk_portid s ∨ p' = 0)).
Proof.
  intros Hq. destruct (q_deq_cons _ _ _ Hq) as [Hd Hr]. unfold kcapd_pass.
  erewrite bind_ok by reflexivity. erewrite bind_ok by reflexivity. rewrite Hd.
  erewrite bind_ok by reflexivity. erewrite bind_ok by reflexivity.
  set (s1 := set_queue (skb_dequeue (cap_skb_queue s)).2 s).
  assert (∃ w, (w = [] ∨ w = [EvWakeBacklog]) ∧
    (if u32 (skb_queue_len (cap_skb_queue s1)) <=? cap_backlog_limit s1
     then emit EvWakeBacklog else ret tt) k s1 t = (Ok tt, s1, t ++ w)) as (w & Hw & Ew).
  { destruct (_ <=? _); [exists [EvWakeBacklog]|exists []]; (split; [tauto|]); [done|].
    unfold ret. by rewrite app_nil_r. }
  mrun Ew. pose proof (kcapd_send_reply_eq k skb s1 (t ++ w)) as Es. cbv zeta in Es.
  set (err := unicast_answer k skb s1 (t ++ w)) in *.
  destruct (err <? 0) eqn:Hneg; [destruct (err =? - ECONNREFUSED) eqn:Href|]; zbool.
  - right. mrun Es. exists (skb_dequeue (cap_skb_queue s)).2, 0,
      (w ++ [EvSkbGet (sk_id skb); EvUnicast skb (u32 (cap_nlk_portid s1)) err]).
    split; [unfold ret; by rewrite <-!app_assoc|].
    split_and!; [done|..]; destruct Hw as [-> | ->]; try done; repeat constructor; tauto.
  - left. rewrite (bind_crash _ _ _ _ _ _ _ _ Es). eexists _, _, _, _. split; [done|]. exact (conj Hneg Href).
  - right. mrun Es. exists (skb_dequeue (cap_skb_queue s)).2, (cap_nlk_portid s),
      (w ++ [EvSkbGet (sk_id skb); EvUnicast skb (u32 (cap_nlk_portid s1)) err; EvConsumeSkb (sk_id skb)]).
    split; [unfold ret; by rewrite <-!app_assoc|].
    split_and!; [done|..]; destruct Hw as [-> | ->]; try done; repeat constructor; tauto.
Qed.

Lemma kcapd_pass_nil k s t :
  q_elems (cap_skb_queue s) = [] → kcapd_pass k s t = (Ok false, s, t).
Proof.
  intros Hq. unfold kcapd_pass, bind, get, modify, ret. rewrite (q_deq_nil _ Hq). simpl.
  by destruct s.
Qed.

Lemma pool_inv_app p t ev :
  Forall (λ e, ∀ X, live_ev X e = X) ev → pool_inv p t → pool_inv p (t ++ ev).
Proof.
  intros Hev. revert t. induction Hev as [|e ev He _ IH]; intros t Hp.
  { by rewrite app_nil_r. }
  rewrite (app_assoc t [e] ev : t ++ e :: ev = _). apply IH. by apply pool_inv_snoc.
Qed.

Lemma kcapd_inv k seen s t more s' t' :
  kcapd_pass k s t = (Ok more, s', t') → cap_inv seen s t → cap_inv seen s' t'.
Proof.
  intros E [Hp Ht Hf Hc]. destruct (q_elems (cap_skb_queue s)) as [|skb rest] eqn:Hq.
  { rewrite (kcapd_pass_nil k s t Hq) in E. simplify_eq. split; [done..|by rewrite Hq|done]. }
  destruct (kcapd_pass_cons k s t skb rest Hq)
    as [(s1 & t1 & _ & _ & E' & _)|(q' & p' & ev & E' & Hq' & Hs & Hqd & Hev & _)]; rewrite E' in E; simplify_eq.
  split; [by apply pool_inv_app|done|..]; rewrite queued_app, Hqd, app_nil_r; [|done].
  rewrite sent_app, Hs, Hf. by rewrite <-app_assoc.
Qed.

(** ** Reachable states *)

Lemma step_inv k x y :
  cap_laws k → cap_step k x y → cap_inv x.1.1 x.1.2 x.2 → cap_inv y.1.1 y.1.2 y.2.
Proof.
  intros Hk Hstep. destruct Hstep as [pkt seen s t v s' t' Hl E|buf seen s t s' t' E|more seen s t s' t' E]; simpl.
  - by eapply hook_inv.
  - intros Hinv. pose proof (receive_inv k seen buf s t Hinv) as Hr. simpl in Hr. by rewrite E in Hr.
  - by eapply kcapd_inv.
Qed.

Lemma app_init_inv k r s t :
  app_init k cap_state0 [] = (Ok r, s, t) → cap_inv [] s t ∧ (r = 0 ∨ r = - ENOMEM).
Proof.
  unfold app_init, kcall. unfold bind at 1. set (sock := k_kernel_create k []). cbv zeta.
  erewrite bind_ok by reflexivity.
  assert (∀ sock', cap_inv [] (set_sock sock' cap_state0) ([] ++ [EvKernelCreate sock])) as H0'.
  { intros sock'. apply cap_inv_neutral; [done|]. split; simpl.
    - split; unfold free_elems; simpl; rewrite ?lh_init; try done; [constructor|].
      intros a Ha. by apply elem_of_nil in Ha.
    - done.
    - by rewrite q_init.
    - by exists []. }
  destruct sock as [sk|] eqn:Hs.
  - destruct (usertab_init_spec (utab cap_state0)) as (u' & Hi & _ & _ & Htab); [apply length_replicate|].
    assert (on_utab (λ u, u' ← usertab_init u; Some (tt, u')) k (set_sock (Some sk) cap_state0)
      ([] ++ [EvKernelCreate (Some sk)]) = (Ok tt, set_utab u' (set_sock (Some sk) cap_state0),
      ([] ++ [EvKernelCreate (Some sk)]))) as Eu.
    { unfold on_utab, bind, get, index, modify, ret. cbn [utab set_sock]. by rewrite Hi. }
    mrun Eu. unfold cap_hook_init, bind, emit, modify, ret. intros [= <- <- <-]. split; [|by left].
    change [?e; ?e'] with ([] ++ [e] ++ [e']). rewrite app_assoc.
    apply cap_inv_neutral; [done|].
    destruct (H0' (Some sk)) as [Hp Ht Hf Hc]. split; [exact Hp| |simpl; by rewrite q_init|exact Hc].
    simpl. by rewrite Htab, length_replicate.
  - intros [= <- <- <-]. split; [apply H0'|by right].
Qed.

Lemma reachable_inv k r s0 t0 seen s t :
  cap_laws k → app_init k cap_state0 [] = (Ok r, s0, t0) →
  rtc (cap_step k) ([], s0, t0) (seen, s, t) → cap_inv seen s t.
Proof.
  intros Hk Hinit Hsteps. destruct (app_init_inv k r s0 t0 Hinit) as [Hinv _].
  apply (rtc_invariant (cap_step k) (λ x : sys, cap_inv x.1.1 x.1.2 x.2) _ _
    (λ x y Hxy, step_inv k x y Hk Hxy) Hsteps Hinv).
Qed.

(** ** References to a message *)

(** References held on the socket buffer [id]: [nlmsg_new] creates one,
    [skb_get] adds one, [kfree_skb], [consume_skb] and [netlink_unicast] (in
    every case) take one. *)
Definition ref_change (id : Z) (e : cap_ev) : Z :=
  match e with
  | EvNlmsgNew (Some skb) => if sk_id skb =? id then 1 else 0
  | EvSkbGet i => if i =? id then 1 else 0
  | EvKfreeSkb i | EvConsumeSkb i => if i =? id then -1 else 0
  | EvUnicast skb _ _ => if sk_id skb =? id then -1 else 0
  | _ => 0
  end.

Definition skb_refs (id : Z) (t : list cap_ev) : Z := foldr (λ e n, ref_change id e + n) 0 t.

Lemma skb_refs_snoc id t e : skb_refs id (t ++ [e]) = skb_refs id t + ref_change id e.
Proof. unfold skb_refs. induction t as [|e' t IH]; simpl in *; lia. Qed.

(** ** Commands *)

(** The client the hook sends to after the command [h]. *)
Definition portid_after (p : Z) (h : nlmsghdr) : Z :=
  if nlmsg_type h =? CAP_ADD then s32 (nlmsg_pid h)
  else if nlmsg_type h =? CAP_DEL then 0 else p.

(** What the command [h] does to the client table. *)
Definition op_of (h : nlmsghdr) : option tab_op :=
  if nlmsg_type h =? CAP_ADD then Some (Join (s32 (nlmsg_pid h)))
  else if nlmsg_type h =? CAP_DEL then Some (Leave (s32 (nlmsg_pid h))) else None.

(** The acknowledgement [h] is answered with. *)
Definition ack_of (h : nlmsghdr) : list cap_ev :=
  let err := cap_netlink_ok (nlmsg_type h) in
  if negb (err =? 0) || negb (Z.land (nlmsg_flags h) NLM_F_ACK =? 0) then [EvAck h err] else [].

(** A state in which commands are handled without touching anything else. *)
Definition cmd_ready (task : Z) (s : cap_state) : Prop :=
  kcapd_task s = Some task ∧ length (usrtab (utab s)) = MAX_TAB_SIZE.

Lemma tab_do_total o u : length (usrtab u) = MAX_TAB_SIZE →
  ∃ r u', tab_do o u = Some (r, u') ∧ length (usrtab u') = MAX_TAB_SIZE.
Proof.
  intros Hlen. destruct o as [p|p]; simpl.
  - destruct (user_join_total p u Hlen) as (r & u' & E). exists r, u'. split; [done|].
    by rewrite (user_join_length _ _ _ _ E).
  - destruct (user_leave_total p u Hlen) as (r & u' & E). exists r, u'. split; [done|].
    by rewrite (user_leave_length _ _ _ _ E).
Qed.

Lemma cap_receive_msg_ok k task nlh h s t :
  cmd_ready task s → is_Some (cstr (drop 16 nlh)) →
  ∃ rs u, tab_run (option_list (op_of h)) (utab s) = Some (rs, u) ∧ cap_receive_msg nlh h k s t =
      (Ok (cap_netlink_ok (nlmsg_type h)), set_utab u (set_portid (portid_after (cap_nlk_portid s) h) s), t) ∧
    length (usrtab u) = MAX_TAB_SIZE.
Proof.
  intros [Htask Hlen] [str Hstr].
  assert (start_kcapd k s t = (Ok 0, s, t)) as Est.
  { unfold start_kcapd, bind, get. by rewrite Htask. }
  assert (set_utab (utab s) (set_portid (cap_nlk_portid s) s) = s) as Hid by (by destruct s).
  unfold cap_receive_msg, cap_netlink_ok, portid_after, op_of. cbv zeta.
  destruct (nlmsg_type h =? CAP_ADD) eqn:Hadd; [|destruct (nlmsg_type h =? CAP_DEL) eqn:Hdel;
    [|destruct (nlmsg_type h =? CAP_GET_PACKET) eqn:Hget]];
    change (negb (0 =? 0)) with false; change (negb (- EINVAL =? 0)) with true; cbv iota.
  4: { exists [], (utab s). by rewrite Hid. }
  all: mrun Est; change (negb (0 =? 0)) with false; cbv iota; rewrite Hstr; erewrite bind_ok by reflexivity.
  - destruct (tab_do_total (Join (s32 (nlmsg_pid h))) (utab s) Hlen) as (r & u & Eu & Hu). exists [r], u.
    simpl in Eu. split; [simpl; by rewrite Eu|]. rewrite bind_assoc. erewrite bind_ok by reflexivity.
    unfold on_utab, bind, get. simpl. by rewrite Eu.
  - destruct (tab_do_total (Leave (s32 (nlmsg_pid h))) (utab s) Hlen) as (r & u & Eu & Hu). exists [r], u.
    simpl in Eu. split; [simpl; by rewrite Eu|]. rewrite bind_assoc. erewrite bind_ok by reflexivity.
    unfold on_utab, bind, get. simpl. by rewrite Eu.
  - exists [], (utab s). by rewrite Hid.
Qed.

Lemma receive_all_ok k task xs ms s t :
  Forall2 found xs ms → Forall (λ m, is_Some (cstr m.2)) ms → cmd_ready task s →
  ∃ rs u, tab_run (omap op_of ms.*1) (utab s) = Some (rs, u) ∧ receive_all EvAck cap_receive_msg xs k s t =
      (Ok tt, set_utab u (set_portid (foldl portid_after (cap_nlk_portid s) ms.*1) s),
       t ++ concat (ack_of <$> ms.*1)) ∧
    length (usrtab u) = MAX_TAB_SIZE.
Proof.
  intros Hf. revert s t. induction Hf as [|x [h p] xs ms [rest ->] _ IH]; intros s t Hstr Hrdy.
  { exists [], (utab s). simpl. rewrite app_nil_r. destruct s, Hrdy. done. }
  apply Forall_cons in Hstr as [Hp Hstr]. cbn [receive_all fst snd] in *.
  assert (is_Some (cstr (drop 16 (enc_hdr h ++ p ++ rest)))) as Hc.
  { rewrite (drop_app_length' _ _ 16) by (by rewrite length_enc_hdr).
    destruct Hp as [str (Hn & post & ->)%cstr_Some]. rewrite <-app_assoc. simpl.
    rewrite cstr_app by done. eauto. }
  destruct (cap_receive_msg_ok k task _ h s t Hrdy Hc) as (rs & u & Hrun & E & Hu).
  set (s1 := set_utab u _) in *.
  assert (receive_one EvAck cap_receive_msg (enc_hdr h ++ p ++ rest) h k s t =
    (Ok tt, s1, t ++ ack_of h)) as E1.
  { unfold receive_one. mrun E. unfold ack_of. destruct (_ || _); [done|]. by rewrite app_nil_r. }
  mrun E1. destruct (IH s1 (t ++ ack_of h) Hstr) as (rs' & u' & Hrun' & E' & Hu').
  { by destruct Hrdy. }
  change (omap op_of (((h, p) :: ms).*1)) with (omap op_of (h :: ms.*1)).
  assert (tab_run (omap op_of (h :: ms.*1)) (utab s) = Some (rs ++ rs', u')) as Hall.
  { simpl. destruct (op_of h) as [o|]; simpl in Hrun |- *.
    - destruct (tab_do o (utab s)) as [[r u1]|]; simplify_eq/=. by rewrite Hrun'.
    - simplify_eq/=. exact Hrun'. }
  exists (rs ++ rs'), u'. split; [exact Hall|]. rewrite E'. split; [|done]. simpl. by rewrite <-app_assoc.
Qed.

(** ** Properties *)

(** What reaches the client.  From module load on, under any interleaving
    of hook, command and thread steps, the messages handed to
    [netlink_unicast] followed by those still queued are exactly the messages
    queued by the hook, in order; and the messages sent carry unmodified
    copies of captured packets, in the order the packets came, none twice. *)
Theorem capture_delivery k s0 t0 seen s t :
  cap_laws k → app_init k cap_state0 [] = (Ok 0, s0, t0) →
  rtc (cap_step k) ([], s0, t0) (seen, s, t) →
  queued t = sent t ++ q_elems (cap_skb_queue s) ∧
  ∃ pkts, sublist pkts seen ∧
    Forall2 (λ pkt skb, ∃ p, p ≠ 0 ∧ forwarded p pkt skb) pkts (sent t).
Proof.
  intros Hk Hinit Hsteps. destruct (reachable_inv _ _ _ _ _ _ _ Hk Hinit Hsteps) as [_ _ Hf (pkts & Hsub & Hall)].
  split; [done|]. rewrite Hf in Hall. apply Forall2_app_inv_r in Hall as (p1 & p2 & Hall & _ & ->).
  exists p1. split; [|done]. etrans; [|exact Hsub]. by apply sublist_inserts_r.
Qed.

(** The capture-buffer pool.  In every reachable state the counter equals
    the length of the free list and is at most [CAP_MAXFREE], the free list
    holds distinct live buffers without a socket buffer attached, and the
    memory in use is exactly what [kmalloc] handed out and [kfree] did not
    take back. *)
Theorem capture_pool_invariant k s0 t0 seen s t :
  cap_laws k → app_init k cap_state0 [] = (Ok 0, s0, t0) →
  rtc (cap_step k) ([], s0, t0) (seen, s, t) → pool_inv (pool s) t.
Proof. intros Hk Hinit Hsteps. by destruct (reachable_inv _ _ _ _ _ _ _ Hk Hinit Hsteps). Qed.

(** The thread empties its queue.  If every send is either accepted or
    refused because the client is gone, and nobody asks the thread to stop,
    then from any state, given as many passes as there are messages plus one,
    it sends all queued messages in order and goes to sleep on an empty
    queue, leaving the capture buffers untouched. *)
Theorem kcapd_drains k s t fuel :
  (∀ t skb p, 0 ≤ k_unicast k t skb p ∨ k_unicast k t skb p = - ECONNREFUSED) →
  (∀ t, k_should_stop k t = false) →
  (length (q_elems (cap_skb_queue s)) < fuel)%nat →
  ∃ s' t', kcapd_thread fuel k s t = (Ok None, s', t') ∧
    q_elems (cap_skb_queue s') = [] ∧ sent t' = sent t ++ q_elems (cap_skb_queue s) ∧
    queued t' = queued t ∧ pool s' = pool s.
Proof.
  intros Hsend Hstop. revert s t. induction fuel as [|fuel IH]; intros s t Hlen; [lia|].
  cbn [kcapd_thread]. erewrite bind_ok by reflexivity. rewrite Hstop.
  destruct (q_elems (cap_skb_queue s)) as [|skb rest] eqn:Hq.
  { rewrite (bind_ok _ _ _ _ _ _ _ _ (kcapd_pass_nil k s t Hq)).
    exists s, t. split; [done|]. by rewrite app_nil_r. }
  destruct (kcapd_pass_cons k s t skb rest Hq)
    as [(s1 & t1 & t2 & p & _ & Hd1 & Hd2)|(q' & p' & ev & E' & Hq' & Hs & Hqd & _)].
  { destruct (Hsend t2 skb p); lia. }
  mrun E'. destruct (IH (set_portid p' (set_queue q' s)) (t ++ ev)) as (s2 & t2 & E2 & Hd1 & Hd2 & Hd3 & Hd4).
  { simpl in *. rewrite Hq'. lia. }
  exists s2, t2. split_and!; [done|done|..].
  - rewrite Hd2, sent_app, Hs. simpl. by rewrite Hq', <-app_assoc.
  - by rewrite Hd3, queued_app, Hqd, app_nil_r.
  - done.
Qed.


(** C31: with the rate limiter off (its initial setting) the hook keeps no
    capture buffer: on a linear packet it either dereferences the null pointer
    of a failed [kmalloc] or accepts the packet with as many buffers in use as
    before. *)
Theorem hook_conserves_buffers k pkt s t :
  cap_laws k → pool_inv (pool s) t → linear pkt → cap_rate_limit s = 0 →
  (∃ s' t', hook_func_queue pkt k s t = (Crash NullDeref, s', t') ∧ k_kmalloc k t = None) ∨
  (∃ s' t', hook_func_queue pkt k s t = (Ok NF_ACCEPT, s', t') ∧
    pool_inv (pool s') t' ∧ in_use (pool s') = in_use (pool s)).
Proof.
  intros Hk Hinv Hlin Hoff.
  destruct (hook_func_queue_ok k pkt s t Hk Hinv Hlin) as [(_ & _ & Hm & t' & E)|(s' & t' & E & Hp & _ & Heff)].
  - left. eauto.
  - right. exists s', t'. split_and!; [done|done|]. by destruct Heff as [? -> ->|?|?|? ?].
Qed.

(** A packet refused by the rate limiter leaks its capture buffer.  When
    a buffer was obtained for the packet and the limiter says no, the hook
    returns with the buffer and its message still allocated and not on the
    free list: one more buffer is in use for good. *)
Theorem hook_limited_leaks k pkt s t a s1 t1 :
  cap_laws k → pool_inv (pool s) t → linear pkt → cap_nlk_portid s ≠ 0 →
  cap_buffer_alloc pkt 0 GFP_KERNEL NLMSG_DONE k s t = (Ok (Some a), s1, t1) →
  (cap_rate_check (k_long_bits k) (k_HZ k) (cap_rate_limit s) (k_jiffies k t1) (cap_rate s)).1 = 0 →
  ∃ s' cb skb, hook_func_queue pkt k s t = (Ok NF_ACCEPT, s', t1) ∧
    holds a cb (pool s') t1 ∧ cb_skb cb = Some skb ∧ in_use (pool s') = in_use (pool s) + 1.
Proof.
  intros Hk Hinv [Hlen H12] Hport Ea Hrate.
  destruct (cap_buffer_alloc_ok k pkt 0 GFP_KERNEL NLMSG_DONE s t Hk Hinv Hlen)
    as [(_ & _ & t' & E)|[(p' & t' & E & _)|(a' & cb & skb & p1 & t' & E & Hh & Hs & _ & U & _)]];
    rewrite E in Ea; simplify_eq.
  unfold hook_func_queue.
  assert (∃ bs, print_head pkt k s t = (Ok bs, s, t)) as [bs Eh].
  { unfold print_head, slice. rewrite decide_True by lia. by eexists. }
  mrun Eh. erewrite bind_ok by reflexivity. rewrite (proj2 (Z.eqb_neq _ _) Hport). mrun E.
  set (r := cap_rate_check (k_long_bits k) (k_HZ k) (cap_rate_limit s) (k_jiffies k t1) (cap_rate s)) in *.
  assert (do_rate_check k (set_pool p1 s) t1 = (Ok r.1, set_rate r.2 (set_pool p1 s), t1)) as Er by done.
  mrun Er. rewrite Hrate. eexists _, cb, skb. split; [reflexivity|]. done.
Qed.

(** C14: commands.  Once the thread runs, a buffer of well-formed commands
    whose payloads are strings is handled completely.  The client the hook
    sends to becomes the one of the last [CAP_ADD] not followed by a [CAP_DEL];
    the table goes through the [user_join] of every [CAP_ADD] and the
    [user_leave] of every [CAP_DEL] in order, which, as long as the pids are
    not 0, are insertion into and removal from a bounded multiset; each command
    with a bad type or an acknowledgement request is answered (with [-EINVAL]
    or 0), in order, and nothing else is sent; no other global changes. *)
Theorem cap_receive_commands k task ms s t :
  Forall nlmsg_wf ms → Forall (λ m, is_Some (cstr m.2)) ms → cmd_ready task s →
  ∃ rs u, tab_run (omap op_of ms.*1) (utab s) = Some (rs, u) ∧
    cap_receive_skb (concat (nlmsg_bytes <$> ms)) k s t =
      (Ok 0, set_utab u (set_portid (foldl portid_after (cap_nlk_portid s) ms.*1) s),
       t ++ concat (ack_of <$> ms.*1)) ∧
    ∀ d, tab_ok d (utab s) → Forall (λ o, op_pid o ≠ 0) (omap op_of ms.*1) →
      bag_run (MAX_TAB_SIZE - d) (omap op_of ms.*1) (clients (utab s)) = (rs, clients u).
Proof.
  intros Hms Hstr Hrdy. pose proof (nlmsgs_concat ms Hms) as Hf. cbv zeta in Hf.
  destruct (receive_all_ok k task _ ms s t Hf Hstr Hrdy) as (rs & u & Hrun & E & Hu).
  unfold cap_receive_skb. rewrite <-walk_receive_all in E by lia. mrun E.
  exists rs, u. split; [done|]. split; [done|]. intros d Hok Hpid.
  destruct (tab_run_refines d _ (utab s) Hok Hpid) as (rs' & u' & Hrun' & _ & Hbag).
  rewrite Hrun in Hrun'. by simplify_eq.
Qed.

(** A failed allocation is fatal.  When a client is registered, the free
    list is empty and [kmalloc] fails, the inverted null test of
    [cap_buffer_free] dereferences the null pointer. *)
Theorem hook_kmalloc_failure k pkt s t :
  cap_laws k → pool_inv (pool s) t → linear pkt → cap_nlk_portid s ≠ 0 →
  free_elems (pool s) = [] → k_kmalloc k t = None →
  ∃ t', hook_func_queue pkt k s t = (Crash NullDeref, s, t').
Proof.
  intros Hk Hinv [Hlen H12] Hport He Hm. unfold hook_func_queue.
  assert (∃ bs, print_head pkt k s t = (Ok bs, s, t)) as [bs Eh].
  { unfold print_head, slice. rewrite decide_True by lia. by eexists. }
  mrun Eh. erewrite bind_ok by reflexivity. rewrite (proj2 (Z.eqb_neq _ _) Hport).
  pose proof (take_free_ok k s t Hinv) as Htake. rewrite He in Htake.
  eexists. apply bind_crash. unfold cap_buffer_alloc. mrun Htake.
  unfold new_cb, bind, kcall. by rewrite Hm.
Qed.
End System.

(** ** Witnesses *)

(** Client 42 registers, one packet is captured and sent. *)
Definition demo_add : list Z := nlmsg_bytes (MkHdr 20 CAP_ADD NLM_F_ACK 1 42, [104; 105; 0; 0]).
Definition demo_pkt : packet := MkPkt [69; 0; 0; 20; 1; 2; 3; 4; 5; 6; 7; 8; 9] 0.

Definition demo_init := app_init demo_kernel cap_state0 [].
Definition demo_s0 : cap_state := demo_init.1.2.
Definition demo_t0 : list cap_ev := demo_init.2.

Lemma demo_init_eq : app_init demo_kernel cap_state0 [] = (Ok 0, demo_s0, demo_t0).
Proof. vm_compute. reflexivity. Qed.

Definition demo_registered := cap_receive demo_add demo_kernel demo_s0 demo_t0.
Definition demo_s1 : cap_state := demo_registered.1.2.
Definition demo_t1 : list cap_ev := demo_registered.2.

Definition demo_captured := hook_func_queue demo_pkt demo_kernel demo_s1 demo_t1.
Definition demo_s2 : cap_state := demo_captured.1.2.
Definition demo_t2 : list cap_ev := demo_captured.2.

Definition demo_sent := kcapd_pass demo_kernel demo_s2 demo_t2.
Definition demo_s3 : cap_state := demo_sent.1.2.
Definition demo_t3 : list cap_ev := demo_sent.2.

Lemma demo_linear : linear demo_pkt.
Proof. split; vm_compute; congruence. Qed.

Lemma demo_run1 : rtc (cap_step demo_kernel) ([], demo_s0, demo_t0) ([], demo_s1, demo_t1).
Proof. apply rtc_once, (step_receive _ demo_add). vm_compute. reflexivity. Qed.

Lemma demo_run : rtc (cap_step demo_kernel) ([], demo_s0, demo_t0) ([demo_pkt], demo_s3, demo_t3).
Proof.
  etrans; [apply demo_run1|].
  eapply rtc_l; [apply (step_hook _ demo_pkt [] _ _ NF_ACCEPT demo_s2 demo_t2 demo_linear); vm_compute; reflexivity|].
  apply rtc_once, (step_kcapd _ true). vm_compute. reflexivity.
Qed.

Lemma capture_delivery_witness :
  (queued demo_t3 = sent demo_t3 ++ q_elems (cap_skb_queue demo_s3) ∧
  ∃ pkts, sublist pkts [demo_pkt] ∧
    Forall2 (λ pkt skb, ∃ p, p ≠ 0 ∧ forwarded p pkt skb) pkts (sent demo_t3)) ∧
  length (sent demo_t3) = 1%nat.
Proof.
  split; [|vm_compute; reflexivity].
  exact (capture_delivery demo_kernel demo_s0 demo_t0 [demo_pkt] demo_s3 demo_t3 demo_laws demo_init_eq demo_run).
Defined.

Lemma capture_pool_invariant_witness : pool_inv (pool demo_s3) demo_t3.
Proof.
  exact (capture_pool_invariant demo_kernel demo_s0 demo_t0 [demo_pkt] demo_s3 demo_t3 demo_laws demo_init_eq demo_run).
Defined.

Lemma demo_pool1 : pool_inv (pool demo_s1) demo_t1.
Proof. exact (ci_pool _ _ _ (reachable_inv _ _ _ _ _ _ _ demo_laws demo_init_eq demo_run1)). Qed.

Lemma kcapd_drains_witness :
  ∃ s' t', kcapd_thread 2 demo_kernel demo_s2 demo_t2 = (Ok None, s', t') ∧
    q_elems (cap_skb_queue s') = [] ∧ sent t' = sent demo_t2 ++ q_elems (cap_skb_queue demo_s2) ∧
    queued t' = queued demo_t2 ∧ pool s' = pool demo_s2.
Proof.
  refine (kcapd_drains demo_kernel demo_s2 demo_t2 2 _ _ _).
  - intros t skb p. left. vm_compute. congruence.
  - reflexivity.
  - vm_compute. lia.
Defined.

Definition demo_skb : sk_buff := MkSkb 7 2016 None [] 0.


Lemma hook_conserves_buffers_witness :
  (∃ s' t', hook_func_queue demo_pkt demo_kernel demo_s1 demo_t1 = (Crash NullDeref, s', t') ∧
    k_kmalloc demo_kernel demo_t1 = None) ∨
  (∃ s' t', hook_func_queue demo_pkt demo_kernel demo_s1 demo_t1 = (Ok NF_ACCEPT, s', t') ∧
    pool_inv (pool s') t' ∧ in_use (pool s') = in_use (pool demo_s1)).
Proof.
  refine (hook_conserves_buffers demo_kernel demo_pkt demo_s1 demo_t1 demo_laws demo_pool1 demo_linear _).
  vm_compute. reflexivity.
Defined.

(** The same module with a limit of one packet per second. *)
Definition with_limit (n : Z) (s : cap_state) : cap_state :=
  MkCap (cap_nlk_portid s) (utab s) (pool s) (cap_skb_queue s) (kcapd_task s) (cap_rate s) n
    (cap_backlog_limit s) (cap_sock s).

Definition demo_alloc :=
  cap_buffer_alloc demo_pkt 0 GFP_KERNEL NLMSG_DONE demo_kernel (with_limit 1 demo_s1) demo_t1.

Lemma hook_limited_leaks_witness :
  ∃ s' cb skb, hook_func_queue demo_pkt demo_kernel (with_limit 1 demo_s1) demo_t1
      = (Ok NF_ACCEPT, s', demo_alloc.2) ∧
    holds 0 cb (pool s') demo_alloc.2 ∧ cb_skb cb = Some skb ∧
    in_use (pool s') = in_use (pool (with_limit 1 demo_s1)) + 1.
Proof.
  refine (hook_limited_leaks demo_kernel demo_pkt (with_limit 1 demo_s1) demo_t1 0 demo_alloc.1.2 demo_alloc.2
    demo_laws demo_pool1 demo_linear _ _ _); vm_compute; congruence.
Defined.

(** [kcapd] is running in [demo_s1]. *)
Lemma cap_receive_commands_witness :
  ∃ rs u, tab_run (omap op_of demo_msgs.*1) (utab demo_s1) = Some (rs, u) ∧
    cap_receive_skb (concat (nlmsg_bytes <$> demo_msgs)) demo_kernel demo_s1 [] =
      (Ok 0, set_utab u (set_portid (foldl portid_after (cap_nlk_portid demo_s1) demo_msgs.*1) demo_s1),
       [] ++ concat (ack_of <$> demo_msgs.*1)) ∧
    ∀ d, tab_ok d (utab demo_s1) → Forall (λ o, op_pid o ≠ 0) (omap op_of demo_msgs.*1) →
      bag_run (MAX_TAB_SIZE - d) (omap op_of demo_msgs.*1) (clients (utab demo_s1)) = (rs, clients u).
Proof.
  refine (cap_receive_commands demo_kernel 1 demo_msgs demo_s1 [] demo_msgs_wf _ _).
  - repeat constructor; vm_compute; eauto.
  - split; vm_compute; reflexivity.
Defined.

(** The same kernel out of memory. *)
Definition oom_kernel : cap_kernel := {|
  k_kmalloc _ := None; k_nlmsg_new := k_nlmsg_new demo_kernel; k_nlmsg_put := k_nlmsg_put demo_kernel;
  k_jiffies := k_jiffies demo_kernel; k_unicast := k_unicast demo_kernel;
  k_kthread_run := k_kthread_run demo_kernel; k_kernel_create := k_kernel_create demo_kernel;
  k_should_stop := k_should_stop demo_kernel; k_HZ := 250; k_long_bits := 32;
|}.

Lemma oom_laws : cap_laws oom_kernel.
Proof. destruct demo_laws as [_ Hnew Hput Hrun]. split; [done|exact Hnew|exact Hput|exact Hrun]. Qed.

Lemma hook_kmalloc_failure_witness :
  ∃ t', hook_func_queue demo_pkt oom_kernel demo_s1 demo_t1 = (Crash NullDeref, demo_s1, t').
Proof.
  refine (hook_kmalloc_failure oom_kernel demo_pkt demo_s1 demo_t1 oom_laws demo_pool1 demo_linear _ _ _);
    vm_compute; congruence.
Defined.
