(* ===== verification/CapTypes.v ===== *)
(** * Ranges of the capture module's globals ([src/netlink/netlink.c])

    The model keeps C integers as [Z].  In every reachable state each global
    lies in the range of its C type, arrays keep their length, and the messages
    on the send queue have well-formed headers. *)

From S2P Require Import Prelude Bytes Nlmsg UserTab RateCheck CapState CapPool Capture CapSystem.

Definition int_range (z : Z) : Prop := - 2 ^ 31 ≤ z < 2 ^ 31.

Record tab_typed (u : usertab) : Prop := {
  tt_size : length (usrtab u) = MAX_TAB_SIZE;
  tt_count : 0 ≤ usrcnt u ≤ Z.of_nat MAX_TAB_SIZE;
  tt_pids : Forall (λ c, int_range (pid c)) (usrtab u);
}.

Record rate_typed (W : Z) (r : rate) : Prop := {
  rt_last : 0 ≤ last_check r < 2 ^ W;
  rt_packets : int_range (packets r);
}.

(** ** The client table *)

Lemma slot_loop_pids n i key new tab tab' :
  int_range new → slot_loop n i key new tab = Some (Some tab') →
  Forall (λ c, int_range (pid c)) tab → Forall (λ c, int_range (pid c)) tab'.
Proof.
  intros Hnew. revert i. induction n as [|n IH]; intros i; simpl; [done|].
  destruct (tab !! i) as [c|]; [|done]. destruct (pid c =? key); [|apply IH].
  intros [= <-] Hf. by apply Forall_insert.
Qed.

Lemma user_join_typed p u r u' :
  int_range p → user_join p u = Some (r, u') → tab_typed u → tab_typed u'.
Proof.
  intros Hp E [H1 H2 H3]. pose proof (user_join_length _ _ _ _ E) as Hl. unfold user_join in E.
  destruct (_ <=? _) eqn:Hc; [by simplify_eq|]. zbool.
  destruct (slot_loop _ _ _ _ _) as [[tab|]|] eqn:Es; [|by injection E as <- <-|done].
  pose proof (slot_loop_pids _ _ _ _ _ _ Hp Es H3) as Hf. clear Es. injection E as <- <-.
  split; [by rewrite Hl|cbn [usrcnt]; rewrite s32_small; unfold MAX_TAB_SIZE in *; lia|done].
Qed.

Lemma user_leave_typed p u r u' : user_leave p u = Some (r, u') → tab_typed u → tab_typed u'.
Proof.
  intros E [H1 H2 H3]. pose proof (user_leave_length _ _ _ _ E) as Hl. unfold user_leave in E.
  destruct (_ <=? _) eqn:Hc; [by simplify_eq|]. zbool.
  destruct (slot_loop _ _ _ _ _) as [[tab|]|] eqn:Es; [|by injection E as <- <-|done].
  assert (int_range 0) as H0 by (unfold int_range; lia).
  pose proof (slot_loop_pids _ _ _ _ _ _ H0 Es H3) as Hf. clear Es. injection E as <- <-.
  split; [by rewrite Hl|cbn [usrcnt]; rewrite s32_small; unfold MAX_TAB_SIZE in *; lia|done].
Qed.

Lemma cap_rate_check_typed W HZ limit now r :
  0 ≤ now < 2 ^ W → rate_typed W r → rate_typed W (cap_rate_check W HZ limit now r).2.
Proof.
  intros Hn [H1 H2]. unfold cap_rate_check.
  repeat (case_match; simpl; try done); split; simpl; try done; unfold int_range; try lia; apply s32_range.
Qed.

(** ** The module *)

Section System.
Context `{NlmsgLaws} `{KListsLaws} (k : cap_kernel).
Hypothesis Hjiffies : ∀ t, 0 ≤ k_jiffies k t < 2 ^ k_long_bits k.

(** The globals that pool and queue do not touch. *)
Definition globals_typed (s : cap_state) (t : list cap_ev) : Prop :=
  tab_typed (utab s) ∧ int_range (cap_nlk_portid s) ∧ rate_typed (k_long_bits k) (cap_rate s).

(** Commands that change memory, queue or trace only. *)
Ltac frame :=
  first [apply preserves_modify | apply preserves_emit | apply preserves_kcall]; by intros.

Lemma hook_typed pkt : preserves k globals_typed (hook_func_queue pkt).
Proof.
  assert (∀ a f, preserves k globals_typed (cb_write a f)) as Hw.
  { intros a f. unfold cb_write, cb_read. preserve. frame. }
  assert (∀ cb, preserves k globals_typed (cap_buffer_free cb)) as Hfree.
  { intros cb. unfold cap_buffer_free, cb_read. preserve; frame. }
  assert (preserves k globals_typed do_rate_check) as Hrate.
  { intros s t (Ht & Hp & Hr). split_and!; [done..|]. by apply cap_rate_check_typed. }
  unfold hook_func_queue, print_head, cap_buffer_alloc, take_free, new_cb, fill_cb, cb_read.
  repeat first [apply Hw|apply Hfree|exact Hrate|frame|preserve1].
Qed.

Lemma receive_typed buf : preserves k globals_typed (cap_receive buf).
Proof.
  assert (∀ p, int_range p → preserves k globals_typed (modify (set_portid p))) as Hport.
  { intros p Hp. apply preserves_modify. by intros s t (Ht & _ & Hr). }
  assert (∀ {A} (f : usertab → option (A * usertab)),
    (∀ u a u', f u = Some (a, u') → tab_typed u → tab_typed u') → preserves k globals_typed (on_utab f)) as Htab.
  { intros A f Hf s t (Ht & Hp & Hr). unfold on_utab, bind, get, index, modify, ret, crash.
    destruct (f (utab s)) as [[a u']|] eqn:E; [|done]. simpl. split_and!; [by eapply Hf|done..]. }
  unfold cap_receive, cap_receive_skb. apply preserves_bind; [|auto with kmod].
  apply preserves_bind; [|auto with kmod]. apply preserves_walk; [by intros|]. intros nlh h.
  assert (int_range (s32 (nlmsg_pid h))) as Hpid by apply s32_range.
  assert (int_range 0) as Hzero by (unfold int_range; lia).
  unfold cap_receive_msg, start_kcapd. repeat first [apply Htab|by apply Hport|frame|preserve1].
  - intros u ok u' E. by apply (user_join_typed _ _ _ _ Hpid E).
  - intros u ok u' E. by apply (user_leave_typed _ _ _ _ E).
Qed.

Lemma kcapd_typed : preserves k globals_typed kcapd_pass.
Proof.
  unfold kcapd_pass, kcapd_send_reply. preserve; try frame.
  apply preserves_modify. intros s' t' (Ht & _ & Hr). split_and!; [done|unfold int_range; simpl; lia|done].
Qed.

Lemma step_typed : invariant_of (cap_step k) (λ x : sys, globals_typed x.1.2 x.2).
Proof.
  intros x y Hstep Hx. destruct Hstep as [pkt seen s t v s' t' _ E|buf seen s t s' t' E|more seen s t s' t' E]; simpl in *.
  - pose proof (hook_typed pkt s t Hx) as Hr. cbv zeta in Hr. by rewrite E in Hr.
  - pose proof (receive_typed buf s t Hx) as Hr. cbv zeta in Hr. by rewrite E in Hr.
  - pose proof (kcapd_typed s t Hx) as Hr. cbv zeta in Hr. by rewrite E in Hr.
Qed.

Lemma app_init_typed r s t : app_init k cap_state0 [] = (Ok r, s, t) → globals_typed s t.
Proof.
  intros E. assert (globals_typed cap_state0 []) as H0'.
  { split_and!; [split; simpl; [done|lia|]|unfold int_range; simpl; lia|split; simpl; [|unfold int_range; lia]].
    - repeat constructor; unfold int_range; simpl; lia.
    - pose proof (Hjiffies []). lia. }
  assert (preserves k globals_typed (on_utab (λ u, u' ← usertab_init u; Some (tt, u')))) as Hinit.
  { intros s' t' (Ht & Hp & Hr). destruct (usertab_init_spec (utab s') (tt_size _ Ht)) as (u' & Hi & Hcnt & _ & Htab).
    unfold on_utab, bind, get, index, modify, ret. rewrite Hi. cbn. split_and!; [|done..].
    split; cbn; rewrite ?Htab, ?Hcnt; [done|apply Ht|]. apply Forall_replicate. unfold int_range. simpl. lia. }
  assert (preserves k globals_typed app_init) as Hp.
  { unfold app_init, cap_hook_init. repeat first [exact Hinit|frame|preserve1].
    apply preserves_modify. intros s' t' (Ht & _ & Hr). split_and!; [done|unfold int_range; simpl; lia|done]. }
  specialize (Hp _ _ H0'). cbv zeta in Hp. by rewrite E in Hp.
Qed.

(** A message on the queue: its header describes it. *)
Definition skb_typed (skb : sk_buff) : Prop :=
  ∃ h, sk_hdr skb = Some h ∧ nlmsg_len h = NLMSG_ALIGN (NLMSG_HDRLEN + Z.of_nat (length (sk_payload skb))) ∧
    nlmsg_type h = NLMSG_DONE ∧ nlmsg_flags h = 0 ∧ 0 ≤ nlmsg_pid h < 2 ^ 32.

Lemma queue_typed seen s t :
  Forall linear seen → cap_inv seen s t → Forall skb_typed (q_elems (cap_skb_queue s)).
Proof.
  intros Hseen [_ _ Hf (pkts & Hsub & Hall)]. rewrite Hf in Hall.
  apply Forall2_app_inv_r in Hall as (p1 & p2 & _ & Hall & ->).
  assert (Forall linear p2) as Hlin.
  { apply Forall_forall. intros pkt Hp. rewrite Forall_forall in Hseen. apply Hseen.
    eapply sublist_subseteq; [exact Hsub|]. apply elem_of_app. by right. }
  clear Hf Hsub. induction Hall as [|pkt skb p2 q (p & _ & Hpay & Hhdr) _ IH]; [constructor|].
  apply Forall_cons in Hlin as [[Hlen _] Hlin]. constructor; [|by apply IH].
  eexists. split; [exact Hhdr|]. cbn [nlmsg_len nlmsg_type nlmsg_flags nlmsg_pid]. rewrite Hpay, Hlen.
  split; [done|]. split; [done|]. split; [done|]. apply u32_range.
Qed.

Lemma step_linear : invariant_of (cap_step k) (λ x : sys, Forall linear x.1.1).
Proof. intros x y [pkt seen s t v s' t' Hl E| |] Hx; simpl in *; [|done..]. apply Forall_app. auto. Qed.
End System.

(** C25: C types.  In every reachable state of the capture module the client
    table has 32 slots holding [int] pids and its counter lies between 0 and
    32; the port id and the limiter's packet count are [int]s, its time an
    [unsigned long]; the free-list counter lies between 0 and [CAP_MAXFREE];
    and every queued message carries a header with the aligned length of its
    payload, type [NLMSG_DONE] and a 32-bit port id. *)
Theorem capture_typed `{NlmsgLaws} `{KListsLaws} (k : cap_kernel) (s0 : cap_state) (t0 : list cap_ev)
    (seen : list packet) (s : cap_state) (t : list cap_ev)
    (Hlaws : cap_laws k) (Hjiffies : ∀ t, 0 ≤ k_jiffies k t < 2 ^ k_long_bits k)
    (Hinit : app_init k cap_state0 [] = (Ok 0, s0, t0)) (Hreach : rtc (cap_step k) ([], s0, t0) (seen, s, t)) :
  tab_typed (utab s) ∧ int_range (cap_nlk_portid s) ∧ rate_typed (k_long_bits k) (cap_rate s) ∧
  0 ≤ cap_freelist_count (pool s) ≤ CAP_MAXFREE ∧ Forall skb_typed (q_elems (cap_skb_queue s)).
Proof.
  pose proof (rtc_invariant _ _ _ _ (step_typed k Hjiffies) Hreach (app_init_typed k Hjiffies _ _ _ Hinit)) as (Ht & Hp & Hr).
  pose proof (reachable_inv _ _ _ _ _ _ _ Hlaws Hinit Hreach) as Hinv.
  pose proof (rtc_invariant _ _ _ _ (step_linear k) Hreach (Forall_nil_2 _)) as Hlin.
  do 3 (split; [done|]). split; [|exact (queue_typed _ _ _ Hlin Hinv)].
  destruct (ci_pool _ _ _ Hinv) as [Hc Hb _ _ _]. rewrite Hc. lia.
Qed.

Lemma capture_typed_witness :
  tab_typed (utab demo_s3) ∧ int_range (cap_nlk_portid demo_s3) ∧ rate_typed 32 (cap_rate demo_s3) ∧
  0 ≤ cap_freelist_count (pool demo_s3) ≤ CAP_MAXFREE ∧ Forall skb_typed (q_elems (cap_skb_queue demo_s3)).
Proof.
  refine (capture_typed demo_kernel demo_s0 demo_t0 [demo_pkt] demo_s3 demo_t3 demo_laws _ demo_init_eq demo_run).
  intros t. simpl. lia.
Defined.
