(* ===== verification/Broadcast.v ===== *)
(** * The direct hook of the capture module ([src/netlink/netlink.c])

    [hook_func] sends every packet to all registered clients without the queue;
    this file states what it does against a specification of one broadcast.
    The slab-cache helpers, which nothing calls, are here too. *)

From S2P Require Import Prelude Bytes Nlmsg UserTab RateCheck CapState CapPool Capture CapSystem.

(** ** One broadcast *)

Section Spec.
Context `{NlmsgApi}.

(** The message for the client [p]: an unmodified copy of the packet. *)
Definition copy_for (p : Z) (pkt : packet) (skb : sk_buff) : Prop :=
  sk_payload skb = pk_data pkt ∧
  sk_hdr skb = Some (MkHdr (NLMSG_HDRLEN + pk_len pkt) NLMSG_DONE 0 0 (u32 p)).

(** Over the slots in order: free slots are skipped, a client without memory
    for its message is skipped, any other gets one copy; the first refusal ends
    the broadcast ([true]). *)
Inductive broadcast (pkt : packet) : list usrconf → list cap_ev → bool → Prop :=
| bc_end : broadcast pkt [] [] false
| bc_free c l ev r : pid c = 0 → broadcast pkt l ev r → broadcast pkt (c :: l) ev r
| bc_no_memory c l ev r : pid c ≠ 0 → broadcast pkt l ev r →
    broadcast pkt (c :: l) (EvNlmsgNew None :: ev) r
| bc_sent c l skb0 skb err ev r : pid c ≠ 0 → copy_for (pid c) pkt skb → err ≠ - ECONNREFUSED →
    broadcast pkt l ev r →
    broadcast pkt (c :: l) (EvNlmsgNew (Some skb0) :: EvUnicast skb (u32 (pid c)) err :: ev) r
| bc_refused c l skb0 skb : pid c ≠ 0 → copy_for (pid c) pkt skb →
    broadcast pkt (c :: l) [EvNlmsgNew (Some skb0); EvUnicast skb (u32 (pid c)) (- ECONNREFUSED)] true.
End Spec.

(** ** The loop *)

Section Facts.
Context `{NlmsgLaws} `{KListsLaws} (k : cap_kernel) (pkt : packet).
Hypothesis Hlaws : cap_laws k.
Hypothesis Hlin : linear pkt.

Lemma make_reply_ok p s t :
  cap_make_reply (u32 p) 0 NLMSG_DONE 1 0 (pk_data pkt) (pk_len pkt) k s t = (Ok None, s, t ++ [EvNlmsgNew None]) ∨
  ∃ skb0 skb, cap_make_reply (u32 p) 0 NLMSG_DONE 1 0 (pk_data pkt) (pk_len pkt) k s t =
      (Ok (Some skb), s, t ++ [EvNlmsgNew (Some skb0)]) ∧ copy_for p pkt skb.
Proof.
  destruct Hlin as [Hlen H12]. unfold cap_make_reply. erewrite bind_ok by reflexivity.
  destruct (k_nlmsg_new k t (pk_len pkt)) as [skb|] eqn:Hn; [right|by left].
  destruct (law_nlmsg_new k Hlaws _ _ _ Hn) as (Hh & Hz & Hroom). erewrite bind_ok by reflexivity.
  pose proof (law_nlmsg_put k Hlaws skb (u32 p) 0 NLMSG_DONE (pk_len pkt) 0) as Hput.
  rewrite decide_True in Hput by done.
  destruct Hput as (area & Ha & Hput); [lia|done|]. change (if 0 =? 0 then 0 else NLM_F_MULTI) with 0.
  change (if 1 =? 0 then NLMSG_DONE else NLMSG_DONE) with NLMSG_DONE. rewrite Hput.
  assert (slice 0 (Z.to_nat (pk_len pkt)) (pk_data pkt) = Some (pk_data pkt)) as ->.
  { unfold slice. rewrite decide_True by lia. rewrite drop_0, take_ge by lia. done. }
  erewrite bind_ok by reflexivity. cbn [sk_payload].
  assert (splice 0 (pk_data pkt) area = Some (pk_data pkt)) as ->.
  { unfold splice. rewrite decide_True by lia. rewrite take_0, drop_ge, app_nil_r by lia. done. }
  erewrite bind_ok by reflexivity. eexists skb, _. split; [reflexivity|]. split; [done|]. cbn [sk_hdr].
  by rewrite (u32_small (u32 p)) by apply u32_range.
Qed.

(** The table after [delete_all_user]. *)
Definition forget (s : cap_state) : cap_state :=
  set_utab (MkTab (usrcnt (utab s)) (replicate MAX_TAB_SIZE (MkUsr 0 0))) s.

Lemma delete_all_ok s t :
  length (usrtab (utab s)) = MAX_TAB_SIZE → do_delete_all_user k s t = (Ok tt, forget s, t).
Proof.
  intros Hl. destruct (usertab_init_spec (utab s) Hl) as (u' & Hi & Hc & _ & Ht).
  unfold do_delete_all_user, delete_all_user, on_utab, bind, get, index, modify, ret. rewrite Hi. cbn.
  destruct u' as [c tab]. cbn in Hc, Ht. by subst.
Qed.

Lemma hook_loop_forgotten n i s t :
  (i + n = MAX_TAB_SIZE)%nat → usrtab (utab s) = replicate MAX_TAB_SIZE (MkUsr 0 0) →
  hook_loop n i pkt k s t = (Ok tt, s, t).
Proof.
  intros Hi Hs. revert i Hi. induction n as [|n IH]; intros i Hi; [done|]. cbn [hook_loop].
  erewrite bind_ok by reflexivity. rewrite Hs, lookup_replicate_2 by lia.
  erewrite bind_ok by reflexivity. erewrite bind_ok by reflexivity. apply IH. lia.
Qed.

Lemma hook_loop_ok n i s t :
  (i + n = MAX_TAB_SIZE)%nat → length (usrtab (utab s)) = MAX_TAB_SIZE →
  ∃ ev (r : bool), hook_loop n i pkt k s t = (Ok tt, if r then forget s else s, t ++ ev) ∧
    broadcast pkt (drop i (usrtab (utab s))) ev r.
Proof.
  intros Hi Hl. revert i t Hi. induction n as [|n IH]; intros i t Hi.
  { exists [], false. rewrite app_nil_r, drop_ge by lia. split; [done|constructor]. }
  cbn [hook_loop]. erewrite bind_ok by reflexivity.
  destruct (lookup_lt_is_Some_2 (usrtab (utab s)) i) as [c Hc]; [lia|]. rewrite Hc, (drop_S _ c) by done.
  erewrite bind_ok by reflexivity. destruct (pid c =? 0) eqn:Hp; zbool.
  { erewrite bind_ok by reflexivity. destruct (IH (S i) t) as (ev & r & E & Hb); [lia|].
    exists ev, r. split; [done|by constructor]. }
  rewrite bind_assoc. destruct (make_reply_ok (pid c) s t) as [E|(skb0 & skb & E & Hcopy)]; mrun E.
  { erewrite bind_ok by reflexivity. destruct (IH (S i) (t ++ [EvNlmsgNew None])) as (ev & r & E' & Hb); [lia|].
    exists (EvNlmsgNew None :: ev), r. rewrite E', <-app_assoc. split; [done|by constructor]. }
  rewrite bind_assoc. erewrite bind_ok by reflexivity. set (err := k_unicast k _ _ _). set (t1 := _ ++ [EvUnicast _ _ _]).
  destruct (err =? - ECONNREFUSED) eqn:Herr; zbool.
  - mrun (delete_all_ok s t1 Hl). rewrite (hook_loop_forgotten n (S i)) by (done || lia).
    eexists [EvNlmsgNew (Some skb0); EvUnicast skb (u32 (pid c)) (- ECONNREFUSED)], true.
    split; [unfold t1; rewrite <-app_assoc, <-Herr; done|by constructor].
  - erewrite bind_ok by reflexivity. destruct (IH (S i) t1) as (ev & r & E' & Hb); [lia|].
    exists (EvNlmsgNew (Some skb0) :: EvUnicast skb (u32 (pid c)) err :: ev), r. rewrite E'.
    split; [unfold t1; by rewrite <-!app_assoc|by constructor].
Qed.
End Facts.

(** C18: the direct hook is a broadcast.  On a linear packet [hook_func]
    accepts the packet and, over the client table in slot order, sends each
    registered client one unmodified copy (or skips it when there is no
    memory), until a client refuses: then the whole table is cleared and the
    clients behind it get nothing.  Nothing else changes. *)
Theorem hook_func_broadcast `{NlmsgLaws} `{KListsLaws} (k : cap_kernel) (pkt : packet) (s : cap_state) (t : list cap_ev)
    (Hlaws : cap_laws k) (Hlin : linear pkt) (Htab : length (usrtab (utab s)) = MAX_TAB_SIZE) :
  ∃ ev (r : bool), hook_func pkt k s t = (Ok NF_ACCEPT, if r then forget s else s, t ++ ev) ∧
    broadcast pkt (usrtab (utab s)) ev r.
Proof.
  unfold hook_func. assert (∃ bs, print_head pkt k s t = (Ok bs, s, t)) as [bs Eh].
  { destruct Hlin. unfold print_head, slice. rewrite decide_True by lia. by eexists. }
  mrun Eh. destruct (hook_loop_ok k pkt Hlaws Hlin MAX_TAB_SIZE 0 s t) as (ev & r & E & Hb); [done|done|].
  mrun E. exists ev, r. done.
Qed.

Lemma hook_func_broadcast_witness :
  ∃ ev (r : bool), hook_func demo_pkt demo_kernel demo_s1 demo_t1 =
      (Ok NF_ACCEPT, if r then forget demo_s1 else demo_s1, demo_t1 ++ ev) ∧
    broadcast demo_pkt (usrtab (utab demo_s1)) ev r.
Proof.
  refine (hook_func_broadcast demo_kernel demo_pkt demo_s1 demo_t1 demo_laws demo_linear _). reflexivity.
Defined.

(** ** The slab cache *)

Inductive cache_ev := EvCacheCreate (r : option Z) | EvCacheDestroy (a : Z).
Record cache_kernel := { k_cache_create : list cache_ev → option Z }.

(** The global [capcache] is touched by these two functions only. *)
Definition KM (A : Type) : Type := M cache_kernel (option Z) cache_ev A.

Definition cap_kmem_cache_init : KM Z :=
  c <- kcall k_cache_create EvCacheCreate ;;
  modify (λ _, c) ;;
  match c with None => ret (-1) | Some _ => ret 0 end.

Definition cap_kmem_cache_fini : KM Z :=
  c <- get (λ s, s) ;;
  (match c with None => ret tt | Some a => emit (EvCacheDestroy a) end) ;;
  ret 0.

(** A cache that was created is destroyed, once. *)
Lemma cap_kmem_cache_cycle k s t :
  (cap_kmem_cache_init ;; cap_kmem_cache_fini) k s t =
  match k_cache_create k t with
  | None => (Ok 0, None, t ++ [EvCacheCreate None])
  | Some a => (Ok 0, Some a, t ++ [EvCacheCreate (Some a); EvCacheDestroy a])
  end.
Proof.
  unfold cap_kmem_cache_init, cap_kmem_cache_fini, bind, kcall, modify, get, emit, ret. simpl.
  destruct (k_cache_create k t); simpl; [|done]. by rewrite <-app_assoc.
Qed.
