(* ===== verification/CapStale.v ===== *)
(** * Messages that outlive their client ([src/netlink/netlink.c])

    When the client leaves or is found gone, [cap_nlk_portid] becomes 0 but
    messages stay on the queue, and the thread sends them to port 0.  That is
    the port of the module's own kernel socket, whose input is [cap_receive],
    and a captured message has the type of the command [CAP_GET_PACKET]. *)

From S2P Require Import Prelude Bytes Nlmsg UserTab RateCheck CapState CapPool Capture CapSystem.

Section Stale.
Context `{NlmsgLaws} `{KListsLaws}.

Lemma pass_unicasts k s t skb rest :
  q_elems (cap_skb_queue s) = skb :: rest →
  ∃ err, EvUnicast skb (u32 (cap_nlk_portid s)) err ∈ (kcapd_pass k s t).2.
Proof.
  intros Hq. destruct (q_deq_cons _ _ _ Hq) as [Hd Hr]. unfold kcapd_pass.
  do 2 erewrite bind_ok by reflexivity. rewrite Hd. do 2 erewrite bind_ok by reflexivity.
  set (s1 := set_queue _ s).
  assert (∃ w, (if u32 (skb_queue_len (cap_skb_queue s1)) <=? cap_backlog_limit s1
     then emit EvWakeBacklog else ret tt) k s1 t = (Ok tt, s1, t ++ w)) as [w Ew].
  { destruct (_ <=? _); [by eexists|]. exists []. unfold ret. by rewrite app_nil_r. }
  mrun Ew. pose proof (kcapd_send_reply_eq k skb s1 (t ++ w)) as Es. cbv zeta in Es.
  exists (unicast_answer k skb s1 (t ++ w)). change (cap_nlk_portid s) with (cap_nlk_portid s1).
  set (err := unicast_answer k skb s1 (t ++ w)) in *. unfold bind. rewrite Es.
  destruct (err <? 0); [destruct (err =? - ECONNREFUSED)|]; simpl; set_solver.
Qed.

Lemma receive_done k task nlh h s t :
  cmd_ready task s → nlmsg_type h = NLMSG_DONE →
  cap_receive_msg nlh h k s t =
    match cstr (drop 16 nlh) with Some _ => (Ok 0, s, t) | None => (Crash OutOfBounds, s, t) end.
Proof.
  intros [Htask _] Hty. assert (start_kcapd k s t = (Ok 0, s, t)) as Est.
  { unfold start_kcapd, bind, get. by rewrite Htask. }
  unfold cap_receive_msg. rewrite Hty. cbv zeta. change (negb (cap_netlink_ok NLMSG_DONE =? 0)) with false. cbv iota.
  mrun Est. by destruct (cstr (drop 16 nlh)).
Qed.

(** What the receive path finds in a captured message: one command. *)
Lemma datagram_commands p pkt skb :
  forwarded p pkt skb → linear pkt → pk_len pkt < 2 ^ 31 →
  let n := NLMSG_ALIGN (NLMSG_HDRLEN + pk_len pkt) in
  let h := MkHdr n NLMSG_DONE 0 0 (u32 p) in
  let body := pk_data pkt ++ replicate (Z.to_nat (n - NLMSG_HDRLEN - pk_len pkt)) 0 in
  datagram skb = Some (enc_hdr h ++ body) ∧
  ∀ buf, buf = enc_hdr h ++ body → nlmsgs (S (length buf)) buf 0 (Z.of_nat (length buf)) = [(buf, h)].
Proof.
  intros [Hpay Hhdr] [Hlen H12] Hmax n h body. fold n h in Hhdr.
  pose proof (align_ge (NLMSG_HDRLEN + pk_len pkt)). pose proof (align_lt (NLMSG_HDRLEN + pk_len pkt)).
  pose proof (align_mult (NLMSG_HDRLEN + pk_len pkt)) as Hm. unfold NLMSG_HDRLEN, NLMSG_ALIGNTO in *. fold n in H3, H4, Hm.
  split; [unfold datagram; by rewrite Hhdr, Hpay, <-Hlen|].
  assert (Z.of_nat (length body) = n - 16) as Hb.
  { unfold body. rewrite length_app, length_replicate. lia. }
  assert (nlmsg_wf (h, body)) as Hwf.
  { split; [|simpl; unfold NLMSG_HDRLEN; lia]. pose proof (u32_range p). subst h. unfold NLMSG_DONE. split; simpl; lia. }
  intros buf Ebuf.
  assert (Z.of_nat (length buf) = n) as Hbuf by (rewrite Ebuf, length_app, length_enc_hdr; lia).
  pose proof (nlmsgs_cons (length buf) [] h body [] (Z.of_nat (length buf)) Hwf) as Hc.
  rewrite app_nil_r, <-Ebuf in Hc. etrans; [apply Hc; simpl; lia|].
  rewrite nlmsgs_stop; [done|]. simpl nlmsg_len. rewrite align_fixed by lia. unfold NLMSG_HDRLEN. lia.
Qed.

(** Text and padding: a zero byte ends the text unless the packet has none and
    fills its message exactly. *)
Lemma padded_text bs n : cstr (bs ++ replicate n 0) = None ↔ no_nul bs ∧ n = 0%nat.
Proof.
  rewrite cstr_None. unfold no_nul. rewrite Forall_app. destruct n as [|n]; simpl; [naive_solver|].
  rewrite Forall_cons. naive_solver.
Qed.

(** C38: a message that outlives its client is read as a command.  With the
    message of a linear packet first in the queue and [cap_nlk_portid] back at
    0, the thread takes it off and sends it to port 0, the kernel's own socket.
    Given the message, in the state the thread has left, [cap_receive] takes it
    for [CAP_GET_PACKET] (both are 3) and prints the packet as text.  When the
    packet has a zero byte or its length is not a multiple of four, so that
    zero padding follows, nothing else happens; otherwise the text runs past
    the end of the message. *)
Theorem stale_message_loops_back k task skb rest pkt p s t :
  q_elems (cap_skb_queue s) = skb :: rest → cap_nlk_portid s = 0 →
  forwarded p pkt skb → linear pkt → pk_len pkt < 2 ^ 31 → cmd_ready task s →
  (∃ err, EvUnicast skb 0 err ∈ (kcapd_pass k s t).2) ∧
  let s1 := set_queue (skb_dequeue (cap_skb_queue s)).2 s in
  ∃ buf, datagram skb = Some buf ∧ ∀ t1,
    cap_receive buf k s1 t1 =
      if decide (no_nul (pk_data pkt) ∧ pk_len pkt mod 4 = 0) then (Crash OutOfBounds, s1, t1) else (Ok tt, s1, t1).
Proof.
  intros Hq Hport Hfwd Hlin Hmax Hrdy. split.
  { destruct (pass_unicasts k s t skb rest Hq) as [err Herr]. exists err. by rewrite Hport in Herr. }
  intros s1. assert (cmd_ready task s1) as Hrdy1 by by destruct Hrdy.
  destruct (datagram_commands p pkt skb Hfwd Hlin Hmax) as [Hd Hms]. eexists. split; [exact Hd|]. intros t1.
  set (n := NLMSG_ALIGN (NLMSG_HDRLEN + pk_len pkt)) in *. set (h := MkHdr n NLMSG_DONE 0 0 (u32 p)) in *.
  set (pad := Z.to_nat (n - NLMSG_HDRLEN - pk_len pkt)) in *. set (buf := enc_hdr h ++ _) in *.
  unfold cap_receive, cap_receive_skb. unfold bind at 1 2. rewrite walk_receive_all, (Hms buf eq_refl) by lia.
  cbn [receive_all]. unfold receive_one, bind at 1 2. rewrite (receive_done k task buf h s1 t1 Hrdy1 eq_refl).
  unfold buf. rewrite (drop_app_length' _ _ 16) by (by rewrite length_enc_hdr).
  assert (pad = 0%nat ↔ pk_len pkt mod 4 = 0) as Hpad.
  { destruct Hlin as [_ H12]. unfold pad. pose proof (align_ge (NLMSG_HDRLEN + pk_len pkt)).
    pose proof (align_mult (NLMSG_HDRLEN + pk_len pkt)) as Hm. unfold NLMSG_HDRLEN, NLMSG_ALIGNTO in *. fold n in H3, Hm.
    split; intros Hz.
    - assert (n = 16 + pk_len pkt) as Hn by lia. rewrite Hn in Hm. rewrite <-Zplus_mod_idemp_l in Hm. by apply Hm; lia.
    - assert (n = 16 + pk_len pkt); [|lia]. apply align_fixed; [lia|]. by rewrite <-Zplus_mod_idemp_l. }
  case_decide as Hn.
  - by rewrite (proj2 (padded_text _ _)) by naive_solver.
  - destruct (cstr (pk_data pkt ++ replicate pad 0)) as [str|] eqn:Hs; [done|]. apply padded_text in Hs. naive_solver.
Qed.
End Stale.

(** ** Witness *)

(** Sixteen bytes without a zero, queued for a client that has left. *)
Definition stale_pkt : packet := MkPkt (replicate 16 65) 0.
Definition stale_skb : sk_buff := MkSkb 5 2016 (Some (MkHdr 32 NLMSG_DONE 0 0 42)) (replicate 16 65) 32.
Definition stale_state : cap_state := set_portid 0 (set_queue [stale_skb] demo_s1).

Lemma stale_message_loops_back_witness :
  (∃ err, EvUnicast stale_skb 0 err ∈ (kcapd_pass demo_kernel stale_state []).2) ∧
  let s1 := set_portid 0 (set_queue [] demo_s1) in
  ∃ buf, datagram stale_skb = Some buf ∧ ∀ t1, cap_receive buf demo_kernel s1 t1 = (Crash OutOfBounds, s1, t1).
Proof.
  refine (stale_message_loops_back demo_kernel 1 stale_skb [] stale_pkt 42 stale_state [] _ _ _ _ _ _).
  - reflexivity.
  - reflexivity.
  - split; reflexivity.
  - split; vm_compute; congruence.
  - reflexivity.
  - split; vm_compute; reflexivity.
Defined.
