(* ===== verification/CapConc.v ===== *)
(** * Interleaving of the capture module's code ([src/netlink/netlink.c])

    The handlers of [Capture] again, now statement by statement: any number of
    hook calls and command calls and the thread [kcapd] run at the same time,
    each statement that touches shared memory is one step, and the spin locks,
    the mutex and the wait queue of the source decide who has to wait. *)

From S2P Require Import Prelude Bytes Nlmsg UserTab RateCheck CapState CapPool Capture CapSystem.

(** ** Programs *)

(** [cap_cmd_mutex], [usrtab_lock], [cap_freelist_lock] and the lock inside
    [cap_rate_check]. *)
Inductive lock := CmdMutex | UsrtabLock | FreelistLock | RateLock.

#[global] Instance lock_eq_dec : EqDecision lock.
Proof. solve_decision. Defined.

(** A function body as the steps it takes: an access to shared memory or a
    kernel call, a lock operation, or [wake_up_interruptible(&kcapd_wait)]. *)
Inductive prog `{KLists} (A : Type) : Type :=
| Done (a : A)
| Act {B : Type} (m : CM B) (q : B → prog A)
| Lock (l : lock) (q : prog A)
| Unlock (l : lock) (q : prog A)
| Wake (q : prog A).
Arguments Done {_ A} a.
Arguments Act {_ A B} m q.
Arguments Lock {_ A} l q.
Arguments Unlock {_ A} l q.
Arguments Wake {_ A} q.

Fixpoint pbind `{KLists} {A B} (p : prog A) (f : A → prog B) : prog B :=
  match p with
  | Done a => f a
  | Act m q => Act m (λ b, pbind (q b) f)
  | Lock l q => Lock l (pbind q f)
  | Unlock l q => Unlock l (pbind q f)
  | Wake q => Wake (pbind q f)
  end.

Declare Scope prog_scope.
Delimit Scope prog_scope with prog.
Bind Scope prog_scope with prog.
Notation "x <- p ;; q" := (pbind p (λ x, q))
  (at level 100, p at next level, right associativity) : prog_scope.
Notation "p ;; q" := (pbind p (λ _, q))
  (at level 100, right associativity) : prog_scope.

Section Programs.
Context `{NlmsgApi} `{KLists}.

Definition act {A} (m : CM A) : prog A := Act m Done.
Definition lock_ (l : lock) : prog unit := Lock l (Done tt).
Definition unlock_ (l : lock) : prog unit := Unlock l (Done tt).
Definition wake_kcapd : prog unit := Wake (Done tt).

Local Open Scope prog_scope.

(** *** The pool *)

Definition cap_buffer_free_prog (cb : option Z) : prog unit :=
  match cb with
  | None => act (crash NullDeref)
  | Some a =>
      lock_ FreelistLock ;;
      n <- act (get (λ s, cap_freelist_count (pool s))) ;;
      (if CAP_MAXFREE <=? n then
        act (bind (emit (EvKfree a)) (λ _, modify (upd_cbs (delete a))))
      else
        act (modify (upd_count (λ n, s32 (n + 1)))) ;;
        act (bind (cb_read a) (λ _, modify (upd_list (list_add a))))) ;;
      unlock_ FreelistLock
  end.

Definition take_free_prog : prog (option Z) :=
  lock_ FreelistLock ;;
  e <- act (get (λ s, list_empty (cap_freelist (pool s)))) ;;
  r <- (if (e : bool) then Done None else
    a <- act (get (λ s, list_first (cap_freelist (pool s)))) ;;
    a <- act (deref a) ;;
    act (bind (cb_read a) (λ _, modify (upd_list (list_del a)))) ;;
    act (modify (upd_count (λ n, s32 (n - 1)))) ;;
    Done (Some a)) ;;
  unlock_ FreelistLock ;;
  Done r.

Definition fill_cb_prog (a : Z) (pkt : packet) (data gfp_mask type : Z) : prog (option Z) :=
  act (cb_write a (λ cb, MkCb (cb_skb cb) data gfp_mask)) ;;
  r <- act (kcall (λ k t, k_nlmsg_new k t MAX_SKB_BUFSIZE) EvNlmsgNew) ;;
  act (cb_write a (set_skb r)) ;;
  match r with
  | None => cap_buffer_free_prog (Some a) ;; Done None
  | Some skb =>
      portid <- act (get cap_nlk_portid) ;;
      nlh <- act (kpure (λ k, k_nlmsg_put k skb portid 0 type (pk_len pkt) 0)) ;;
      match nlh with
      | None =>
          act (emit (EvKfreeSkb (sk_id skb))) ;;
          act (cb_write a (set_skb None)) ;;
          cap_buffer_free_prog (Some a) ;; Done None
      | Some skb =>
          src <- act (index (slice 0 (Z.to_nat (pk_len pkt)) (pk_data pkt))) ;;
          pdata <- act (index (splice 0 src (sk_payload skb))) ;;
          act (cb_write a (set_skb (Some
            (MkSkb (sk_id skb) (sk_room skb) (sk_hdr skb) pdata (sk_len skb))))) ;;
          Done (Some a)
      end
  end.

(** [kmalloc] and [memset] are one step: nobody else has the address yet. *)
Definition cap_buffer_alloc_prog (pkt : packet) (data gfp_mask type : Z) : prog (option Z) :=
  cb <- take_free_prog ;;
  cb <- match cb with Some a => Done (Some a) | None => act new_cb end ;;
  match cb with
  | None => cap_buffer_free_prog None ;; Done None
  | Some a => fill_cb_prog a pkt data gfp_mask type
  end.

(** *** The hook *)

Definition cap_rate_check_prog : prog Z :=
  limit <- act (get cap_rate_limit) ;;
  if limit =? 0 then Done 1 else
  lock_ RateLock ;;
  r <- act (get cap_rate) ;;
  now <- act (kpeek k_jiffies) ;;
  a <- act (kpure (λ k, cap_rate_check (k_long_bits k) (k_HZ k) limit now r)) ;;
  act (modify (set_rate a.2)) ;;
  unlock_ RateLock ;;
  Done a.1.

Definition hook_func_queue_prog (pkt : packet) : prog Z :=
  act (print_head pkt) ;;
  portid <- act (get cap_nlk_portid) ;;
  if portid =? 0 then Done NF_ACCEPT else
  cb <- cap_buffer_alloc_prog pkt 0 GFP_KERNEL NLMSG_DONE ;;
  match cb with
  | None => Done NF_ACCEPT
  | Some a =>
      ok <- cap_rate_check_prog ;;
      if ok =? 0 then Done NF_ACCEPT else
      cb <- act (cb_read a) ;;
      skb <- act (deref (cb_skb cb)) ;;
      skb <- act (deref (set_nlmsg_len skb)) ;;
      act (cb_write a (set_skb (Some skb))) ;;
      act (bind (emit (EvQueueTail skb))
        (λ _, modify (λ s, set_queue (skb_queue_tail skb (cap_skb_queue s)) s))) ;;
      wake_kcapd ;;
      act (get (λ s, skb_queue_len (cap_skb_queue s))) ;;
      act (cb_write a (set_skb None)) ;;
      cap_buffer_free_prog (Some a) ;;
      Done NF_ACCEPT
  end.

(** *** Commands *)

Definition cap_receive_msg_prog (nlh : list Z) (h : nlmsghdr) : prog Z :=
  let msg_type := nlmsg_type h in
  let err := cap_netlink_ok msg_type in
  if negb (err =? 0) then Done err else
  err <- act start_kcapd ;;
  if negb (err =? 0) then Done err else
  let pid := s32 (nlmsg_pid h) in
  act (index (cstr (drop 16 nlh))) ;;
  (if msg_type =? CAP_ADD then
    act (modify (set_portid pid)) ;;
    lock_ UsrtabLock ;; act (on_utab (user_join pid)) ;; unlock_ UsrtabLock
  else if msg_type =? CAP_DEL then
    act (modify (set_portid 0)) ;;
    lock_ UsrtabLock ;; act (on_utab (user_leave pid)) ;; unlock_ UsrtabLock
  else Done tt) ;;
  Done 0.

Fixpoint receive_all_prog (ms : list (list Z * nlmsghdr)) : prog unit :=
  match ms with
  | [] => Done tt
  | (nlh, h) :: ms =>
      err <- cap_receive_msg_prog nlh h ;;
      (if negb (err =? 0) || negb (Z.land (nlmsg_flags h) NLM_F_ACK =? 0)
       then act (emit (EvAck h err)) else Done tt) ;;
      receive_all_prog ms
  end.

(** The messages the receive loop finds in a buffer. *)
Definition commands (buf : list Z) : list (list Z * nlmsghdr) :=
  nlmsgs (S (length buf)) buf 0 (Z.of_nat (length buf)).

Definition cap_receive_prog (buf : list Z) : prog Z :=
  lock_ CmdMutex ;;
  receive_all_prog (commands buf) ;;
  unlock_ CmdMutex ;;
  Done 0.

(** ** The module while it runs *)

(** Where the thread is: [KTop] tests [kthread_should_stop], [KTest] is the
    first test of [wait_event_freezable], [KPrepare] puts the thread on the
    wait queue, [KRetest] tests again, [KSleep] is [schedule()]. *)
Inductive kpc :=
| KTop
| KDequeue
| KBacklog (skb : sk_buff)
| KGet (skb : sk_buff)
| KPortid (skb : sk_buff)
| KUnicast (skb : sk_buff) (portid : Z)
| KResult (skb : sk_buff) (err : Z)
| KForget
| KTest
| KPrepare
| KRetest
| KSleep
| KFinish
| KExit.

(** What calls into the module. *)
Inductive call :=
| CallHook (pkt : packet)
| CallReceive (buf : list Z).

(** Shared memory, calls made so far to the kernel, the locks held, whether
    the thread sits on [kcapd_wait] and has not been woken, where the thread
    is ([None] before it is started), and the calls into the module so far. *)
Record world := MkWorld {
  w_s : cap_state;
  w_t : list cap_ev;
  w_held : lock → bool;
  w_wait : bool;
  w_kp : option kpc;
  w_calls : list call;
}.

Inductive culprit := InCall (i : nat) | InKcapd.

(** [c_threads] are the calls in progress or finished, in the order they were
    made; after a fault nothing runs any more, and it is kept who caused it. *)
Record conc := MkConc {
  c_w : world;
  c_threads : list (prog Z);
  c_fault : option (culprit * fault);
}.

(** [kthread_run] starts the thread. *)
Definition kp_started (kp : option kpc) (s : cap_state) : option kpc :=
  match kp, kcapd_task s with
  | None, Some _ => Some KTop
  | _, _ => kp
  end.

Definition upd (s : cap_state) (t : list cap_ev) (w : world) : world :=
  MkWorld s t (w_held w) (w_wait w) (kp_started (w_kp w) s) (w_calls w).

Definition set_held (l : lock) (b : bool) (w : world) : world :=
  MkWorld (w_s w) (w_t w) (λ l', if decide (l' = l) then b else w_held w l') (w_wait w) (w_kp w) (w_calls w).

Definition set_kp (wait : bool) (pc : kpc) (w : world) : world :=
  MkWorld (w_s w) (w_t w) (w_held w) wait (Some pc) (w_calls w).

(** Waking up takes the thread off the wait queue. *)
Definition woken (w : world) : world :=
  MkWorld (w_s w) (w_t w ++ [EvWakeKcapd]) (w_held w) false (w_kp w) (w_calls w).

(** The next statement of a call; [None] while it waits for a lock or when it
    has returned. *)
Definition call_step (k : cap_kernel) (p : prog Z) (w : world) : option (world * (prog Z + fault)) :=
  match p with
  | Done _ => None
  | Act m q =>
      match m k (w_s w) (w_t w) with
      | (Ok b, s, t) => Some (upd s t w, inl (q b))
      | (Crash f, s, t) => Some (upd s t w, inr f)
      end
  | Lock l q => if w_held w l then None else Some (set_held l true w, inl q)
  | Unlock l q => Some (set_held l false w, inl q)
  | Wake q => Some (woken w, inl q)
  end.

(** The next statement of the thread that is not about sleeping. *)
Definition kcapd_stmt (pc : kpc) : CM kpc :=
  match pc with
  | KTop => bind (kpeek k_should_stop) (λ stop, ret (if (stop : bool) then KExit else KDequeue))
  | KDequeue =>
      bind (get (λ s, skb_dequeue (cap_skb_queue s))) (λ r,
      bind (modify (set_queue r.2)) (λ _,
      ret match r.1 with Some skb => KBacklog skb | None => KTest end))
  | KBacklog skb =>
      bind (get (λ s, skb_queue_len (cap_skb_queue s))) (λ n,
      bind (get cap_backlog_limit) (λ limit,
      bind (if u32 n <=? limit then emit EvWakeBacklog else ret tt) (λ _,
      ret (KGet skb))))
  | KGet skb => bind (emit (EvSkbGet (sk_id skb))) (λ _, ret (KPortid skb))
  | KPortid skb => bind (get cap_nlk_portid) (λ portid, ret (KUnicast skb portid))
  | KUnicast skb portid =>
      bind (kcall (λ k t, k_unicast k t skb (u32 portid)) (EvUnicast skb (u32 portid))) (λ err,
      ret (KResult skb err))
  | KResult skb err =>
      if err <? 0 then
        bind (if err =? - ECONNREFUSED then ret tt else crash BugOn) (λ _, ret KForget)
      else bind (emit (EvConsumeSkb (sk_id skb))) (λ _, ret KTop)
  | KForget => bind (modify (set_portid 0)) (λ _, ret KTop)
  | KTest =>
      bind (get (λ s, skb_queue_len (cap_skb_queue s))) (λ n, ret (if n =? 0 then KPrepare else KTop))
  | KRetest =>
      bind (get (λ s, skb_queue_len (cap_skb_queue s))) (λ n, ret (if n =? 0 then KSleep else KFinish))
  | pc => ret pc
  end.

Definition kcapd_step (k : cap_kernel) (w : world) : option (world * option fault) :=
  match w_kp w with
  | None | Some KExit => None
  | Some KPrepare => Some (set_kp true KRetest w, None)
  | Some KSleep => if w_wait w then None else Some (set_kp false KPrepare w, None)
  | Some KFinish => Some (set_kp false KTop w, None)
  | Some pc =>
      match kcapd_stmt pc k (w_s w) (w_t w) with
      | (Ok pc', s, t) => Some (set_kp (w_wait w) pc' (upd s t w), None)
      | (Crash f, s, t) => Some (upd s t w, Some f)
      end
  end.

Definition call_prog (c : call) : prog Z :=
  match c with
  | CallHook pkt => hook_func_queue_prog pkt
  | CallReceive buf => cap_receive_prog buf
  end.

(** Who can act: a new call arrives, a call in progress goes on, the thread
    goes on, or something else (a signal, the freezer) wakes the thread. *)
Inductive actor :=
| ACall (c : call)
| AThread (i : nat)
| AKcapd
| ASpurious.

Definition conc_step (k : cap_kernel) (a : actor) (c : conc) : option conc :=
  let w := c_w c in
  match c_fault c with
  | Some _ => None
  | None =>
      match a with
      | ACall cl =>
          Some (MkConc (MkWorld (w_s w) (w_t w) (w_held w) (w_wait w) (w_kp w) (w_calls w ++ [cl]))
            (c_threads c ++ [call_prog cl]) None)
      | AThread i =>
          match c_threads c !! i with
          | None => None
          | Some p =>
              match call_step k p w with
              | None => None
              | Some (w', inl p') => Some (MkConc w' (<[i := p']> (c_threads c)) None)
              | Some (w', inr f) => Some (MkConc w' (c_threads c) (Some (InCall i, f)))
              end
          end
      | AKcapd =>
          match kcapd_step k w with
          | None => None
          | Some (w', None) => Some (MkConc w' (c_threads c) None)
          | Some (w', Some f) => Some (MkConc w' (c_threads c) (Some (InKcapd, f)))
          end
      | ASpurious =>
          Some (MkConc (MkWorld (w_s w) (w_t w) (w_held w) false (w_kp w) (w_calls w)) (c_threads c) None)
      end
  end.

(** The module just after [app_init] returned 0. *)
Definition conc0 (s : cap_state) (t : list cap_ev) : conc :=
  MkConc (MkWorld s t (λ _, false) false None []) [] None.
End Programs.

(** ** Uninterrupted calls *)

(** A program run in one go, the locks being free. *)
Fixpoint run `{KLists} {A} (p : prog A) : CM A :=
  match p with
  | Done a => ret a
  | Act m q => b <- m ;; run (q b)
  | Lock _ q | Unlock _ q => run q
  | Wake q => emit EvWakeKcapd ;; run q
  end.

(** Programs with the same effect when nobody interrupts. *)
Definition same `{KLists} {A} (m1 m2 : CM A) : Prop := ∀ k s t, m1 k s t = m2 k s t.

#[export] Instance same_equiv `{KLists} {A} : Equivalence (@same _ A).
Proof. split; [by intros ?? ?|by intros m1 m2 E ???|by intros m1 m2 m3 E E' k s t; rewrite E, E']. Qed.

#[export] Instance bind_same `{KLists} {A B} :
  Proper (same ==> pointwise_relation A same ==> same) (@bind cap_kernel cap_state cap_ev A B).
Proof. intros m1 m2 E f1 f2 Ef k s t. unfold bind. rewrite E. destruct (m2 k s t) as [[[]]]; [apply Ef|done]. Qed.

Section Uninterrupted.
Context `{NlmsgLaws} `{KListsLaws}.

Lemma same_assoc {A B C} (m : CM A) (f : A → CM B) (g : B → CM C) :
  same (bind (bind m f) g) (bind m (λ a, bind (f a) g)).
Proof. intros k s t. apply bind_assoc. Qed.

Lemma same_ret_l {A B} (a : A) (f : A → CM B) : same (bind (ret a) f) (f a).
Proof. by intros k s t. Qed.

Lemma same_ret_r {A} (m : CM A) : same (bind m ret) m.
Proof. intros k s t. unfold bind, ret. by destruct (m k s t) as [[[]]]. Qed.

(** Both sides start with the same command. *)
Lemma same_step {A B} (m : CM A) (f g : A → CM B) : (∀ a, same (f a) (g a)) → same (bind m f) (bind m g).
Proof. intros E. by apply bind_same. Qed.

Lemma run_bind {A B} (p : prog A) (f : A → prog B) : same (run (pbind p f)) (bind (run p) (λ a, run (f a))).
Proof.
  induction p as [a|B' m q IH|l q IH|l q IH|q IH]; simpl; try done.
  - rewrite same_assoc. by apply same_step.
  - rewrite same_assoc. by apply same_step.
Qed.

Lemma run_act {A} (m : CM A) : same (run (act m)) m.
Proof. apply same_ret_r. Qed.

Lemma run_act_bind {A B} (m : CM A) (f : A → prog B) : same (run (pbind (act m) f)) (bind m (λ a, run (f a))).
Proof. done. Qed.

Lemma run_unlock l (m : CM unit) : same (bind m (λ _, run (unlock_ l))) m.
Proof. intros k s t. cbn [run unlock_]. unfold bind, ret. by destruct (m k s t) as [[[[]|]]]. Qed.

(** Run both sides in step: a program against its sequential counterpart. *)
Ltac lockstep :=
  repeat match goal with
  | |- same ?x ?x => reflexivity
  | |- same (run (Done _)) _ => cbn [run]
  | |- same (run (pbind (lock_ _) _)) _ => cbn [pbind lock_ run]
  | |- same (run (pbind (unlock_ _) _)) _ => cbn [pbind unlock_ run]
  | |- same (run (pbind wake_kcapd _)) _ => cbn [pbind wake_kcapd run]
  | |- same (run (pbind (Done _) _)) _ => cbn [pbind]
  | |- same (run (pbind (act _) _)) _ => rewrite run_act_bind
  | |- same (run (act _)) _ => rewrite run_act
  | |- same (bind (run (Done _)) _) _ => cbn [run]
  | |- same (bind (run (pbind (act _) _)) _) _ => rewrite run_act_bind
  | |- same (bind (run (act _)) _) _ => rewrite run_act
  | |- same (bind (run (pbind (lock_ _) _)) _) _ => cbn [pbind lock_ run]
  | |- same (bind (run (unlock_ _)) _) _ => cbn [unlock_ run]
  | |- same (bind (bind _ _) _) _ => rewrite same_assoc
  | |- same _ (bind (bind _ _) _) => rewrite same_assoc
  | |- same (bind (ret _) _) _ => rewrite same_ret_l
  | |- same _ (bind (ret _) _) => rewrite same_ret_l
  | |- same (bind ?m _) (bind ?m _) => apply same_step; intros ?
  | |- same (run (if ?b then _ else _)) _ => destruct b
  | |- same (run (match ?x with _ => _ end)) _ => destruct x
  end.

Lemma run_free cb : same (run (cap_buffer_free_prog cb)) (cap_buffer_free cb).
Proof.
  unfold cap_buffer_free_prog, cap_buffer_free. destruct cb as [a|]; lockstep.
  rewrite run_bind, run_unlock. destruct (_ <=? _); lockstep.
Qed.

Lemma run_take : same (run take_free_prog) take_free.
Proof.
  unfold take_free_prog, take_free. lockstep. rewrite run_bind. destruct a; lockstep.
Qed.

Lemma run_fill a pkt data gfp type : same (run (fill_cb_prog a pkt data gfp type)) (fill_cb a pkt data gfp type).
Proof.
  unfold fill_cb_prog, fill_cb. lockstep; rewrite run_bind, run_free; lockstep.
Qed.

Lemma run_alloc pkt data gfp type :
  same (run (cap_buffer_alloc_prog pkt data gfp type)) (cap_buffer_alloc pkt data gfp type).
Proof.
  unfold cap_buffer_alloc_prog, cap_buffer_alloc. rewrite run_bind, run_take. lockstep.
  destruct a as [a|]; lockstep; [apply run_fill..|]. by rewrite run_bind, run_free.
Qed.

Lemma run_rate : same (run cap_rate_check_prog) do_rate_check.
Proof.
  intros k s t. unfold cap_rate_check_prog, do_rate_check, bind, get, kpeek, kpure, modify, ret. simpl.
  unfold bind, get. destruct (cap_rate_limit s =? 0) eqn:E; [|done].
  unfold cap_rate_check. rewrite E. by destruct s.
Qed.

Lemma run_hook pkt : same (run (hook_func_queue_prog pkt)) (hook_func_queue pkt).
Proof.
  unfold hook_func_queue_prog, hook_func_queue. lockstep. rewrite run_bind, run_alloc. lockstep.
  rewrite run_bind, run_rate. lockstep.
  intros k s t. erewrite bind_ok by reflexivity. revert k s t.
  match goal with |- ∀ k s t, ?m1 k s t = ?m2 k s t => change (same m1 m2) end.
  lockstep. rewrite run_bind, run_free. lockstep.
Qed.

Lemma run_receive_msg nlh h : same (run (cap_receive_msg_prog nlh h)) (cap_receive_msg nlh h).
Proof.
  unfold cap_receive_msg_prog, cap_receive_msg. cbv zeta. lockstep.
  rewrite run_bind. destruct (_ =? CAP_ADD); [|destruct (_ =? CAP_DEL)]; lockstep.
Qed.

Lemma run_receive_all ms :
  same (run (receive_all_prog ms)) (receive_all EvAck cap_receive_msg ms).
Proof.
  induction ms as [|[nlh h] ms IH]; [done|]. cbn [receive_all_prog receive_all]. unfold receive_one.
  rewrite run_bind, run_receive_msg. lockstep. rewrite run_bind. setoid_rewrite IH. by destruct (_ || _); lockstep.
Qed.

Lemma run_receive buf : same (run (cap_receive_prog buf)) (cap_receive buf ;; ret 0).
Proof.
  unfold cap_receive_prog, cap_receive, cap_receive_skb. lockstep. rewrite run_bind, run_receive_all.
  intros k s t. unfold bind at 1 2. unfold commands. rewrite walk_receive_all by lia.
  by destruct (receive_all _ _ _ k s t) as [[[]]].
Qed.

(** *** Locks *)

(** From the locks [L] held on, the program never waits for a lock it holds
    itself and ends with locks of which [Q] holds. *)
Fixpoint locks_ok {A} (p : prog A) (L : list lock) (Q : list lock → Prop) : Prop :=
  match p with
  | Done _ => Q L
  | Act m q => ∀ b, locks_ok (q b) L Q
  | Lock l q => (l ∉ L) ∧ locks_ok q (l :: L) Q
  | Unlock l q => locks_ok q (filter (λ l', l' ≠ l) L) Q
  | Wake q => locks_ok q L Q
  end.

Lemma locks_ok_bind {A B} (p : prog A) (f : A → prog B) L Q :
  locks_ok p L (λ L', ∀ a, locks_ok (f a) L' Q) → locks_ok (pbind p f) L Q.
Proof. revert L. induction p as [a|B' m q IH|l q IH|l q IH|q IH]; intros L; simpl; naive_solver. Qed.

Lemma locks_ok_mono {A} (p : prog A) L (Q Q' : list lock → Prop) :
  (∀ L, Q L → Q' L) → locks_ok p L Q → locks_ok p L Q'.
Proof. intros HQ. revert L. induction p as [a|B' m q IH|l q IH|l q IH|q IH]; intros L; simpl; naive_solver. Qed.

Lemma solo_step k i p c w1 p1 v (R : world → Prop) :
  c_fault c = None → c_threads c !! i = Some p → call_step k p (c_w c) = Some (w1, inl p1) →
  (∃ n w', sched (conc_step k) (λ _, AThread i) n (MkConc w1 (<[i := p1]> (c_threads c)) None) =
    MkConc w' (<[i := Done v]> (<[i := p1]> (c_threads c))) None ∧ R w') →
  ∃ n w', sched (conc_step k) (λ _, AThread i) n c = MkConc w' (<[i := Done v]> (c_threads c)) None ∧ R w'.
Proof.
  intros Hf Hi E (n & w' & Es & HR). exists (S n), w'. split; [|done].
  assert (conc_step k (AThread i) c = Some (MkConc w1 (<[i := p1]> (c_threads c)) None)) as Ec.
  { unfold conc_step. by rewrite Hf, Hi, E. }
  cbn [sched]. unfold sched_step. rewrite Ec. cbn [default].
  rewrite list_insert_insert_eq in Es. exact Es.
Qed.

(** A call that runs alone ends in the state its sequential version gives. *)
Lemma solo k i p L v s' t' calls c :
  w_calls (c_w c) = calls →
  c_fault c = None → c_threads c !! i = Some p →
  locks_ok p L (λ L, L = []) → (∀ l, w_held (c_w c) l = bool_decide (l ∈ L)) →
  run p k (w_s (c_w c)) (w_t (c_w c)) = (Ok v, s', t') →
  ∃ n w', sched (conc_step k) (λ _, AThread i) n c = MkConc w' (<[i := Done v]> (c_threads c)) None ∧
    (w_s w' = s' ∧ w_t w' = t' ∧ (∀ l, w_held w' l = false) ∧ w_calls w' = calls).
Proof.
  revert L c. induction p as [a|B m q IH|l q IH|l q IH|q IH]; intros L c Hc Hf Hi HL Hheld E; simpl in HL.
  - simpl in E. unfold ret in E. simplify_eq. exists O, (c_w c). split_and!; try done.
    rewrite list_insert_id by done. simpl. destruct c; simpl in *. by subst.
  - cbn [run] in E. unfold bind in E. destruct (m k _ _) as [[[b|f] s1] t1] eqn:Em; [|done].
    eapply solo_step; [done|done|cbn [call_step]; by rewrite Em|].
    apply (IH b L (MkConc _ _ None)); [done|done|by eapply list_lookup_insert_eq, lookup_lt_Some|done..].
  - destruct HL as [Hl HL]. eapply solo_step; [done|done|cbn [call_step]|].
    { by rewrite Hheld, bool_decide_eq_false_2. }
    apply (IH (l :: L) (MkConc _ _ None)); [done|done|by eapply list_lookup_insert_eq, lookup_lt_Some|done| |done].
    intros l'. simpl. case_decide; [rewrite bool_decide_eq_true_2|rewrite Hheld; apply bool_decide_ext]; set_solver.
  - eapply solo_step; [done|done|done|].
    eapply (IH _ (MkConc _ _ None)); [done|done|by eapply list_lookup_insert_eq, lookup_lt_Some|exact HL| |done].
    intros l'. simpl. case_decide; [rewrite bool_decide_eq_false_2; [done|]|rewrite Hheld; apply bool_decide_ext];
      rewrite list_elem_of_filter; naive_solver.
  - eapply solo_step; [done|done|done|].
    apply (IH L (MkConc _ _ None)); [done|done|by eapply list_lookup_insert_eq, lookup_lt_Some|done..].
Qed.

(** *** The calls *)

Ltac discipline :=
  repeat match goal with
  | |- locks_ok (Done _) _ _ => cbn [locks_ok]
  | |- locks_ok (pbind _ _) _ _ => apply locks_ok_bind
  | |- locks_ok (act _) _ _ => cbn [locks_ok act]; intros ?
  | |- locks_ok (lock_ _) _ _ => cbn [locks_ok lock_]; split; [set_solver|]
  | |- locks_ok (unlock_ _) _ _ => cbn [locks_ok unlock_]
  | |- locks_ok wake_kcapd _ _ => cbn [locks_ok wake_kcapd]
  | |- locks_ok (if ?b then _ else _) _ _ => destruct b
  | |- locks_ok (match ?x with _ => _ end) _ _ => destruct x
  | |- ∀ _, _ => intros ?
  end.

Lemma locks_free cb : locks_ok (cap_buffer_free_prog cb) [] (λ L, L = []).
Proof. unfold cap_buffer_free_prog. discipline; done. Qed.

Lemma locks_take : locks_ok take_free_prog [] (λ L, L = []).
Proof. unfold take_free_prog. discipline; done. Qed.

Lemma locks_fill a pkt data gfp type : locks_ok (fill_cb_prog a pkt data gfp type) [] (λ L, L = []).
Proof.
  unfold fill_cb_prog. discipline; try done.
  all: eapply locks_ok_mono; [|apply locks_free]; by intros L ->.
Qed.

Lemma locks_alloc pkt data gfp type : locks_ok (cap_buffer_alloc_prog pkt data gfp type) [] (λ L, L = []).
Proof.
  unfold cap_buffer_alloc_prog. apply locks_ok_bind. eapply locks_ok_mono; [|apply locks_take].
  intros L -> cb. destruct cb as [a|]; discipline; first [apply locks_fill|eapply locks_ok_mono; [|apply (locks_free None)]; by intros L ->].
Qed.

Lemma locks_hook pkt : locks_ok (hook_func_queue_prog pkt) [] (λ L, L = []).
Proof.
  unfold hook_func_queue_prog. discipline; [done|].
  eapply locks_ok_mono; [|apply locks_alloc]. intros L ->.
  unfold cap_rate_check_prog. discipline; try done.
  all: eapply locks_ok_mono; [|apply locks_free]; by intros L ->.
Qed.

Lemma locks_receive_msg nlh h L :
  UsrtabLock ∉ L → locks_ok (cap_receive_msg_prog nlh h) L (λ L', L' = L).
Proof.
  intros HL. unfold cap_receive_msg_prog. discipline; try done.
  all: rewrite filter_cons_False by tauto; apply filter_all, Forall_forall; intros l Hl ->; done.
Qed.

Lemma locks_receive_all ms L : UsrtabLock ∉ L → locks_ok (receive_all_prog ms) L (λ L', L' = L).
Proof.
  intros HL. induction ms as [|[nlh h] ms IH]; [done|]. cbn [receive_all_prog].
  apply locks_ok_bind. eapply locks_ok_mono; [|by apply locks_receive_msg]. intros L' -> err. discipline; done.
Qed.

Lemma locks_call c : locks_ok (call_prog c) [] (λ L, L = []).
Proof.
  destruct c as [pkt|buf]; [apply locks_hook|]. cbn [call_prog]. unfold cap_receive_prog.
  apply locks_ok_bind. cbn [locks_ok lock_]. split; [apply not_elem_of_nil|]. intros _.
  apply locks_ok_bind. eapply locks_ok_mono; [|apply locks_receive_all; set_solver]. intros L -> _.
  discipline. done.
Qed.

(** What a call does in the sequential model. *)
Definition call_handler (c : call) : CM Z :=
  match c with
  | CallHook pkt => hook_func_queue pkt
  | CallReceive buf => cap_receive buf ;; ret 0
  end.

Lemma run_call c : same (run (call_prog c)) (call_handler c).
Proof. destruct c; [apply run_hook|apply run_receive]. Qed.

Ltac kc := cbn -[u32 Z.leb Z.ltb Z.eqb ECONNREFUSED Z.opp] in *.

(** The thread alone: from the dequeue on, its statements do what one pass of
    the sequential model does. *)
Lemma kcapd_solo k more s' t' c :
  c_fault c = None → w_kp (c_w c) = Some KDequeue →
  kcapd_pass k (w_s (c_w c)) (w_t (c_w c)) = (Ok more, s', t') →
  ∃ n w', sched (conc_step k) (λ _, AKcapd) n c = MkConc w' (c_threads c) None ∧
    w_s w' = s' ∧ w_t w' = t' ∧ w_kp w' = Some (if more then KTop else KTest) ∧ w_held w' = w_held (c_w c).
Proof.
  destruct c as [[s t held wait kp calls] ths fault]. cbn [c_fault c_w w_kp w_s w_t w_held c_threads]. intros -> ->.
  unfold kcapd_pass, bind at 1 2, get at 1, modify at 1. set (r := skb_dequeue (cap_skb_queue s)).
  destruct r as [[skb|] q] eqn:Er; subst r; cbn [fst snd].
  2: { intros [= <- <- <-]. exists 1%nat. cbn. rewrite Er. by eexists. }
  unfold kcapd_send_reply, bind, get, emit, kcall, modify, ret, crash.
  intros E. destruct (u32 _ <=? _) eqn:Eb; (destruct (_ <? 0) eqn:Eneg; [destruct (_ =? - ECONNREFUSED) eqn:Eref|]); simplify_eq.
  1,3: exists 7%nat. 3,4: exists 6%nat.
  all: kc; rewrite Er; kc; unfold bind, get, emit, ret, kcall, modify; kc; rewrite Eb; kc; rewrite Eneg; kc; rewrite ?Eref; kc.
  all: by eexists.
Qed.

(** C6: the statement-by-statement programs are the handlers.  A hook or
    command call that finds the locks free and is not interrupted leaves
    memory, trace and result exactly as the sequential handler
    ([hook_func_queue], [cap_receive]) does and releases every lock; and the
    thread, from [skb_dequeue] on, leaves them as one sequential pass does,
    going on to its loop test or to [wait_event_freezable]. *)
Theorem uninterrupted_calls k c i cl v s' t' :
  c_fault c = None → (∀ l, w_held (c_w c) l = false) → c_threads c !! i = Some (call_prog cl) →
  call_handler cl k (w_s (c_w c)) (w_t (c_w c)) = (Ok v, s', t') →
  (∃ n w', sched (conc_step k) (λ _, AThread i) n c = MkConc w' (<[i := Done v]> (c_threads c)) None ∧
    w_s w' = s' ∧ w_t w' = t' ∧ (∀ l, w_held w' l = false) ∧ w_calls w' = w_calls (c_w c)) ∧
  (∀ more s'' t'', w_kp (c_w c) = Some KDequeue →
    kcapd_pass k (w_s (c_w c)) (w_t (c_w c)) = (Ok more, s'', t'') →
    ∃ n w', sched (conc_step k) (λ _, AKcapd) n c = MkConc w' (c_threads c) None ∧
      w_s w' = s'' ∧ w_t w' = t'' ∧ w_kp w' = Some (if more then KTop else KTest) ∧ w_held w' = w_held (c_w c)).
Proof.
  intros Hf Hfree Hi E. split.
  - apply (solo k i (call_prog cl) []); try done; [apply locks_call|]. by rewrite run_call.
  - intros more s'' t'' Hkp Ek. by apply kcapd_solo.
Qed.
End Uninterrupted.

(** ** Witness *)

(** The hook is called while the thread is about to look at the queue. *)
Definition demo_conc : conc :=
  MkConc (MkWorld demo_s1 demo_t1 (λ _, false) false (Some KDequeue) [CallHook demo_pkt])
    [call_prog (CallHook demo_pkt)] None.

Lemma uninterrupted_calls_witness :
  ∃ n w', sched (conc_step demo_kernel) (λ _, AThread 0) n demo_conc = MkConc w' [Done NF_ACCEPT] None ∧
    w_s w' = demo_s2 ∧ w_t w' = demo_t2.
Proof.
  destruct (uninterrupted_calls demo_kernel demo_conc 0 (CallHook demo_pkt) NF_ACCEPT demo_s2 demo_t2) as [(n & w' & E & Hs & Ht & _) _].
  - reflexivity.
  - reflexivity.
  - reflexivity.
  - vm_compute. reflexivity.
  - exists n, w'. auto.
Defined.
