(* ===== verification/CapLogic.v ===== *)
(** * A program logic for the capture module under interleaving

    A small program logic for the programs of [CapConc]: every call in progress
    has a ghost state that says which capture buffer and which locks are its
    own; [safe] is the weakest precondition of a program against the global
    invariant [conc_ok]; a program that is [safe] stays safe whatever the other
    calls and the thread do in between. *)

From S2P Require Import Prelude Bytes Nlmsg UserTab RateCheck CapState CapPool Capture CapSystem CapConc.

(** ** Ghost states *)

(** What a call knows inside the critical section of [cap_freelist_lock], or
    that it has queued a message and will wake the thread next. *)
Inductive phase :=
| PNone
| PNonempty            (* the free list is not empty *)
| PFirst (a : Z)       (* [a] is its first buffer *)
| PRoom                (* fewer than CAP_MAXFREE buffers are counted *)
| PSkew                (* counter and list differ by one *)
| PNull                (* kmalloc has returned NULL *)
| PWake.               (* wake_up_interruptible comes next *)

Record ghost := MkGhost {
  g_call : call;
  g_pending : bool;                    (* nothing queued for the packet yet *)
  g_own : option (Z * cap_buffer);     (* a buffer nobody else uses *)
  g_locks : list lock;
  g_phase : phase;
}.

Definition packet_of (c : call) : option packet :=
  match c with CallHook pkt => Some pkt | CallReceive _ => None end.

Definition pending (gs : list ghost) : list packet :=
  omap (λ g, if g_pending g then packet_of (g_call g) else None) gs.

Definition owned (gs : list ghost) : list (Z * cap_buffer) := omap g_own gs.

Definition skew1 (g : ghost) : Z := match g_phase g with PSkew => 1 | _ => 0 end.
Definition skew (gs : list ghost) : Z := foldr (λ g n, skew1 g + n) 0 gs.

(** Lock order: the mutex is taken before the spin locks, and a spin lock is
    never taken while holding another. *)
Definition lock_rank (l : lock) : nat := match l with CmdMutex => 0 | _ => 1 end.

Section Invariant.
Context `{NlmsgLaws} `{KListsLaws}.

Definition phase_ok (p : cap_pool) (t : list cap_ev) (g : ghost) : Prop :=
  match g_phase g with
  | PNone | PWake => True
  | PNonempty => free_elems p ≠ [] ∧ FreelistLock ∈ g_locks g
  | PFirst a => head (free_elems p) = Some a ∧ FreelistLock ∈ g_locks g
  | PRoom => cap_freelist_count p < CAP_MAXFREE ∧ FreelistLock ∈ g_locks g
  | PSkew => FreelistLock ∈ g_locks g
  | PNull => EvKmalloc None ∈ t
  end.

(** The pool while calls are under way: the counter is right except for the
    call inside the critical section; buffers on the list and buffers calls
    work on are all different and in memory. *)
Record pool_ok (p : cap_pool) (t : list cap_ev) (gs : list ghost) : Prop := {
  po_count : cap_freelist_count p = Z.of_nat (length (free_elems p)) + skew gs;
  po_max : cap_freelist_count p ≤ CAP_MAXFREE;
  po_nodup : NoDup (free_elems p ++ (owned gs).*1);
  po_own : ∀ a cb, (a, cb) ∈ owned gs → cbs p !! a = Some cb;
  po_free : ∀ a, a ∈ free_elems p → ∃ cb, cbs p !! a = Some cb ∧ cb_skb cb = None;
  po_mem : dom (cbs p) = live_cbs t;
  po_phase : Forall (phase_ok p t) gs;
}.

(** Every lock is held by one call or by none. *)
Definition locks_held (held : lock → bool) (gs : list ghost) : Prop :=
  ∀ l, length (filter (λ L : list lock, l ∈ L) (g_locks <$> gs)) = if held l then 1%nat else 0%nat.

(** The message the thread has taken off the queue and not handed to
    [netlink_unicast] yet. *)
Definition in_flight (kp : option kpc) : list sk_buff :=
  match kp with
  | Some (KBacklog skb) | Some (KGet skb) | Some (KPortid skb) | Some (KUnicast skb _) => [skb]
  | _ => []
  end.

Definition asleep (w : world) : Prop := w_kp w = Some KSleep ∧ w_wait w = true.

Definition is_wake (g : ghost) : Prop := g_phase g = PWake.

(** The message is a copy of a packet that is one linear area. *)
Definition copied (pkt : packet) (skb : sk_buff) : Prop := linear pkt ∧ ∃ p, forwarded p pkt skb.

(** From queue to client nothing is lost, duplicated or reordered; what is
    queued are copies of the packets of different hook calls, packets without
    page fragments; and while the thread sleeps on a non-empty queue, a call is
    about to wake it. *)
Record queue_ok (w : world) (gs : list ghost) : Prop := {
  qo_fifo : queued (w_t w) = sent (w_t w) ++ in_flight (w_kp w) ++ q_elems (cap_skb_queue (w_s w));
  qo_content : ∃ pkts, pkts ++ pending gs ⊆+ omap packet_of (w_calls w) ∧
    Forall2 copied pkts (queued (w_t w));
  qo_wake : asleep w → q_elems (cap_skb_queue (w_s w)) ≠ [] → Exists is_wake gs;
}.

Record conc_ok (w : world) (gs : list ghost) : Prop := {
  co_pool : pool_ok (pool (w_s w)) (w_t w) gs;
  co_locks : locks_held (w_held w) gs;
  co_queue : queue_ok w gs;
  co_tab : length (usrtab (utab (w_s w))) = MAX_TAB_SIZE;
  co_task : is_Some (kcapd_task (w_s w)) → is_Some (w_kp w);
}.

(** ** Weakest preconditions *)

(** The texts of a command buffer all end in a zero byte. *)
Definition terminated (buf : list Z) : Prop :=
  Forall (λ m, is_Some (cstr (drop 16 m.1))) (commands buf).

(** A call that hands over the memory the code reads: a packet without page
    fragments, command texts with an end. *)
Definition well_formed (c : call) : Prop :=
  match c with
  | CallHook pkt => linear pkt
  | CallReceive buf => terminated buf
  end.

(** The faults that can happen in a call after the events [t]: in the hook, no
    memory for a new buffer, or reading past the linear bytes of the packet;
    in a command, reading past a text without an end. *)
Definition excuse (k : cap_kernel) (t : list cap_ev) (c : call) (f : fault) : Prop :=
  f = NullDeref ∧ EvKmalloc None ∈ t ∧ (∃ t', k_kmalloc k t' = None) ∧ (∃ pkt, c = CallHook pkt) ∨
  f = OutOfBounds ∧ ¬ well_formed c.

Context (k : cap_kernel).

Fixpoint safe {A} (p : prog A) (Q : A → ghost → Prop) (g : ghost) : Prop :=
  match p with
  | Done a => Q a g
  | Act m q =>
      g_phase g ≠ PWake ∧
      ∀ w rest, conc_ok w (g :: rest) →
        match m k (w_s w) (w_t w) with
        | (Ok b, s, t) =>
            (∃ ev, t = w_t w ++ ev ∧ sent ev = []) ∧
            ∃ g', g_call g' = g_call g ∧ conc_ok (upd s t w) (g' :: rest) ∧ safe (q b) Q g'
        | (Crash f, _, t) => excuse k t (g_call g) f
        end
  | Lock l q =>
      g_phase g = PNone ∧ (∀ l', l' ∈ g_locks g → (lock_rank l' < lock_rank l)%nat) ∧
      safe q Q (MkGhost (g_call g) (g_pending g) (g_own g) (l :: g_locks g) PNone)
  | Unlock l q =>
      g_phase g = PNone ∧ ∃ L, g_locks g = l :: L ∧ (l ∉ L) ∧
      safe q Q (MkGhost (g_call g) (g_pending g) (g_own g) L PNone)
  | Wake q => g_phase g = PWake ∧ safe q Q (MkGhost (g_call g) (g_pending g) (g_own g) (g_locks g) PNone)
  end.

Lemma safe_mono {A} (p : prog A) (Q Q' : A → ghost → Prop) g :
  (∀ a g, Q a g → Q' a g) → safe p Q g → safe p Q' g.
Proof.
  intros HQ. revert g. induction p as [a|B m q IH|l q IH|l q IH|q IH]; intros g; simpl; [auto|..].
  - intros [Hw Hm]. split; [done|]. intros w rest Hok. specialize (Hm w rest Hok).
    destruct (m k (w_s w) (w_t w)) as [[[b|f] s] t]; [|done]. naive_solver.
  - naive_solver.
  - naive_solver.
  - naive_solver.
Qed.

Lemma safe_bind {A B} (p : prog A) (f : A → prog B) Q g :
  safe p (λ a g, safe (f a) Q g) g → safe (pbind p f) Q g.
Proof.
  revert g. induction p as [a|B' m q IH|l q IH|l q IH|q IH]; intros g; simpl; [auto|..].
  - intros [Hw Hm]. split; [done|]. intros w rest Hok. specialize (Hm w rest Hok).
    destruct (m k (w_s w) (w_t w)) as [[[b|e] s] t]; [|done]. naive_solver.
  - naive_solver.
  - naive_solver.
  - naive_solver.
Qed.

(** ** The order of the calls does not matter *)

Lemma skew_cons g gs : skew (g :: gs) = skew1 g + skew gs.
Proof. done. Qed.

#[local] Instance skew_perm : Proper ((≡ₚ) ==> (=)) skew.
Proof. intros gs gs' E. induction E; rewrite ?skew_cons in *; lia. Qed.

#[local] Instance pool_ok_perm p t : Proper ((≡ₚ) ==> impl) (pool_ok p t).
Proof.
  intros gs gs' E [Hc Hm Hn Ho Hf Hd Hp]. unfold owned in *. split; try done.
  - by rewrite <-E.
  - unfold owned. by rewrite <-E.
  - intros a cb. unfold owned. rewrite <-E. apply Ho.
  - by rewrite <-E.
Qed.

Lemma conc_ok_perm w gs gs' : gs ≡ₚ gs' → conc_ok w gs → conc_ok w gs'.
Proof.
  intros E [Hp Hl [Hf Hc Hw] Ht Hk]. split; try done.
  - by rewrite <-E.
  - intros l. rewrite <-Hl. by rewrite E.
  - split; [done| |].
    + destruct Hc as (pkts & Hsub & Hall). exists pkts. split; [|done]. rewrite <-Hsub. unfold pending. by rewrite E.
    + intros. rewrite <-E. auto.
Qed.

(** ** Steps that leave the pool alone *)

Lemma upd_id w gs : conc_ok w gs → upd (w_s w) (w_t w) w = w.
Proof.
  intros Hok. pose proof (co_task _ _ Hok) as Ht. destruct w as [s t held wait kp calls]. simpl in *.
  unfold upd, kp_started. simpl. destruct kp, (kcapd_task s); try done. by destruct Ht.
Qed.

Lemma in_flight_started kp s : in_flight (kp_started kp s) = in_flight kp.
Proof. unfold kp_started. by destruct kp, (kcapd_task s). Qed.

Lemma asleep_upd s t w : asleep (upd s t w) → asleep w.
Proof.
  intros [Hk Hw]. split; [|done]. simpl in Hk. unfold kp_started in Hk.
  by destruct (w_kp w), (kcapd_task s).
Qed.

Lemma task_upd s t w : is_Some (kcapd_task s) → is_Some (w_kp (upd s t w)).
Proof. intros [x Hx]. simpl. unfold kp_started. rewrite Hx. by destruct (w_kp w). Qed.

Lemma wake_tl c b o L ph rest : ph ≠ PWake → Exists is_wake (MkGhost c b o L ph :: rest) → Exists is_wake rest.
Proof. by intros Hne [Hw|Hw]%Exists_cons. Qed.

(** Only the phase of a call changes. *)
Lemma conc_phase w c b o L ph ph' rest :
  conc_ok w (MkGhost c b o L ph :: rest) → ph ≠ PWake → skew1 (MkGhost c b o L ph') = skew1 (MkGhost c b o L ph) →
  phase_ok (pool (w_s w)) (w_t w) (MkGhost c b o L ph') → conc_ok w (MkGhost c b o L ph' :: rest).
Proof.
  intros [[Hc Hm Hn Ho Hf Hd Hp] Hl [Hfi Hco Hw] Ht Hk] Hne Hs Hph. split; try done.
  - split; try done.
    + by rewrite Hc, !skew_cons, Hs.
    + apply Forall_cons in Hp as [_ Hp]. by constructor.
  - split; [done..|]. intros Ha Hq. by eapply Exists_cons_tl, wake_tl, Hw.
Qed.

(** The pool changes and events happen that are neither queueing nor sending. *)
Lemma conc_pool w p' t' c b o L ph o' ph' rest :
  conc_ok w (MkGhost c b o L ph :: rest) → ph ≠ PWake →
  quiet (w_t w) t' → pool_ok p' t' (MkGhost c b o' L ph' :: rest) →
  conc_ok (upd (set_pool p' (w_s w)) t' w) (MkGhost c b o' L ph' :: rest).
Proof.
  intros [Hp Hl [Hfi Hco Hw] Ht Hk] Hne [Hq Hs] Hp'. split; try done.
  - split; simpl.
    + by rewrite in_flight_started, Hq, Hs.
    + by rewrite Hq.
    + intros Ha%asleep_upd Hne'. by eapply Exists_cons_tl, wake_tl, Hw.
  - apply task_upd.
Qed.

(** ** Steps on the pool *)

(** Nobody among [rest] is in the critical section of the free list. *)
Definition alone (rest : list ghost) : Prop := Forall (λ g, FreelistLock ∉ g_locks g) rest.

Lemma alone_of w g rest : conc_ok w (g :: rest) → FreelistLock ∈ g_locks g → alone rest.
Proof.
  intros Hok Hg. pose proof (co_locks _ _ Hok FreelistLock) as Hl. rewrite fmap_cons, filter_cons_True in Hl by done.
  apply Forall_forall. intros g' Hg' Hin.
  assert (g_locks g' ∈ filter (λ L : list lock, FreelistLock ∈ L) (g_locks <$> rest)) as Hf.
  { apply list_elem_of_filter. split; [done|]. by apply list_elem_of_fmap_2. }
  destruct (filter _ (g_locks <$> rest)); [by apply elem_of_nil in Hf|]. simpl in Hl. by destruct (w_held w FreelistLock).
Qed.

Lemma alone_phase p p' t rest : alone rest → Forall (phase_ok p t) rest → Forall (phase_ok p' t) rest ∧ skew rest = 0.
Proof.
  induction 1 as [|g rest Hg _ IH]; [done|]. intros [Hp Hps]%Forall_cons. destruct (IH Hps) as [IH1 IH2].
  rewrite skew_cons, IH2. unfold skew1, phase_ok in *. split; [constructor|]; try done; destruct (g_phase g); tauto.
Qed.

Lemma po_del p t c b L a rest :
  pool_ok p t (MkGhost c b None L (PFirst a) :: rest) → alone rest →
  ∃ cb, cbs p !! a = Some cb ∧ cb_skb cb = None ∧
    pool_ok (MkPool (list_del a (cap_freelist p)) (cap_freelist_count p) (cbs p)) t
      (MkGhost c b (Some (a, cb)) L PSkew :: rest).
Proof.
  intros [Hc Hm Hn Ho Hf Hd [[Hh HL] Hp]%Forall_cons] Hal. simpl in HL.
  destruct (free_elems p) as [|a' l] eqn:He; [done|]. simpl in Hh. simplify_eq.
  destruct (Hf a) as (cb & Hcb & Hskb); [by left|]. exists cb. split_and!; [done..|].
  assert (free_elems (MkPool (list_del a (cap_freelist p)) (cap_freelist_count p) (cbs p)) = l) as El
    by (by apply lh_del). rewrite skew_cons in Hc. simpl in Hc, Hn.
  apply NoDup_cons in Hn as [Hna Hn].
  destruct (alone_phase p (MkPool (list_del a (cap_freelist p)) (cap_freelist_count p) (cbs p)) t rest Hal Hp) as [Hp' Hs].
  split; rewrite ?El; try done.
  - rewrite skew_cons. simpl. unfold skew1 in *. simpl in *. lia.
  - change (owned _) with ((a, cb) :: owned rest). rewrite fmap_cons. simpl.
    rewrite <-Permutation_middle. by constructor.
  - intros a' cb' [[= -> ->]|Hin]%elem_of_cons; [done|]. by apply Ho.
  - intros a' Ha'. apply Hf. by right.
  - by constructor.
Qed.

Lemma po_count_to p t c b o L ph ph' n rest :
  pool_ok p t (MkGhost c b o L ph :: rest) → alone rest → FreelistLock ∈ L → n ≤ CAP_MAXFREE →
  n = Z.of_nat (length (free_elems p)) + skew1 (MkGhost c b o L ph') → (ph' = PNone ∨ ph' = PSkew) →
  pool_ok (MkPool (cap_freelist p) n (cbs p)) t (MkGhost c b o L ph' :: rest).
Proof.
  intros [Hc Hm Hn Ho Hf Hd [_ Hp]%Forall_cons] Hal HL Hn' Heq Hph.
  destruct (alone_phase p (MkPool (cap_freelist p) n (cbs p)) t rest Hal Hp) as [Hp' Hs].
  split; try done.
  - rewrite skew_cons, Hs. unfold free_elems in *. simpl in *. lia.
  - constructor; [|done]. by destruct Hph as [-> | ->].
Qed.

Lemma po_add p t c b L a cb rest :
  pool_ok p t (MkGhost c b (Some (a, cb)) L PSkew :: rest) → alone rest → cb_skb cb = None →
  pool_ok (MkPool (list_add a (cap_freelist p)) (cap_freelist_count p) (cbs p)) t
    (MkGhost c b None L PNone :: rest).
Proof.
  intros [Hc Hm Hn Ho Hf Hd [_ Hp]%Forall_cons] Hal Hskb. set (p' := MkPool _ _ _).
  destruct (alone_phase p p' t rest Hal Hp) as [Hp' Hs].
  assert (free_elems p' = a :: free_elems p) as El by (apply lh_add).
  change (owned _) with ((a, cb) :: owned rest) in Hn, Ho. rewrite fmap_cons in Hn. simpl in Hn.
  split; rewrite ?El; try done.
  - rewrite skew_cons in *. unfold skew1 in *. simpl in *. lia.
  - rewrite <-Permutation_middle in Hn. done.
  - intros a' cb' Hin. apply Ho. by right.
  - intros a' [->|Ha']%elem_of_cons; [|auto]. exists cb. split; [|done]. apply Ho. by left.
  - by constructor.
Qed.

(** What a call knows stays true when more happens. *)
Lemma phase_later p t t' gs : t `prefix_of` t' → Forall (phase_ok p t) gs → Forall (phase_ok p t') gs.
Proof.
  intros [ev ->] Hp. eapply Forall_impl; [exact Hp|]. intros g. unfold phase_ok. destruct (g_phase g); try done.
  intros Hnull. apply elem_of_app. by left.
Qed.

(** The memory of buffers changes, the free list does not. *)
Lemma po_mem_to p t t' g g' m rest :
  pool_ok p t (g :: rest) → t `prefix_of` t' → skew1 g' = skew1 g → g_phase g' = PNone →
  NoDup (free_elems p ++ (owned (g' :: rest)).*1) →
  (∀ a cb, g_own g' = Some (a, cb) → m !! a = Some cb) →
  (∀ a, a ∈ free_elems p ++ (owned rest).*1 → m !! a = cbs p !! a) →
  dom m = live_cbs t' →
  pool_ok (MkPool (cap_freelist p) (cap_freelist_count p) m) t' (g' :: rest).
Proof.
  intros [Hc Hm Hn Ho Hf Hd [_ Hp]%Forall_cons] Ht Hs Hph Hn' Hown Hsame Hdom. split; try done.
  - by rewrite skew_cons, Hs, <-skew_cons.
  - intros a cb Hin. unfold owned in Hin. simpl in Hin.
    assert (g_own g' = Some (a, cb) ∨ (a, cb) ∈ owned rest) as [Hg|Hr].
    { destruct (g_own g') as [ac|]; [|by right]. apply elem_of_cons in Hin as [->|Hin]; [by left|by right]. }
    + by apply Hown.
    + simpl. rewrite Hsame.
      * apply Ho. unfold owned. simpl. destruct (g_own g); [by right|done].
      * apply elem_of_app. right. apply list_elem_of_fmap. by exists (a, cb).
  - intros a Ha. simpl. rewrite Hsame; [by apply Hf|]. apply elem_of_app. by left.
  - constructor; [unfold phase_ok; by rewrite Hph|]. by eapply phase_later in Hp.
Qed.

(** The buffers a call does not own are not its buffer. *)
Lemma po_others p t c b a cb L ph rest :
  pool_ok p t (MkGhost c b (Some (a, cb)) L ph :: rest) →
  cbs p !! a = Some cb ∧ (a ∉ free_elems p ++ (owned rest).*1) ∧ NoDup (free_elems p ++ (owned rest).*1).
Proof.
  intros [_ _ Hn Ho _ _ _]. change (owned _) with ((a, cb) :: owned rest) in Hn, Ho.
  split; [apply Ho; by left|]. rewrite fmap_cons in Hn. simpl in Hn. rewrite <-Permutation_middle in Hn.
  by apply NoDup_cons in Hn.
Qed.

Lemma po_write p t c b a cb cb' L rest :
  pool_ok p t (MkGhost c b (Some (a, cb)) L PNone :: rest) →
  pool_ok (MkPool (cap_freelist p) (cap_freelist_count p) (<[a := cb']> (cbs p))) t
    (MkGhost c b (Some (a, cb')) L PNone :: rest).
Proof.
  intros Hok. destruct (po_others _ _ _ _ _ _ _ _ _ Hok) as (Ha & Hno & Hnd).
  eapply po_mem_to; [exact Hok|done|done|done|..].
  - change (owned _) with ((a, cb') :: owned rest). rewrite fmap_cons. simpl. rewrite <-Permutation_middle. by constructor.
  - intros a' cb'' [= <- <-]. apply lookup_insert_eq.
  - intros a' Ha'. apply lookup_insert_ne. by intros ->.
  - rewrite dom_insert_lookup_L; [|eauto]. apply (po_mem _ _ _ Hok).
Qed.

Lemma po_kfree p t c b a cb L rest :
  pool_ok p t (MkGhost c b (Some (a, cb)) L PNone :: rest) →
  pool_ok (MkPool (cap_freelist p) (cap_freelist_count p) (delete a (cbs p))) (t ++ [EvKfree a])
    (MkGhost c b None L PNone :: rest).
Proof.
  intros Hok. destruct (po_others _ _ _ _ _ _ _ _ _ Hok) as (Ha & Hno & Hnd).
  eapply po_mem_to; [exact Hok|by apply prefix_app_r|done|done|..].
  - done.
  - done.
  - intros a' Ha'. apply lookup_delete_ne. by intros ->.
  - by rewrite dom_delete_L, live_cbs_snoc, (po_mem _ _ _ Hok).
Qed.

Lemma po_new p t c b a cb L rest :
  pool_ok p t (MkGhost c b None L PNone :: rest) → a ∉ live_cbs t →
  pool_ok (MkPool (cap_freelist p) (cap_freelist_count p) (<[a := cb]> (cbs p))) (t ++ [EvKmalloc (Some a)])
    (MkGhost c b (Some (a, cb)) L PNone :: rest).
Proof.
  intros Hok Hfresh. rewrite <-(po_mem _ _ _ Hok), not_elem_of_dom in Hfresh.
  assert (a ∉ free_elems p ++ (owned rest).*1) as Hno.
  { rewrite elem_of_app. intros [Hin|Hin].
    - destruct (po_free _ _ _ Hok _ Hin) as (? & ? & _). congruence.
    - apply list_elem_of_fmap in Hin as ([a' cb'] & -> & Hin). apply (po_own _ _ _ Hok) in Hin. simpl in *. congruence. }
  eapply po_mem_to; [exact Hok|by apply prefix_app_r|done|done|..].
  - change (owned _) with ((a, cb) :: owned rest). rewrite fmap_cons. simpl. rewrite <-Permutation_middle.
    constructor; [done|]. apply (po_nodup _ _ _ Hok).
  - intros a' cb'' [= <- <-]. apply lookup_insert_eq.
  - intros a' Ha'. apply lookup_insert_ne. by intros ->.
  - by rewrite dom_insert_L, live_cbs_snoc, (po_mem _ _ _ Hok).
Qed.

Lemma po_snoc p t e gs : (∀ X, live_ev X e = X) → pool_ok p t gs → pool_ok p (t ++ [e]) gs.
Proof.
  intros He [Hc Hm Hn Ho Hf Hd Hp]. split; try done.
  - by rewrite live_cbs_snoc, He.
  - by eapply phase_later, Hp; apply prefix_app_r.
Qed.

(** ** Rules for single steps *)

(** A step that only reads; the call may learn something from it. *)
Lemma safe_read {A} (m : CM A) Q g :
  g_phase g ≠ PWake →
  (∀ w rest, conc_ok w (g :: rest) →
    ∃ b g', m k (w_s w) (w_t w) = (Ok b, w_s w, w_t w) ∧ g_call g' = g_call g ∧ conc_ok w (g' :: rest) ∧ Q b g') →
  safe (act m) Q g.
Proof.
  intros Hne Hm. split; [done|]. intros w rest Hok. destruct (Hm w rest Hok) as (b & g' & -> & Hc & Hok' & HQ).
  split; [exists []; by rewrite app_nil_r|]. exists g'. by rewrite (upd_id w _ Hok).
Qed.

Lemma safe_look {A} (m : CM A) Q g :
  g_phase g ≠ PWake → (∀ s t, ∃ b, m k s t = (Ok b, s, t)) → (∀ b, Q b g) → safe (act m) Q g.
Proof.
  intros Hne Hm HQ. apply safe_read; [done|]. intros w rest Hok.
  destruct (Hm (w_s w) (w_t w)) as [b E]. by exists b, g.
Qed.

Lemma safe_val {A} v (m : CM A) Q g :
  g_phase g ≠ PWake → (∀ s t, m k s t = (Ok v, s, t)) → Q v g → safe (act m) Q g.
Proof. intros Hne Hm HQ. apply safe_read; [done|]. intros w rest Hok. by exists v, g. Qed.

Lemma safe_get {A} (f : cap_state → A) Q g : g_phase g ≠ PWake → (∀ b, Q b g) → safe (act (get f)) Q g.
Proof. intros Hne. apply safe_look; [done|]. intros s t. by eexists. Qed.

(** A step on the pool. *)
Lemma safe_pool {A} (m : CM A) Q c b o L ph :
  ph ≠ PWake →
  (∀ w rest, conc_ok w (MkGhost c b o L ph :: rest) →
    ∃ r p' ev o' ph', m k (w_s w) (w_t w) = (Ok r, set_pool p' (w_s w), w_t w ++ ev) ∧
      queued ev = [] ∧ sent ev = [] ∧
      pool_ok p' (w_t w ++ ev) (MkGhost c b o' L ph' :: rest) ∧ Q r (MkGhost c b o' L ph')) →
  safe (act m) Q (MkGhost c b o L ph).
Proof.
  intros Hne Hm. split; [done|]. intros w rest Hok.
  destruct (Hm w rest Hok) as (r & p' & ev & o' & ph' & -> & Hq & Hs & Hp & HQ).
  split; [by exists ev|]. exists (MkGhost c b o' L ph'). split_and!; [done| |done].
  eapply conc_pool; [exact Hok|done| |done]. split; [by rewrite queued_app, Hq, app_nil_r|].
  by rewrite sent_app, Hs, app_nil_r.
Qed.

(** A kernel call that is of no interest to the pool and the queue. *)
Lemma safe_call {A} (ask : cap_kernel → list cap_ev → A) ev Q c b o L ph :
  ph ≠ PWake → (∀ a, neutral (ev a)) → (∀ t, Q (ask k t) (MkGhost c b o L ph)) →
  safe (act (kcall ask ev)) Q (MkGhost c b o L ph).
Proof.
  intros Hne Hev HQ. apply safe_pool; [done|]. intros w rest Hok.
  destruct (Hev (ask k (w_t w))) as (Hl & Hq & Hs).
  eexists _, (pool (w_s w)), [ev (ask k (w_t w))], o, ph. split_and!; [|done|done| |apply HQ].
  - by destruct (w_s w).
  - apply po_snoc; [done|]. apply Hok.
Qed.

Lemma safe_emit e Q c b o L ph :
  ph ≠ PWake → neutral e → Q tt (MkGhost c b o L ph) → safe (act (emit e)) Q (MkGhost c b o L ph).
Proof. intros Hne He HQ. by apply (safe_call (λ _ _, tt) (λ _, e)). Qed.

Lemma safe_cb_write f Q c b a cb L :
  Q tt (MkGhost c b (Some (a, f cb)) L PNone) →
  safe (act (cb_write a f)) Q (MkGhost c b (Some (a, cb)) L PNone).
Proof.
  intros HQ. apply safe_pool; [done|]. intros w rest Hok.
  destruct (po_others _ _ _ _ _ _ _ _ _ (co_pool _ _ Hok)) as (Ha & _).
  unfold cb_write, cb_read, bind, get, ret, modify. rewrite Ha.
  eexists _, _, [], _, _. rewrite app_nil_r. split_and!; [reflexivity|done|done|by eapply po_write, Hok|done].
Qed.

Lemma safe_cb_read Q c b a cb L :
  Q cb (MkGhost c b (Some (a, cb)) L PNone) →
  safe (act (cb_read a)) Q (MkGhost c b (Some (a, cb)) L PNone).
Proof.
  intros HQ. apply safe_read; [done|]. intros w rest Hok.
  destruct (po_others _ _ _ _ _ _ _ _ _ (co_pool _ _ Hok)) as (Ha & _).
  unfold cb_read, bind, get, ret. rewrite Ha. by eexists _, _.
Qed.

Lemma safe_lock l Q c b o L :
  (∀ l', l' ∈ L → (lock_rank l' < lock_rank l)%nat) →
  Q tt (MkGhost c b o (l :: L) PNone) → safe (lock_ l) Q (MkGhost c b o L PNone).
Proof. done. Qed.

Lemma safe_unlock l Q c b o L :
  l ∉ L → Q tt (MkGhost c b o L PNone) → safe (unlock_ l) Q (MkGhost c b o (l :: L) PNone).
Proof. intros Hl HQ. split; [done|]. by exists L. Qed.

(** A step that touches neither pool nor queue. *)
Lemma conc_other w s' ev gs :
  conc_ok w gs → pool s' = pool (w_s w) → cap_skb_queue s' = cap_skb_queue (w_s w) →
  length (usrtab (utab s')) = length (usrtab (utab (w_s w))) → Forall neutral ev →
  conc_ok (upd s' (w_t w ++ ev) w) gs.
Proof.
  intros [Hp Hl [Hfi Hco Hw] Ht Hk] Ep Eq Eu Hev.
  assert (quiet (w_t w) (w_t w ++ ev)) as [Hq Hs].
  { clear -Hev. unfold quiet. rewrite queued_app, sent_app.
    induction Hev as [|e ev (_ & Hq & Hs) _ [IHq IHs]]; [by rewrite !app_nil_r|].
    rewrite (queued_app [e] ev : queued (e :: ev) = _), (sent_app [e] ev : sent (e :: ev) = _), Hq, Hs. done. }
  split; simpl.
  - rewrite Ep. clear -Hev Hp. revert Hp. generalize (w_t w).
    induction Hev as [|e ev (He & _) _ IH]; intros t Hp; [by rewrite app_nil_r|].
    rewrite (app_assoc t [e] ev : t ++ e :: ev = _). apply IH. by apply po_snoc.
  - done.
  - split; simpl.
    + by rewrite in_flight_started, Eq, Hq, Hs.
    + by rewrite Hq.
    + intros Ha%asleep_upd Hne. rewrite Eq in Hne. auto.
  - by rewrite Eu.
  - apply (task_upd s' (w_t w ++ ev)).
Qed.

Lemma safe_other {A} (m : CM A) Q g :
  g_phase g ≠ PWake →
  (∀ s t, length (usrtab (utab s)) = MAX_TAB_SIZE → ∃ r s' ev, m k s t = (Ok r, s', t ++ ev) ∧ pool s' = pool s ∧ cap_skb_queue s' = cap_skb_queue s ∧
    length (usrtab (utab s')) = length (usrtab (utab s)) ∧ Forall neutral ev ∧ Q r g) →
  safe (act m) Q g.
Proof.
  intros Hne Hm. split; [done|]. intros w rest Hok.
  destruct (Hm (w_s w) (w_t w) (co_tab _ _ Hok)) as (r & s' & ev & -> & Ep & Eq & Eu & Hev & HQ). split.
  - exists ev. split; [done|]. clear -Hev. induction Hev as [|e ev (_ & _ & He) _ IH]; [done|].
    by rewrite (sent_app [e] ev : sent (e :: ev) = _), He, IH.
  - exists g. split_and!; [done|by apply conc_other|done].
Qed.

(** ** The pool's functions *)

Lemma safe_free Q c b a cb :
  cb_skb cb = None → Q tt (MkGhost c b None [] PNone) →
  safe (cap_buffer_free_prog (Some a)) Q (MkGhost c b (Some (a, cb)) [] PNone).
Proof.
  intros Hskb HQ. unfold cap_buffer_free_prog. apply safe_bind, safe_lock; [set_solver|]. apply safe_bind.
  set (L := [FreelistLock]). assert (FreelistLock ∈ L) as HL by set_solver.
  apply safe_read; [done|]. intros w rest Hok.
  destruct (CAP_MAXFREE <=? cap_freelist_count (pool (w_s w))) eqn:Hmax; zbool.
  - eexists _, (MkGhost c b (Some (a, cb)) L PNone). split_and!; [reflexivity|done|done|].
    rewrite (proj2 (Z.leb_le _ _) Hmax). apply safe_bind, safe_pool; [done|]. clear w rest Hok Hmax. intros w rest Hok.
    eexists _, _, [EvKfree a], None, PNone. split_and!; [reflexivity|done|done|by eapply po_kfree, Hok|].
    by apply safe_unlock; [set_solver|].
  - eexists _, (MkGhost c b (Some (a, cb)) L PRoom). split_and!; [reflexivity|done|by eapply conc_phase|].
    rewrite (proj2 (Z.leb_gt _ _) Hmax). apply safe_bind, safe_bind, safe_pool; [done|]. clear w rest Hok Hmax. intros w rest Hok.
    pose proof (alone_of _ _ _ Hok HL) as Hal. destruct (co_pool _ _ Hok) as [Hc Hm _ _ _ _ [[Hlt _] Hp]%Forall_cons].
    destruct (alone_phase _ (pool (w_s w)) _ rest Hal Hp) as [_ Hs]. rewrite skew_cons, Hs in Hc. unfold skew1 in Hc. simpl in Hc.
    eexists _, _, [], (Some (a, cb)), PSkew. rewrite app_nil_r.
    split_and!; [reflexivity|done|done|eapply po_count_to; [apply Hok|done|done|..]|].
    + unfold CAP_MAXFREE in *. rewrite s32_small; lia.
    + unfold CAP_MAXFREE in *. rewrite s32_small by lia. unfold skew1. simpl. lia.
    + by right.
    + apply safe_pool; [done|]. clear - Hskb HQ HL. intros w rest Hok.
      destruct (po_others _ _ _ _ _ _ _ _ _ (co_pool _ _ Hok)) as (Ha & _).
      unfold cb_read, bind, get, ret, modify. rewrite Ha.
      eexists _, _, [], None, PNone. rewrite app_nil_r.
      split_and!; [reflexivity|done|done|eapply po_add; [apply Hok|by eapply alone_of|done]|].
      by apply safe_unlock; [set_solver|].
Qed.

Lemma safe_take Q c b :
  Q None (MkGhost c b None [] PNone) →
  (∀ a cb, cb_skb cb = None → Q (Some a) (MkGhost c b (Some (a, cb)) [] PNone)) →
  safe take_free_prog Q (MkGhost c b None [] PNone).
Proof.
  intros HN HS. unfold take_free_prog. apply safe_bind, safe_lock; [set_solver|]. apply safe_bind.
  set (L := [FreelistLock]). assert (FreelistLock ∈ L) as HL by set_solver.
  apply safe_read; [done|]. intros w rest Hok.
  destruct (list_empty (cap_freelist (pool (w_s w)))) eqn:He.
  { eexists _, (MkGhost c b None L PNone). split_and!; [reflexivity|done|done|]. rewrite He. apply safe_bind. cbn [safe].
    apply safe_bind, safe_unlock; [set_solver|done]. }
  rewrite lh_empty in He. apply bool_decide_eq_false in He.
  eexists _, (MkGhost c b None L PNonempty). split_and!; [reflexivity|done|by eapply conc_phase|].
  rewrite lh_empty, bool_decide_eq_false_2 by done.
  do 2 apply safe_bind. apply safe_read; [done|]. clear w rest Hok He. intros w rest Hok.
  destruct (proj1 (Forall_cons _ _ _) (po_phase _ _ _ (co_pool _ _ Hok))) as [[Hne _] _].
  destruct (free_elems (pool (w_s w))) as [|a l] eqn:Hl; [done|].
  exists (Some a), (MkGhost c b None L (PFirst a)). split_and!.
  { unfold get. rewrite lh_first. unfold free_elems in Hl. by rewrite Hl. }
  { done. }
  { eapply conc_phase; [exact Hok|done|done|]. unfold phase_ok. simpl. by rewrite Hl. }
  apply safe_bind, (safe_val a); [done|done|]. clear w rest Hok Hne Hl.
  apply safe_bind, safe_pool; [done|]. intros w rest Hok.
  destruct (po_del _ _ _ _ _ _ _ (co_pool _ _ Hok) (alone_of _ _ _ Hok HL)) as (cb & Ha & Hskb & Hp).
  unfold cb_read, bind, get, ret, modify. rewrite Ha.
  eexists _, _, [], (Some (a, cb)), PSkew. rewrite app_nil_r. split_and!; [reflexivity|done|done|exact Hp|].
  apply safe_bind, safe_pool; [done|]. clear w rest Hok Hp Ha. intros w rest Hok.
  pose proof (alone_of _ _ _ Hok HL) as Hal. destruct (co_pool _ _ Hok) as [Hc Hm _ _ _ _ [_ Hp]%Forall_cons].
  destruct (alone_phase _ (pool (w_s w)) _ rest Hal Hp) as [_ Hs]. rewrite skew_cons, Hs in Hc. unfold skew1 in Hc. simpl in Hc.
  eexists _, _, [], (Some (a, cb)), PNone. rewrite app_nil_r.
  split_and!; [reflexivity|done|done|eapply po_count_to; [apply Hok|done|done|..]|].
  - unfold CAP_MAXFREE in *. rewrite s32_small; lia.
  - unfold CAP_MAXFREE in *. rewrite s32_small by lia. unfold skew1. simpl. lia.
  - by left.
  - apply safe_bind, safe_unlock; [set_solver|]. by apply HS.
Qed.

Context (Hk : cap_laws k).

(** A read that goes past the memory it is given is excused when the call is
    not well formed. *)
Lemma safe_over {A} (l : option A) Q g :
  g_phase g ≠ PWake → l = None → ¬ well_formed (g_call g) → safe (act (index l)) Q g.
Proof. intros Hne -> Hwf. split; [done|]. intros w rest Hok. by right. Qed.

Lemma safe_fill Q b a cb pkt data gfp type (c := CallHook pkt) :
  cb_skb cb = None →
  Q None (MkGhost c b None [] PNone) →
  (∀ cb skb p, cb_skb cb = Some skb → captured p type pkt skb → pk_len pkt = Z.of_nat (length (pk_data pkt)) →
    Q (Some a) (MkGhost c b (Some (a, cb)) [] PNone)) →
  safe (fill_cb_prog a pkt data gfp type) Q (MkGhost c b (Some (a, cb)) [] PNone).
Proof.
  intros Hskb HN HS. unfold fill_cb_prog. apply safe_bind, safe_cb_write.
  apply safe_bind, safe_call; [done|done|]. intros t. apply safe_bind, safe_cb_write.
  destruct (k_nlmsg_new k t MAX_SKB_BUFSIZE) as [skb|] eqn:Hnew.
  2: { apply safe_bind, safe_free; [done|]. exact HN. }
  destruct (law_nlmsg_new k Hk _ _ _ Hnew) as (Hhdr & Hl0 & Hroom).
  apply safe_bind, safe_get; [done|]. intros p.
  apply safe_bind, (safe_val (k_nlmsg_put k skb p 0 type (pk_len pkt) 0)); [done|done|].
  pose proof (law_nlmsg_put k Hk skb p 0 type (pk_len pkt) 0 ltac:(unfold pk_len; lia) Hl0) as Hput.
  case_decide as Hfit; [destruct Hput as (area & Harea & ->)|rewrite Hput].
  - destruct (decide (pk_paged pkt = 0%nat)) as [Hpg|Hpg].
    2: { apply safe_bind, safe_over; [done|..].
      - unfold pk_len, slice. by rewrite decide_False by lia.
      - intros [Hlen _]. unfold pk_len in Hlen. lia. }
    assert (pk_len pkt = Z.of_nat (length (pk_data pkt))) as Hlen by (unfold pk_len; lia). rewrite Hlen, Nat2Z.id in Harea |- *.
    assert (slice 0 (length (pk_data pkt)) (pk_data pkt) = Some (pk_data pkt)) as ->.
    { rewrite <-(app_nil_r (pk_data pkt)) at 2. by apply slice_0_app. }
    apply safe_bind, (safe_val (pk_data pkt)); [done|done|]. cbn [sk_payload].
    rewrite splice_all by done. apply safe_bind, (safe_val (pk_data pkt)); [done|done|].
    apply safe_bind, safe_cb_write. eapply HS; [done| |done]. unfold captured. simpl. by rewrite Hlen.
  - apply safe_bind, safe_emit; [done|done|]. apply safe_bind, safe_cb_write.
    apply safe_bind, safe_free; [done|]. exact HN.
Qed.

Lemma safe_new Q c b :
  ((∃ t, k_kmalloc k t = None) → Q None (MkGhost c b None [] PNull)) →
  (∀ a, Q (Some a) (MkGhost c b (Some (a, MkCb None 0 0)) [] PNone)) →
  safe (act new_cb) Q (MkGhost c b None [] PNone).
Proof.
  intros HN HS. apply safe_pool; [done|]. intros w rest Hok. unfold new_cb, bind, kcall, modify, ret.
  destruct (k_kmalloc k (w_t w)) as [a|] eqn:Hm.
  - eexists _, _, [EvKmalloc (Some a)], _, PNone. split_and!; [reflexivity|done|done| |apply HS].
    apply po_new; [apply Hok|]. by apply (law_kmalloc k Hk).
  - eexists _, (pool (w_s w)), [EvKmalloc None], None, PNull. split_and!; [by destruct (w_s w)|done|done| |by eauto].
    destruct (po_snoc _ _ (EvKmalloc None) _ ltac:(done) (co_pool _ _ Hok)) as [Hc Hmx Hn Ho Hf Hd [_ Hp]%Forall_cons].
    split; try done. constructor; [|done]. unfold phase_ok. simpl. set_solver.
Qed.

Lemma safe_alloc Q b pkt data gfp type (c := CallHook pkt) :
  Q None (MkGhost c b None [] PNone) →
  (∀ a cb skb p, cb_skb cb = Some skb → captured p type pkt skb → pk_len pkt = Z.of_nat (length (pk_data pkt)) →
    Q (Some a) (MkGhost c b (Some (a, cb)) [] PNone)) →
  safe (cap_buffer_alloc_prog pkt data gfp type) Q (MkGhost c b None [] PNone).
Proof.
  intros HN HS. unfold cap_buffer_alloc_prog. apply safe_bind, safe_take.
  - apply safe_bind, safe_new.
    + intros Hm. apply safe_bind. split; [done|]. intros w rest Hok. simpl. left.
      destruct (proj1 (Forall_cons _ _ _) (po_phase _ _ _ (co_pool _ _ Hok))) as [Hnull _].
      split_and!; [done|exact Hnull|done|by eexists].
    + intros a. apply safe_fill; [done|done|]. intros cb skb p. apply HS.
  - intros a cb Hskb. apply safe_bind. cbn [safe]. apply safe_fill; [done|done|]. intros cb' skb p. apply HS.
Qed.

Lemma safe_rate Q c b o :
  (∀ v, Q v (MkGhost c b o [] PNone)) → safe cap_rate_check_prog Q (MkGhost c b o [] PNone).
Proof.
  intros HQ. unfold cap_rate_check_prog. apply safe_bind, safe_get; [done|]. intros limit.
  destruct (limit =? 0); [apply HQ|]. apply safe_bind, safe_lock; [set_solver|].
  apply safe_bind, safe_get; [done|]. intros r. apply safe_bind, safe_look; [done|by eexists|]. intros now.
  apply safe_bind, safe_look; [done|by eexists|]. intros a. apply safe_bind, safe_other; [done|].
  intros s t _. eexists _, _, []. rewrite app_nil_r. split_and!; [reflexivity|done..|].
  apply safe_bind, safe_unlock; [set_solver|]. apply HQ.
Qed.

(** ** The hook *)

Lemma conc_enqueue w pkt skb o L rest :
  conc_ok w (MkGhost (CallHook pkt) true o L PNone :: rest) → copied pkt skb →
  conc_ok (upd (set_queue (skb_queue_tail skb (cap_skb_queue (w_s w))) (w_s w)) (w_t w ++ [EvQueueTail skb]) w)
    (MkGhost (CallHook pkt) false o L PWake :: rest).
Proof.
  intros [Hp Hl [Hfi (pkts & Hsub & Hall) Hw] Ht Htk] Hfw. split; simpl; try done.
  - apply po_snoc; [done|]. destruct Hp as [Hc Hm Hn Ho Hf Hd [_ Hph]%Forall_cons]. split; try done. by constructor.
  - split; simpl.
    + rewrite in_flight_started, queued_app, sent_app, q_tail, Hfi. simpl. by rewrite app_nil_r, <-!app_assoc.
    + exists (pkts ++ [pkt]). rewrite queued_app. split; [by rewrite <-app_assoc|].
      apply Forall2_app; [done|]. by constructor.
    + intros _ _. by left.
  - exact (task_upd (set_queue (skb_queue_tail skb (cap_skb_queue (w_s w))) (w_s w)) (w_t w ++ [EvQueueTail skb]) w).
Qed.

Lemma safe_enqueue Q pkt skb o L :
  copied pkt skb → Q tt (MkGhost (CallHook pkt) false o L PWake) →
  safe (act (emit (EvQueueTail skb) ;; modify (λ s, set_queue (skb_queue_tail skb (cap_skb_queue s)) s))) Q
    (MkGhost (CallHook pkt) true o L PNone).
Proof.
  intros Hfw HQ. split; [done|]. intros w rest Hok. cbn. split; [by eexists|].
  eexists. split_and!; [|by eapply conc_enqueue|]; done.
Qed.

(** How a call ends: without locks, the hook with its verdict. *)
Definition ended (v : Z) (g : ghost) : Prop :=
  g_phase g = PNone ∧ g_locks g = [] ∧ (∀ pkt, g_call g = CallHook pkt → v = NF_ACCEPT).

(** The ghost state a call starts in. *)
Definition fresh_ghost (c : call) : ghost := MkGhost c true None [] PNone.

Lemma safe_hook pkt : safe (hook_func_queue_prog pkt) ended (fresh_ghost (CallHook pkt)).
Proof.
  unfold hook_func_queue_prog. apply safe_bind.
  destruct (decide (12 ≤ length (pk_data pkt))%nat) as [H12|H12].
  2: { apply safe_over; [done|..].
    - unfold slice. by rewrite decide_False by lia.
    - intros [Hlen ?]. lia. }
  apply safe_look; [done| |].
  { intros s t. unfold print_head, slice. rewrite decide_True by lia. by eexists. }
  intros _. apply safe_bind, safe_get; [done|]. intros portid. destruct (portid =? 0); [done|].
  apply safe_bind, safe_alloc; [done|]. intros a cb skb p Hs (Hp & Hl & Hh) Hlen.
  apply safe_bind, safe_rate. intros ok. destruct (ok =? 0); [done|].
  apply safe_bind, safe_cb_read. rewrite Hs. apply safe_bind, (safe_val skb); [done|done|].
  unfold set_nlmsg_len. rewrite Hh. apply safe_bind. eapply safe_val; [done|by intros s t|].
  apply safe_bind, safe_cb_write. apply safe_bind. eapply (safe_enqueue _ pkt).
  { split; [split; [done|lia]|]. exists p. split; simpl; [done|]. by rewrite Hl. }
  apply safe_bind. cbn [safe wake_kcapd]. split; [done|]. apply safe_bind, safe_get; [done|]. intros n.
  apply safe_bind, safe_cb_write. apply safe_bind, safe_free; [done|]. done.
Qed.

(** ** Commands *)

Lemma safe_start Q c b o L : (∀ v, Q v (MkGhost c b o L PNone)) → safe (act start_kcapd) Q (MkGhost c b o L PNone).
Proof.
  intros HQ. apply safe_other; [done|]. intros s t _. unfold start_kcapd, bind, get, kcall, ret, modify.
  destruct (kcapd_task s) as [task|]; [|destruct (k_kthread_run k t) as [e|task]].
  - eexists _, s, []. rewrite app_nil_r. by split_and!.
  - eexists _, _, [_]. split_and!; [reflexivity|done..|by repeat constructor|apply HQ].
  - eexists _, _, [_]. split_and!; [reflexivity|done..|by repeat constructor|apply HQ].
Qed.

Lemma safe_utab {A} (f : usertab → option (A * usertab)) Q g :
  g_phase g ≠ PWake →
  (∀ u, length (usrtab u) = MAX_TAB_SIZE → ∃ r u', f u = Some (r, u')) →
  (∀ u r u', f u = Some (r, u') → length (usrtab u') = length (usrtab u)) →
  (∀ r, Q r g) → safe (act (on_utab f)) Q g.
Proof.
  intros Hne Ht Hl HQ. apply safe_other; [done|]. intros s t Hs.
  destruct (Ht (utab s) Hs) as (r & u' & E). unfold on_utab, bind, get, index, modify, ret. rewrite E.
  eexists _, _, []. rewrite app_nil_r. split_and!; [reflexivity|done|done| |done|done]. simpl. by eapply Hl.
Qed.

Lemma safe_portid p Q g : g_phase g ≠ PWake → Q tt g → safe (act (modify (set_portid p))) Q g.
Proof.
  intros Hne HQ. apply safe_other; [done|]. intros s t _. eexists _, _, []. rewrite app_nil_r. by split_and!.
Qed.

(** The ghost state of a command call under the mutex. *)
Abbreviation commanding buf := (MkGhost (CallReceive buf) true None [CmdMutex] PNone).

Lemma safe_receive_msg buf nlh h Q :
  (nlh, h) ∈ commands buf → (∀ v, Q v (commanding buf)) → safe (cap_receive_msg_prog nlh h) Q (commanding buf).
Proof.
  intros Hin HQ. unfold cap_receive_msg_prog. cbv zeta.
  destruct (negb _); [apply HQ|]. apply safe_bind, safe_start. intros err. destruct (negb _); [apply HQ|].
  apply safe_bind. destruct (cstr (drop 16 nlh)) as [str|] eqn:Hstr.
  2: { split; [done|]. intros w rest Hok. cbn. right. split; [done|]. intros Hall.
    destruct (proj1 (Forall_forall _ _) Hall _ Hin) as [? Hx]. simpl in Hx. congruence. }
  apply (safe_val str); [done|done|]. apply safe_bind.
  destruct (_ =? CAP_ADD); [|destruct (_ =? CAP_DEL)]; [..|apply HQ].
  all: apply safe_bind, safe_portid; [done|].
  all: apply safe_bind, safe_lock; [intros l ->%list_elem_of_singleton; simpl; lia|].
  all: apply safe_bind, safe_utab; [done|..].
  all: try (intros r; apply safe_unlock; [set_solver|apply HQ]).
  - apply user_join_total.
  - apply user_join_length.
  - apply user_leave_total.
  - apply user_leave_length.
Qed.

Lemma safe_receive_all buf ms Q :
  (∀ m, m ∈ ms → m ∈ commands buf) → Q tt (commanding buf) → safe (receive_all_prog ms) Q (commanding buf).
Proof.
  intros Hms HQ. induction ms as [|[nlh h] ms IH]; [done|]. cbn [receive_all_prog].
  apply safe_bind, safe_receive_msg; [apply Hms; by left|]. intros err.
  assert (safe (receive_all_prog ms) Q (commanding buf)) by (apply IH; intros m Hm; apply Hms; by right).
  apply safe_bind. destruct (_ || _); [|done]. by apply safe_emit.
Qed.

Lemma safe_receive buf : safe (cap_receive_prog buf) ended (fresh_ghost (CallReceive buf)).
Proof.
  unfold cap_receive_prog. apply safe_bind, safe_lock; [set_solver|].
  apply safe_bind, safe_receive_all; [done|]. apply safe_bind, safe_unlock; [set_solver|]. done.
Qed.

Lemma safe_call_prog c : safe (call_prog c) ended (fresh_ghost c).
Proof. destruct c as [pkt|buf]; [apply safe_hook|apply safe_receive]. Qed.
End Invariant.
