(* ===== verification/CapConcSafe.v ===== *)
(** * Safety of the capture module under interleaving ([src/netlink/netlink.c])

    Every statement of every call and of the thread keeps the invariant of
    [CapLogic]; so in every interleaving the pool is intact, nothing is lost or
    reordered between queue and client, the only faults are the ones the code
    does not guard against, and the locks never block everybody. *)

From S2P Require Import Prelude Bytes Nlmsg UserTab RateCheck CapState CapPool Capture CapSystem CapConc CapLogic.

Section Invariant.
Context `{NlmsgLaws} `{KListsLaws}.
Context (k : cap_kernel) (Hk : cap_laws k).

(** ** Locks and wake-ups *)

Lemma conc_lock w l c b o L rest :
  conc_ok w (MkGhost c b o L PNone :: rest) → w_held w l = false → l ∉ L →
  conc_ok (set_held l true w) (MkGhost c b o (l :: L) PNone :: rest).
Proof.
  intros [Hp Hl [Hfi Hco Hw] Ht Htk] Hfree Hnl. split; simpl; try done.
  - destruct Hp as [Hc Hm Hn Ho Hf Hd [_ Hph]%Forall_cons]. split; try done. by constructor.
  - intros l'. specialize (Hl l'). rewrite fmap_cons in *. simpl in *. rewrite filter_cons in *. destruct (decide (l' = l)) as [E|E]; [subst l'|].
    + rewrite Hfree in Hl. rewrite decide_True by set_solver. rewrite decide_False in Hl by done. simpl. by rewrite Hl.
    + rewrite <-Hl. destruct (decide (l' ∈ L)); [rewrite !decide_True by set_solver|rewrite !decide_False by set_solver]; done.
  - split; [done..|]. intros Ha Hq. specialize (Hw Ha Hq). apply Exists_cons in Hw as [Hw|Hw]; [done|by right].
Qed.

Lemma conc_unlock w l c b o L rest :
  conc_ok w (MkGhost c b o (l :: L) PNone :: rest) → l ∉ L →
  conc_ok (set_held l false w) (MkGhost c b o L PNone :: rest).
Proof.
  intros [Hp Hl [Hfi Hco Hw] Ht Htk] Hnl. split; simpl; try done.
  - destruct Hp as [Hc Hm Hn Ho Hf Hd [_ Hph]%Forall_cons]. split; try done. by constructor.
  - intros l'. specialize (Hl l'). rewrite fmap_cons in *. simpl in *. rewrite filter_cons in *. destruct (decide (l' = l)) as [E|E]; [subst l'|].
    + rewrite decide_True in Hl by set_solver. rewrite decide_False by done. simpl in Hl. by destruct (w_held w l); simplify_eq.
    + rewrite <-Hl. destruct (decide (l' ∈ L)); [rewrite !decide_True by set_solver|rewrite !decide_False by set_solver]; done.
  - split; [done..|]. intros Ha Hq. specialize (Hw Ha Hq). apply Exists_cons in Hw as [Hw|Hw]; [done|by right].
Qed.

Lemma conc_awake w t' gs gs' :
  conc_ok w gs → pool_ok (pool (w_s w)) t' gs' → g_locks <$> gs' = g_locks <$> gs →
  pending gs' = pending gs → quiet (w_t w) t' →
  conc_ok (MkWorld (w_s w) t' (w_held w) false (w_kp w) (w_calls w)) gs'.
Proof.
  intros [Hp Hl [Hfi Hco Hw] Ht Htk] Hp' El Epd [Hq Hs]. split; simpl; try done.
  - intros l. by rewrite El.
  - split; simpl; [by rewrite Hq, Hs|by rewrite Hq, Epd|]. by intros [_ ?].
Qed.

(** One statement of a safe call, whatever the others are doing. *)
Lemma call_step_ok p g w rest :
  conc_ok w (g :: rest) → safe k p ended g →
  match call_step k p w with
  | None => True
  | Some (w', inl p') =>
      (∃ ev, w_t w' = w_t w ++ ev ∧ sent ev = []) ∧ w_calls w' = w_calls w ∧
      ∃ g', g_call g' = g_call g ∧ conc_ok w' (g' :: rest) ∧ safe k p' ended g'
  | Some (w', inr f) => w_calls w' = w_calls w ∧ excuse k (w_t w') (g_call g) f
  end.
Proof.
  intros Hok Hs. destruct g as [c b o L ph]. destruct p as [v|B m q|l q|l q|q]; simpl in *; [done|..].
  - destruct Hs as [_ Hs]. specialize (Hs w rest Hok).
    destruct (m k (w_s w) (w_t w)) as [[[r|f] s] t]; [|done]. by destruct Hs.
  - destruct Hs as (-> & Hrank & Hs). destruct (w_held w l) eqn:Hl; [done|].
    split; [by exists []; rewrite app_nil_r|]. split; [done|]. eexists. split_and!; [|  |exact Hs]; [done|].
    apply conc_lock; [done..|]. intros Hin%Hrank. lia.
  - destruct Hs as (-> & L' & -> & Hnl & Hs). split; [by exists []; rewrite app_nil_r|]. split; [done|].
    eexists. split_and!; [| |exact Hs]; [done|]. by apply conc_unlock.
  - destruct Hs as [-> Hs]. split; [by eexists|]. split; [done|]. eexists. split_and!; [| |exact Hs]; [done|].
    eapply conc_awake; [exact Hok| |done..|by apply quiet_snoc].
    apply po_snoc; [done|]. destruct (co_pool _ _ Hok) as [Hc Hm Hn Ho Hf Hd [Hph Hphs]%Forall_cons]. split; try done.
    by constructor.
Qed.

(** ** The thread *)

(** The error the thread looks at is an answer of [netlink_unicast]. *)
Definition answer_ok (kp : option kpc) (t : list cap_ev) : Prop :=
  match kp with
  | Some (KResult skb err) => ∃ t' p, err = k_unicast k t' skb p ∧ EvUnicast skb p err ∈ t
  | _ => True
  end.

(** An answer was received that the [BUG_ON] of [kcapd_send_reply] excludes. *)
Definition bad_answer (t : list cap_ev) : Prop :=
  ∃ t' skb p, let err := k_unicast k t' skb p in
    EvUnicast skb p err ∈ t ∧ err < 0 ∧ err ≠ - ECONNREFUSED.

Lemma answer_later kp t t' : t `prefix_of` t' → answer_ok kp t → answer_ok kp t'.
Proof.
  intros [ev ->]. unfold answer_ok. repeat case_match; try done. intros (t' & p & E & Hin).
  exists t', p. split; [done|]. apply elem_of_app. by left.
Qed.

Lemma conc_kp w wait pc s' ev gs :
  conc_ok w gs → pool s' = pool (w_s w) → usrtab (utab s') = usrtab (utab (w_s w)) →
  Forall (λ e, ∀ X, live_ev X e = X) ev → queued ev = [] →
  sent ev ++ in_flight (Some pc) ++ q_elems (cap_skb_queue s') = in_flight (w_kp w) ++ q_elems (cap_skb_queue (w_s w)) →
  (pc = KSleep → wait = true → q_elems (cap_skb_queue s') ≠ [] → Exists is_wake gs) →
  conc_ok (set_kp wait pc (upd s' (w_t w ++ ev) w)) gs.
Proof.
  intros [Hp Hl [Hfi Hco Hw] Ht Htk] Ep Eu Hev Hq Hf Hwake. split; simpl.
  - rewrite Ep. clear -Hev Hp. revert Hp. generalize (w_t w).
    induction Hev as [|e ev He _ IH]; intros t Hp; [by rewrite app_nil_r|].
    rewrite (app_assoc t [e] ev : t ++ e :: ev = _). apply IH. by apply po_snoc.
  - done.
  - split; simpl.
    + rewrite queued_app, sent_app, Hq, app_nil_r, Hfi, <-app_assoc. f_equal. symmetry. exact Hf.
    + by rewrite queued_app, Hq, app_nil_r.
    + intros [[= ->] ?]. by apply Hwake.
  - by rewrite Eu.
  - by intros _.
Qed.

Lemma queue_len_0 s : (skb_queue_len (cap_skb_queue s) =? 0) = bool_decide (q_elems (cap_skb_queue s) = []).
Proof.
  rewrite q_len. by destruct (q_elems _).
Qed.

Lemma kcapd_step_ok w gs :
  conc_ok w gs → answer_ok (w_kp w) (w_t w) →
  match kcapd_step k w with
  | None => True
  | Some (w', None) => conc_ok w' gs ∧ answer_ok (w_kp w') (w_t w') ∧ w_calls w' = w_calls w
  | Some (w', Some f) => f = BugOn ∧ bad_answer (w_t w') ∧ w_calls w' = w_calls w
  end.
Proof.
  intros Hok Hans. unfold kcapd_step. destruct (w_kp w) as [pc|] eqn:Hkp; [|done].
  assert (∀ wait pc', in_flight (Some pc') = in_flight (Some pc) →
    (pc' = KSleep → wait = true → q_elems (cap_skb_queue (w_s w)) ≠ [] → Exists is_wake gs) →
    conc_ok (set_kp wait pc' w) gs) as Hset.
  { intros wait pc' Hf Hw. rewrite <-(upd_id _ _ Hok). rewrite <-(app_nil_r (w_t w)) at 1.
    apply conc_kp; try done. by rewrite Hkp, <-Hf. }
  assert (∀ wait pc' s' ev, pool s' = pool (w_s w) → usrtab (utab s') = usrtab (utab (w_s w)) →
    Forall (λ e, ∀ X, live_ev X e = X) ev → queued ev = [] →
    sent ev ++ in_flight (Some pc') ++ q_elems (cap_skb_queue s') = in_flight (Some pc) ++ q_elems (cap_skb_queue (w_s w)) →
    pc' ≠ KSleep → conc_ok (set_kp wait pc' (upd s' (w_t w ++ ev) w)) gs) as Hgo.
  { intros. apply conc_kp; try done. by rewrite Hkp. }
  assert (∀ wait pc' s', pool s' = pool (w_s w) → usrtab (utab s') = usrtab (utab (w_s w)) →
    in_flight (Some pc') ++ q_elems (cap_skb_queue s') = in_flight (Some pc) ++ q_elems (cap_skb_queue (w_s w)) →
    pc' ≠ KSleep → conc_ok (set_kp wait pc' (upd s' (w_t w) w)) gs) as Hgo0.
  { intros wait pc' s' ????. pose proof (Hgo wait pc' s' []) as Hg. rewrite app_nil_r in Hg. by apply Hg. }
  destruct pc as [| |skb|skb|skb|skb p|skb err| | | | | | |]; cbn [kcapd_stmt];
    unfold bind, ret, get, emit, modify, kcall, kpeek, crash.
  - split_and!; [|by destruct (k_should_stop k _)|done]. apply Hgo0; by destruct (k_should_stop k (w_t w)).
  - destruct (q_elems (cap_skb_queue (w_s w))) as [|skb rest] eqn:Hq.
    + rewrite (q_deq_nil _ Hq). split_and!; [|done..]. apply Hgo0; by rewrite ?Hq.
    + destruct (q_deq_cons _ _ _ Hq) as [Hd Hr]. rewrite Hd. split_and!; [|done..]. apply Hgo0; simpl; by rewrite ?Hr.
  - destruct (u32 _ <=? _); (split_and!; [|done..]); [|by apply Hgo0].
    apply Hgo; [done|done|by repeat constructor|done..].
  - split_and!; [|done..]. apply Hgo; [done|done|by repeat constructor|done..].
  - split_and!; [|done..]. by apply Hgo0.
  - split_and!; [|eexists _, _; split; [done|by apply elem_of_app; right; left]|done].
    apply Hgo; [done|done|by repeat constructor|done..].
  - destruct (err <? 0) eqn:Hneg; [destruct (err =? - ECONNREFUSED) eqn:Href|]; zbool.
    + split_and!; [|done..]. by apply Hgo0.
    + destruct Hans as (t & p & -> & Hin). split_and!; [done| |done].
      eexists _, _, _. cbv zeta. split_and!; [exact Hin|done|done].
    + split_and!; [|done..]. apply Hgo; [done|done|by repeat constructor|done..].
  - split_and!; [|done..]. by apply Hgo0.
  - destruct (_ =? 0); (split_and!; [|done..]); by apply Hgo0.
  - split_and!; [|done..]. by apply Hset.
  - rewrite queue_len_0, (upd_id _ _ Hok). case_bool_decide; (split_and!; [|done..]); by apply Hset.
  - destruct (w_wait w); [done|]. split_and!; [|done..]. by apply Hset.
  - split_and!; [|done..]. by apply Hset.
  - done.
Qed.

(** ** The whole system *)

(** Every call in progress is safe from where it is. *)
Definition safe_threads (gs : list ghost) (ps : list (prog Z)) : Prop := Forall2 (λ g p, safe k p ended g) gs ps.

Definition conc_inv (c : conc) : Prop :=
  match c_fault c with
  | None => ∃ gs, conc_ok (c_w c) gs ∧ safe_threads gs (c_threads c) ∧ answer_ok (w_kp (c_w c)) (w_t (c_w c)) ∧
      g_call <$> gs = w_calls (c_w c)
  | Some (InCall i, f) => ∃ cl, w_calls (c_w c) !! i = Some cl ∧ excuse k (w_t (c_w c)) cl f
  | Some (InKcapd, f) => f = BugOn ∧ bad_answer (w_t (c_w c))
  end.

Lemma threads_lookup gs ps i p :
  safe_threads gs ps → ps !! i = Some p → ∃ g, gs !! i = Some g ∧ safe k p ended g.
Proof. intros Hs Hi. destruct (Forall2_lookup_r _ _ _ _ _ Hs Hi) as (g & Hg & Hp). by exists g. Qed.

Lemma answer_started kp s t : answer_ok kp t → answer_ok (kp_started kp s) t.
Proof. unfold kp_started. by destruct kp, (kcapd_task s). Qed.

Lemma answer_call p w w' r tr : call_step k p w = Some (w', r) → answer_ok (w_kp w) tr → answer_ok (w_kp w') tr.
Proof.
  intros E Ha. destruct p as [v|B m q|l q|l q|q]; simpl in E; simplify_eq; try done.
  - destruct (m k (w_s w) (w_t w)) as [[[b|f] s] t]; simplify_eq; by apply answer_started.
  - by destruct (w_held w l); simplify_eq.
Qed.

(** A statement of call [i] in a system whose invariant holds with the ghost
    states [gs]. *)
Lemma thread_step_ok c i c' gs :
  c_fault c = None → conc_ok (c_w c) gs → safe_threads gs (c_threads c) →
  conc_step k (AThread i) c = Some c' →
  ∃ p g, c_threads c !! i = Some p ∧ gs !! i = Some g ∧ w_calls (c_w c') = w_calls (c_w c) ∧
  match c_fault c' with
  | None =>
      (∃ ev, w_t (c_w c') = w_t (c_w c) ++ ev ∧ sent ev = []) ∧
      ∃ p' g' r, call_step k p (c_w c) = Some (c_w c', r) ∧ c_threads c' = <[i := p']> (c_threads c) ∧
        g_call g' = g_call g ∧ conc_ok (c_w c') (<[i := g']> gs) ∧ safe_threads (<[i := g']> gs) (c_threads c')
  | Some (InCall j, f) => j = i ∧ excuse k (w_t (c_w c')) (g_call g) f
  | Some (InKcapd, _) => False
  end.
Proof.
  intros Hf Hok Hs. unfold conc_step. rewrite Hf. destruct (c_threads c !! i) as [p|] eqn:Hi; [|done].
  destruct (threads_lookup _ _ _ _ Hs Hi) as (g & Hg & Hp).
  pose proof (call_step_ok p g (c_w c) (delete i gs)) as Hstep.
  destruct (call_step k p (c_w c)) as [[w' [p'|f]]|] eqn:E; [..|done]; intros [= <-]; exists p, g; cbn [c_w c_fault c_threads].
  - destruct Hstep as (Hev & Hcalls & g' & Hcl & Hok' & Hp'); [by eapply conc_ok_perm, Hok; apply delete_Permutation|done|].
    split_and!; [done..|]. exists p', g', (inl p'). split_and!; [done|done|done| |].
    + eapply conc_ok_perm, Hok'. symmetry. by eapply insert_perm.
    + by apply Forall2_insert.
  - destruct Hstep as [Hcalls Hex]; [by eapply conc_ok_perm, Hok; apply delete_Permutation|done|]. done.
Qed.

Lemma conc_call w cl gs :
  conc_ok w gs →
  conc_ok (MkWorld (w_s w) (w_t w) (w_held w) (w_wait w) (w_kp w) (w_calls w ++ [cl])) (fresh_ghost cl :: gs).
Proof.
  intros [[Hc Hm Hn Ho Hf Hd Hp] Hl [Hfi (pkts & Hsub & Hall) Hw] Ht Htk]. split; simpl; try done.
  - split; try done. by constructor.
  - split; simpl; [done| |by right; apply Hw].
    exists pkts. split; [|done]. rewrite omap_app. destruct cl as [pkt|buf]; [|by rewrite app_nil_r].
    cbn [packet_of]. rewrite <-Permutation_middle.
    change (omap packet_of [CallHook pkt]) with [pkt]. rewrite <-Permutation_cons_append. by apply submseteq_skip.
Qed.

Lemma conc_step_inv : invariant_of (acts (conc_step k)) conc_inv.
Proof.
  intros c c' [a E]. unfold conc_inv at 1. destruct (c_fault c) as [who|] eqn:Hf.
  { unfold conc_step in E. by rewrite Hf in E. }
  intros (gs & Hok & Hs & Hans & Hcl). destruct a as [cl|i| |].
  - unfold conc_step in E. rewrite Hf in E. simplify_eq.
    exists (gs ++ [fresh_ghost cl]). split_and!; [|apply Forall2_app; [done|]|done|].
    + eapply conc_ok_perm; [|by apply conc_call]. apply Permutation_cons_append.
    + constructor; [|done]. by apply safe_call_prog.
    + simpl. by rewrite fmap_app, Hcl.
  - destruct (thread_step_ok c i c' gs Hf Hok Hs E) as (p & g & Hi & Hg & Hcalls & Hres). unfold conc_inv.
    destruct (c_fault c') as [[[j|] f]|] eqn:Hf'; [|done|].
    + destruct Hres as [-> Hex]. exists (g_call g). split; [|done]. by rewrite Hcalls, <-Hcl, list_lookup_fmap, Hg.
    + destruct Hres as ((ev & Ht & _) & p' & g' & r & Ec & _ & Hg' & Hok' & Hs'). exists (<[i := g']> gs). split_and!; [done..| |].
      * eapply answer_call, answer_later, Hans; [exact Ec|]. rewrite Ht. by apply prefix_app_r.
      * rewrite list_fmap_insert, Hg', Hcalls, <-Hcl. apply list_insert_id. rewrite list_lookup_fmap. by rewrite Hg.
  - unfold conc_step in E. rewrite Hf in E. pose proof (kcapd_step_ok (c_w c) gs Hok Hans) as Hstep.
    destruct (kcapd_step k (c_w c)) as [[w' [f|]]|]; simplify_eq.
    + by destruct Hstep as (-> & Hbad & _).
    + destruct Hstep as (Hok' & Hans' & Hcalls). exists gs. split_and!; [done..|]. simpl. by rewrite Hcalls.
  - unfold conc_step in E. rewrite Hf in E. simplify_eq. exists gs. split_and!; [|done..].
    eapply conc_awake; [exact Hok|apply Hok|done..].
Qed.

(** ** From module load on *)

Lemma conc0_ok s t : app_init k cap_state0 [] = (Ok 0, s, t) → conc_inv (conc0 s t).
Proof.
  intros Hinit. destruct (app_init_inv k 0 s t Hinit) as [[[Hc Hb Hn Hl Hd] Ht Hq (pkts & Hsub & Hall)] _].
  exists []. split_and!; [|constructor|done|done]. split; simpl; try done.
  - split; try done.
    + rewrite Hc. simpl. lia.
    + rewrite Hc. done.
    + simpl. by rewrite app_nil_r.
    + intros a cb Hin. by apply elem_of_nil in Hin.
  - split; simpl; [done| |by intros []]. exists pkts. apply sublist_nil_r in Hsub as ->.
    apply Forall2_nil_inv_l in Hall as ->. by split.
  - assert (kcapd_task s = None) as ->; [|by intros [??]].
    assert (preserves k (λ s _, kcapd_task s = None) app_init) as Hp.
    { unfold app_init, on_utab, cap_hook_init. preserve; by first [apply preserves_kcall|apply preserves_modify|apply preserves_emit]. }
    specialize (Hp cap_state0 [] eq_refl). by rewrite Hinit in Hp.
Qed.

Lemma conc_reachable s t c :
  app_init k cap_state0 [] = (Ok 0, s, t) → rtc (acts (conc_step k)) (conc0 s t) c → conc_inv c.
Proof. intros Hinit Hr. eapply rtc_invariant; [exact conc_step_inv|exact Hr|by apply conc0_ok]. Qed.
(** ** Calls *)

Lemma calls_step a c c' :
  conc_step k a c = Some c' → w_calls (c_w c') = w_calls (c_w c) ∨ ∃ cl, a = ACall cl ∧ w_calls (c_w c') = w_calls (c_w c) ++ [cl].
Proof.
  unfold conc_step. destruct (c_fault c); [done|]. destruct a as [cl|i| |]; intros E.
  - simplify_eq. right. by exists cl.
  - destruct (c_threads c !! i) as [p|]; [|done].
    assert (∀ w' r, call_step k p (c_w c) = Some (w', r) → w_calls w' = w_calls (c_w c)) as Hc.
    { intros w' r Ec. destruct p as [v|B m q|l q|l q|q]; simpl in Ec; simplify_eq; try done.
      - by destruct (m k (w_s (c_w c)) (w_t (c_w c))) as [[[]]]; simplify_eq.
      - by destruct (w_held (c_w c) l); simplify_eq. }
    left. destruct (call_step k p (c_w c)) as [[w' [p'|f]]|]; simplify_eq; by eapply Hc.
  - left. unfold kcapd_step in E. repeat (case_match; simplify_eq); by simplify_eq.
  - left. by simplify_eq.
Qed.

Lemma not_linear pkt : ¬ linear pkt → (length (pk_data pkt) < 12)%nat ∨ (0 < pk_paged pkt)%nat.
Proof.
  intros Hno. destruct (decide (0 < pk_paged pkt)%nat); [by right|left]. apply Nat.nle_gt. intros Hlen.
  apply Hno. unfold linear, pk_len. lia.
Qed.

(** ** Locks never block everybody *)

Lemma holder held gs l : locks_held held gs → held l = true → ∃ i g, gs !! i = Some g ∧ l ∈ g_locks g.
Proof.
  intros Hl Hh. specialize (Hl l). rewrite Hh in Hl.
  destruct (filter (λ L : list lock, l ∈ L) (g_locks <$> gs)) as [|L Ls] eqn:E; [done|].
  assert (L ∈ filter (λ L : list lock, l ∈ L) (g_locks <$> gs)) as Hin by (rewrite E; by left).
  apply list_elem_of_filter in Hin as [Hin (g & -> & Hg)%list_elem_of_fmap].
  apply list_elem_of_lookup in Hg as [i Hi]. by exists i, g.
Qed.

Definition finished (p : prog Z) : bool := match p with Done _ => true | _ => false end.

(** A call that is not finished can go on or waits for a lock that is held. *)
Lemma call_enabled p w :
  finished p = false → is_Some (call_step k p w) ∨ ∃ l q, p = Lock l q ∧ w_held w l = true.
Proof.
  destruct p as [v|B m q|l q|l q|q]; simpl; intros Hf; try done; [..|by left|by left].
  - left. destruct (m k (w_s w) (w_t w)) as [[[]]]; by eexists.
  - destruct (w_held w l) eqn:E; [right; by eauto|by left].
Qed.

Lemma enabled_step c i p :
  c_fault c = None → c_threads c !! i = Some p → is_Some (call_step k p (c_w c)) →
  is_Some (conc_step k (AThread i) c).
Proof. intros Hf Hi [[w' [p'|f]] E]; unfold conc_step; rewrite Hf, Hi, E; by eexists. Qed.

(** Who holds a lock can go on, or waits for one of higher rank. *)
Lemma holder_moves c gs l :
  c_fault c = None → conc_ok (c_w c) gs → safe_threads gs (c_threads c) → w_held (c_w c) l = true →
  (∃ i, is_Some (conc_step k (AThread i) c)) ∨
  ∃ l', (lock_rank l < lock_rank l')%nat ∧ w_held (c_w c) l' = true.
Proof.
  intros Hf Hok Hs Hh. destruct (holder _ _ _ (co_locks _ _ Hok) Hh) as (i & g & Hg & Hl).
  destruct (Forall2_lookup_l _ _ _ _ _ Hs Hg) as (p & Hp & Hsafe).
  destruct (finished p) eqn:Hfin.
  - destruct p as [v| | | |]; try done. destruct Hsafe as (_ & HL & _). rewrite HL in Hl. by apply elem_of_nil in Hl.
  - destruct (call_enabled p (c_w c) Hfin) as [Hen|(l' & q & -> & Hh')].
    + left. exists i. by eapply enabled_step.
    + right. destruct Hsafe as (_ & Hrank & _). exists l'. split; [by apply Hrank|done].
Qed.

Lemma no_deadlock c gs i p :
  c_fault c = None → conc_ok (c_w c) gs → safe_threads gs (c_threads c) →
  c_threads c !! i = Some p → finished p = false → ∃ j, is_Some (conc_step k (AThread j) c).
Proof.
  intros Hf Hok Hs Hi Hfin. destruct (call_enabled p (c_w c) Hfin) as [Hen|(l & q & -> & Hl)].
  { exists i. by eapply enabled_step. }
  destruct (holder_moves c gs l Hf Hok Hs Hl) as [?|(l1 & Hr1 & Hl1)]; [done|].
  destruct (holder_moves c gs l1 Hf Hok Hs Hl1) as [?|(l2 & Hr2 & Hl2)]; [done|].
  exfalso. assert (lock_rank l2 ≤ 1)%nat by (destruct l2; simpl; lia). lia.
Qed.
End Invariant.

Section Claims.
Context `{NlmsgLaws} `{KListsLaws}.

(** C3: the pool under any interleaving.  From module load on, however the
    statements of any number of hook calls, of command calls and of the thread
    are interleaved, as long as no fault has stopped the kernel: the free-list
    counter is the length of the free list whenever [cap_freelist_lock] is
    free, and never exceeds [CAP_MAXFREE]; no buffer is on the list twice;
    every buffer on it is allocated and holds no message; and the buffers in
    memory are those [kmalloc] gave out and [kfree] did not take back. *)
Theorem concurrent_pool k s0 t0 c :
  cap_laws k → app_init k cap_state0 [] = (Ok 0, s0, t0) →
  rtc (acts (conc_step k)) (conc0 s0 t0) c → c_fault c = None →
  let p := pool (w_s (c_w c)) in
  (w_held (c_w c) FreelistLock = false → cap_freelist_count p = Z.of_nat (length (free_elems p))) ∧
  cap_freelist_count p ≤ CAP_MAXFREE ∧ NoDup (free_elems p) ∧
  (∀ a, a ∈ free_elems p → ∃ cb, cbs p !! a = Some cb ∧ cb_skb cb = None) ∧
  dom (cbs p) = live_cbs (w_t (c_w c)).
Proof.
  intros Hk Hinit Hr Hf. pose proof (conc_reachable k Hk s0 t0 c Hinit Hr) as Hinv. unfold conc_inv in Hinv.
  rewrite Hf in Hinv. destruct Hinv as (gs & Hok & _). destruct (co_pool _ _ Hok) as [Hc Hm Hn Ho Hfr Hd Hp].
  split_and!; [|done| |done|done].
  - intros Hfree. assert (alone gs) as Hal.
    { apply Forall_forall. intros g Hg Hin. pose proof (co_locks _ _ Hok FreelistLock) as Hl. rewrite Hfree in Hl.
      apply nil_length_inv in Hl. apply (elem_of_nil (g_locks g)). rewrite <-Hl. apply list_elem_of_filter.
      split; [done|]. by apply list_elem_of_fmap_2. }
    destruct (alone_phase _ (pool (w_s (c_w c))) _ gs Hal Hp) as [_ Hs]. lia.
  - by apply NoDup_app in Hn as (? & _).
Qed.

(** C10: faults and deadlocks under any interleaving, for any packets and
    commands.  A hook call faults only by the null pointer after a [kmalloc]
    that failed, or by reading past the linear bytes of a packet that is
    shorter than 12 bytes or has page fragments; a command call only by reading
    past a text without a zero byte; the thread only by its [BUG_ON] on an
    answer of [netlink_unicast] other than success and [-ECONNREFUSED].  While no fault has
    happened, some unfinished call can always go on (the locks never block
    everybody), and every finished hook call has let its packet pass. *)
Theorem concurrent_faults k s0 t0 c :
  cap_laws k → app_init k cap_state0 [] = (Ok 0, s0, t0) →
  rtc (acts (conc_step k)) (conc0 s0 t0) c →
  match c_fault c with
  | Some (InCall i, f) =>
      match w_calls (c_w c) !! i with
      | Some (CallHook pkt) =>
          f = NullDeref ∧ EvKmalloc None ∈ w_t (c_w c) ∨
          f = OutOfBounds ∧ ((length (pk_data pkt) < 12)%nat ∨ (0 < pk_paged pkt)%nat)
      | Some (CallReceive buf) => f = OutOfBounds ∧ ¬ terminated buf
      | None => False
      end
  | Some (InKcapd, f) => f = BugOn ∧
      ∃ skb p err, EvUnicast skb p err ∈ w_t (c_w c) ∧ err < 0 ∧ err ≠ - ECONNREFUSED
  | None =>
      (∀ i p, c_threads c !! i = Some p → finished p = false → ∃ j, is_Some (conc_step k (AThread j) c)) ∧
      (∀ i v pkt, c_threads c !! i = Some (Done v) → w_calls (c_w c) !! i = Some (CallHook pkt) → v = NF_ACCEPT)
  end.
Proof.
  intros Hk Hinit Hr. pose proof (conc_reachable k Hk s0 t0 c Hinit Hr) as Hinv. unfold conc_inv in Hinv.
  destruct (c_fault c) as [[[i|] f]|] eqn:Hf.
  - destruct Hinv as (cl & -> & [(-> & Hm & _ & pkt & ->)|[-> Hno]]); [by left|].
    destruct cl as [pkt|buf]; [|done]. right. split; [done|]. by apply not_linear.
  - destruct Hinv as (-> & t' & skb & p & Hb). split; [done|]. by eexists _, _, _.
  - destruct Hinv as (gs & Hok & Hs & _ & Hcl). split.
    + intros i p Hi Hfin. by eapply no_deadlock.
    + intros i v pkt Hi Hc. destruct (threads_lookup _ _ _ _ _ Hs Hi) as (g & Hg & (_ & _ & Hv)). apply (Hv pkt).
      rewrite <-Hcl, list_lookup_fmap, Hg in Hc. by simplify_eq/=.
Qed.

(** C1: delivery under any interleaving.  Whatever the interleaving, the
    messages handed to [netlink_unicast], the one the thread has in hand and
    those still on the queue are together exactly the messages the hook calls
    queued, in that order; and each of these is an unmodified copy of the
    packet of a different hook call, a packet without page fragments (calls
    that run at the same time may queue in either order). *)
Theorem concurrent_delivery k s0 t0 c :
  cap_laws k → app_init k cap_state0 [] = (Ok 0, s0, t0) →
  rtc (acts (conc_step k)) (conc0 s0 t0) c → c_fault c = None →
  let w := c_w c in
  queued (w_t w) = sent (w_t w) ++ in_flight (w_kp w) ++ q_elems (cap_skb_queue (w_s w)) ∧
  ∃ pkts, pkts ⊆+ omap packet_of (w_calls w) ∧
    Forall2 (λ pkt skb, linear pkt ∧ ∃ p, forwarded p pkt skb) pkts (queued (w_t w)).
Proof.
  intros Hk Hinit Hr Hf. pose proof (conc_reachable k Hk s0 t0 c Hinit Hr) as Hinv. unfold conc_inv in Hinv.
  rewrite Hf in Hinv. destruct Hinv as (gs & Hok & _). destruct (co_queue _ _ Hok) as [Hfi (pkts & Hsub & Hall) _].
  split; [done|]. exists pkts. split; [|done]. etrans; [|exact Hsub]. apply submseteq_inserts_r. done.
Qed.
End Claims.

(** ** Witnesses *)

(** A schedule given by its first actors. *)
Definition listed (l : list actor) (n : nat) : actor := default ASpurious (l !! n).

(** A client registers, then two packets arrive at once: the two hook calls
    and the thread take turns statement by statement. *)
Definition demo_acts : list actor :=
  [ACall (CallReceive demo_add)] ++ replicate 9 (AThread 0) ++
  [ACall (CallHook demo_pkt); ACall (CallHook demo_pkt)] ++ mjoin (replicate 60 [AThread 1; AThread 2; AKcapd]).

Definition demo_at (n : nat) : conc :=
  sched (conc_step demo_kernel) (listed demo_acts) n (conc0 demo_s0 demo_t0).

Lemma demo_at_reachable n : rtc (acts (conc_step demo_kernel)) (conc0 demo_s0 demo_t0) (demo_at n).
Proof. apply sched_reachable. Qed.

(** After 90 steps a call is inside the critical section; after 150 both
    buffers are back on the free list. *)
Lemma concurrent_pool_witness :
  (w_held (c_w (demo_at 90)) FreelistLock = true ∧ cap_freelist_count (pool (w_s (c_w (demo_at 90)))) ≤ CAP_MAXFREE) ∧
  (let p := pool (w_s (c_w (demo_at 150))) in
   cap_freelist_count p = Z.of_nat (length (free_elems p)) ∧ cap_freelist_count p = 2).
Proof.
  split; (split; [|]).
  - vm_compute. reflexivity.
  - apply (concurrent_pool demo_kernel demo_s0 demo_t0 (demo_at 90) demo_laws demo_init_eq (demo_at_reachable 90)).
    vm_compute. reflexivity.
  - apply (concurrent_pool demo_kernel demo_s0 demo_t0 (demo_at 150) demo_laws demo_init_eq (demo_at_reachable 150));
      vm_compute; reflexivity.
  - vm_compute. reflexivity.
Defined.

(** The kernel without memory: the same schedule ends in the null pointer. *)
Definition oom_at (n : nat) : conc := sched (conc_step oom_kernel) (listed demo_acts) n (conc0 demo_s0 demo_t0).

(** A packet with bytes in page fragments, after a client has registered. *)
Definition paged_pkt : packet := MkPkt (pk_data demo_pkt) 100.

Definition paged_at : conc :=
  sched (conc_step demo_kernel)
    (listed ([ACall (CallReceive demo_add)] ++ replicate 9 (AThread 0) ++ [ACall (CallHook paged_pkt)] ++ replicate 30 (AThread 1)))
    41 (conc0 demo_s0 demo_t0).

Lemma concurrent_faults_witness :
  (∃ j, is_Some (conc_step demo_kernel (AThread j) (demo_at 90))) ∧
  (c_fault (oom_at 60) = Some (InCall 1, NullDeref) ∧ EvKmalloc None ∈ w_t (c_w (oom_at 60))) ∧
  (c_fault paged_at = Some (InCall 1, OutOfBounds) ∧ (0 < pk_paged paged_pkt)%nat).
Proof.
  split; [|split].
  - pose proof (concurrent_faults demo_kernel demo_s0 demo_t0 (demo_at 90) demo_laws demo_init_eq (demo_at_reachable 90)) as Hw.
    replace (c_fault (demo_at 90)) with (@None (culprit * fault)) in Hw by (vm_compute; reflexivity).
    destruct (c_threads (demo_at 90) !! 1%nat) as [p|] eqn:Hp; [|vm_compute in Hp; discriminate Hp].
    apply (proj1 Hw 1%nat p Hp). assert (finished <$> c_threads (demo_at 90) !! 1%nat = Some false) as Hfin by (vm_compute; reflexivity).
    rewrite Hp in Hfin. by injection Hfin.
  - pose proof (concurrent_faults oom_kernel demo_s0 demo_t0 (oom_at 60) oom_laws eq_refl
      (sched_reachable (conc_step oom_kernel) (listed demo_acts) 60 (conc0 demo_s0 demo_t0))) as Hw.
    assert (c_fault (oom_at 60) = Some (InCall 1, NullDeref)) as Hf by (vm_compute; reflexivity).
    rewrite Hf in Hw. replace (w_calls (c_w (oom_at 60)) !! 1%nat) with (Some (CallHook demo_pkt)) in Hw by (vm_compute; reflexivity).
    split; [exact Hf|]. destruct Hw as [[_ Hm]|[Hno _]]; [exact Hm|discriminate Hno].
  - pose proof (concurrent_faults demo_kernel demo_s0 demo_t0 paged_at demo_laws demo_init_eq
      (sched_reachable (conc_step demo_kernel) _ 41 (conc0 demo_s0 demo_t0))) as Hw.
    assert (c_fault paged_at = Some (InCall 1, OutOfBounds)) as Hf by (vm_compute; reflexivity).
    rewrite Hf in Hw. replace (w_calls (c_w paged_at) !! 1%nat) with (Some (CallHook paged_pkt)) in Hw by (vm_compute; reflexivity).
    split; [exact Hf|]. destruct Hw as [[Hno _]|[_ [Hlt|Hpg]]]; [discriminate Hno|vm_compute in Hlt; lia|exact Hpg].
Defined.

Lemma concurrent_delivery_witness :
  (queued (w_t (c_w (demo_at 150))) = sent (w_t (c_w (demo_at 150))) ++
     in_flight (w_kp (c_w (demo_at 150))) ++ q_elems (cap_skb_queue (w_s (c_w (demo_at 150)))) ∧
   ∃ pkts, pkts ⊆+ omap packet_of (w_calls (c_w (demo_at 150))) ∧
     Forall2 (λ pkt skb, linear pkt ∧ ∃ p, forwarded p pkt skb) pkts (queued (w_t (c_w (demo_at 150))))) ∧
  length (sent (w_t (c_w (demo_at 150)))) = 2%nat.
Proof.
  split; [|vm_compute; reflexivity].
  refine (concurrent_delivery demo_kernel demo_s0 demo_t0 (demo_at 150) demo_laws demo_init_eq (demo_at_reachable 150) _).
  vm_compute. reflexivity.
Defined.
