(* ===== verification/CapConcLive.v ===== *)
(** * Liveness of the capture module under interleaving

    The wait-queue protocol loses no wake-up: under every schedule in which
    the thread and the calls in progress get their turn, what is queued is
    sent. *)

From S2P Require Import Prelude Bytes Nlmsg UserTab RateCheck CapState CapPool Capture CapSystem CapConc CapLogic CapConcSafe.

Section Live.
Context `{NlmsgLaws} `{KListsLaws}.
Context (k : cap_kernel) (Hk : cap_laws k).
Context (Hmem : ∀ t, k_kmalloc k t ≠ None).
Context (Hsend : ∀ t skb p, 0 ≤ k_unicast k t skb p ∨ k_unicast k t skb p = - ECONNREFUSED).
Context (Hrun : ∀ t, k_should_stop k t = false).

(** The thread has been started and is in its loop. *)
Definition running (w : world) : Prop := is_Some (w_kp w) ∧ w_kp w ≠ Some KExit.

(** How far the thread is from handing out the next message: on the way to
    sleep and back it first has to be woken. *)
Definition kcapd_rank (kp : option kpc) (wait : bool) : nat :=
  match kp with
  | Some KSleep => if wait then 14 else 13
  | Some KPrepare => 12
  | Some KRetest => 11
  | Some KFinish => 10
  | Some KTest => 9
  | Some (KResult _ _) => 8
  | Some KForget => 7
  | Some KTop => 6
  | Some KDequeue => 5
  | Some (KBacklog _) => 4
  | Some (KGet _) => 3
  | Some (KPortid _) => 2
  | Some (KUnicast _ _) => 1
  | Some KExit | None => 0
  end.

Definition unsent (N : nat) (w : world) : nat := N - length (sent (w_t w)).

(** Distance of the system from having sent [N] messages. *)
Definition distance (N : nat) (c : conc) : nat :=
  match c_fault c with
  | Some _ => 0
  | None => S (unsent N (c_w c) * 16 + kcapd_rank (w_kp (c_w c)) (w_wait (c_w c)))
  end.

(** Who brings the next message nearer to the client: the thread, or while it
    sleeps a call that is about to wake it. *)
Definition helps (c : conc) (a : actor) : Prop :=
  (asleep (c_w c) ∧ ∃ i q, a = AThread i ∧ c_threads c !! i = Some (Wake q)) ∨
  (¬ asleep (c_w c) ∧ a = AKcapd).

Definition reached (N : nat) (c : conc) : Prop := c_fault c ≠ None ∨ (N ≤ length (sent (w_t (c_w c))))%nat.

#[local] Instance reached_dec N c : Decision (reached N c).
Proof. unfold reached. destruct (c_fault c); [left; by left|]. destruct (decide (N ≤ length (sent (w_t (c_w c))))%nat);
  [left; by right|right; by intros [?|?]]. Defined.

#[local] Instance asleep_dec w : Decision (asleep w).
Proof. unfold asleep. destruct (w_kp w) as [[]|]; try (right; by intros [? ?]).
  destruct (w_wait w); [by left|right; by intros [? ?]]. Defined.

(** From [c0] on the trace only grows. *)
Definition live_inv (c0 c : conc) : Prop :=
  conc_inv k c ∧ running (c_w c) ∧ (c_fault c = None → w_t (c_w c0) `prefix_of` w_t (c_w c)).

(** ** What single steps do to trace and thread *)

Lemma kp_started_some kp s : is_Some kp → kp_started kp s = kp.
Proof. by intros [? ->]. Qed.

Lemma call_step_kp p w w' r :
  call_step k p w = Some (w', r) → is_Some (w_kp w) →
  w_kp w' = w_kp w ∧ w_calls w' = w_calls w ∧ (w_wait w' = w_wait w ∨ ∃ q, p = Wake q ∧ w_wait w' = false).
Proof.
  intros E Hkp. destruct p as [v|B m q|l q|l q|q]; simpl in E; simplify_eq; try by eauto.
  - destruct (m k (w_s w) (w_t w)) as [[[b|f] s] t]; simplify_eq; simpl; rewrite kp_started_some by done; eauto.
  - destruct (w_held w l); simplify_eq; eauto.
  - split_and!; eauto.
Qed.

(** The thread moves on without sending. *)
Lemma kcapd_moves N w pc wait pc' t' s' :
  w_kp w = Some pc → pc' ≠ KExit → w_t w `prefix_of` t' → sent t' = sent (w_t w) →
  (kcapd_rank (Some pc') wait < kcapd_rank (Some pc) (w_wait w))%nat →
  let w' := set_kp wait pc' (upd s' t' w) in
  running w' ∧ w_calls w' = w_calls w ∧ w_t w `prefix_of` w_t w' ∧
  (unsent N w' * 16 + kcapd_rank (w_kp w') (w_wait w') < unsent N w * 16 + kcapd_rank (w_kp w) (w_wait w))%nat.
Proof.
  intros Hkp Hex Hpre Hs Hlt w'. split_and!; [split; [by eexists|by intros [=]]|done|done|].
  unfold unsent. rewrite Hkp. simpl in *. rewrite Hs. lia.
Qed.

(** One statement of the thread, when there is something to send: it gets
    nearer to [netlink_unicast] or calls it. *)
Lemma kcapd_progress N w gs :
  conc_ok w gs → answer_ok k (w_kp w) (w_t w) → running w → ¬ asleep w →
  (length (sent (w_t w)) < N ≤ length (queued (w_t w)))%nat →
  ∃ w', kcapd_step k w = Some (w', None) ∧ running w' ∧ w_calls w' = w_calls w ∧
    w_t w `prefix_of` w_t w' ∧
    (unsent N w' * 16 + kcapd_rank (w_kp w') (w_wait w') < unsent N w * 16 + kcapd_rank (w_kp w) (w_wait w))%nat.
Proof.
  intros Hok Hans [[pc Hkp] Hex] Hawake HN. pose proof (qo_fifo _ _ (co_queue _ _ Hok)) as Hf.
  assert (in_flight (Some pc) = [] → q_elems (cap_skb_queue (w_s w)) ≠ []) as Hne.
  { intros E Hq. rewrite Hkp, E, Hq, !app_nil_r in Hf. rewrite Hf in HN. lia. }
  assert (∀ wait pc' s' e, pc' ≠ KExit → sent [e] = [] → (kcapd_rank (Some pc') wait < kcapd_rank (Some pc) (w_wait w))%nat →
    _) as Hev by (intros wait pc' s' e H1' H2' H3';
      exact (kcapd_moves N w pc wait pc' (w_t w ++ [e]) s' Hkp H1' (prefix_app_r _ _ _ (reflexivity _))
        (eq_trans (sent_app _ _) (eq_trans (f_equal _ H2') (app_nil_r _))) H3')).
  assert (∀ wait pc' s', pc' ≠ KExit → (kcapd_rank (Some pc') wait < kcapd_rank (Some pc) (w_wait w))%nat →
    _) as Hno by (intros wait pc' s' H1' H3';
      exact (kcapd_moves N w pc wait pc' (w_t w) s' Hkp H1' (reflexivity _) eq_refl H3')).
  cbv zeta in Hev, Hno.
  assert (∀ wait pc', set_kp wait pc' w = set_kp wait pc' (upd (w_s w) (w_t w) w)) as Hupd by done.
  unfold kcapd_step, asleep in *. rewrite Hkp in *.
  destruct pc as [| |skb|skb|skb|skb p|skb err| | | | | | |]; cbn [kcapd_stmt];
    unfold bind, ret, get, emit, modify, kcall, kpeek, crash; rewrite ?Hupd.
  - rewrite Hrun. eexists. split; [done|]. apply Hno; [done|simpl; lia].
  - destruct (q_elems (cap_skb_queue (w_s w))) as [|skb rest] eqn:Hq; [by destruct Hne|].
    destruct (q_deq_cons _ _ _ Hq) as [Hd Hr]. rewrite Hd. eexists. split; [done|]. apply Hno; [done|simpl; lia].
  - destruct (u32 _ <=? _); eexists; (split; [done|]); [apply Hev|apply Hno]; try done; simpl; lia.
  - eexists. split; [done|]. apply Hev; [done|done|simpl; lia].
  - eexists. split; [done|]. apply Hno; [done|simpl; lia].
  - eexists. split; [done|]. split_and!; [split; [by eexists|done]|done|by apply prefix_app_r|].
    unfold unsent in *. simpl. rewrite sent_app, length_app. simpl. lia.
  - destruct Hans as (t & p & -> & _). destruct (_ <? 0) eqn:Hneg; zbool.
    + destruct (Hsend t skb p) as [?| ->]; [lia|]. rewrite Z.eqb_refl. eexists. split; [done|]. apply Hno; [done|simpl; lia].
    + eexists. split; [done|]. apply Hev; [done|done|simpl; lia].
  - eexists. split; [done|]. apply Hno; [done|simpl; lia].
  - rewrite queue_len_0, bool_decide_eq_false_2 by auto. eexists. split; [done|]. apply Hno; [done|simpl; lia].
  - eexists. split; [done|]. apply Hno; [done|simpl; lia].
  - rewrite queue_len_0, bool_decide_eq_false_2 by auto. eexists. split; [done|]. apply Hno; [done|simpl; lia].
  - destruct (w_wait w); [by destruct Hawake|]. eexists. split; [done|]. apply Hno; [done|simpl; lia].
  - eexists. split; [done|]. apply Hno; [done|simpl; lia].
  - done.
Qed.
(** ** The rule of helpful directions applies *)

(** What is known while [N] messages have been queued but not sent. *)
Lemma unreached N c0 c :
  live_inv c0 c → ¬ reached N c → (N ≤ length (queued (w_t (c_w c0))))%nat →
  ∃ gs, c_fault c = None ∧ conc_ok (c_w c) gs ∧ safe_threads k gs (c_threads c) ∧ answer_ok k (w_kp (c_w c)) (w_t (c_w c)) ∧
    running (c_w c) ∧ (length (sent (w_t (c_w c))) < N ≤ length (queued (w_t (c_w c))))%nat.
Proof.
  intros (Hinv & Hr & Hpre) Hn HN. unfold reached in Hn. unfold conc_inv in Hinv.
  destruct (c_fault c) as [x|]; [destruct Hn; by left|]. destruct Hinv as (gs & Hok & Hs & Hans & _).
  exists gs. split_and!; try done.
  - apply Nat.nle_gt. intros ?. apply Hn. by right.
  - destruct (Hpre eq_refl) as [ev ->]. rewrite queued_app, length_app. lia.
Qed.

Lemma waker gs ps : safe_threads k gs ps → Exists is_wake gs → ∃ i q, ps !! i = Some (Wake q).
Proof.
  intros Hs (g & Hg & Hw)%Exists_exists. apply list_elem_of_lookup in Hg as [i Hi].
  destruct (Forall2_lookup_l _ _ _ _ _ Hs Hi) as (p & Hp & Hsafe). unfold is_wake in Hw.
  destruct p as [v|B m q|l q|l q|q]; simpl in Hsafe.
  - destruct Hsafe. congruence.
  - by destruct Hsafe.
  - destruct Hsafe. congruence.
  - destruct Hsafe. congruence.
  - by exists i, q.
Qed.

Lemma some_help N c0 c :
  (N ≤ length (queued (w_t (c_w c0))))%nat → live_inv c0 c → ¬ reached N c →
  ∃ a, (a = AKcapd ∨ ∃ i, a = AThread i) ∧ helps c a.
Proof.
  intros HN Hi Hn. destruct (unreached N c0 c Hi Hn HN) as (gs & Hf & Hok & Hs & Hans & Hr & Hlt).
  destruct (decide (asleep (c_w c))) as [Ha|Ha].
  - destruct (waker gs (c_threads c) Hs) as (i & q & Hq).
    + apply (qo_wake _ _ (co_queue _ _ Hok) Ha). intros Hq. pose proof (qo_fifo _ _ (co_queue _ _ Hok)) as Hfi.
      destruct Ha as [Hkp _]. rewrite Hkp, Hq in Hfi. simpl in Hfi. rewrite app_nil_r in Hfi. rewrite Hfi in Hlt. lia.
    + exists (AThread i). split; [by right; eauto|]. left. by eauto.
  - exists AKcapd. split; [by left|]. by right.
Qed.

Lemma help_works N c0 c a :
  (N ≤ length (queued (w_t (c_w c0))))%nat → live_inv c0 c → ¬ reached N c → helps c a →
  ∃ c', conc_step k a c = Some c' ∧ (distance N c' < distance N c)%nat.
Proof.
  intros HN Hi Hn. destruct (unreached N c0 c Hi Hn HN) as (gs & Hf & Hok & Hs & Hans & Hr & Hlt).
  intros [(Ha & i & q & -> & Hq)|[Ha ->]]; unfold conc_step; rewrite Hf.
  - rewrite Hq. eexists. split; [reflexivity|]. unfold distance. rewrite Hf. simpl. destruct Ha as [Hkp Hw].
    rewrite Hkp, Hw. unfold unsent. simpl. rewrite sent_app, app_nil_r. lia.
  - destruct (kcapd_progress N (c_w c) gs Hok Hans Hr Ha Hlt) as (w' & -> & _ & _ & _ & Hd).
    eexists. split; [reflexivity|]. unfold distance. rewrite Hf. simpl. lia.
Qed.

(** Steps of the calls leave the distance alone or make it smaller, and do not
    take away the help. *)
Lemma thread_others N c0 c i c' :
  (N ≤ length (queued (w_t (c_w c0))))%nat → live_inv c0 c → ¬ reached N c → conc_step k (AThread i) c = Some c' →
  (distance N c' < distance N c)%nat ∨ distance N c' = distance N c ∧ ∀ b, helps c b → helps c' b.
Proof.
  intros HN Hi Hn E. destruct (unreached N c0 c Hi Hn HN) as (gs & Hf & Hok & Hs & Hans & Hr & Hlt).
  destruct (thread_step_ok k Hk c i c' gs Hf Hok Hs E) as (p & g & Hp & Hg & _ & Hres).
  unfold distance. rewrite Hf. destruct (c_fault c') as [[[j|] f]|]; [by left; lia|done|].
  destruct Hres as ((ev & Ht & Hev) & p' & g' & r & Ec & Hth & _).
  destruct (call_step_kp p (c_w c) (c_w c') r Ec) as (Hkp & _ & Hw); [apply Hr|].
  assert (unsent N (c_w c') = unsent N (c_w c)) as Hu by (unfold unsent; by rewrite Ht, sent_app, Hev, app_nil_r).
  rewrite Hu, Hkp. destruct Hw as [Hw|(q & -> & Hw)].
  - right. rewrite Hw. split; [done|]. assert (asleep (c_w c') ↔ asleep (c_w c)) as Hiff by (unfold asleep; by rewrite Hkp, Hw).
    intros b [(Ha & j & q & -> & Hj)|[Ha ->]]; [left|right; by rewrite Hiff]. split; [by apply Hiff|]. exists j, q.
    split; [done|]. rewrite Hth. destruct (decide (i = j)) as [->|Hij]; [|by rewrite list_lookup_insert_ne].
    rewrite Hp in Hj. injection Hj as ->. injection Ec as Ec _. destruct Ha as [_ Ha]. rewrite <-Ec, Ha in Hw. done.
  - destruct (decide (asleep (c_w c))) as [[Hkp' Hw']|Ha].
    + left. rewrite Hkp', Hw, Hw'. simpl. lia.
    + right. rewrite Hw. assert (¬ asleep (c_w c')) by (intros [_ ?]; congruence). split.
      * unfold asleep in Ha. destruct (w_kp (c_w c)) as [[]|], (w_wait (c_w c)); try done. by destruct Ha.
      * intros b [[? _]|[_ ->]]; [done|]. by right.
Qed.

Lemma others N c0 a c c' :
  (N ≤ length (queued (w_t (c_w c0))))%nat → live_inv c0 c → ¬ reached N c → conc_step k a c = Some c' →
  (distance N c' < distance N c)%nat ∨ distance N c' = distance N c ∧ ∀ b, helps c b → helps c' b.
Proof.
  intros HN Hi Hn E. destruct (unreached N c0 c Hi Hn HN) as (gs & Hf & Hok & Hs & Hans & Hr & Hlt).
  destruct a as [cl|i| |]; [|by eapply thread_others| |].
  - right. unfold conc_step in E. rewrite Hf in E. simplify_eq. split.
    { unfold distance. by rewrite Hf. }
    intros b [(Ha & j & q & -> & Hj)|[Ha ->]]; [left|by right]. split; [done|]. exists j, q. split; [done|].
    by apply lookup_app_l_Some.
  - left. destruct (decide (asleep (c_w c))) as [[Hkp Hw]|Ha].
    { unfold conc_step, kcapd_step in E. by rewrite Hf, Hkp, Hw in E. }
    destruct (help_works N c0 c AKcapd HN Hi Hn) as (c1 & E1 & Hd); [by right|]. by simplify_eq.
  - unfold conc_step in E. rewrite Hf in E. simplify_eq. unfold distance, helps, asleep. rewrite Hf. simpl.
    destruct (decide (asleep (c_w c))) as [[Hkp Hw]|Ha].
    + left. rewrite Hkp, Hw. unfold unsent. simpl. lia.
    + right. split.
      * f_equal. unfold asleep in Ha. destruct (w_kp (c_w c)) as [[]|], (w_wait (c_w c)); try done. by destruct Ha.
      * intros b [[? _]|[_ ->]]; [done|]. right. split; [by intros [_ ?]|done].
Qed.
(** ** Invariants along a schedule *)

(** Any statement of the thread, with or without something to send. *)
Lemma kcapd_grows w w' :
  k_should_stop k (w_t w) = false → kcapd_step k w = Some (w', None) → running w → running w' ∧ w_t w `prefix_of` w_t w'.
Proof.
  assert (∀ wait pc s' t', pc ≠ KExit → w_t w `prefix_of` t' →
    running (set_kp wait pc (upd s' t' w)) ∧ w_t w `prefix_of` w_t (set_kp wait pc (upd s' t' w))) as Hgo.
  { intros wait pc s' t' Hpc Hpre. split; [split; [by eexists|by intros [=]]|done]. }
  assert (∀ e, w_t w `prefix_of` w_t w ++ [e]) as Happ by (intros e; by apply prefix_app_r).
  unfold kcapd_step. intros Hgo_on E [[pc Hkp] Hex]. rewrite Hkp in *.
  destruct pc as [| |skb|skb|skb|skb p|skb err| | | | | | |]; cbn [kcapd_stmt] in E;
    unfold bind, ret, get, emit, modify, kcall, kpeek, crash in E; rewrite ?Hgo_on in E;
    repeat (case_match; simplify_eq); simplify_eq;
    first [by apply Hgo|by split; [split; [by eexists|]|]|idtac].
Qed.

Lemma live_step c0 : invariant_of (acts (conc_step k)) (live_inv c0).
Proof.
  intros c c' Hstep (Hinv & Hr & Hpre). split; [by eapply conc_step_inv|]. destruct Hstep as [a E].
  unfold conc_inv in Hinv. destruct (c_fault c) as [x|] eqn:Hf; [unfold conc_step in E; by rewrite Hf in E|].
  destruct Hinv as (gs & Hok & Hs & Hans & _). specialize (Hpre eq_refl). destruct a as [cl|i| |].
  - unfold conc_step in E. rewrite Hf in E. by simplify_eq.
  - destruct (thread_step_ok k Hk c i c' gs Hf Hok Hs E) as (p & g & Hp & Hg & _ & Hres).
    assert (∃ r, call_step k p (c_w c) = Some (c_w c', r)) as [r Ec].
    { unfold conc_step in E. rewrite Hf, Hp in E. destruct (call_step k p (c_w c)) as [[w' [p'|f]]|]; simplify_eq; by eexists. }
    destruct (call_step_kp p _ _ r Ec) as (Hkp & _ & _); [apply Hr|].
    split; [unfold running; by rewrite Hkp|]. intros Hf'. rewrite Hf' in Hres.
    destruct Hres as [(ev & -> & _) _]. by apply prefix_app_r.
  - unfold conc_step in E. rewrite Hf in E. pose proof (kcapd_step_ok k (c_w c) gs Hok Hans) as Hstep.
    destruct (kcapd_step k (c_w c)) as [[w' [f|]]|] eqn:Ek; simplify_eq.
    + destruct Hstep as (_ & (t & skb & p & _ & Hneg & Href) & _). destruct (Hsend t skb p); [lia|done].
    + destruct (kcapd_grows _ _ (Hrun _) Ek Hr) as [Hr' Ht]. split; [done|]. intros _. by etrans.
  - unfold conc_step in E. rewrite Hf in E. by simplify_eq.
Qed.

Lemma calls_sched σ n c :
  (∀ i cl, σ i = ACall cl → well_formed cl) → Forall well_formed (w_calls (c_w c)) →
  Forall well_formed (w_calls (c_w (sched (conc_step k) σ n c))).
Proof.
  revert σ c. induction n as [|n IH]; intros σ c Hσ Hc; [done|]. cbn [sched]. apply IH; [intros i; apply Hσ|].
  unfold sched_step. destruct (conc_step k (σ 0%nat) c) as [c'|] eqn:E; [|done]. simpl.
  destruct (calls_step k _ _ _ E) as [->|(cl & Ha & ->)]; [done|]. apply Forall_app. split; [done|].
  repeat constructor. by eapply Hσ.
Qed.

Lemma no_fault c : conc_inv k c → Forall well_formed (w_calls (c_w c)) → c_fault c = None.
Proof.
  unfold conc_inv. destruct (c_fault c) as [[[i|] f]|]; [..|done].
  - intros (cl & Hcl & [(_ & _ & [t Ht] & _)|[_ Hno]]) Hall; [by destruct (Hmem t)|].
    destruct Hno. by eapply Forall_lookup_1.
  - intros (_ & t & skb & p & _ & Hneg & Href) _. destruct (Hsend t skb p); [lia|done].
Qed.
End Live.

(** ** Claims *)

Section Claims.
Context `{NlmsgLaws} `{KListsLaws}.

(** The thread and every call in progress get their turn again and again. *)
Definition serviced (a : actor) : Prop := a = AKcapd ∨ ∃ i, a = AThread i.

(** The thread leaves its loop only when it is told to stop. *)
Lemma exits_step k a c c' :
  k_should_stop k (w_t (c_w c)) = false → conc_step k a c = Some c' →
  w_kp (c_w c) ≠ Some KExit → w_kp (c_w c') ≠ Some KExit.
Proof.
  intros Hrun E Hex. unfold conc_step in E. destruct (c_fault c); [done|]. destruct a as [cl|i| |].
  - by simplify_eq.
  - destruct (c_threads c !! i) as [p|]; [|done]. destruct (w_kp (c_w c)) as [pc|] eqn:Hkp.
    + destruct (call_step k p (c_w c)) as [[w' r]|] eqn:Ec; [|done].
      destruct (call_step_kp k p _ _ _ Ec) as (Hkp' & _); [by eexists|]. rewrite Hkp in Hkp'.
      destruct r; simplify_eq; simpl; congruence.
    + destruct p as [v|B m q|l q|l q|q]; simpl in E.
      * done.
      * destruct (m k (w_s (c_w c)) (w_t (c_w c))) as [[[b|f] s] t]; simplify_eq; simpl; unfold kp_started;
          rewrite Hkp; by destruct (kcapd_task s).
      * destruct (w_held (c_w c) l); simplify_eq. simpl. by rewrite Hkp.
      * simplify_eq. simpl. by rewrite Hkp.
      * simplify_eq. simpl. by rewrite Hkp.
  - destruct (w_kp (c_w c)) as [pc|] eqn:Hkp; [|unfold kcapd_step in E; by rewrite Hkp in E].
    destruct (kcapd_step k (c_w c)) as [[w' [f|]]|] eqn:Ek; simplify_eq; simpl.
    + unfold kcapd_step in Ek. rewrite Hkp in Ek.
      repeat (case_match; simplify_eq); simplify_eq; simpl; unfold kp_started; by rewrite Hkp.
    + destruct (kcapd_grows k _ _ Hrun Ek) as [[_ ?] _]; [|done]. split; [by eexists|by rewrite Hkp].
  - by simplify_eq.
Qed.

Lemma never_exits k :
  (∀ t, k_should_stop k t = false) → invariant_of (acts (conc_step k)) (λ c, w_kp (c_w c) ≠ Some KExit).
Proof. intros Hrun c c' [a E]. by eapply exits_step. Qed.

(** C2: no message is forgotten and no wake-up is lost.  Take any reachable
    state in which the thread has been started, a kernel that does not run out
    of memory for capture buffers, accepts or refuses every message and never
    stops the thread, packets without page fragments and of at least 12 bytes,
    and commands whose texts end in a zero byte.  Then under
    every schedule in which the thread and the calls in progress get their
    turn again and again (packets and commands may keep arriving or stop), all
    messages queued so far are eventually handed to [netlink_unicast], in
    order and without a fault, although the thread goes to sleep whenever it
    finds the queue empty. *)
Theorem queued_is_sent k s0 t0 c σ :
  cap_laws k → (∀ t, k_kmalloc k t ≠ None) →
  (∀ t skb p, 0 ≤ k_unicast k t skb p ∨ k_unicast k t skb p = - ECONNREFUSED) →
  (∀ t, k_should_stop k t = false) →
  app_init k cap_state0 [] = (Ok 0, s0, t0) → rtc (acts (conc_step k)) (conc0 s0 t0) c →
  is_Some (kcapd_task (w_s (c_w c))) →
  Forall well_formed (w_calls (c_w c)) → (∀ i cl, σ i = ACall cl → well_formed cl) →
  fair_on serviced σ →
  ∃ n, let c' := sched (conc_step k) σ n c in
    c_fault c' = None ∧ queued (w_t (c_w c)) `prefix_of` sent (w_t (c_w c')).
Proof.
  intros Hk Hmem Hsend Hrun Hinit Hr Htask Hcalls Hσ Hfair.
  pose proof (conc_reachable k Hk s0 t0 c Hinit Hr) as Hinv.
  pose proof (no_fault k Hmem Hsend c Hinv Hcalls) as Hf.
  set (N := length (queued (w_t (c_w c)))).
  assert (live_inv k c c) as Hlive.
  { split_and!; [done| |done]. split.
    - unfold conc_inv in Hinv. rewrite Hf in Hinv. destruct Hinv as (gs & Hok & _). by apply (co_task _ _ Hok).
    - by apply (rtc_invariant _ _ _ _ (never_exits k Hrun) Hr). }
  destruct (helpful_termination (conc_step k) serviced (live_inv k c) (reached N) (distance N) helps (reached_dec N)
    (live_step k Hk Hsend Hrun c) (λ c1, some_help k N c c1 (le_n N)) (λ c1 a, help_works k Hsend Hrun N c c1 a (le_n N))
    (λ a c1 c2, others k Hk Hsend Hrun N c a c1 c2 (le_n N)) c σ Hfair Hlive) as [n Hn].
  exists n. cbv zeta. set (c' := sched (conc_step k) σ n c) in *.
  assert (live_inv k c c') as (Hinv' & _ & Hpre) by (by apply sched_invariant; [apply live_step|]).
  assert (c_fault c' = None) as Hf' by (by eapply no_fault, calls_sched). split; [done|].
  destruct Hn as [?|Hlen]; [done|]. destruct (Hpre Hf') as [ev Hev].
  unfold conc_inv in Hinv'. rewrite Hf' in Hinv'. destruct Hinv' as (gs & Hok & _).
  pose proof (qo_fifo _ _ (co_queue _ _ Hok)) as Hfi. rewrite Hev, queued_app, <-Hev in Hfi.
  exists (drop N (sent (w_t (c_w c')))). apply (f_equal (take N)) in Hfi.
  unfold N in Hfi, Hlen |- *. rewrite take_app_length, take_app_le in Hfi by done.
  etrans; [symmetry; apply take_drop|]. f_equal. by symmetry.
Qed.
End Claims.

(** ** Witnesses *)

(** The thread and every call take turns: the call of turn [2 ^ j + i] is [i]. *)
Definition turns (n : nat) : actor :=
  if Nat.even n then AKcapd else AThread (Nat.div2 n - 2 ^ Nat.log2 (Nat.div2 n)).

Lemma turns_fair : fair_on serviced turns.
Proof.
  intros a [->|[i ->]] n.
  - exists (2 * n)%nat. split; [lia|]. unfold turns. by rewrite Nat.even_even.
  - set (j := (n + i)%nat). assert (j < 2 ^ j)%nat by (apply Nat.pow_gt_lin_r; lia).
    exists (S (2 * (2 ^ j + i)))%nat. split; [lia|]. unfold turns.
    rewrite Nat.even_succ, <-Nat.negb_even, Nat.even_even, Nat.div2_succ_double. simpl negb. cbv iota.
    rewrite (Nat.log2_unique (2 ^ j + i) j) by (simpl; lia). f_equal. lia.
Qed.

(** After 70 steps of the demo schedule the thread sleeps although a message is
    queued: the call that queued it has not woken it yet. *)
Lemma queued_is_sent_witness :
  asleep (c_w (demo_at 70)) ∧ length (queued (w_t (c_w (demo_at 70)))) = 1%nat ∧
  ∃ n, let c' := sched (conc_step demo_kernel) turns n (demo_at 70) in
    c_fault c' = None ∧ queued (w_t (c_w (demo_at 70))) `prefix_of` sent (w_t (c_w c')).
Proof.
  split; [vm_compute; by split|]. split; [vm_compute; reflexivity|].
  refine (queued_is_sent demo_kernel demo_s0 demo_t0 (demo_at 70) turns demo_laws _ _ _ demo_init_eq
    (demo_at_reachable 70) _ _ _ turns_fair).
  - intros t. cbn. discriminate.
  - intros t skb p. left. cbn. lia.
  - reflexivity.
  - vm_compute. by eexists.
  - replace (w_calls (c_w (demo_at 70))) with [CallReceive demo_add; CallHook demo_pkt; CallHook demo_pkt] by (vm_compute; reflexivity).
    apply Forall_cons; split; [vm_compute; repeat constructor; by eexists|].
    repeat (apply Forall_cons; split; [exact demo_linear|]). constructor.
  - intros i cl Hi. unfold turns in Hi. destruct (Nat.even i); discriminate Hi.
Defined.
