(* ===== verification/CapPorts.v ===== *)
(** * Where captured packets go ([src/netlink/netlink.c])

    [cap_nlk_portid] is written by commands and by the thread and read by hook
    calls and by the thread, without a lock.  Whatever the interleaving, it only
    ever holds 0 or a port that asked for packets, so the thread sends to no
    other port; and no statement of the module stops the thread. *)

From S2P Require Import Prelude Bytes Nlmsg UserTab RateCheck CapState CapPool Capture CapSystem.
From S2P Require Import CapConc CapLogic CapConcSafe.

(** ** Invariants of state and trace, statement by statement *)

Section Keeps.
Context `{KLists} (k : cap_kernel) (I : cap_state → list cap_ev → Prop).

(** Every statement of the program keeps [I]. *)
Fixpoint keeps {A} (p : prog A) : Prop :=
  match p with
  | Done _ => True
  | Act m q => preserves k I m ∧ ∀ b, keeps (q b)
  | Lock _ q | Unlock _ q | Wake q => keeps q
  end.

Lemma keeps_bind {A B} (p : prog A) (f : A → prog B) : keeps p → (∀ a, keeps (f a)) → keeps (pbind p f).
Proof. intros Hp Hf. induction p; simpl in *; naive_solver. Qed.

Lemma keeps_act {A} (m : CM A) : preserves k I m → keeps (act m).
Proof. done. Qed.

Lemma keeps_if {A} (b : bool) (p q : prog A) : keeps p → keeps q → keeps (if b then p else q).
Proof. by destruct b. Qed.

Lemma keeps_next p w w' p' : keeps p → call_step k p w = Some (w', inl p') → keeps p'.
Proof.
  intros Hp E. destruct p as [v|B m q|l q|l q|q]; simpl in *; simplify_eq; try done.
  - destruct Hp as [_ Hq]. by destruct (m k (w_s w) (w_t w)) as [[[b|f] s] t]; simplify_eq.
  - by destruct (w_held w l); simplify_eq.
Qed.

Context (Hwake : ∀ s t, I s t → I s (t ++ [EvWakeKcapd])).

Lemma keeps_step p w w' r :
  keeps p → I (w_s w) (w_t w) → call_step k p w = Some (w', r) → I (w_s w') (w_t w').
Proof.
  intros Hp HI E. destruct p as [v|B m q|l q|l q|q]; simpl in *.
  - done.
  - destruct Hp as [Hm _]. specialize (Hm _ _ HI). simpl in Hm.
    by destruct (m k (w_s w) (w_t w)) as [[[b|f] s] t]; simplify_eq.
  - by destruct (w_held w l); simplify_eq.
  - by simplify_eq.
  - simplify_eq. by apply Hwake.
Qed.
End Keeps.

(** ** Ports *)

Section Ports.
Context `{NlmsgApi} `{KLists} (k : cap_kernel).

(** The ports whose registration a command buffer holds. *)
Definition registers (cl : call) (p : Z) : Prop :=
  ∃ buf nlh h, cl = CallReceive buf ∧ (nlh, h) ∈ commands buf ∧ nlmsg_type h = CAP_ADD ∧ p = s32 (nlmsg_pid h).

(** 0, and the ports that have asked for packets. *)
Definition granted (calls : list call) (p : Z) : Prop := p = 0 ∨ ∃ cl, cl ∈ calls ∧ registers cl p.

Definition ev_ok (A : Z → Prop) (e : cap_ev) : Prop :=
  match e with
  | EvUnicast _ p _ => ∃ q, A q ∧ p = u32 q
  | EvKthreadStop => False
  | _ => True
  end.

Definition port_ok (A : Z → Prop) (s : cap_state) (t : list cap_ev) : Prop :=
  A (cap_nlk_portid s) ∧ Forall (ev_ok A) t.

Lemma port_ok_snoc A s t e : ev_ok A e → port_ok A s t → port_ok A s (t ++ [e]).
Proof. intros He [Hp Ht]. split; [done|]. apply Forall_app. by split; [|constructor]. Qed.

(** Statements that leave the port alone and neither send nor stop. *)
Ltac elsewhere :=
  first
  [ apply preserves_modify; by intros ?? [??]
  | apply preserves_emit; intros ??; by apply port_ok_snoc
  | apply preserves_kcall; intros ???; by apply port_ok_snoc ].

Ltac keep :=
  repeat match goal with
  | |- keeps _ _ (Done _) => exact Logic.I
  | |- keeps _ _ (pbind _ _) => apply keeps_bind; [|intros ?]
  | |- keeps _ _ (act _) => apply keeps_act
  | |- keeps _ _ (lock_ _) => exact Logic.I
  | |- keeps _ _ (unlock_ _) => exact Logic.I
  | |- keeps _ _ wake_kcapd => exact Logic.I
  | |- keeps _ _ (if ?b then _ else _) => destruct b
  | |- keeps _ _ (match ?x with _ => _ end) => destruct x
  | |- preserves _ _ _ => first [elsewhere|preserve1]
  end.

Lemma keeps_free A cb : keeps k (port_ok A) (cap_buffer_free_prog cb).
Proof. unfold cap_buffer_free_prog, cb_read. keep. Qed.

Lemma keeps_hook A pkt : keeps k (port_ok A) (hook_func_queue_prog pkt).
Proof.
  assert (∀ a f, preserves k (port_ok A) (cb_write a f)) as Hw by (intros a f; unfold cb_write, cb_read; keep).
  unfold hook_func_queue_prog, cap_buffer_alloc_prog, take_free_prog, fill_cb_prog, cap_rate_check_prog, new_cb, cb_read, print_head.
  repeat first [apply Hw|apply keeps_free|progress keep].
Qed.

Lemma keeps_receive_msg A nlh h :
  A 0 → (nlmsg_type h = CAP_ADD → A (s32 (nlmsg_pid h))) → keeps k (port_ok A) (cap_receive_msg_prog nlh h).
Proof.
  intros Hz Hadd.
  assert (∀ p, A p → preserves k (port_ok A) (modify (set_portid p))) as Hp by (intros p Hp; apply preserves_modify; by intros s t [_ Ht]).
  unfold cap_receive_msg_prog. cbv zeta. apply keeps_if; [done|].
  apply keeps_bind; [unfold start_kcapd; keep|]. intros err. apply keeps_if; [done|].
  apply keeps_bind; [keep|]. intros _. apply keeps_bind; [|done].
  destruct (_ =? CAP_ADD) eqn:Et; [|destruct (_ =? CAP_DEL)]; zbool; [..|done].
  all: apply keeps_bind; [apply keeps_act, Hp; by auto|]; intros _; unfold on_utab; keep.
Qed.

(** What a call may set the port to. *)
Definition grants (A : Z → Prop) (cl : call) : Prop := A 0 ∧ ∀ p, registers cl p → A p.

Lemma keeps_call A cl : grants A cl → keeps k (port_ok A) (call_prog cl).
Proof.
  intros [Hz Hreg]. destruct cl as [pkt|buf]; [apply keeps_hook|]. cbn [call_prog]. unfold cap_receive_prog.
  apply keeps_bind; [done|]. intros _. apply keeps_bind; [|done].
  assert (∀ m, m ∈ commands buf → m ∈ commands buf) as Hms by done. revert Hms. generalize (commands buf) at 1 3 as ms.
  induction ms as [|[nlh h] ms IH]; intros Hms; [done|]. cbn [receive_all_prog]. apply keeps_bind.
  - apply keeps_receive_msg; [done|]. intros Ht. apply Hreg. exists buf, nlh, h. split_and!; [done| |done|done].
    apply Hms. by left.
  - intros err. apply keeps_bind; [keep|]. intros _. apply IH. intros m Hm. apply Hms. by right.
Qed.

(** The port the thread has read and not used yet. *)
Definition taken_port (kp : option kpc) : option Z :=
  match kp with Some (KUnicast _ p) => Some p | _ => None end.

Definition world_ports (A : Z → Prop) (w : world) : Prop :=
  port_ok A (w_s w) (w_t w) ∧ ∀ p, taken_port (w_kp w) = Some p → A p.

Lemma kcapd_ports A w w' f :
  A 0 → kcapd_step k w = Some (w', f) → world_ports A w → world_ports A w'.
Proof.
  intros Hz E [HI Hp]. unfold kcapd_step in E. destruct (w_kp w) as [pc|] eqn:Hkp; [|done].
  assert (preserves k (port_ok A) (kcapd_stmt pc)) as Hpres.
  { destruct pc as [| |skb|skb|skb|skb p|skb err| | | | | | |]; cbn [kcapd_stmt]; try by keep.
    apply preserves_bind; [|intros; apply preserves_ret]. apply preserves_kcall. intros s t a.
    apply port_ok_snoc. exists p. split; [by apply Hp|done]. }
  assert (∀ pc' s t, kcapd_stmt pc k (w_s w) (w_t w) = (Ok pc', s, t) → ∀ p, taken_port (Some pc') = Some p → A p) as Htaken.
  { intros pc' s t Es p Ht. destruct pc' as [| | | | |skb' p'| | | | | | | |]; simplify_eq/=.
    destruct pc as [| |skb|skb|skb|skb p1|skb err| | | | | | |]; cbn [kcapd_stmt] in Es;
      unfold bind, ret, get, emit, modify, kcall, kpeek, crash in Es; repeat (case_match; simplify_eq); simplify_eq.
    apply HI. }
  specialize (Hpres _ _ HI). simpl in Hpres.
  destruct (kcapd_stmt pc k (w_s w) (w_t w)) as [[[pc'|e] s] t] eqn:Es.
  - specialize (Htaken _ _ _ eq_refl).
    destruct pc; simplify_eq; try (by split); destruct (w_wait w); by simplify_eq.
  - destruct pc; simplify_eq; simpl in *; try by split.
    all: try (destruct (w_wait w); by simplify_eq).
    all: split; [exact Hpres|]; simpl; by rewrite Hkp.
Qed.

(** Every call in progress keeps to the ports it may set. *)
Definition ports_inv (c : conc) : Prop :=
  world_ports (granted (w_calls (c_w c))) (c_w c) ∧
  Forall2 (λ cl p, ∀ A, grants A cl → keeps k (port_ok A) p) (w_calls (c_w c)) (c_threads c).

Lemma granted_more calls calls' p : calls ⊆ calls' → granted calls p → granted calls' p.
Proof. intros Hsub [->|(cl & Hcl & Hp)]; [by left|right]. exists cl. split; [by apply Hsub|done]. Qed.

Lemma world_ports_more (A B : Z → Prop) w : (∀ p, A p → B p) → world_ports A w → world_ports B w.
Proof.
  intros HAB [[Hp Ht] Hk]. split; [split; [by apply HAB|]|auto]. eapply Forall_impl; [exact Ht|].
  intros e. destruct e; simpl; naive_solver.
Qed.

Lemma grants_granted calls cl : cl ∈ calls → grants (granted calls) cl.
Proof. intros Hcl. split; [by left|]. intros p Hp. right. by exists cl. Qed.

Lemma taken_started kp s : taken_port (kp_started kp s) = taken_port kp.
Proof. unfold kp_started. by destruct kp, (kcapd_task s). Qed.

Lemma call_taken p w w' r : call_step k p w = Some (w', r) → taken_port (w_kp w') = taken_port (w_kp w).
Proof.
  intros E. destruct p as [v|B m q|l q|l q|q]; simpl in E; simplify_eq; try done.
  - destruct (m k (w_s w) (w_t w)) as [[[b|f] s] t]; simplify_eq; apply taken_started.
  - by destruct (w_held w l); simplify_eq.
Qed.

Lemma ports_step : invariant_of (acts (conc_step k)) ports_inv.
Proof.
  intros c c' [a E] [Hw Hth]. pose proof (calls_step k _ _ _ E) as Hcalls.
  unfold conc_step in E. destruct (c_fault c); [done|]. destruct a as [cl|i| |].
  - simplify_eq. split; cbn [c_w c_threads w_calls].
    + apply (world_ports_more (granted (w_calls (c_w c)))); [|exact Hw]. intros p.
      apply granted_more. set_solver.
    + apply Forall2_app; [done|]. constructor; [|done]. intros A. apply keeps_call.
  - destruct (c_threads c !! i) as [p|] eqn:Hi; [|done].
    destruct (Forall2_lookup_r _ _ _ _ _ Hth Hi) as (cl & Hcl & Hp).
    destruct (call_step k p (c_w c)) as [[w' r]|] eqn:Ec; [|done].
    assert (w_calls w' = w_calls (c_w c)) as Ecalls.
    { destruct Hcalls as [Hc|(? & ? & _)]; [|done]. by destruct r; simplify_eq. }
    destruct Hw as [HI Ht].
    assert (world_ports (granted (w_calls w')) w') as Hw'.
    { rewrite Ecalls. split; [|by erewrite call_taken].
      eapply keeps_step; [intros s t; by apply port_ok_snoc| |exact HI|exact Ec].
      by apply Hp, grants_granted; eapply list_elem_of_lookup_2. }
    destruct r as [p'|f]; simplify_eq; (split; [done|]); cbn [c_w c_threads]; rewrite Ecalls; [|done].
    rewrite <-(list_insert_id _ _ _ Hcl). apply Forall2_insert; [done|]. intros A HA. by eapply keeps_next, Ec; apply Hp.
  - destruct Hcalls as [Hc|(? & ? & _)]; [|done].
    destruct (kcapd_step k (c_w c)) as [[w' f]|] eqn:Ek; [|done].
    assert (world_ports (granted (w_calls (c_w c))) w') as Hw' by (eapply kcapd_ports; [|exact Ek|exact Hw]; by left).
    destruct f; simplify_eq; (split; cbn [c_w c_threads] in *; by rewrite Hc).
  - by simplify_eq.
Qed.
End Ports.

Section Claims.
Context `{NlmsgLaws} `{KListsLaws}.

Lemma ports_init k s t : app_init k cap_state0 [] = (Ok 0, s, t) → ports_inv k (conc0 s t).
Proof.
  intros Hinit. split; [|constructor]. split; [|done].
  assert (preserves k (port_ok (granted [])) app_init) as Hp.
  { unfold app_init, on_utab, cap_hook_init. preserve.
    all: first [apply preserves_kcall; intros ???|apply preserves_emit; intros ??|apply preserves_modify; intros ??].
    all: try by apply port_ok_snoc. all: intros [??]; split; try done. by left. }
  specialize (Hp cap_state0 []). rewrite Hinit in Hp. apply Hp. split; [by left|constructor].
Qed.

Lemma ports_reachable k s t c :
  app_init k cap_state0 [] = (Ok 0, s, t) → rtc (acts (conc_step k)) (conc0 s t) c → ports_inv k c.
Proof. intros Hinit Hr. eapply rtc_invariant; [apply ports_step|exact Hr|by apply ports_init]. Qed.

(** C37: captured packets are sent only where they were asked for.  Although
    [cap_nlk_portid] is read and written without a lock, in every interleaving
    of hook calls, commands and the thread, and whatever packets and commands
    arrive, it is 0 or the port of a [CAP_ADD] message the module was handed
    before; and every message goes to port 0 or to such a port. *)
Theorem concurrent_destinations k s0 t0 c :
  app_init k cap_state0 [] = (Ok 0, s0, t0) → rtc (acts (conc_step k)) (conc0 s0 t0) c →
  let asked q := ∃ buf nlh h, CallReceive buf ∈ w_calls (c_w c) ∧ (nlh, h) ∈ commands buf ∧
    nlmsg_type h = CAP_ADD ∧ q = s32 (nlmsg_pid h) in
  (cap_nlk_portid (w_s (c_w c)) = 0 ∨ asked (cap_nlk_portid (w_s (c_w c)))) ∧
  (∀ skb p err, EvUnicast skb p err ∈ w_t (c_w c) → p = 0 ∨ ∃ q, asked q ∧ p = u32 q).
Proof.
  intros Hinit Hr asked. destruct (ports_reachable k s0 t0 c Hinit Hr) as [[[Hp Ht] _] _].
  assert (∀ q, granted (w_calls (c_w c)) q → q = 0 ∨ asked q) as Hg.
  { intros q [->|(cl & Hcl & buf & nlh & h & -> & Hq)]; [by left|right]. by exists buf, nlh, h. }
  split; [by apply Hg|]. intros skb p err Hin.
  destruct (proj1 (Forall_forall _ _) Ht _ Hin) as (q & Hq & ->).
  destruct (Hg q Hq) as [->|?]; [by left|right]. by exists q.
Qed.
End Claims.

(** ** Races on [cap_nlk_portid] *)

(** A kernel in which the client with port 42 is gone. *)
Definition refusing_kernel : cap_kernel := {|
  k_kmalloc := k_kmalloc demo_kernel; k_nlmsg_new := k_nlmsg_new demo_kernel; k_nlmsg_put := k_nlmsg_put demo_kernel;
  k_jiffies := k_jiffies demo_kernel; k_unicast _ _ p := if p =? 42 then - ECONNREFUSED else 0;
  k_kthread_run := k_kthread_run demo_kernel; k_kernel_create := k_kernel_create demo_kernel;
  k_should_stop := k_should_stop demo_kernel; k_HZ := 250; k_long_bits := 32;
|}.

(** Client 43 registers. *)
Definition add43_hdr : nlmsghdr := MkHdr 20 CAP_ADD NLM_F_ACK 1 43.
Definition demo_add43 : list Z := nlmsg_bytes (add43_hdr, [104; 105; 0; 0]).
Definition demo_del : list Z := nlmsg_bytes (MkHdr 20 CAP_DEL NLM_F_ACK 1 42, [104; 105; 0; 0]).

Definition schedule (l : list actor) : conc :=
  sched (conc_step refusing_kernel) (listed l) (length l) (conc0 demo_s0 demo_t0).

(** Client 42 registers, a packet is queued for it, the thread tries to send
    it; client 43 registers before the thread looks at the answer, or after. *)
Definition before_answer : list actor :=
  [ACall (CallReceive demo_add)] ++ replicate 9 (AThread 0) ++
  [ACall (CallHook demo_pkt)] ++ replicate 40 (AThread 1) ++ replicate 6 AKcapd.
Definition register43 : list actor := [ACall (CallReceive demo_add43)] ++ replicate 9 (AThread 2).

Definition all_done (c : conc) : bool := forallb finished (c_threads c).
Definition acks (c : conc) : list (nlmsghdr * Z) :=
  omap (λ e, match e with EvAck h err => Some (h, err) | _ => None end) (w_t (c_w c)).

(** A packet has passed the test of [cap_nlk_portid] when client 42 leaves. *)
Definition leaves_in_between : list actor :=
  [ACall (CallReceive demo_add)] ++ replicate 9 (AThread 0) ++
  [ACall (CallHook demo_pkt)] ++ replicate 2 (AThread 1) ++
  [ACall (CallReceive demo_del)] ++ replicate 9 (AThread 2) ++
  replicate 40 (AThread 1) ++ replicate 6 AKcapd.

Definition destinations (c : conc) : list (Z * option nlmsghdr) :=
  omap (λ e, match e with EvUnicast skb p _ => Some (p, sk_hdr skb) | _ => None end) (w_t (c_w c)).

(** The interleaving matters.  With the same three calls, all returned and
    acknowledged with 0, client 43 is the one packets are sent to when the
    thread zeroes [cap_nlk_portid] before it registers, but is forgotten when
    the thread zeroes it afterwards, because of a send to the client that is
    gone. *)
Example registration_lost :
  let kept := schedule (before_answer ++ [AKcapd; AKcapd] ++ register43) in
  let lost := schedule (before_answer ++ register43 ++ [AKcapd; AKcapd]) in
  w_calls (c_w kept) = w_calls (c_w lost) ∧
  (c_fault kept = None ∧ all_done kept = true ∧ last (acks kept) = Some (add43_hdr, 0) ∧
    cap_nlk_portid (w_s (c_w kept)) = 43) ∧
  (c_fault lost = None ∧ all_done lost = true ∧ last (acks lost) = Some (add43_hdr, 0) ∧
    cap_nlk_portid (w_s (c_w lost)) = 0).
Proof. vm_compute. repeat split. Qed.

(** ** Witness *)

(** Two packets go to client 42; and a packet that passed the hook's test just
    before the client left is still put into a message for port 0 and sent to
    port 0. *)
Lemma concurrent_destinations_witness :
  (∃ skb err, EvUnicast skb 42 err ∈ w_t (c_w (demo_at 150)) ∧
     (42 = 0 ∨ ∃ q, (∃ buf nlh h, CallReceive buf ∈ w_calls (c_w (demo_at 150)) ∧ (nlh, h) ∈ commands buf ∧
        nlmsg_type h = CAP_ADD ∧ q = s32 (nlmsg_pid h)) ∧ 42 = u32 q)) ∧
  (destinations (schedule leaves_in_between) = [(0, Some (MkHdr 32 NLMSG_DONE 0 0 0))] ∧
   cap_nlk_portid (w_s (c_w (schedule leaves_in_between))) = 0).
Proof.
  split; [|vm_compute; by split].
  destruct (w_t (c_w (demo_at 150)) !! 14%nat) as [e|] eqn:Hi; [|vm_compute in Hi; discriminate Hi].
  assert (match e with EvUnicast _ p _ => p = 42 | _ => False end) as He by (vm_compute in Hi; injection Hi as <-; reflexivity).
  destruct e as [| | | | | |skb p err| | | | | | | | | |]; try contradiction He. subst p.
  exists skb, err. pose proof (list_elem_of_lookup_2 _ _ _ Hi) as Hin. split; [exact Hin|].
  exact (proj2 (concurrent_destinations demo_kernel demo_s0 demo_t0 (demo_at 150) demo_init_eq (demo_at_reachable 150)) skb 42 err Hin).
Defined.
