(* ===== verification/CapUnload.v ===== *)
(** * Unloading the capture module while it runs ([src/netlink/netlink.c])

    [app_exit] closes the netlink socket and takes the hook back, and then the
    kernel frees the module's memory.  It runs at the same time as the calls
    and the thread of [CapConc].  What the kernel does about calls that are
    under way is a parameter with laws ([unload_kernel], [unload_laws]): by
    them calls are over by then; the thread is not. *)

From S2P Require Import Prelude Bytes Nlmsg UserTab RateCheck CapState CapPool Capture CapSystem.
From S2P Require Import CapConc CapLogic CapConcSafe CapConcLive CapPorts.

(** ** The system with [app_exit] *)

(** Where [app_exit] is: not called or before its first statement, at
    [netlink_kernel_release], at [nf_unregister_hook], and returned. *)
Inductive xpc := XLoaded | XRelease | XUnhook | XGone.

#[global] Instance xpc_eq_dec : EqDecision xpc.
Proof. solve_decision. Defined.

Definition released (x : xpc) : bool := match x with XUnhook | XGone => true | _ => false end.
Definition gone (x : xpc) : bool := match x with XGone => true | _ => false end.

Definition is_command (c : call) : bool := match c with CallReceive _ => true | CallHook _ => false end.
Definition is_hook (c : call) : bool := negb (is_command c).

Section Unload.
Context `{NlmsgApi} `{KLists}.

Record unl := MkUnl { u_c : conc; u_x : xpc }.

Inductive uactor := UMod (a : actor) | UExit.

(** The calls of one kind have all returned. *)
Definition idle (P : call → bool) (c : conc) : Prop :=
  Forall2 (λ cl p, P cl = true → finished p = true) (w_calls (c_w c)) (c_threads c).

#[global] Instance idle_dec P c : Decision (idle P c).
Proof. unfold idle. apply _. Defined.

(** *** The kernel's part *)

(** When the kernel calls [app_exit], when [nf_unregister_hook] returns, and
    which calls the kernel makes into the module at which point of unloading. *)
Record unload_kernel := {
  uk_remove : conc → bool;
  uk_unhooked : conc → bool;
  uk_calls : xpc → call → bool;
}.

Record unload_laws (k : cap_kernel) (uk : unload_kernel) : Prop := {
  (* a module is removed when nobody holds a reference to it, and every open
     socket of its netlink protocol holds one: no command is under way *)
  ul_remove : ∀ c, uk_remove uk c = true → idle is_command c;
  (* and no such socket can be opened any more *)
  ul_command : ∀ x buf, x ≠ XLoaded → uk_calls uk x (CallReceive buf) = false;
  (* nf_unregister_hook waits for the hook calls under way *)
  ul_unhooked : ∀ c, uk_unhooked uk c = true → idle is_hook c;
  (* and the hook is not called after it *)
  ul_hook : ∀ pkt, uk_calls uk XGone (CallHook pkt) = false;
  (* kthread_should_stop answers whether kthread_stop has been called *)
  ul_stop : ∀ t, k_should_stop k t = true → EvKthreadStop ∈ t;
}.

Definition with_w (w : world) (c : conc) : conc := MkConc w (c_threads c) (c_fault c).
Definition faulted (who : culprit) (c : conc) : conc := MkConc (c_w c) (c_threads c) (Some (who, UseAfterFree)).

(** *** [app_exit] *)

(** One statement: the [printk], then the two calls. *)
Definition exit_stmt (x : xpc) : CM xpc :=
  match x with
  | XLoaded => ret XRelease
  | XRelease => sock <- get cap_sock ;; emit (EvRelease sock) ;; ret XUnhook
  | XUnhook => emit EvUnregisterHook ;; ret XGone
  | XGone => ret XGone
  end.

(** The statement can start, or the call it makes can return. *)
Definition exit_ready (uk : unload_kernel) (x : xpc) (c : conc) : bool :=
  match x with
  | XLoaded => uk_remove uk c
  | XRelease => true
  | XUnhook => uk_unhooked uk c
  | XGone => false
  end.

Definition exit_step (k : cap_kernel) (uk : unload_kernel) (u : unl) : option unl :=
  let w := c_w (u_c u) in
  if exit_ready uk (u_x u) (u_c u) then
    match exit_stmt (u_x u) k (w_s w) (w_t w) with
    | (Ok x, s, t) => Some (MkUnl (with_w (upd s t w) (u_c u)) x)
    | _ => None
    end
  else None.

(** [netlink_unicast(cap_sock, ...)] comes next. *)
Definition at_unicast (w : world) : bool := match w_kp w with Some (KUnicast _ _) => true | _ => false end.

(** The kernel frees the module's code and data when [app_exit] has returned:
    a statement of the module that runs afterwards, and the use of a released
    socket, are faults. *)
Definition unl_step (k : cap_kernel) (uk : unload_kernel) (a : uactor) (u : unl) : option unl :=
  match c_fault (u_c u) with
  | Some _ => None
  | None =>
      match a with
      | UExit => exit_step k uk u
      | UMod a =>
          c' ← conc_step k a (u_c u);
          match a with
          | ACall cl => if uk_calls uk (u_x u) cl then Some (MkUnl c' (u_x u)) else None
          | AThread i => Some (MkUnl (if gone (u_x u) then faulted (InCall i) (u_c u) else c') (u_x u))
          | AKcapd =>
              let bad := gone (u_x u) || released (u_x u) && at_unicast (c_w (u_c u)) in
              Some (MkUnl (if bad then faulted InKcapd (u_c u) else c') (u_x u))
          | ASpurious => Some (MkUnl c' (u_x u))
          end
      end
  end.
End Unload.

(** ** Invariants *)

Section Invariant.
Context `{NlmsgLaws} `{KListsLaws}.
Context (k : cap_kernel) (Hk : cap_laws k) (uk : unload_kernel) (Huk : unload_laws k uk).

Lemma idle_step P a c c' :
  conc_step k a c = Some c' → c_fault c' = None → idle P c → (∀ cl, a = ACall cl → P cl = false) → idle P c'.
Proof.
  intros E Hf' Hi Ha. pose proof (calls_step _ _ _ _ E) as Hcalls. unfold idle in *.
  unfold conc_step in E. destruct (c_fault c); [done|]. destruct a as [cl|i| |].
  - simplify_eq. apply Forall2_app; [done|]. constructor; [|done].
    by rewrite (Ha cl eq_refl).
  - destruct Hcalls as [->|(? & ? & _)]; [|done]. destruct (c_threads c !! i) as [p|] eqn:Hp; [|done].
    destruct (Forall2_lookup_r _ _ _ _ _ Hi Hp) as (cl & Hcl & Hfin).
    destruct (call_step k p (c_w c)) as [[w' [p'|f]]|] eqn:Ec; simplify_eq. cbn [c_threads].
    rewrite <-(list_insert_id _ _ _ Hcl). apply Forall2_insert; [done|]. intros HP. specialize (Hfin HP).
    by destruct p.
  - destruct Hcalls as [->|(? & ? & _)]; [|done].
    destruct (kcapd_step k (c_w c)) as [[w' [f|]]|]; by simplify_eq.
  - by simplify_eq.
Qed.

(** A statement of [app_exit] leaves the state alone and adds events that are
    of no interest to pool, queue and port. *)
Lemma exit_stmt_ev x s t :
  ∃ x' ev, exit_stmt x k s t = (Ok x', s, t ++ ev) ∧ Forall neutral ev ∧ (∀ A, Forall (ev_ok A) ev).
Proof.
  destruct x; simpl; eexists _, _; (split; [first [reflexivity|unfold ret; by rewrite app_nil_r]|]);
    (split; [by repeat constructor|intros A; by repeat constructor]).
Qed.

Lemma exit_conc_inv c ev :
  Forall neutral ev → c_fault c = None → conc_inv k c →
  conc_inv k (with_w (upd (w_s (c_w c)) (w_t (c_w c) ++ ev) (c_w c)) c).
Proof.
  intros Hev Hf. unfold conc_inv, with_w. cbn [c_fault c_w c_threads]. rewrite Hf.
  intros (gs & Hok & Hsafe & Hans & Hcl). exists gs. split_and!; [by apply conc_other|done| |done].
  eapply answer_started, answer_later, Hans. by apply prefix_app_r.
Qed.

Lemma exit_ports c ev :
  (∀ A, Forall (ev_ok A) ev) → ports_inv k c → ports_inv k (with_w (upd (w_s (c_w c)) (w_t (c_w c) ++ ev) (c_w c)) c).
Proof.
  intros Hev [[[Hp Ht] Htk] Hth]. split; [|done]. split; cbn [c_w with_w upd w_s w_t w_kp w_calls].
  - split; [done|]. by apply Forall_app.
  - by rewrite taken_started.
Qed.

(** The thread's fault of this file: it runs on after the release. *)
Definition ran_on (u : unl) : Prop :=
  c_fault (u_c u) = Some (InKcapd, UseAfterFree) ∧ released (u_x u) = true.

Definition unl_inv (u : unl) : Prop :=
  ran_on u ∨
  conc_inv k (u_c u) ∧
  (c_fault (u_c u) = None →
   (u_x u ≠ XLoaded → idle is_command (u_c u)) ∧ (gone (u_x u) = true → idle is_hook (u_c u))).

Lemma idle_finished c : idle is_command c → idle is_hook c → Forall (λ p, finished p = true) (c_threads c).
Proof.
  unfold idle. generalize (w_calls (c_w c)). intros calls Hc. induction Hc as [|cl p cls ps Hp Hps IH]; [constructor|].
  intros [Hh Hhs]%Forall2_cons. constructor; [|by apply IH].
  unfold is_hook in Hh. destruct (is_command cl); [by apply Hp|by apply Hh].
Qed.

(** Once the module is gone no call can make a step. *)
Lemma gone_calls u i :
  unl_inv u → c_fault (u_c u) = None → gone (u_x u) = true → conc_step k (AThread i) (u_c u) = None.
Proof.
  intros [[Hf _]|[_ Hi]] Hn Hg; [by rewrite Hn in Hf|]. destruct (Hi Hn) as [Hc Hh].
  assert (u_x u ≠ XLoaded) as Hr by by destruct (u_x u).
  pose proof (idle_finished _ (Hc Hr) (Hh Hg)) as Hfin. unfold conc_step. rewrite Hn.
  destruct (c_threads (u_c u) !! i) as [p|] eqn:Hp; [|done].
  pose proof (Forall_lookup_1 _ _ _ _ Hfin Hp) as Hd. by destruct p.
Qed.

(** A step of calls and thread that is not one of the new faults. *)
Lemma mod_step_inv a u c' :
  unl_inv u → c_fault (u_c u) = None → conc_step k a (u_c u) = Some c' →
  (∀ cl, a = ACall cl → uk_calls uk (u_x u) cl = true) → unl_inv (MkUnl c' (u_x u)).
Proof.
  intros [[Hf _]|[Hinv Hi]] Hn E Ha; [by rewrite Hn in Hf|]. destruct (Hi Hn) as [Hc Hh]. right. cbn [u_c u_x].
  split; [eapply conc_step_inv; [done|by exists a|done]|]. intros Hf'.
  split; intros Hx; (eapply idle_step; [done|done|by auto|]); intros cl ->; specialize (Ha cl eq_refl);
    (destruct cl as [pkt|buf]; [|]); try done.
  - by rewrite (ul_command _ _ Huk _ buf Hx) in Ha.
  - destruct (u_x u); try done. by rewrite (ul_hook _ _ Huk pkt) in Ha.
Qed.

Lemma exit_step_inv u u' : c_fault (u_c u) = None → exit_step k uk u = Some u' → unl_inv u → unl_inv u'.
Proof.
  intros Hn E [[Hf _]|[Hinv Hi]]; [by rewrite Hn in Hf|]. destruct (Hi Hn) as [Hc Hh]. right.
  unfold exit_step in E. destruct (exit_ready uk (u_x u) (u_c u)) eqn:Hr; [|done].
  destruct (exit_stmt_ev (u_x u) (w_s (c_w (u_c u))) (w_t (c_w (u_c u)))) as (x' & ev & Es & Hev & _).
  pose proof Es as Ex. rewrite Es in E. simplify_eq. cbn [u_c u_x].
  split; [by apply exit_conc_inv|]. intros _. unfold idle in *. cbn [c_w c_threads with_w upd w_calls].
  unfold exit_stmt, bind, get, emit, ret in Ex. destruct (u_x u); injection Ex as <- _; simpl in *; [..|done].
  - pose proof (ul_remove _ _ Huk _ Hr). by split.
  - by split; [auto|].
  - pose proof (ul_unhooked _ _ Huk _ Hr). by split; [auto|].
Qed.

Lemma unl_step_inv : invariant_of (acts (unl_step k uk)) unl_inv.
Proof.
  intros u u' [a E] Hinv. unfold unl_step in E. destruct (c_fault (u_c u)) eqn:Hn; [done|]. destruct a as [a|].
  - destruct (conc_step k a (u_c u)) as [c'|] eqn:Ec; [|done]. cbn [mbind option_bind] in E.
    destruct a as [cl|i| |]; [destruct (uk_calls uk (u_x u) cl) eqn:Ha| | |]; simplify_eq.
    + eapply mod_step_inv; [done..|]. by intros cl' [= <-].
    + destruct (gone (u_x u)) eqn:Hg; [by rewrite (gone_calls u i Hinv Hn Hg) in Ec|]. by eapply mod_step_inv.
    + destruct (gone (u_x u) || released (u_x u) && at_unicast (c_w (u_c u))) eqn:Hb; [|by eapply mod_step_inv].
      left. split; [done|]. by destruct (u_x u), (at_unicast (c_w (u_c u))).
    + by eapply mod_step_inv.
  - by eapply exit_step_inv.
Qed.

Lemma unl_reachable s t u :
  app_init k cap_state0 [] = (Ok 0, s, t) → rtc (acts (unl_step k uk)) (MkUnl (conc0 s t) XLoaded) u → unl_inv u.
Proof.
  intros Hinit Hr. eapply rtc_invariant; [exact unl_step_inv|exact Hr|]. right. split; [by apply conc0_ok|].
  intros _. by split.
Qed.

(** No statement of the module calls [kthread_stop], so the thread never leaves
    its loop. *)
Definition unstopped (u : unl) : Prop := ports_inv k (u_c u) ∧ w_kp (c_w (u_c u)) ≠ Some KExit.

Lemma ports_unstopped c : ports_inv k c → EvKthreadStop ∉ w_t (c_w c).
Proof. intros [[[_ Ht] _] _] Hin. exact (proj1 (Forall_forall _ _) Ht _ Hin). Qed.

Lemma unstopped_step : invariant_of (acts (unl_step k uk)) unstopped.
Proof.
  intros u u' [a E] [Hp Hex]. unfold unl_step in E. destruct (c_fault (u_c u)) eqn:Hn; [done|]. destruct a as [a|].
  - destruct (conc_step k a (u_c u)) as [c'|] eqn:Ec; [|done].
    assert (unstopped (MkUnl c' (u_x u))) as Hc'.
    { split; [eapply ports_step; [by exists a|done]|]. eapply exits_step; [|exact Ec|done].
      destruct (k_should_stop k _) eqn:Hs; [|done]. apply (ul_stop _ _ Huk) in Hs. by apply ports_unstopped in Hs. }
    destruct a as [cl|i| |]; simpl in E; repeat (case_match; simplify_eq); by simplify_eq.
  - unfold exit_step in E. destruct (exit_ready uk (u_x u) (u_c u)); [|done].
    destruct (exit_stmt_ev (u_x u) (w_s (c_w (u_c u))) (w_t (c_w (u_c u)))) as (x' & ev & Es & _ & Hev).
    rewrite Es in E. simplify_eq.
    split; [by apply exit_ports|]. cbn. unfold kp_started. by repeat case_match.
Qed.

(** Awake, the thread can always make a step. *)
Lemma kcapd_awake w : is_Some (w_kp w) → w_kp w ≠ Some KExit → w_wait w = false → is_Some (kcapd_step k w).
Proof.
  intros [pc Hkp] Hex Hw. unfold kcapd_step. rewrite Hkp, Hw.
  destruct pc; try done; destruct (kcapd_stmt _ k (w_s w) (w_t w)) as [[[]]]; done.
Qed.

(** Anything that wakes the thread makes it run freed code. *)
Lemma gone_thread u :
  c_fault (u_c u) = None → gone (u_x u) = true → is_Some (w_kp (c_w (u_c u))) → w_kp (c_w (u_c u)) ≠ Some KExit →
  ∃ u1 u2, unl_step k uk (UMod ASpurious) u = Some u1 ∧ unl_step k uk (UMod AKcapd) u1 = Some u2 ∧ ran_on u2.
Proof.
  intros Hn Hg Hs Hex. unfold unl_step at 1, conc_step at 1. rewrite Hn. cbn [mbind option_bind].
  eexists _, _. split; [reflexivity|]. unfold unl_step, conc_step. cbn [u_c u_x c_fault c_w].
  match goal with |- context [kcapd_step k ?w] => destruct (kcapd_awake w Hs Hex eq_refl) as [[w' f] ->] end.
  rewrite Hg. destruct f; cbn [mbind option_bind orb]; (split; [reflexivity|]); (split; [done|]); by destruct (u_x u).
Qed.

(** With every call over, no lock is held. *)
Lemma idle_unlocked c :
  conc_inv k c → c_fault c = None → Forall (λ p, finished p = true) (c_threads c) → ∀ l, w_held (c_w c) l = false.
Proof.
  intros Hinv Hf Hfin l. unfold conc_inv in Hinv. rewrite Hf in Hinv. destruct Hinv as (gs & Hok & Hs & _).
  destruct (w_held (c_w c) l) eqn:Hl; [|done].
  destruct (holder _ _ _ (co_locks _ _ Hok) Hl) as (i & g & Hg & Hin).
  destruct (Forall2_lookup_l _ _ _ _ _ Hs Hg) as (p & Hp & Hsafe).
  pose proof (Forall_lookup_1 _ _ _ _ Hfin Hp) as Hd. destruct p; try done.
  destruct Hsafe as (_ & HL & _). rewrite HL in Hin. by apply elem_of_nil in Hin.
Qed.
End Invariant.

Section Claims.
Context `{NlmsgLaws} `{KListsLaws}.

(** The statements of [app_exit], one after the other, are the function. *)
Lemma app_exit_stmts :
  same (x <- exit_stmt XLoaded ;; x <- exit_stmt x ;; x <- exit_stmt x ;; ret tt) app_exit.
Proof. intros k s t. done. Qed.

End Claims.

(** ** Witnesses *)

(** A kernel that waits no longer than the laws ask for. *)
Definition demo_uk : unload_kernel := {|
  uk_remove c := bool_decide (idle is_command c);
  uk_unhooked c := bool_decide (idle is_hook c);
  uk_calls x cl := match cl with CallReceive _ => bool_decide (x = XLoaded) | CallHook _ => negb (gone x) end;
|}.

Lemma demo_uk_laws : unload_laws demo_kernel demo_uk.
Proof.
  split.
  - intros c Hc. by apply bool_decide_eq_true in Hc.
  - intros x buf Hx. by apply bool_decide_eq_false.
  - intros c Hc. by apply bool_decide_eq_true in Hc.
  - done.
  - done.
Qed.

Definition unl_at (l : list uactor) : unl :=
  sched (unl_step demo_kernel demo_uk) (λ n, default UExit (l !! n)) (length l) (MkUnl (conc0 demo_s0 demo_t0) XLoaded).

(** A client registers, its packet is sent and the module is unloaded. *)
Definition unload_acts : list uactor :=
  (UMod <$> [ACall (CallReceive demo_add)] ++ replicate 9 (AThread 0) ++
    [ACall (CallHook demo_pkt)] ++ mjoin (replicate 40 [AThread 1; AKcapd])) ++ replicate 3 UExit.


(** The released socket is used, too: the thread is stopped between taking
    the port and sending while the module is unloaded. *)
Example released_socket_used :
  c_fault (u_c (unl_at ((UMod <$> [ACall (CallReceive demo_add)] ++ replicate 9 (AThread 0) ++
    [ACall (CallHook demo_pkt)] ++ replicate 40 (AThread 1) ++ replicate 5 AKcapd) ++
    [UExit; UExit; UMod AKcapd]))) = Some (InKcapd, UseAfterFree).
Proof. vm_compute. reflexivity. Qed.
