(* ===== verification/Getopt.v ===== *)
(** * [getopt_long] of the C library

    What a loop over [getopt_long(argc, argv, short, long, NULL)] sees: the
    option characters with [optarg], one after the other, until -1.  Arguments
    that are not options are passed over, [--] ends the options, several short
    options may share a word, an argument may be attached or be the next word,
    and a long option may be shortened as long as it stays unique.  Strings are
    lists of bytes without their terminating zero. *)

From S2P Require Import Prelude.

(** [struct option] with a NULL flag: name, has_arg (0 or 1), val. *)
Record option_entry := MkOption { o_name : list Z; o_has_arg : bool; o_val : Z }.

(** One answer of [getopt_long] and the [optarg] it leaves. *)
Definition opt : Type := Z * option (list Z).

(** What [getopt_long] answers for an unknown, ambiguous or incomplete
    option. *)
Definition bad_opt : opt := (63, None).

(** The entry of a character in the string of short options: [Some true] when
    a colon follows. *)
Fixpoint short_lookup (short : list Z) (c : Z) : option bool :=
  match short with
  | [] => None
  | x :: short' =>
      if (x =? c) && negb (c =? 58)
      then Some (match short' with y :: _ => y =? 58 | [] => false end)
      else short_lookup short' c
  end.

(** The entries of the table a name stands for: the one it equals, or all
    that it is a beginning of. *)
Definition long_lookup (long : list option_entry) (name : list Z) : list option_entry :=
  match filter (λ o, o_name o = name) long with
  | o :: _ => [o]
  | [] => filter (λ o, name `prefix_of` o_name o) long
  end.

(** Split a word at its first [=]. *)
Fixpoint split_eq (w : list Z) : list Z * option (list Z) :=
  match w with
  | [] => ([], None)
  | c :: w' => if c =? 61 then ([], Some w') else let r := split_eq w' in (c :: r.1, r.2)
  end.

(** The answer for the word [--w] followed by [rest], and the words left. *)
Definition long_opt (long : list option_entry) (w : list Z) (rest : list (list Z)) : opt * list (list Z) :=
  let '(name, value) := split_eq w in
  match long_lookup long name with
  | [o] =>
      if o_has_arg o then
        match value, rest with
        | Some v, _ => ((o_val o, Some v), rest)
        | None, v :: rest' => ((o_val o, Some v), rest')
        | None, [] => (bad_opt, [])
        end
      else match value with Some _ => (bad_opt, rest) | None => ((o_val o, None), rest) end
  | _ => (bad_opt, rest)
  end.

(** The answers for a word of short options, and the words left. *)
Fixpoint short_opts (short : list Z) (w : list Z) (rest : list (list Z)) : list opt * list (list Z) :=
  match w with
  | [] => ([], rest)
  | c :: w' =>
      match short_lookup short c with
      | None => let r := short_opts short w' rest in (bad_opt :: r.1, r.2)
      | Some false => let r := short_opts short w' rest in ((c, None) :: r.1, r.2)
      | Some true =>
          match w', rest with
          | _ :: _, _ => ([(c, Some w')], rest)
          | [], v :: rest' => ([(c, Some v)], rest')
          | [], [] => ([bad_opt], [])
          end
      end
  end.

(** What kind of word an argument is. *)
Inductive word := WEnd | WLong (w : list Z) | WShort (w : list Z) | WOther.

Definition classify (a : list Z) : word :=
  match a with
  | c1 :: c2 :: w =>
      if negb (c1 =? 45) then WOther
      else if negb (c2 =? 45) then WShort (c2 :: w)
      else match w with [] => WEnd | _ => WLong w end
  | _ => WOther
  end.

(** All answers for the words after the program's name. *)
Fixpoint getopts (fuel : nat) (short : list Z) (long : list option_entry) (args : list (list Z)) : list opt :=
  match fuel, args with
  | O, _ | _, [] => []
  | S fuel, a :: rest =>
      match classify a with
      | WEnd => []
      | WLong w => let r := long_opt long w rest in r.1 :: getopts fuel short long r.2
      | WShort w => let r := short_opts short w rest in r.1 ++ getopts fuel short long r.2
      | WOther => getopts fuel short long rest
      end
  end.

Definition getopt_long (short : list Z) (long : list option_entry) (args : list (list Z)) : list opt :=
  getopts (length args) short long args.

(** ** Every word is looked at *)

Lemma long_opt_left long w rest : (length (long_opt long w rest).2 ≤ length rest)%nat.
Proof.
  unfold long_opt. destruct (split_eq w) as [name value].
  destruct (long_lookup long name) as [|o [|]]; simpl; [lia| |lia].
  destruct (o_has_arg o), value, rest; simpl; lia.
Qed.

Lemma short_opts_left short w rest : (length (short_opts short w rest).2 ≤ length rest)%nat.
Proof.
  induction w as [|c w IH]; simpl; [lia|]. destruct (short_lookup short c) as [[]|]; simpl; [|done..].
  destruct w, rest; simpl; lia.
Qed.

(** The bound on the loop is enough: more of it changes nothing. *)
Lemma getopts_enough fuel short long args :
  (length args ≤ fuel)%nat → getopts fuel short long args = getopt_long short long args.
Proof.
  unfold getopt_long. remember (length args) as n eqn:Hn. revert fuel args Hn.
  induction n as [n IH] using lt_wf_ind. intros fuel args Hn Hf.
  destruct args as [|a rest]; simpl in Hn; subst n; [by destruct fuel|]. destruct fuel as [|fuel]; [lia|]. simpl in *.
  assert (∀ r, (length r ≤ length rest)%nat → getopts fuel short long r = getopts (length rest) short long r) as E.
  { intros r Hr. rewrite (IH (length r)) by (done || lia). symmetry. by apply IH; [lia|..]. }
  destruct (classify a) as [|w|w|]; [done|f_equal; apply E, long_opt_left|f_equal; apply E, short_opts_left|by apply E].
Qed.

Lemma getopt_cons short long a rest :
  getopt_long short long (a :: rest) =
    match classify a with
    | WEnd => []
    | WLong w => let r := long_opt long w rest in r.1 :: getopt_long short long r.2
    | WShort w => let r := short_opts short w rest in r.1 ++ getopt_long short long r.2
    | WOther => getopt_long short long rest
    end.
Proof.
  unfold getopt_long at 1. simpl. destruct (classify a) as [|w|w|]; try done; simpl; f_equal;
    apply getopts_enough; [apply long_opt_left|apply short_opts_left].
Qed.

(** ** What the answers look like *)

(** Options that take an argument come with one, others without. *)
Definition answer (short : list Z) (long : list option_entry) (o : opt) : Prop :=
  o = bad_opt ∨
  (∃ b, short_lookup short o.1 = Some b ∧ (b = true ↔ is_Some o.2)) ∨
  (∃ e, e ∈ long ∧ o_val e = o.1 ∧ (o_has_arg e = true ↔ is_Some o.2)).

Lemma long_lookup_in long name o : o ∈ long_lookup long name → o ∈ long.
Proof.
  unfold long_lookup. destruct (filter (λ o, o_name o = name) long) as [|e es] eqn:E.
  - intros Hin. by apply list_elem_of_filter in Hin as [_ ?].
  - intros ->%list_elem_of_singleton. assert (e ∈ filter (λ o, o_name o = name) long) as Hin by (rewrite E; by left).
    by apply list_elem_of_filter in Hin as [_ ?].
Qed.

Lemma answer_has (b : bool) (v : list Z) : b = true → (b = true ↔ is_Some (Some v)).
Proof. intros ->. split; by eauto. Qed.

Lemma answer_no (b : bool) : b = false → (b = true ↔ is_Some (@None (list Z))).
Proof. intros ->. split; [done|by intros [??]]. Qed.

Lemma long_opt_answer short long w rest : answer short long (long_opt long w rest).1.
Proof.
  unfold long_opt. destruct (split_eq w) as [name value].
  destruct (long_lookup long name) as [|o [|]] eqn:E; [by left| |by left].
  assert (o ∈ long) as Hin by (apply (long_lookup_in long name); rewrite E; by left).
  destruct (o_has_arg o) eqn:Ha, value as [v|], rest as [|v' rest]; simpl; try (by left);
    right; right; exists o; (split_and!; [done|done|]); simpl; by first [apply answer_has|apply answer_no].
Qed.

Lemma short_opts_answer short long w rest : Forall (answer short long) (short_opts short w rest).1.
Proof.
  induction w as [|c w IH]; simpl; [done|]. destruct (short_lookup short c) as [[]|] eqn:E; simpl.
  - destruct w as [|c' w], rest as [|v rest]; simpl; apply Forall_singleton; try (by left);
      right; left; exists true; simpl; (split; [done|]); by apply answer_has.
  - constructor; [|done]. right; left. exists false. split; [done|]. by apply answer_no.
  - constructor; [by left|done].
Qed.

Lemma getopt_answers short long args : Forall (answer short long) (getopt_long short long args).
Proof.
  remember (length args) as n eqn:Hn. revert args Hn. induction n as [n IH] using lt_wf_ind.
  intros [|a rest] Hn; [constructor|]. simpl in Hn. subst n. rewrite getopt_cons.
  destruct (classify a) as [|w|w|]; simpl.
  - constructor.
  - pose proof (long_opt_left long w rest). constructor; [apply long_opt_answer|]. by eapply IH; [|done]; lia.
  - pose proof (short_opts_left short w rest). apply Forall_app. split; [apply short_opts_answer|]. by eapply IH; [|done]; lia.
  - by eapply IH; [|done]; lia.
Qed.
