(* ===== verification/Netctrl.v ===== *)
(** * The command receiver [src/netctrl/netctrl.c] (with [netctrl.h])

    Commands arrive as netlink messages whose payload is a [struct msg_buf]
    followed by a [struct auth_ip], [auth_port] or [auth_id]; the handlers
    print what they received, which is the module's observable effect. *)

From S2P Require Import Prelude Bytes Nlmsg.

Definition NETCTRL_AUTH_IP : Z := 1.
Definition NETCTRL_AUTH_PORT : Z := 2.
Definition NETCTRL_AUTH_ID : Z := 3.

(** Sizes of [struct msg_buf], [struct auth_ip] and the two [int] structures. *)
Definition MSG_BUF_SIZE : nat := 4.
Definition AUTH_IP_SIZE : nat := 32.
Definition AUTH_INT_SIZE : nat := 4.

Definition NF_ACCEPT : Z := 1.
Definition PF_INET : Z := 2.
Definition PF_BRIDGE : Z := 7.

(** The registered hooks: protocol family, hook point, priority and the
    hook's verdict on a packet. *)
Record nf_hook := MkHook { hk_pf : Z; hk_num : Z; hk_prio : Z; hk_fun : list Z → Z }.

Definition netctrl_hook_local_out (skb : list Z) : Z := NF_ACCEPT.
Definition netctrl_hook_pre_routing (skb : list Z) : Z := NF_ACCEPT.
Definition netctrl_hook_post_routing (skb : list Z) : Z := NF_ACCEPT.
Definition bridge_hook_pre_routing (skb : list Z) : Z := NF_ACCEPT.

(** Priorities [NF_BR_PRI_FIRST] and [NF_IP_PRI_FIRST] are [INT_MIN]. *)
Definition netctrl_hooks : list nf_hook :=
  [MkHook PF_BRIDGE 0 (- 2 ^ 31) bridge_hook_pre_routing;
   MkHook PF_INET 3 (- 2 ^ 31) netctrl_hook_local_out;
   MkHook PF_INET 0 (- 2 ^ 31) netctrl_hook_pre_routing;
   MkHook PF_INET 4 (- 2 ^ 31) netctrl_hook_post_routing].

(** ** Effects *)

Inductive netctrl_ev :=
| EvMsgType (type : Z) (name : string)   (* printk of the message type *)
| EvAuthIp (ip : list Z)                 (* printk of the handlers *)
| EvAuthPort (port : Z)
| EvAuthId (id : Z)
| EvKzalloc (n : Z) (ok : bool)
| EvNcAck (h : nlmsghdr) (err : Z)
| EvNcCreate (sock : option Z)
| EvNcRelease (sock : option Z)
| EvRegisterHooks (hooks : list nf_hook) (ret : Z)
| EvUnregisterHooks (hooks : list nf_hook).

Record netctrl_kernel := {
  nk_kzalloc : list netctrl_ev → Z → bool;
  nk_create : list netctrl_ev → option Z;
  nk_register_hooks : list netctrl_ev → list nf_hook → Z;
}.

(** The only global is the socket. *)
Definition netctrl_state : Type := option Z.

Definition NM (A : Type) : Type := M netctrl_kernel netctrl_state netctrl_ev A.

(** ** Command handlers *)

Definition type2string (cmdtype : Z) : string :=
  if cmdtype =? NETCTRL_AUTH_IP then "NETCTRL_AUTH_IP"
  else if cmdtype =? NETCTRL_AUTH_PORT then "NETCTRL_AUTH_PORT"
  else if cmdtype =? NETCTRL_AUTH_ID then "NETCTRL_AUTH_ID"
  else "unknown msg type".

(** [ip] is the memory from [ip->ip] to the end of its object: the string is
    printed up to its first NUL. *)
Definition netctrl_auth_ip (ip : list Z) : NM Z :=
  s <- index (cstr ip) ;; emit (EvAuthIp s) ;; ret 0.

Definition netctrl_auth_port (port : list Z) : NM Z :=
  v <- index (field 0 4 port) ;; emit (EvAuthPort (s32 v)) ;; ret 0.

Definition netctrl_auth_id (id : list Z) : NM Z :=
  v <- index (field 0 4 id) ;; emit (EvAuthId (s32 v)) ;; ret 0.

(** [buf] is the copied message, [None] for a null pointer. *)
Definition netctrl_proc_msg (buf : option (list Z)) (unipid : Z) : NM Z :=
  match buf with
  | None => ret (-1)
  | Some buf =>
      msg_type <- index (field 0 2 buf) ;;
      let data := drop MSG_BUF_SIZE buf in
      if msg_type =? NETCTRL_AUTH_IP then netctrl_auth_ip data
      else if msg_type =? NETCTRL_AUTH_PORT then netctrl_auth_port data
      else if msg_type =? NETCTRL_AUTH_ID then netctrl_auth_id data
      else ret 0
  end.

Definition netctrl_netlink_ok (msg_type : Z) : NM Z :=
  emit (EvMsgType msg_type (type2string msg_type)) ;;
  if (msg_type =? NETCTRL_AUTH_IP) || (msg_type =? NETCTRL_AUTH_PORT) || (msg_type =? NETCTRL_AUTH_ID)
  then ret 0 else ret (- EINVAL).

Section Receive.
Context `{NlmsgApi}.

(** [datalen = nlh->nlmsg_len - NLMSG_SPACE(0) + NLMSG_ALIGNTO], an [int]. *)
Definition netctrl_datalen (h : nlmsghdr) : Z :=
  s32 (u32 (nlmsg_len h - NLMSG_SPACE 0 + NLMSG_ALIGNTO)).

(** [nlh] is the memory from the header to the end of the buffer's data area;
    the copy is taken from behind the header and is never freed. *)
Definition netctrl_receive_msg (nlh : list Z) (h : nlmsghdr) : NM Z :=
  err <- netctrl_netlink_ok (nlmsg_type h) ;;
  if negb (err =? 0) then ret err else
  let pid := s32 (nlmsg_pid h) in
  let datalen := netctrl_datalen h in
  ok <- kcall (λ k t, nk_kzalloc k t datalen) (EvKzalloc datalen) ;;
  if negb ok then ret (- ENOMEM) else
  data <- index (slice 16 (Z.to_nat datalen) nlh) ;;
  netctrl_proc_msg (Some data) pid ;;
  ret 0.

(** [mem] is the data area of the socket buffer, [len] is [skb->len]: the
    bytes behind [len] are the buffer's tail room. *)
Definition netctrl_receive_skb (mem : list Z) (len : Z) : NM Z :=
  nlmsg_walk EvNcAck netctrl_receive_msg (S (Z.to_nat len)) mem 0 len ;;
  ret 0.

(** [netctrl_receive] runs it under [netctrl_mutex]. *)
Definition netctrl_receive (mem : list Z) (len : Z) : NM unit :=
  netctrl_receive_skb mem len ;; ret tt.
End Receive.

(** ** Load and unload *)

Definition netctrl_hooks_init : NM Z :=
  kcall (λ k t, nk_register_hooks k t netctrl_hooks) (EvRegisterHooks netctrl_hooks).

Definition netctrl_init : NM Z :=
  sock <- kcall nk_create EvNcCreate ;;
  modify (λ _, sock) ;;
  match sock with
  | None => ret (- ENOMEM)
  | Some _ => netctrl_hooks_init ;; ret 0
  end.

Definition netctrl_exit : NM unit :=
  sock <- get (λ s, s) ;;
  emit (EvNcRelease sock) ;;
  emit (EvUnregisterHooks netctrl_hooks).
