(* ===== verification/NetctrlApp.v ===== *)
(** * The command-line client [src/netctrl/app.c]

    [main] parses the options into the global [g_sys_cmd], which is then
    encoded as a netlink message and sent.  The operating system ([socket],
    [bind], [sendmsg], [getpid], [calloc]) is the record [app_os]; the command
    line is split into options by [getopt_long] ([Getopt]). *)

From S2P Require Import Prelude Bytes Nlmsg Getopt.

Definition NETCTRL_AUTH_IP : Z := 1.
Definition NETCTRL_AUTH_PORT : Z := 2.
Definition NETCTRL_AUTH_ID : Z := 3.

Definition MAX_MSGSIZE : Z := 2048.
Definition NETLINK_USERSOCK : Z := 2.

(** [struct syscmd]: the union holds the member last stored. *)
Inductive sc_union := UData (data : Z) | UPdata (pdata : list Z).
Record syscmd := MkCmd { sc_type : Z; sc_arg : sc_union }.

Inductive app_ev :=
| EvUsage
| EvUnknown                         (* "unknown command" or parameter *)
| EvSocket (proto fd : Z)
| EvBind (fd ret : Z)
| EvCalloc (n : Z) (ok : bool)
| EvSendmsg (fd : Z) (bytes : list Z) (ret : Z)
| EvClose (fd : Z)
| EvSendError.                      (* "send msg to kernel errro" *)

Record app_os := {
  os_socket : list app_ev → Z → Z;
  os_bind : list app_ev → Z → Z;
  os_calloc : list app_ev → Z → bool;
  os_sendmsg : list app_ev → Z → list Z → Z;
  os_getpid : Z;
}.

Definition AM (A : Type) : Type := M app_os syscmd app_ev A.

(** ** [atoi]: leading white space, a sign, decimal digits *)

Definition is_space (c : Z) : bool := (c =? 32) || ((9 <=? c) && (c <=? 13)).
Definition is_digit (c : Z) : bool := (48 <=? c) && (c <=? 57).

Fixpoint skip_space (s : list Z) : list Z :=
  match s with c :: s' => if is_space c then skip_space s' else s | [] => [] end.

Fixpoint digits (acc : Z) (s : list Z) : Z :=
  match s with
  | c :: s' => if is_digit c then digits (10 * acc + (c - 48)) s' else acc
  | [] => acc
  end.

Definition atoi (s : list Z) : Z :=
  s32 (match skip_space s with
       | c :: s' => if c =? 45 then - digits 0 s' else if c =? 43 then digits 0 s' else digits 0 (c :: s')
       | [] => 0
       end).

(** ** Sending *)

Section Send.
Context `{NlmsgApi}.

(** The two exits after [socket] share [clean_none]: close, then free. *)
Definition send_msg_to_kernel (buf : list Z) (module : Z) : AM Z :=
  let buflen := Z.of_nat (length buf) in
  if MAX_MSGSIZE <=? buflen then ret (-1) else
  sockfd <- kcall (λ k t, os_socket k t module) (EvSocket module) ;;
  if sockfd <? 0 then ret (-1) else
  r <- kcall (λ k t, os_bind k t sockfd) (EvBind sockfd) ;;
  if r <? 0 then emit (EvClose sockfd) ;; ret r else
  let size := NLMSG_SPACE MAX_MSGSIZE in
  ok <- kcall (λ k t, os_calloc k t size) (EvCalloc size) ;;
  if negb ok then crash NullDeref else
  nl <- index (splice 16 buf (replicate (Z.to_nat size) 0)) ;;
  type <- index (field 0 2 buf) ;;
  pid <- kpure os_getpid ;;
  let h := MkHdr (NLMSG_LENGTH buflen) type 0 0 (u32 pid) in
  nl <- index (splice 0 (enc_hdr h) nl) ;;
  iov <- index (slice 0 (Z.to_nat (nlmsg_len h)) nl) ;;
  r <- kcall (λ k t, os_sendmsg k t sockfd iov) (EvSendmsg sockfd iov) ;;
  emit (EvClose sockfd) ;;
  ret r.

(** [struct msg_buf] with its data. *)
Definition msg_buf (operation : Z) (buf : list Z) : list Z :=
  le_enc 2 (u16 operation) ++ le_enc 2 (u16 (Z.of_nat (length buf))) ++ buf.

Definition auth_kernel_config_cmd (operation : Z) (buf : list Z) : AM Z :=
  let msglen := u32 (4 + Z.of_nat (length buf)) in
  ok <- kcall (λ k t, os_calloc k t msglen) (EvCalloc msglen) ;;
  if negb ok then ret (-1) else
  r <- send_msg_to_kernel (msg_buf operation buf) NETLINK_USERSOCK ;;
  (when (r <=? 0) do emit EvSendError) ;;
  ret 0.

(** ** Commands *)

(** The structures a command's argument is sent in. *)
Definition local_id (id : Z) : list Z := le_enc 4 (u32 id).
Definition local_ip (ip : list Z) : list Z := strncpy ip 32.
Definition local_port (port : Z) : list Z := le_enc 4 (u32 port).

Definition get_data (c : syscmd) : AM Z :=
  match sc_arg c with UData d => ret d | UPdata _ => crash WrongMember end.

Definition get_pdata (c : syscmd) : AM (list Z) :=
  match sc_arg c with UPdata s => ret s | UData _ => crash WrongMember end.

Definition syscmd_set_auth_port (c : syscmd) : AM Z :=
  d <- get_data c ;; auth_kernel_config_cmd (sc_type c) (local_port d).

Definition syscmd_set_auth_ip (c : syscmd) : AM Z :=
  s <- get_pdata c ;; auth_kernel_config_cmd (sc_type c) (local_ip s).

Definition syscmd_set_auth_id (c : syscmd) : AM Z :=
  d <- get_data c ;; auth_kernel_config_cmd (sc_type c) (local_id d).

Definition syscmd_proc (c : syscmd) : AM Z :=
  (if sc_type c =? NETCTRL_AUTH_IP then syscmd_set_auth_ip c
   else if sc_type c =? NETCTRL_AUTH_PORT then syscmd_set_auth_port c
   else if sc_type c =? NETCTRL_AUTH_ID then syscmd_set_auth_id c
   else emit EvUnknown ;; ret 0) ;;
  ret 0.

(** ** Options *)

Definition long_options : list option_entry :=
  [MkOption (chars "ip") true 105; MkOption (chars "id") true 100;
   MkOption (chars "help") false 104; MkOption (chars "port") true 112].

Definition short_options : list Z := chars "hi:p:d:".

Definition usage : AM unit := emit EvUsage.

(** The body of the loop, for the answers of [getopt_long] in turn. *)
Fixpoint syscmd_parse_loop (opts : list opt) (r : Z) : AM Z :=
  match opts with
  | [] => ret r
  | (c, None) :: _ => ret (-1)
  | (c, Some optarg) :: opts =>
      if c =? 104 then usage ;; syscmd_parse_loop opts (-1)           (* 'h' *)
      else if c =? 100 then                                                  (* 'd' *)
        modify (λ _, MkCmd NETCTRL_AUTH_ID (UData (atoi optarg))) ;; syscmd_parse_loop opts r
      else if c =? 112 then                                                  (* 'p' *)
        modify (λ _, MkCmd NETCTRL_AUTH_PORT (UData (atoi optarg))) ;; syscmd_parse_loop opts r
      else if c =? 105 then                                                  (* 'i' *)
        modify (λ _, MkCmd NETCTRL_AUTH_IP (UPdata optarg)) ;; syscmd_parse_loop opts r
      else emit EvUnknown ;; syscmd_parse_loop opts (-1)
  end.

Definition syscmd_parse_args (argv : list (list Z)) : AM Z :=
  syscmd_parse_loop (getopt_long short_options long_options (tail argv)) 0.

Definition main (argv : list (list Z)) : AM Z :=
  if Z.of_nat (length argv) <=? 1 then usage ;; ret 0 else
  r <- syscmd_parse_args argv ;;
  if negb (r =? 0) then usage ;; ret 0 else
  c <- get (λ s, s) ;;
  syscmd_proc c ;;
  ret 0.
End Send.

(** [g_sys_cmd] at program start. *)
Definition g_sys_cmd0 : syscmd := MkCmd 0 (UData 0).
