(* ===== verification/NetctrlE2E.v ===== *)
(** * netctrl end to end: client and kernel module together

    What [src/netctrl/app.c] encodes is what [src/netctrl/netctrl.c] decodes,
    and where the two disagree about the length of what they exchange. *)

From S2P Require Import Prelude Bytes Nlmsg Getopt Netctrl NetctrlApp.

(** ** The contract: a request *)

Inductive request := ReqIp (ip : list Z) | ReqPort (port : Z) | ReqId (id : Z).

Definition long_names : list (Z * list Z) :=
  [(105, chars "ip"); (100, chars "id");
   (112, chars "p"); (112, chars "po"); (112, chars "por"); (112, chars "port")].

(** What an option of the command line asks for. *)
Definition request_of (o : opt) : option request :=
  match o with
  | (c, Some s) =>
      if c =? 100 then Some (ReqId (atoi s))
      else if c =? 112 then Some (ReqPort (atoi s))
      else if c =? 105 then Some (ReqIp s) else None
  | (_, None) => None
  end.

(** The words that give one option: argument in the next word or attached,
    short or long name, the long name possibly shortened. *)
Inductive spells : opt → list (list Z) → Prop :=
| spell_short c s : c ∈ chars "ipd" → spells (c, Some s) [[45; c]; s]
| spell_attached c s : c ∈ chars "ipd" → s ≠ [] → spells (c, Some s) [45 :: c :: s]
| spell_long c name s : (c, name) ∈ long_names → spells (c, Some s) [45 :: 45 :: name; s]
| spell_equals c name s : (c, name) ∈ long_names → spells (c, Some s) [45 :: 45 :: name ++ 61 :: s].

(** Its type, its payload and what the kernel prints for it. *)
Definition req_type (r : request) : Z :=
  match r with ReqIp _ => 1 | ReqPort _ => 2 | ReqId _ => 3 end.

Definition req_data (r : request) : list Z :=
  match r with ReqIp s => strncpy s 32 | ReqPort z | ReqId z => le_enc 4 (u32 z) end.

Definition req_ev (r : request) : netctrl_ev :=
  match r with ReqIp s => EvAuthIp s | ReqPort z => EvAuthPort z | ReqId z => EvAuthId z end.

Definition req_cmd (r : request) : syscmd :=
  MkCmd (req_type r) (match r with ReqIp s => UPdata s | ReqPort z | ReqId z => UData z end).

Definition req_msg (r : request) : list Z := msg_buf (req_type r) (req_data r).

(** The string fits its 32-byte field with the terminating NUL; the number is
    an [int]. *)
Definition req_ok (r : request) : Prop :=
  match r with
  | ReqIp s => no_nul s ∧ (length s < 32)%nat
  | ReqPort z | ReqId z => - 2 ^ 31 ≤ z < 2 ^ 31
  end.

Lemma length_req_data r : length (req_data r) = match r with ReqIp _ => 32%nat | _ => 4%nat end.
Proof. destruct r; simpl; rewrite ?length_strncpy, ?length_le_enc by lia; done. Qed.

Lemma length_req_msg r : length (req_msg r) = (4 + length (req_data r))%nat.
Proof. unfold req_msg, msg_buf. rewrite !length_app, !length_le_enc by lia. done. Qed.

Lemma req_msg_type r rest : field 0 2 (req_msg r ++ rest) = Some (req_type r).
Proof.
  unfold req_msg, msg_buf. rewrite <-!app_assoc, u16_small by (destruct r; simpl; lia).
  apply field_front; [done|lia|destruct r; simpl; lia].
Qed.

Lemma req_msg_data r rest : drop MSG_BUF_SIZE (req_msg r ++ rest) = req_data r ++ rest.
Proof.
  unfold req_msg, msg_buf. rewrite (app_assoc _ _ (req_data r)), <-app_assoc.
  apply drop_app_length'. rewrite length_app, !length_le_enc by lia. done.
Qed.

Section EndToEnd.
Context `{NlmsgLaws}.

(** ** The client's side *)

(** A system in which the calls succeed. *)
Record os_ok (os : app_os) : Prop := {
  ok_socket : ∀ t p, 0 ≤ os_socket os t p;
  ok_bind : ∀ t fd, 0 ≤ os_bind os t fd;
  ok_calloc : ∀ t n, os_calloc os t n = true;
}.

(** The header the client writes for a payload. *)
Definition app_hdr (os : app_os) (type : Z) (buf : list Z) : nlmsghdr :=
  MkHdr (NLMSG_LENGTH (Z.of_nat (length buf))) type 0 0 (u32 (os_getpid os)).

Lemma space_max : NLMSG_SPACE MAX_MSGSIZE = 2064.
Proof. by apply align_unique. Qed.

Lemma send_msg_to_kernel_ok os buf type module c t :
  os_ok os → field 0 2 buf = Some type → Z.of_nat (length buf) < MAX_MSGSIZE →
  ∃ fd r t1 t2, send_msg_to_kernel buf module os c t =
    (Ok r, c, t ++ t1 ++ EvSendmsg fd (enc_hdr (app_hdr os type buf) ++ buf) r :: t2).
Proof.
  intros [Hsock Hbind Hcalloc] Htype Hlen. unfold send_msg_to_kernel.
  destruct (MAX_MSGSIZE <=? _) eqn:?; zbool; [lia|].
  erewrite bind_ok by reflexivity. set (fd := os_socket _ _ _).
  destruct (fd <? 0) eqn:?; zbool; [assert (0 ≤ fd) by apply Hsock; lia|].
  erewrite bind_ok by reflexivity. set (b := os_bind _ _ _).
  destruct (b <? 0) eqn:?; zbool; [assert (0 ≤ b) by apply Hbind; lia|].
  erewrite bind_ok by reflexivity. rewrite Hcalloc, space_max. change (negb true) with false; change (negb (0 =? 0)) with false; cbv iota.
  unfold MAX_MSGSIZE in *. set (mem := replicate (Z.to_nat 2064) 0).
  assert (length mem = 2064%nat) as Hmem by apply length_replicate.
  assert (splice 16 buf mem = Some (take 16 mem ++ buf ++ drop (16 + length buf) mem)) as ->.
  { unfold splice. by rewrite decide_True by lia. }
  erewrite bind_ok by reflexivity. rewrite Htype. erewrite bind_ok by reflexivity.
  erewrite bind_ok by reflexivity. fold (app_hdr os type buf).
  assert (splice 0 (enc_hdr (app_hdr os type buf)) (take 16 mem ++ buf ++ drop (16 + length buf) mem) =
    Some (enc_hdr (app_hdr os type buf) ++ buf ++ drop (16 + length buf) mem)) as ->.
  { unfold splice. rewrite length_enc_hdr, decide_True by (rewrite !length_app, length_take; lia).
    rewrite take_0, app_nil_l. change (0 + 16)%nat with 16%nat.
    by rewrite drop_app_length' by (rewrite length_take; lia). }
  erewrite bind_ok by reflexivity. rewrite app_assoc, slice_0_app.
  2: { rewrite length_app, length_enc_hdr. simpl. unfold NLMSG_LENGTH, NLMSG_HDRLEN. lia. }
  do 3 (erewrite bind_ok by reflexivity). eexists fd, _, [_; _; _], [_].
  unfold ret. by rewrite <-!app_assoc.
Qed.

(** ** The command line *)

(** [getopt_long] understands every spelling. *)
Lemma spells_getopt o args : spells o args → getopt_long short_options long_options args = [o].
Proof.
  intros [c s Hc|c s Hc Hs|c name s Hc|c name s Hc].
  2: destruct s as [|x s]; [done|].
  1,2: repeat (apply elem_of_cons in Hc as [->|Hc]; [reflexivity|]); by apply elem_of_nil in Hc.
  all: repeat (apply elem_of_cons in Hc as [[= -> ->]|Hc]; [reflexivity|]); by apply elem_of_nil in Hc.
Qed.

(** The options the program gets: those that ask for something, and those
    without an argument, at which it stops. *)
Lemma app_answers args :
  Forall (λ o : opt, is_Some (request_of o) ∨ o.2 = None) (getopt_long short_options long_options args).
Proof.
  assert (∀ c b, short_lookup short_options c = Some b →
    b = true ∧ (c = 105 ∨ c = 112 ∨ c = 100) ∨ b = false) as Hshort.
  { intros c b. change short_options with [104; 105; 58; 112; 58; 100; 58]. cbn [short_lookup].
    destruct (Z.eq_dec c 58) as [->|Hc]; [done|]. rewrite (proj2 (Z.eqb_neq c 58) Hc). cbn [negb].
    repeat (destruct (_ =? c) eqn:E; zbool; [subst; cbn; intros [= <-]; tauto|cbn [andb]; clear E]). done. }
  assert (∀ c v, c = 105 ∨ c = 112 ∨ c = 100 → is_Some (request_of (c, Some v))) as Hreq.
  { intros c v [->|[->| ->]]; by eexists. }
  eapply Forall_impl; [apply getopt_answers|]. intros [c [v|]] Ha; [left|by right].
  destruct Ha as [[=]|[(b & Hb & Hv)|(e & He & Hval & Hv)]]; simpl in *.
  - destruct (Hshort c b Hb) as [[_ Hc]| ->]; [by apply Hreq|]. assert (false = true) by (apply Hv; by eexists). done.
  - apply Hreq. rewrite <-Hval. assert (o_has_arg e = true) as Harg by (apply Hv; by eexists). clear Hval Hv.
    repeat (apply elem_of_cons in He as [->|He]; [simpl in *; tauto || done|]). by apply elem_of_nil in He.
Qed.

(** Options that ask for something: the last one wins. *)
Lemma parse_loop_good opts n os c t :
  Forall (λ o, is_Some (request_of o)) opts →
  syscmd_parse_loop opts n os c t = (Ok n, foldl (λ c o, from_option req_cmd c (request_of o)) c opts, t).
Proof.
  intros Hopts. revert c. induction Hopts as [|[ch [s|]] opts Ho _ IH]; intros c; [done| |by destruct Ho].
  cbn [foldl]. rewrite <-IH. unfold request_of in Ho |- *. cbn [syscmd_parse_loop].
  destruct (ch =? 104) eqn:Hh; zbool; [subst; by destruct Ho|].
  destruct (ch =? 100); [done|]. destruct (ch =? 112); [done|]. destruct (ch =? 105); [done|by destruct Ho].
Qed.

(** One without an argument ends the loop with an error. *)
Lemma parse_loop_bad pre o post n os c t :
  Forall (λ o, is_Some (request_of o)) pre → o.2 = None →
  ∃ c', syscmd_parse_loop (pre ++ o :: post) n os c t = (Ok (-1), c', t).
Proof.
  intros Hpre Ho. revert c. induction Hpre as [|[ch [s|]] pre Hp _ IH]; intros c; [| |by destruct Hp].
  { destruct o as [ch [v|]]; [done|]. by eexists. }
  unfold request_of in Hp. cbn [app syscmd_parse_loop].
  destruct (ch =? 104) eqn:Hh; zbool; [subst; by destruct Hp|].
  destruct (ch =? 100); [apply IH|]. destruct (ch =? 112); [apply IH|]. destruct (ch =? 105); [apply IH|by destruct Hp].
Qed.

(** When the last of the options is [o], [main] sends its request. *)
Lemma main_sends os opts o r c t prog args :
  os_ok os → getopt_long short_options long_options args = opts ++ [o] →
  Forall (λ o, is_Some (request_of o)) opts → request_of o = Some r →
  ∃ fd n t1 t2 c', main (prog :: args) os c t =
    (Ok 0, c', t ++ t1 ++ EvSendmsg fd (enc_hdr (app_hdr os (req_type r) (req_msg r)) ++ req_msg r) n :: t2).
Proof.
  intros Hos Hargs Hopts Hreq. unfold main. destruct (_ <=? 1) eqn:Hargc; zbool.
  { destruct args as [|a args]; [by destruct opts|]. simpl in Hargc. lia. }
  assert (syscmd_parse_args (prog :: args) os c t = (Ok 0, req_cmd r, t)) as Ep.
  { unfold syscmd_parse_args. cbn [tail]. rewrite Hargs, parse_loop_good by (apply Forall_app; by eauto).
    by rewrite foldl_snoc, Hreq. }
  mrun Ep. change (negb true) with false; change (negb (0 =? 0)) with false; cbv iota. erewrite bind_ok by reflexivity.
  destruct (send_msg_to_kernel_ok os (req_msg r) (req_type r) NETLINK_USERSOCK (req_cmd r)
    (t ++ [EvCalloc (u32 (4 + Z.of_nat (length (req_data r)))) true])) as (fd & n & t1 & t2 & Es); [done|..].
  { rewrite <-(app_nil_r (req_msg r)). apply req_msg_type. }
  { rewrite length_req_msg, length_req_data. unfold MAX_MSGSIZE. destruct r; lia. }
  assert (∃ t3, auth_kernel_config_cmd (req_type r) (req_data r) os (req_cmd r) t =
    (Ok 0, req_cmd r, t ++ (EvCalloc (u32 (4 + Z.of_nat (length (req_data r)))) true :: t1) ++
      EvSendmsg fd (enc_hdr (app_hdr os (req_type r) (req_msg r)) ++ req_msg r) n :: (t2 ++ t3))) as [t3 Ea].
  { unfold auth_kernel_config_cmd. cbv zeta. erewrite bind_ok by reflexivity. rewrite !(ok_calloc os Hos).
    change (negb true) with false; change (negb (0 =? 0)) with false; cbv iota. fold (req_msg r). mrun Es. exists (if n <=? 0 then [EvSendError] else []).
    destruct (n <=? 0); [erewrite bind_ok by reflexivity|rewrite app_nil_r; erewrite bind_ok by reflexivity];
      unfold ret; rewrite <-!app_assoc; simpl; by rewrite <-?app_assoc. }
  eexists fd, n, _, _, (req_cmd r). unfold syscmd_proc.
  destruct r as [s|z|z]; cbn [req_cmd req_type sc_type] in *; simpl (_ =? _); cbv iota;
    rewrite bind_assoc; unfold syscmd_set_auth_ip, syscmd_set_auth_port, syscmd_set_auth_id;
    erewrite bind_ok; [|erewrite bind_ok by reflexivity; exact Ea| |erewrite bind_ok by reflexivity; exact Ea|
      |erewrite bind_ok by reflexivity; exact Ea]; reflexivity.
Qed.

(** ** The kernel's side *)

Lemma space_0 : NLMSG_SPACE 0 = 16.
Proof. by apply align_unique. Qed.

(** The copy takes four bytes more than the message has. *)
Lemma netctrl_datalen_eq h p :
  nlmsg_wf (h, p) → Z.of_nat (length p) < 2 ^ 31 - 4 →
  netctrl_datalen h = Z.of_nat (length p) + 4.
Proof.
  intros [_ Hlen] Hp. simpl in Hlen. unfold netctrl_datalen. rewrite space_0, Hlen.
  unfold NLMSG_HDRLEN, NLMSG_ALIGNTO. rewrite u32_small, s32_small by lia. lia.
Qed.

Lemma slice_over (pre p tail : list Z) n :
  length pre = 16%nat → n = (length p + 4)%nat →
  slice 16 n (pre ++ p ++ tail) =
  if decide (4 ≤ length tail)%nat then Some (p ++ take 4 tail) else None.
Proof.
  intros Hpre ->. destruct (decide (4 ≤ length tail)%nat) as [Ht|Ht].
  - rewrite <-(take_drop 4 tail) at 1. rewrite (app_assoc p). apply slice_app; [done|].
    rewrite length_app, length_take. lia.
  - unfold slice. rewrite decide_False; [done|]. rewrite !length_app. lia.
Qed.

Lemma netctrl_ok_valid ty k s t :
  1 ≤ ty ≤ 3 →
  netctrl_netlink_ok ty k s t = (Ok 0, s, t ++ [EvMsgType ty (type2string ty)]).
Proof.
  intros Hty. unfold netctrl_netlink_ok, bind, emit.
  assert (ty = 1 ∨ ty = 2 ∨ ty = 3) as [-> |[-> | ->]] by lia; done.
Qed.

(** A message of a known type up to the copy. *)
Lemma netctrl_receive_msg_copy k h p tail s t :
  nlmsg_wf (h, p) → Z.of_nat (length p) < 2 ^ 31 - 4 → 1 ≤ nlmsg_type h ≤ 3 →
  (∀ t n, nk_kzalloc k t n = true) →
  let t' := t ++ [EvMsgType (nlmsg_type h) (type2string (nlmsg_type h));
                  EvKzalloc (Z.of_nat (length p) + 4) true] in
  netctrl_receive_msg (enc_hdr h ++ p ++ tail) h k s t =
  if decide (4 ≤ length tail)%nat
  then (netctrl_proc_msg (Some (p ++ take 4 tail)) (s32 (nlmsg_pid h)) ;; ret 0) k s t'
  else (Crash OutOfBounds, s, t').
Proof.
  intros Hwf Hp Hty Hz t'. unfold netctrl_receive_msg.
  mrun (netctrl_ok_valid (nlmsg_type h) k s t Hty). change (negb (0 =? 0)) with false. cbv iota zeta.
  rewrite (netctrl_datalen_eq h p Hwf Hp). erewrite bind_ok by reflexivity. rewrite !Hz.
  change (negb true) with false. cbv iota.
  rewrite slice_over by (apply length_enc_hdr || lia).
  rewrite <-app_assoc. cbn [app]. fold t'. case_decide; [|done]. by erewrite bind_ok by reflexivity.
Qed.

(** Decoding inverts the client's encoding. *)
Lemma netctrl_proc_request r rest pid k s t :
  req_ok r →
  netctrl_proc_msg (Some (req_msg r ++ rest)) pid k s t = (Ok 0, s, t ++ [req_ev r]).
Proof.
  intros Hok. unfold netctrl_proc_msg. rewrite req_msg_type. erewrite bind_ok by reflexivity.
  rewrite req_msg_data. destruct r as [ip|z|z]; simpl in Hok |- *.
  - destruct Hok as [Hn Hl]. unfold netctrl_auth_ip.
    assert (cstr (strncpy ip 32 ++ rest) = Some ip) as ->; [|done].
    destruct (proj1 (cstr_Some _ _) (cstr_strncpy ip 32 Hn Hl)) as (_ & post & ->).
    rewrite <-app_assoc. by apply cstr_app.
  - unfold netctrl_auth_port. rewrite field_front by (done || apply u32_range).
    do 2 (erewrite bind_ok by reflexivity). rewrite s32_u32, s32_small by lia. done.
  - unfold netctrl_auth_id. rewrite field_front by (done || apply u32_range).
    do 2 (erewrite bind_ok by reflexivity). rewrite s32_u32, s32_small by lia. done.
Qed.

Lemma app_msg_wf os r : nlmsg_wf (app_hdr os (req_type r) (req_msg r), req_msg r).
Proof.
  pose proof (u32_range (os_getpid os)). pose proof (length_req_msg r) as Hl.
  pose proof (length_req_data r) as Hd. split; [|done].
  split; simpl; unfold NLMSG_LENGTH, NLMSG_HDRLEN; destruct r; simpl in *; lia.
Qed.

(** The kernel's handling of the bytes the client sent. *)
Lemma netctrl_receive_request os k r tail s t :
  (∀ t n, nk_kzalloc k t n = true) →
  let msg := enc_hdr (app_hdr os (req_type r) (req_msg r)) ++ req_msg r in
  let t' := t ++ [EvMsgType (req_type r) (type2string (req_type r));
                  EvKzalloc (Z.of_nat (length (req_msg r)) + 4) true] in
  netctrl_receive_skb (msg ++ tail) (Z.of_nat (length msg)) k s t =
  if decide (4 ≤ length tail)%nat
  then (netctrl_proc_msg (Some (req_msg r ++ take 4 tail)) (s32 (u32 (os_getpid os))) ;; ret 0) k s t'
  else (Crash OutOfBounds, s, t').
Proof.
  intros Hz msg t'. unfold netctrl_receive_skb. pose proof (app_msg_wf os r) as Hwf.
  set (h := app_hdr os (req_type r) (req_msg r)) in *.
  assert (Z.of_nat (length msg) = nlmsg_len h) as ->.
  { unfold msg. rewrite length_app, length_enc_hdr. simpl. unfold NLMSG_LENGTH, NLMSG_HDRLEN. lia. }
  unfold msg. rewrite <-app_assoc.
  assert (receive_one EvNcAck netctrl_receive_msg (enc_hdr h ++ req_msg r ++ tail) h k s t =
    if decide (4 ≤ length tail)%nat
    then match (netctrl_proc_msg (Some (req_msg r ++ take 4 tail)) (s32 (u32 (os_getpid os))) ;; ret 0) k s t' with
         | (Ok _, s, t) => (Ok tt, s, t) | (Crash f, s, t) => (Crash f, s, t) end
    else (Crash OutOfBounds, s, t')) as E.
  { unfold receive_one. unfold bind at 1.
    rewrite netctrl_receive_msg_copy; [|done| |destruct r; simpl; lia|done].
    2: { rewrite length_req_msg, length_req_data. destruct r; lia. }
    cbv zeta. change (nlmsg_type h) with (req_type r). fold t'.
    case_decide; [|done]. unfold bind. by destruct (netctrl_proc_msg _ _ k s t') as [[[v|f] s1] t1]. }
  unfold bind at 1. rewrite walk_single, E by done.
  case_decide; [|done]. unfold bind. by destruct (netctrl_proc_msg _ _ k s t') as [[[v|f] s1] t1].
Qed.

(** ** Properties *)

(** C7: end to end.  When the client is run with one option [-i], [-p] or
    [-d], in any spelling [getopt_long] knows ([-p 80], [-p80], [--port 80],
    [--port=80], [--po 80], ...), whose argument fits, and its system calls
    succeed, it returns 0
    having sent one message; delivered to the kernel module in a socket buffer
    with at least four bytes of tail room, that message makes the module print
    exactly the address, port or id that was asked for, and answer nothing. *)
Theorem netctrl_end_to_end os o r prog args c t :
  os_ok os → spells o args → request_of o = Some r → req_ok r →
  ∃ fd msg n t1 t2 c', main (prog :: args) os c t = (Ok 0, c', t ++ t1 ++ EvSendmsg fd msg n :: t2) ∧
    ∀ k tail s tk, (∀ t n, nk_kzalloc k t n = true) → (4 ≤ length tail)%nat →
      netctrl_receive_skb (msg ++ tail) (Z.of_nat (length msg)) k s tk =
      (Ok 0, s, tk ++ [EvMsgType (req_type r) (type2string (req_type r));
                       EvKzalloc (Z.of_nat (length (req_msg r)) + 4) true; req_ev r]).
Proof.
  intros Hos Hsp Hreq Hok. destruct (main_sends os [] o r c t prog args Hos (spells_getopt o args Hsp) ltac:(done) Hreq)
    as (fd & n & t1 & t2 & c' & E).
  eexists fd, _, n, t1, t2, c'. split; [exact E|]. intros k tail s tk Hz Ht.
  rewrite netctrl_receive_request by done. rewrite decide_True by done.
  mrun (netctrl_proc_request r (take 4 tail) (s32 (u32 (os_getpid os))) k s
    (tk ++ [EvMsgType (req_type r) (type2string (req_type r));
            EvKzalloc (Z.of_nat (length (req_msg r)) + 4) true]) Hok).
  unfold ret. by rewrite <-app_assoc.
Qed.

(** The first option without an argument, if there is one. *)
Lemma first_bad (opts : list opt) :
  Forall (λ o, is_Some (request_of o) ∨ o.2 = None) opts →
  Forall (λ o, is_Some (request_of o)) opts ∨
  ∃ pre o post, opts = pre ++ o :: post ∧ Forall (λ o, is_Some (request_of o)) pre ∧ o.2 = None.
Proof.
  induction 1 as [|o opts Ho _ IH]; [by left|]. destruct (decide (o.2 = None)) as [Hn|Hn].
  { right. by exists [], o, opts. }
  destruct Ho as [Ho|]; [|done]. destruct IH as [IH|(pre & o' & post & -> & Hpre & Ho')]; [left; by constructor|].
  right. exists (o :: pre), o', post. split_and!; [done|by constructor|done].
Qed.

(** C15: the client on any command line.  Whatever the arguments are (at least
    one), exactly one of three things happens, and the client returns 0: an
    option is unknown, ambiguous, lacks its argument or is [-h], and only the
    usage is printed; there is no option at all, and an unknown command is
    reported; or the last option decides which request is sent, earlier ones
    are ignored. *)
Theorem app_command_line os prog args t :
  os_ok os → args ≠ [] →
  let opts := getopt_long short_options long_options args in
  (Exists (λ o : opt, o.2 = None) opts ∧ ∃ c', main (prog :: args) os g_sys_cmd0 t = (Ok 0, c', t ++ [EvUsage])) ∨
  (opts = [] ∧ main (prog :: args) os g_sys_cmd0 t = (Ok 0, g_sys_cmd0, t ++ [EvUnknown])) ∨
  (∃ pre o r, opts = pre ++ [o] ∧ request_of o = Some r ∧
    ∃ fd n t1 t2 c', main (prog :: args) os g_sys_cmd0 t =
      (Ok 0, c', t ++ t1 ++ EvSendmsg fd (enc_hdr (app_hdr os (req_type r) (req_msg r)) ++ req_msg r) n :: t2)).
Proof.
  intros Hos Hargs opts. assert ((Z.of_nat (length (prog :: args)) <=? 1) = false) as Hargc.
  { destruct args; [done|]. simpl. apply Z.leb_gt. lia. }
  destruct (first_bad opts (app_answers args)) as [Hgood|(pre & o & post & Eo & Hpre & Ho)].
  - right. destruct opts as [|o pre _] eqn:Eo using rev_ind.
    + left. split; [done|]. unfold main. rewrite Hargc. unfold syscmd_parse_args. cbn [tail]. fold opts. by rewrite Eo.
    + right. apply Forall_app in Hgood as [Hpre [[r Hr] _]%Forall_cons]. exists pre, o, r. split_and!; [done|done|].
      by eapply main_sends.
  - left. split; [rewrite Eo; apply Exists_app; right; by left|].
    destruct (parse_loop_bad pre o post 0 os g_sys_cmd0 t Hpre Ho) as [c' Ec]. exists c'.
    unfold main. rewrite Hargc. unfold syscmd_parse_args. cbn [tail]. fold opts. rewrite Eo. mrun Ec. done.
Qed.

(** C40: the module reads past the message.  Whatever request the client
    sends, the module copies four bytes more than the message has: the copy
    leaves the socket buffer, an out-of-bounds read, whenever there are fewer
    than four bytes of tail room behind the message. *)
Theorem netctrl_overread os o r prog args c t k tail s tk :
  os_ok os → spells o args → request_of o = Some r →
  (∀ t n, nk_kzalloc k t n = true) → (length tail < 4)%nat →
  ∃ fd msg n t1 t2 c' tk', main (prog :: args) os c t = (Ok 0, c', t ++ t1 ++ EvSendmsg fd msg n :: t2) ∧
    netctrl_receive_skb (msg ++ tail) (Z.of_nat (length msg)) k s tk = (Crash OutOfBounds, s, tk').
Proof.
  intros Hos Hsp Hreq Hz Ht. destruct (main_sends os [] o r c t prog args Hos (spells_getopt o args Hsp) ltac:(done) Hreq)
    as (fd & n & t1 & t2 & c' & E).
  eexists fd, _, n, t1, t2, c', _. split; [exact E|].
  rewrite netctrl_receive_request by done. by rewrite decide_False by lia.
Qed.

(** An address of 32 characters or more is sent without its terminator,
    and the module then prints foreign memory: the 32 characters that fit,
    followed by the tail room up to its first NUL; if the four bytes it copied
    hold no NUL it reads out of bounds. *)
Theorem netctrl_long_address os prog args ip c t k tail s tk :
  os_ok os → no_nul ip → (32 ≤ length ip)%nat → spells (105, Some ip) args →
  (∀ t n, nk_kzalloc k t n = true) → (4 ≤ length tail)%nat →
  ∃ fd msg n t1 t2 c' pre, main (prog :: args) os c t = (Ok 0, c', t ++ t1 ++ EvSendmsg fd msg n :: t2) ∧
    netctrl_receive_skb (msg ++ tail) (Z.of_nat (length msg)) k s tk =
      match cstr (take 4 tail) with
      | Some junk => (Ok 0, s, tk ++ pre ++ [EvAuthIp (take 32 ip ++ junk)])
      | None => (Crash OutOfBounds, s, tk ++ pre)
      end.
Proof.
  intros Hos Hn Hl Hsp Hz Ht.
  destruct (main_sends os [] (105, Some ip) (ReqIp ip) c t prog args Hos (spells_getopt _ args Hsp) ltac:(done) eq_refl) as (fd & n & t1 & t2 & c' & E).
  eexists fd, _, n, t1, t2, c', _. split; [exact E|].
  rewrite netctrl_receive_request by done. rewrite decide_True by done.
  assert (strncpy ip 32 = take 32 ip) as Hs by (unfold strncpy; by rewrite take_app_le by lia).
  unfold bind at 1, netctrl_proc_msg. rewrite req_msg_type. erewrite bind_ok by reflexivity.
  rewrite req_msg_data. cbn [req_data req_type]. rewrite Hs. simpl (_ =? _). cbv iota.
  unfold netctrl_auth_ip. rewrite cstr_app_None by (by apply Forall_take).
  destruct (cstr (take 4 tail)) as [junk|]; simpl; [|done]. by rewrite <-app_assoc.
Qed.
End EndToEnd.

(** ** Witnesses *)

Definition demo_os : app_os := {|
  os_socket _ _ := 3; os_bind _ _ := 0; os_calloc _ _ := true;
  os_sendmsg _ _ b := Z.of_nat (length b); os_getpid := 4242;
|}.

Lemma demo_os_ok : os_ok demo_os.
Proof. split; intros; simpl; try lia; done. Qed.

Definition demo_nk : netctrl_kernel := {|
  nk_kzalloc _ _ := true; nk_create _ := Some 1; nk_register_hooks _ _ := 0;
|}.

(** [app -p 8080] and [app --po=8080] *)
Definition demo_opt : opt := (112, Some (chars "8080")).
Definition demo_args : list (list Z) := [chars "-p"; chars "8080"].
Definition demo_args_eq : list (list Z) := [chars "--po=8080"].

Lemma demo_spells : spells demo_opt demo_args.
Proof. apply (spell_short 112). vm_compute. right. left. Qed.

Lemma demo_spells_eq : spells demo_opt demo_args_eq.
Proof. apply (spell_equals 112 (chars "po") (chars "8080")). vm_compute. right. right. right. left. Qed.

Lemma netctrl_end_to_end_witness :
  ∃ fd msg n t1 t2 c', main (chars "app" :: demo_args_eq) demo_os g_sys_cmd0 [] = (Ok 0, c', [] ++ t1 ++ EvSendmsg fd msg n :: t2) ∧
    ∀ k tail s tk, (∀ t n, nk_kzalloc k t n = true) → (4 ≤ length tail)%nat →
      netctrl_receive_skb (msg ++ tail) (Z.of_nat (length msg)) k s tk =
      (Ok 0, s, tk ++ [EvMsgType 2 "NETCTRL_AUTH_PORT"; EvKzalloc 12 true; EvAuthPort 8080]).
Proof.
  refine (netctrl_end_to_end demo_os demo_opt (ReqPort 8080) (chars "app") demo_args_eq g_sys_cmd0 [] demo_os_ok demo_spells_eq _ _);
    [vm_compute; reflexivity|simpl; lia].
Defined.

Lemma netctrl_overread_witness :
  ∃ fd msg n t1 t2 c' tk', main (chars "app" :: demo_args) demo_os g_sys_cmd0 [] = (Ok 0, c', [] ++ t1 ++ EvSendmsg fd msg n :: t2) ∧
    netctrl_receive_skb (msg ++ []) (Z.of_nat (length msg)) demo_nk None [] = (Crash OutOfBounds, None, tk').
Proof.
  refine (netctrl_overread demo_os demo_opt (ReqPort 8080) (chars "app") demo_args g_sys_cmd0 [] demo_nk [] None [] demo_os_ok
    demo_spells _ _ _); [vm_compute; reflexivity|reflexivity|simpl; lia].
Defined.

Lemma netctrl_long_address_witness :
  ∃ fd msg n t1 t2 c' pre, main [chars "app"; chars "-i"; replicate 40 65] demo_os g_sys_cmd0 [] =
      (Ok 0, c', [] ++ t1 ++ EvSendmsg fd msg n :: t2) ∧
    netctrl_receive_skb (msg ++ [66; 67; 0; 0]) (Z.of_nat (length msg)) demo_nk None [] =
      (Ok 0, None, [] ++ pre ++ [EvAuthIp (replicate 32 65 ++ [66; 67])]).
Proof.
  refine (netctrl_long_address demo_os (chars "app") [chars "-i"; replicate 40 65] (replicate 40 65) g_sys_cmd0 []
    demo_nk [66; 67; 0; 0] None [] demo_os_ok _ _ _ _ _); [repeat constructor; lia|vm_compute; lia| |reflexivity|simpl; lia].
  apply (spell_short 105). vm_compute. left.
Defined.

(** [app -p 80 file --id=7]: only the id is sent. *)
Definition demo_mixed : list (list Z) := [chars "-p"; chars "80"; chars "file"; chars "--id=7"].

Lemma app_command_line_witness :
  (let opts := getopt_long short_options long_options demo_mixed in
   (Exists (λ o : opt, o.2 = None) opts ∧
     ∃ c', main (chars "app" :: demo_mixed) demo_os g_sys_cmd0 [] = (Ok 0, c', [] ++ [EvUsage])) ∨
   (opts = [] ∧ main (chars "app" :: demo_mixed) demo_os g_sys_cmd0 [] = (Ok 0, g_sys_cmd0, [] ++ [EvUnknown])) ∨
   (∃ pre o r, opts = pre ++ [o] ∧ request_of o = Some r ∧
     ∃ fd n t1 t2 c', main (chars "app" :: demo_mixed) demo_os g_sys_cmd0 [] =
       (Ok 0, c', [] ++ t1 ++ EvSendmsg fd (enc_hdr (app_hdr demo_os (req_type r) (req_msg r)) ++ req_msg r) n :: t2))) ∧
  getopt_long short_options long_options demo_mixed = [(112, Some (chars "80")); (100, Some (chars "7"))] ∧
  getopt_long short_options long_options [chars "--i"; chars "3"] = [bad_opt].
Proof.
  split; [|split; vm_compute; reflexivity].
  refine (app_command_line demo_os (chars "app") demo_mixed [] demo_os_ok _). discriminate.
Defined.
