(* ===== verification/UserClient.v ===== *)
(** * The capture client [src/netlink/user_client.c]

    The program registers with the capture module, receives a given number of
    packets and unregisters.  Its contract with [src/netlink/netlink.c] is the
    netlink message it sends, checked here against the module's receive path. *)

From S2P Require Import Prelude Bytes Nlmsg UserTab RateCheck CapState CapPool Capture CapSystem NetctrlApp.

Definition MAX_PAYLOAD : Z := 1600.

(** The client's own enumeration of the commands. *)
Module Client.
Definition CAP_ADD : Z := 0.
Definition CAP_DEL : Z := 1.
Definition CAP_GET_PACKET : Z := 2.
End Client.

Inductive uc_ev :=
| UcSocket (fd : Z)
| UcBind (nl_pid ret : Z)
| UcMalloc (n : Z) (mem : option (list Z))
| UcSendmsg (bytes : list Z)
| UcRecvmsg (len : Z) (bytes : list Z)
| UcPrint (len : Z) (head : list Z)      (* length and first bytes received *)
| UcPrintMsg (type len : Z)              (* the fields of a [struct ntlkmsg] *)
| UcPrintText (len : Z) (text : list Z). (* and the text behind them *)

Record uc_os := {
  uc_socket : list uc_ev → Z;
  uc_bind : list uc_ev → Z;
  (* memory as [malloc] returns it: any contents *)
  uc_malloc : list uc_ev → Z → option (list Z);
  (* what [recvmsg] stores into a buffer of the given contents, and returns *)
  uc_recvmsg : list uc_ev → list Z → Z * list Z;
  uc_getpid : Z;
}.

(** The globals [sock_fd] and [nlh] (the buffer [iov] points to as well). *)
Record uc_state := MkUc { sock_fd : Z; nlh : option (list Z) }.

Definition UM (A : Type) : Type := M uc_os uc_state uc_ev A.

Section Client.
Context `{NlmsgApi}.

Definition netlink_init : UM unit :=
  fd <- kcall uc_socket UcSocket ;;
  modify (λ s, MkUc fd (nlh s)) ;;
  if fd <? 0 then crash ExitCall else
  pid <- kpure uc_getpid ;;
  r <- kcall uc_bind (UcBind (u32 pid)) ;;
  if r <? 0 then crash ExitCall else ret tt.

(** The header fields written; [nlmsg_seq] keeps what [malloc] left there. *)
Definition client_hdr (mem : list Z) (type pid : Z) : option nlmsghdr :=
  sq ← field 8 4 mem;
  Some (MkHdr (NLMSG_SPACE MAX_PAYLOAD) (u16 type) 0 sq (u32 pid)).

Definition send_to_kernel (data : list Z) (len : nat) (type : Z) : UM unit :=
  let size := NLMSG_SPACE MAX_PAYLOAD in
  m <- kcall (λ k t, uc_malloc k t size) (UcMalloc size) ;;
  modify (λ s, MkUc (sock_fd s) m) ;;
  match m with
  | None => crash ExitCall
  | Some mem =>
      pid <- kpure uc_getpid ;;
      h <- index (client_hdr mem type pid) ;;
      mem <- index (splice 0 (enc_hdr h) mem) ;;
      mem <- index (splice 16 (strncpy data len) mem) ;;
      modify (λ s, MkUc (sock_fd s) (Some mem)) ;;
      iov <- index (slice 0 (Z.to_nat (nlmsg_len h)) mem) ;;
      emit (UcSendmsg iov)
  end.

(** [memset], [recvmsg] and the print of length and first twelve bytes. *)
Definition recv_from_kernel : UM Z :=
  o <- get nlh ;;
  mem <- deref o ;;
  zero <- index (splice 0 (replicate (Z.to_nat (NLMSG_SPACE MAX_PAYLOAD)) 0) mem) ;;
  r <- kcall (λ k t, uc_recvmsg k t zero) (λ r, UcRecvmsg r.1 r.2) ;;
  modify (λ s, MkUc (sock_fd s) (Some r.2)) ;;
  head <- index (slice 16 12 r.2) ;;
  emit (UcPrint (r.1 - NLMSG_HDRLEN) head) ;;
  ret 0.

(** The same for messages that start with a [struct ntlkmsg] (two [int]s
    before the data, which is printed as a string); nothing calls it. *)
Definition recv_from_kernel_ntlkmsg : UM Z :=
  o <- get nlh ;;
  mem <- deref o ;;
  zero <- index (splice 0 (replicate (Z.to_nat (NLMSG_SPACE MAX_PAYLOAD)) 0) mem) ;;
  r <- kcall (λ k t, uc_recvmsg k t zero) (λ r, UcRecvmsg r.1 r.2) ;;
  modify (λ s, MkUc (sock_fd s) (Some r.2)) ;;
  type <- index (field 16 4 r.2) ;;
  len <- index (field 20 4 r.2) ;;
  emit (UcPrintMsg (s32 type) (s32 len)) ;;
  text <- index (cstr (drop 24 r.2)) ;;
  emit (UcPrintText r.1 text) ;;
  ret 0.

(** [for (;;) { time--; recv_from_kernel(); if (time == 0) break; }] *)
Fixpoint recv_loop (fuel : nat) (time : Z) : UM unit :=
  match fuel with
  | O => crash OutOfFuel
  | S fuel =>
      let time := s32 (time - 1) in
      recv_from_kernel ;;
      if time =? 0 then ret tt else recv_loop fuel time
  end.

(** "hello, netlink world" and "Bye, netlink world" *)
Definition hello : list Z :=
  [104; 101; 108; 108; 111; 44; 32; 110; 101; 116; 108; 105; 110; 107; 32; 119; 111; 114; 108; 100].
Definition bye : list Z :=
  [66; 121; 101; 44; 32; 110; 101; 116; 108; 105; 110; 107; 32; 119; 111; 114; 108; 100].

(** [arg] is [argv[1]], [None] when it is missing. *)
Definition client_main (fuel : nat) (arg : option (list Z)) : UM unit :=
  s <- deref arg ;;
  let time := atoi s in
  let len := S (length hello) in
  netlink_init ;;
  send_to_kernel hello len Client.CAP_ADD ;;
  recv_loop fuel time ;;
  send_to_kernel bye len Client.CAP_DEL.
End Client.

(** ** Facts *)

Section Facts.
Context `{NlmsgLaws} `{KListsLaws}.

Lemma client_space : NLMSG_SPACE MAX_PAYLOAD = 1616.
Proof. by apply align_unique. Qed.

(** [malloc] returns as many bytes as asked for. *)
Record uc_ok (os : uc_os) : Prop := {
  uc_sock_ok : ∀ t, 0 ≤ uc_socket os t;
  uc_bind_ok : ∀ t, 0 ≤ uc_bind os t;
  uc_malloc_ok : ∀ t n, ∃ mem, uc_malloc os t n = Some mem ∧ length mem = Z.to_nat n ∧ bytes mem;
  uc_recv_ok : ∀ t mem, length (uc_recvmsg os t mem).2 = length mem;
}.

Lemma atoi_range arg : - 2 ^ 31 ≤ atoi arg < 2 ^ 31.
Proof. apply s32_range. Qed.

(** What the outside sees of a client: messages sent and received. *)
Inductive client_act := CSend (bytes : list Z) | CRecv.

Definition client_view (t : list uc_ev) : list client_act :=
  omap (λ e, match e with UcSendmsg b => Some (CSend b) | UcRecvmsg _ _ => Some CRecv | _ => None end) t.

Lemma client_view_app t t' : client_view (t ++ t') = client_view t ++ client_view t'.
Proof. apply omap_app. Qed.

(** The message: header, the string padded with NULs to [len], and whatever
    the memory held. *)
Lemma send_to_kernel_ok os data len type s t :
  uc_ok os → (len ≤ 1600)%nat →
  ∃ h rest mem, send_to_kernel data len type os s t =
      (Ok tt, MkUc (sock_fd s) (Some (enc_hdr h ++ strncpy data len ++ rest)),
       t ++ [UcMalloc 1616 (Some mem); UcSendmsg (enc_hdr h ++ strncpy data len ++ rest)]) ∧
    nlmsg_wf (h, strncpy data len ++ rest) ∧ nlmsg_type h = u16 type ∧ nlmsg_flags h = 0 ∧
    nlmsg_pid h = u32 (uc_getpid os) ∧ nlmsg_len h = 1616.
Proof.
  intros Hos Hlen. unfold send_to_kernel. rewrite client_space. cbv zeta.
  destruct (uc_malloc_ok os Hos t 1616) as (mem & Hm & Hml & Hmb).
  erewrite bind_ok by reflexivity. rewrite !Hm. do 2 (erewrite bind_ok by reflexivity).
  assert (∃ sq, field 8 4 mem = Some sq ∧ 0 ≤ sq < 2 ^ 32) as (sq & Hsq & Hsqr).
  { unfold field, slice. rewrite decide_True by lia. eexists. split; [reflexivity|].
    assert (bytes (take 4 (drop 8 mem))) as Hb by (by apply Forall_take, Forall_drop).
    apply le_dec_bound in Hb. rewrite length_take, length_drop in Hb.
    replace (Z.of_nat (4 `min` (length mem - 8)) * 8) with 32 in Hb by lia. done. }
  unfold client_hdr. rewrite Hsq, client_space. simpl (_ ≫= _).
  set (h := MkHdr 1616 (u16 type) 0 sq (u32 (uc_getpid os))).
  erewrite bind_ok by reflexivity.
  assert (splice 0 (enc_hdr h) mem = Some (enc_hdr h ++ drop 16 mem)) as ->.
  { unfold splice. rewrite length_enc_hdr, decide_True by lia. by rewrite take_0. }
  erewrite bind_ok by reflexivity.
  assert (splice 16 (strncpy data len) (enc_hdr h ++ drop 16 mem) =
    Some (enc_hdr h ++ strncpy data len ++ drop (16 + len) mem)) as ->.
  { unfold splice. rewrite length_strncpy, decide_True by (rewrite length_app, length_enc_hdr, length_drop; lia).
    rewrite take_app_length' by (by rewrite length_enc_hdr).
    rewrite drop_app_ge, length_enc_hdr, drop_drop by (rewrite length_enc_hdr; lia). do 4 f_equal. lia. }
  do 2 (erewrite bind_ok by reflexivity).
  set (rest := drop (16 + len) mem).
  assert (length (strncpy data len ++ rest) = 1600%nat) as Hbody.
  { unfold rest. rewrite length_app, length_strncpy, length_drop. lia. }
  assert (slice 0 (Z.to_nat (nlmsg_len h)) (enc_hdr h ++ strncpy data len ++ rest) =
    Some (enc_hdr h ++ strncpy data len ++ rest)) as ->.
  { rewrite <-(app_nil_r (enc_hdr h ++ _)) at 1. apply slice_0_app.
    rewrite length_app, Hbody, length_enc_hdr. done. }
  erewrite bind_ok by reflexivity. exists h, rest, mem.
  pose proof (u16_range type). pose proof (u32_range (uc_getpid os)).
  split_and!; [|split; [split; simpl; lia|simpl; by rewrite Hbody]|done..].
  unfold emit. simpl. by rewrite <-app_assoc.
Qed.

Lemma recv_from_kernel_ok os mem s t :
  uc_ok os → nlh s = Some mem → (1616 ≤ length mem)%nat →
  ∃ mem' len ev, recv_from_kernel os s t = (Ok 0, MkUc (sock_fd s) (Some mem'), t ++ [UcRecvmsg len mem'; ev]) ∧
    length mem' = length mem ∧ client_view [ev] = [].
Proof.
  intros Hos Hn Hl. unfold recv_from_kernel. rewrite client_space.
  erewrite bind_ok by reflexivity. rewrite Hn. erewrite bind_ok by reflexivity.
  destruct (splice_is_Some 0 (replicate (Z.to_nat 1616) 0) mem) as [z Hz].
  { rewrite length_replicate. lia. }
  rewrite Hz. apply splice_Some in Hz as [Hzl _].
  erewrite bind_ok by reflexivity. do 2 (erewrite bind_ok by reflexivity).
  destruct (uc_recvmsg os t z) as [len mem'] eqn:Hr.
  pose proof (uc_recv_ok os Hos t z) as Hrl. rewrite Hr in Hrl. simpl in Hrl.
  assert (is_Some (slice 16 12 mem')) as [hd Hhd].
  { unfold slice. rewrite decide_True by lia. eauto. }
  simpl. rewrite Hhd. do 2 (erewrite bind_ok by reflexivity).
  eexists mem', len, _. split; [rewrite <-app_assoc; reflexivity|]. split; [lia|done].
Qed.

Lemma recv_loop_ok os n fuel mem s t :
  uc_ok os → nlh s = Some mem → (1616 ≤ length mem)%nat → (n < fuel)%nat → Z.of_nat n < 2 ^ 31 - 1 →
  ∃ s' ev, recv_loop fuel (Z.of_nat (S n)) os s t = (Ok tt, s', t ++ ev) ∧
    client_view ev = replicate (S n) CRecv.
Proof.
  intros Hos. revert fuel mem s t. induction n as [|n IH]; intros fuel mem s t Hn Hl Hf Hr.
  all: destruct fuel as [|fuel]; [lia|]; cbn [recv_loop]; cbv zeta.
  all: destruct (recv_from_kernel_ok os mem s t Hos Hn Hl) as (mem' & len & ev & E & Hl' & Hev).
  all: mrun E; rewrite s32_small by lia.
  - eexists _, _. split; [reflexivity|]. unfold client_view in *. simpl in *. by rewrite Hev.
  - replace (Z.of_nat (S (S n)) - 1) with (Z.of_nat (S n)) by lia.
    rewrite (proj2 (Z.eqb_neq _ _)) by lia.
    destruct (IH fuel mem' (MkUc (sock_fd s) (Some mem')) (t ++ [UcRecvmsg len mem'; ev])) as (s' & ev' & E' & Hv);
      [done|lia|lia|lia|].
    exists s', ([UcRecvmsg len mem'; ev] ++ ev'). rewrite app_assoc. split; [done|].
    rewrite client_view_app, Hv. unfold client_view in *. simpl in *. by rewrite Hev.
Qed.

(** One command, as the client lays it out, at the capture module. *)
Lemma client_command k task h s t data len rest :
  nlmsg_wf (h, strncpy data len ++ rest) → nlmsg_len h mod 4 = 0 → no_nul data → (length data < len)%nat →
  nlmsg_flags h = 0 → cap_netlink_ok (nlmsg_type h) = 0 → cmd_ready task s →
  ∃ s', cap_receive_skb (enc_hdr h ++ strncpy data len ++ rest) k s t = (Ok 0, s', t) ∧
    cap_nlk_portid s' = portid_after (cap_nlk_portid s) h ∧ cmd_ready task s'.
Proof.
  intros Hwf Hal Hnul Hlen Hfl Hty Hrdy.
  set (body := strncpy data len ++ rest).
  assert (concat (nlmsg_bytes <$> [(h, body)]) = enc_hdr h ++ body) as Hb.
  { simpl. unfold nlmsg_bytes, nlmsg_pad, NLMSG_ALIGNTO. cbn [fst snd].
    rewrite Z.mod_opp_l_z by lia. change (Z.to_nat 0) with 0%nat. simpl. by rewrite !app_nil_r. }
  assert (Forall nlmsg_wf [(h, body)]) as Hms by (by apply Forall_singleton).
  assert (Forall (λ m : nlmsghdr * list Z, is_Some (cstr m.2)) [(h, body)]) as Hstr.
  { apply Forall_singleton. unfold body. cbn [snd].
    apply cstr_strncpy in Hlen; [|done]. apply cstr_Some in Hlen as (_ & post & ->).
    rewrite <-app_assoc, <-app_comm_cons, cstr_app by done. eauto. }
  pose proof (nlmsgs_concat _ Hms) as Hf. cbv zeta in Hf.
  destruct (receive_all_ok k task _ _ s t Hf Hstr Hrdy) as (rs & u & _ & E & Hu).
  rewrite Hb in E. unfold cap_receive_skb. rewrite <-walk_receive_all in E by lia.
  fold body. mrun E.
  assert (concat (ack_of <$> [(h, body)].*1) = []) as ->.
  { simpl. unfold ack_of. rewrite Hfl, Hty. done. }
  rewrite app_nil_r. eexists. split; [reflexivity|]. destruct Hrdy. done.
Qed.

(** What a message of the client does to the capture module, in any state in
    which the module's thread runs: it is accepted without an answer, and the
    module then sends to [portid]. *)
Definition sets_portid (m : list Z) (portid : Z) : Prop :=
  ∀ k task s t, cmd_ready task s →
    ∃ s', cap_receive_skb m k s t = (Ok 0, s', t) ∧ cap_nlk_portid s' = portid ∧ cmd_ready task s'.

(** A message sent with [type] and [data] in 21 bytes. *)
Lemma client_send os data type s t :
  uc_ok os → no_nul data → (length data ≤ 20)%nat → type = CAP_ADD ∨ type = CAP_DEL →
  ∃ m mem s', send_to_kernel data 21 type os s t = (Ok tt, s', t ++ [UcMalloc 1616 mem; UcSendmsg m]) ∧
    nlh s' = Some m ∧ length m = 1616%nat ∧
    sets_portid m (if type =? CAP_ADD then s32 (uc_getpid os) else 0).
Proof.
  intros Hos Hnul Hlen Htype.
  destruct (send_to_kernel_ok os data 21 type s t Hos) as (h & rest & mem & E & Hwf & Hty & Hfl & Hpid & Hl); [lia|].
  rewrite u16_small in Hty by (destruct Htype as [-> | ->]; done).
  eexists _, _, _. split; [exact E|]. split; [done|]. split.
  { destruct Hwf as [_ Hwf]. simpl in Hwf. rewrite length_app, length_enc_hdr. unfold NLMSG_HDRLEN in Hwf. lia. }
  intros k task cs ct Hrdy.
  destruct (client_command k task h cs ct data 21 rest) as (cs' & Ec & Hp & Hr); try done.
  - by rewrite Hl.
  - lia.
  - rewrite Hty. by destruct Htype as [-> | ->].
  - exists cs'. split_and!; [done| |done]. rewrite Hp. unfold portid_after. rewrite Hty, Hpid, s32_u32.
    by destruct Htype as [-> | ->].
Qed.

(** The client around its receive loop: it binds, registers, and, if the loop
    returns, unregisters. *)
Lemma client_main_ok os arg fuel s :
  uc_ok os →
  ∃ m1 s2 fd b mem1, let t2 := [UcSocket fd; UcBind (u32 (uc_getpid os)) b; UcMalloc 1616 mem1; UcSendmsg m1] in
    nlh s2 = Some m1 ∧ length m1 = 1616%nat ∧ sets_portid m1 (s32 (uc_getpid os)) ∧
    ∀ s3 ev, recv_loop fuel (atoi arg) os s2 t2 = (Ok tt, s3, t2 ++ ev) →
      ∃ m2 mem s4, client_main fuel (Some arg) os s [] = (Ok tt, s4, (t2 ++ ev) ++ [UcMalloc 1616 mem; UcSendmsg m2]) ∧
        sets_portid m2 0.
Proof.
  intros Hos. pose proof (uc_sock_ok os Hos []) as Hfd.
  set (t1 := [] ++ [UcSocket (uc_socket os [])]). set (t2 := t1 ++ [UcBind (u32 (uc_getpid os)) (uc_bind os t1)]).
  pose proof (uc_bind_ok os Hos t1) as Hbd.
  assert (netlink_init os s [] = (Ok tt, MkUc (uc_socket os []) (nlh s), t2)) as Ei.
  { unfold netlink_init. do 2 (erewrite bind_ok by reflexivity). rewrite (proj2 (Z.ltb_ge _ _)) by lia.
    do 2 (erewrite bind_ok by reflexivity). fold t1. by rewrite (proj2 (Z.ltb_ge _ _)) by lia. }
  assert (no_nul hello ∧ no_nul bye) as [Hh Hb] by (split; repeat constructor; done).
  destruct (client_send os hello Client.CAP_ADD (MkUc (uc_socket os []) (nlh s)) t2 Hos Hh)
    as (m1 & mem1 & s2 & E1 & Hn2 & Hl2 & Hp1); [done|by left|].
  exists m1, s2, (uc_socket os []), (uc_bind os t1), mem1. cbv zeta. split_and!; [done..|]. intros s3 ev E2. unfold client_main. erewrite bind_ok by reflexivity. cbv zeta. mrun Ei.
  change (Datatypes.S (length hello)) with 21%nat. mrun E1. mrun E2.
  destruct (client_send os bye Client.CAP_DEL s3 ((t2 ++ [UcMalloc 1616 mem1; UcSendmsg m1]) ++ ev) Hos Hb)
    as (m2 & mem2 & s4 & E3 & _ & _ & Hp2); [vm_compute; lia|by right|]. by exists m2, mem2, s4.
Qed.

(** C13: a client session.  Started with a positive count [n] on a working
    system, the client binds its own process id, registers it, receives
    exactly [n] messages and unregisters: between start and exit it sends two
    messages, the capture module takes the first as the registration of
    exactly the bound address and the second as its removal. *)
Theorem client_session os arg n fuel s :
  uc_ok os → atoi arg = Z.of_nat n → (0 < n ≤ fuel)%nat →
  ∃ m1 m2 s' ev, client_main fuel (Some arg) os s [] = (Ok tt, s', ev) ∧
    client_view ev = [CSend m1] ++ replicate n CRecv ++ [CSend m2] ∧
    omap (λ e, match e with UcBind p _ => Some p | _ => None end) (take 2 ev) = [u32 (uc_getpid os)] ∧
    sets_portid m1 (s32 (uc_getpid os)) ∧ sets_portid m2 0.
Proof.
  intros Hos Harg Hn. destruct (client_main_ok os arg fuel s Hos)
    as (m1 & s2 & fd & b & mem1 & Hn2 & Hl2 & Hp1 & Hmain). set (t2 := [_; _; _; _]) in Hmain.
  pose proof (atoi_range arg) as Hrange. rewrite Harg in *. destruct n as [|n]; [lia|].
  destruct (recv_loop_ok os n fuel m1 s2 t2 Hos Hn2) as (s3 & ev & E2 & Hv); [lia|lia|lia|].
  destruct (Hmain s3 ev E2) as (m2 & mem2 & s4 & E & Hp2).
  eexists m1, m2, s4, _. split; [exact E|]. split_and!; [|done..].
  by rewrite !client_view_app, Hv, <-app_assoc.
Qed.
End Facts.

(** ** Witness *)

Definition demo_uc : uc_os := {|
  uc_socket _ := 3;
  uc_bind _ := 0;
  uc_malloc _ n := Some (replicate (Z.to_nat n) 170);
  uc_recvmsg _ mem := (32, mem);
  uc_getpid := 4242;
|}.

Lemma demo_uc_ok : uc_ok demo_uc.
Proof.
  split; cbn [uc_socket uc_bind uc_malloc uc_recvmsg demo_uc]; intros; try done.
  eexists. split; [done|]. split; [by rewrite length_replicate|].
  apply Forall_replicate. unfold is_byte. lia.
Qed.

(** [./user_client 3] *)
Lemma client_session_witness :
  ∃ m1 m2 s' ev, client_main 5 (Some [51]) demo_uc (MkUc 0 None) [] = (Ok tt, s', ev) ∧
    client_view ev = [CSend m1] ++ replicate 3 CRecv ++ [CSend m2] ∧
    omap (λ e, match e with UcBind p _ => Some p | _ => None end) (take 2 ev) = [u32 (uc_getpid demo_uc)] ∧
    sets_portid m1 (s32 (uc_getpid demo_uc)) ∧ sets_portid m2 0.
Proof. refine (client_session demo_uc [51] 3 5 (MkUc 0 None) demo_uc_ok _ _); [vm_compute; done|lia]. Defined.
