(* ===== verification/CapClient.v ===== *)
(** * Capture end to end: module and client together

    The capture module ([src/netlink/netlink.c], under any interleaving) and
    the capture client ([src/netlink/user_client.c]) joined by the netlink
    socket: what the client prints are the first bytes of captured packets. *)

From S2P Require Import Prelude Bytes Nlmsg UserTab RateCheck CapState CapPool Capture CapSystem.
From S2P Require Import CapConc CapLogic CapConcSafe NetctrlApp UserClient.

Section EndToEnd.
Context `{NlmsgLaws} `{KListsLaws}.

(** ** The socket between them *)

(** [recvmsg] of a datagram into [mem]: what does not fit is cut off. *)
Definition deliver (d mem : list Z) : Z * list Z :=
  let n := (length d `min` length mem)%nat in (Z.of_nat n, take n d ++ drop n mem).

Definition recvs (t : list uc_ev) : nat :=
  length (omap (λ e, match e with UcRecvmsg l b => Some (l, b) | _ => None end) t).

(** The client's socket hands out the messages the module sent, in order. *)
Definition connected (os : uc_os) (msgs : list sk_buff) : Prop :=
  ∀ t mem skb d, msgs !! recvs t = Some skb → datagram skb = Some d → uc_recvmsg os t mem = deliver d mem.

(** What the client prints. *)
Definition printed (t : list uc_ev) : list (Z * list Z) :=
  omap (λ e, match e with UcPrint l h => Some (l, h) | _ => None end) t.

(** The line for a packet: its length rounded up to the alignment and cut to
    the client's buffer, and its first twelve bytes. *)
Definition line (pkt : packet) : Z * list Z :=
  (NLMSG_ALIGN (NLMSG_HDRLEN + pk_len pkt) `min` 1616 - NLMSG_HDRLEN, take 12 (pk_data pkt)).

Lemma recvs_app t t' : recvs (t ++ t') = (recvs t + recvs t')%nat.
Proof. unfold recvs. by rewrite omap_app, length_app. Qed.

Lemma printed_app t t' : printed (t ++ t') = printed t ++ printed t'.
Proof. apply omap_app. Qed.

Lemma forwarded_datagram p pkt skb :
  forwarded p pkt skb → linear pkt →
  ∃ d, datagram skb = Some d ∧ Z.of_nat (length d) = NLMSG_ALIGN (NLMSG_HDRLEN + pk_len pkt) ∧
    slice 16 12 d = Some (take 12 (pk_data pkt)).
Proof.
  intros [Hpay Hhdr] [Hlen H12]. unfold datagram. rewrite Hhdr, Hpay. eexists. split; [reflexivity|]. cbn [nlmsg_len].
  pose proof (align_ge (NLMSG_HDRLEN + pk_len pkt)). unfold NLMSG_HDRLEN in *. split.
  - rewrite !length_app, length_enc_hdr, length_replicate. lia.
  - rewrite <-(take_drop 12 (pk_data pkt)) at 1. rewrite <-(app_assoc (take 12 _)). apply slice_app.
    + by rewrite length_enc_hdr.
    + rewrite length_take. lia.
Qed.

(** One message received. *)
Lemma recv_prints os msgs mem s t skb p pkt :
  uc_ok os → connected os msgs → nlh s = Some mem → length mem = 1616%nat →
  msgs !! recvs t = Some skb → forwarded p pkt skb → linear pkt →
  ∃ len mem', recv_from_kernel os s t =
      (Ok 0, MkUc (sock_fd s) (Some mem'), t ++ [UcRecvmsg len mem'; UcPrint (line pkt).1 (line pkt).2]) ∧
    length mem' = 1616%nat.
Proof.
  intros Hos Hconn Hn Hl Hmsg Hfw Hlin.
  destruct (forwarded_datagram p pkt skb Hfw Hlin) as (d & Hd & Hdl & Hds).
  unfold recv_from_kernel. rewrite client_space. erewrite bind_ok by reflexivity. rewrite Hn. erewrite bind_ok by reflexivity.
  destruct (splice_is_Some 0 (replicate (Z.to_nat 1616) 0) mem) as [z Hz]; [rewrite length_replicate; lia|].
  rewrite Hz. apply splice_Some in Hz as [Hzl _]. erewrite bind_ok by reflexivity.
  pose proof (Hconn t z skb d Hmsg Hd) as Hr. do 2 (erewrite bind_ok by reflexivity). rewrite !Hr. unfold deliver. cbn [fst snd].
  set (n := (length d `min` length z)%nat). assert (length z = 1616%nat) as Hz' by lia.
  destruct Hlin as [Hlen H12]. pose proof (align_ge (NLMSG_HDRLEN + pk_len pkt)). unfold NLMSG_HDRLEN in *.
  assert (28 ≤ n ≤ length d)%nat as Hn28 by lia.
  assert (slice 16 12 (take n d ++ drop n z) = Some (take 12 (pk_data pkt))) as ->.
  { unfold slice in Hds |- *. rewrite decide_True in Hds by lia. rewrite decide_True.
    - rewrite <-Hds. f_equal. rewrite drop_app_le by (rewrite length_take; lia).
      rewrite take_app_le by (rewrite length_drop, length_take; lia).
      rewrite skipn_firstn_comm, firstn_firstn. f_equal. lia.
    - rewrite length_app, length_take, length_drop. lia. }
  do 2 (erewrite bind_ok by reflexivity). eexists _, _. rewrite <-app_assoc. unfold line. cbn [fst snd].
  replace (NLMSG_ALIGN (NLMSG_HDRLEN + pk_len pkt) `min` 1616) with (Z.of_nat n) by (unfold NLMSG_HDRLEN; lia).
  split; [reflexivity|]. rewrite length_app, length_take, length_drop. lia.
Qed.

(** The receive loop prints one line per message. *)
Lemma recv_loop_prints os msgs pkts n fuel mem s t :
  uc_ok os → connected os msgs → Forall linear pkts →
  Forall2 (λ pkt skb, ∃ p, forwarded p pkt skb) pkts msgs →
  nlh s = Some mem → length mem = 1616%nat → (n < fuel)%nat → Z.of_nat n < 2 ^ 31 - 1 →
  (recvs t + S n ≤ length msgs)%nat →
  ∃ s' ev, recv_loop fuel (Z.of_nat (S n)) os s t = (Ok tt, s', t ++ ev) ∧
    printed ev = line <$> take (S n) (drop (recvs t) pkts).
Proof.
  intros Hos Hconn Hlin Hfw. revert fuel mem s t. induction n as [|n IH]; intros fuel mem s t Hn Hl Hf Hr Hlen.
  all: destruct fuel as [|fuel]; [lia|]; cbn [recv_loop]; cbv zeta.
  all: destruct (lookup_lt_is_Some_2 msgs (recvs t)) as [skb Hskb]; [lia|].
  all: destruct (Forall2_lookup_r _ _ _ _ _ Hfw Hskb) as (pkt & Hpkt & p & Hp).
  all: pose proof (proj1 (Forall_forall _ _) Hlin pkt (list_elem_of_lookup_2 _ _ _ Hpkt)) as Hlp.
  all: destruct (recv_prints os msgs mem s t skb p pkt Hos Hconn Hn Hl Hskb Hp Hlp) as (len & mem' & E & Hl').
  all: mrun E; rewrite s32_small by lia; rewrite (drop_S _ _ _ Hpkt).
  - eexists _, _. split; [reflexivity|]. done.
  - replace (Z.of_nat (S (S n)) - 1) with (Z.of_nat (S n)) by lia. rewrite (proj2 (Z.eqb_neq _ _)) by lia.
    set (ev := [_; _]).
    destruct (IH fuel mem' (MkUc (sock_fd s) (Some mem')) (t ++ ev)) as (s' & ev' & E' & Hpr); [done|done|lia|lia| |].
    { rewrite recvs_app. change (recvs ev) with 1%nat. lia. }
    exists s', (ev ++ ev'). rewrite app_assoc. split; [done|]. rewrite printed_app, Hpr, recvs_app.
    change (recvs ev) with 1%nat. rewrite Nat.add_1_r. done.
Qed.

(** C5: capture end to end.  Take any state the module reaches, whatever the
    interleaving, and a client whose socket hands it the messages the module
    has sent.  Started with a count [n] of at most that many, the client ends
    having printed exactly [n] lines, for the packets of [n] different hook
    calls: the first twelve bytes of each packet, unmodified, and as its length
    the packet's length rounded up to a multiple of four (at most 1600). *)
Theorem capture_to_client k s0 t0 c os arg n fuel us :
  cap_laws k → app_init k cap_state0 [] = (Ok 0, s0, t0) →
  rtc (acts (conc_step k)) (conc0 s0 t0) c → c_fault c = None →
  uc_ok os → connected os (sent (w_t (c_w c))) →
  atoi arg = Z.of_nat n → (0 < n ≤ fuel)%nat → (n ≤ length (sent (w_t (c_w c))))%nat →
  ∃ us' ev pkts, client_main fuel (Some arg) os us [] = (Ok tt, us', ev) ∧
    printed ev = line <$> pkts ∧ length pkts = n ∧ pkts ⊆+ omap packet_of (w_calls (c_w c)).
Proof.
  intros Hk Hinit Hr Hf Hos Hconn Harg Hn Hlen.
  pose proof (conc_reachable k Hk s0 t0 c Hinit Hr) as Hinv. unfold conc_inv in Hinv. rewrite Hf in Hinv.
  destruct Hinv as (gs & Hok & _). destruct (co_queue _ _ Hok) as [Hfi (pkts & Hsub & Hall) _].
  rewrite Hfi in Hall. apply Forall2_app_inv_r in Hall as (pkts1 & pkts2 & Hall & _ & ->).
  assert (pkts1 ⊆+ omap packet_of (w_calls (c_w c))) as Hsub1.
  { etrans; [|exact Hsub]. rewrite <-app_assoc. by apply submseteq_inserts_r. }
  assert (Forall linear pkts1) as Hlin.
  { apply Forall_forall. intros pkt [i Hi]%list_elem_of_lookup. by destruct (Forall2_lookup_l _ _ _ _ _ Hall Hi) as (skb & _ & ? & _). }
  apply (Forall2_impl _ (λ pkt skb, ∃ p, forwarded p pkt skb)) in Hall; [|by intros pkt skb [_ ?]].
  destruct (client_main_ok os arg fuel us Hos) as (m1 & s2 & fd & b & mem1 & Hn2 & Hl2 & _ & Hmain).
  set (t2 := [_; _; _; _]) in Hmain. assert (recvs t2 = 0%nat ∧ printed t2 = []) as [Hr2 Hp2] by done.
  destruct n as [|n]; [lia|]. pose proof (atoi_range arg). rewrite Harg in *.
  destruct (recv_loop_prints os _ pkts1 n fuel m1 s2 t2 Hos Hconn Hlin Hall Hn2 Hl2) as (s3 & ev & E & Hpr); [lia|lia|lia|].
  destruct (Hmain s3 ev E) as (m2 & mem & s4 & Em & _). rewrite Hr2, drop_0 in Hpr.
  exists s4, ((t2 ++ ev) ++ [UcMalloc 1616 mem; UcSendmsg m2]), (take (S n) pkts1). split_and!; [done|..].
  - rewrite !printed_app, Hp2, Hpr, app_nil_r. done.
  - apply length_take_le. apply Forall2_length in Hall. lia.
  - etrans; [|exact Hsub1]. apply sublist_submseteq, sublist_take.
Qed.
End EndToEnd.

(** ** Witness *)

(** A socket that hands out the two messages of the demo run. *)
Definition demo_socket : uc_os := {|
  uc_socket _ := 3;
  uc_bind _ := 0;
  uc_malloc _ n := Some (replicate (Z.to_nat n) 170);
  uc_recvmsg t mem :=
    match sent (w_t (c_w (demo_at 150))) !! recvs t with
    | Some skb => match datagram skb with Some d => deliver d mem | None => (-1, mem) end
    | None => (-1, mem)
    end;
  uc_getpid := 42;
|}.

Lemma demo_socket_ok : uc_ok demo_socket.
Proof.
  split; cbn [uc_socket uc_bind uc_malloc uc_recvmsg demo_socket]; intros; try done.
  - eexists. split; [done|]. split; [by rewrite length_replicate|]. apply Forall_replicate. unfold is_byte. lia.
  - destruct (sent _ !! _) as [skb|]; [|done]. destruct (datagram skb) as [d|]; [|done].
    unfold deliver. simpl. rewrite length_app, length_take, length_drop. lia.
Qed.

(** [./user_client 2], with both packets captured. *)
Lemma capture_to_client_witness :
  ∃ us' ev pkts, client_main 5 (Some (chars "2")) demo_socket (MkUc 0 None) [] = (Ok tt, us', ev) ∧
    printed ev = line <$> pkts ∧ length pkts = 2%nat ∧ pkts ⊆+ omap packet_of (w_calls (c_w (demo_at 150))).
Proof.
  refine (capture_to_client demo_kernel demo_s0 demo_t0 (demo_at 150) demo_socket (chars "2") 2 5 (MkUc 0 None)
    demo_laws demo_init_eq (demo_at_reachable 150) _ demo_socket_ok _ _ _ _).
  - vm_compute. reflexivity.
  - intros t mem skb d Hs Hd. cbn [uc_recvmsg demo_socket]. rewrite Hs. by rewrite Hd.
  - vm_compute. reflexivity.
  - lia.
  - vm_compute. lia.
Defined.
