(* ===== verification/Proc.v ===== *)
(** * The procfs module [src/proc/foobar.c]

    The module creates a directory with a read-only file showing [jiffies],
    two writable files [foo] and [bar] backed by eight-character buffers and a
    symbolic link.  The globals are [proc_state]; procfs itself and the access
    to user memory are the record [proc_kernel]. *)

From S2P Require Import Prelude Bytes Nlmsg NetctrlApp.

Definition FOOBAR_LEN : nat := 8.

(** [struct fb_data_t]: two character arrays of [FOOBAR_LEN + 1] bytes. *)
Record fb_data_t := MkFb { fb_name : list Z; fb_value : list Z }.

(** Which of [foo_data] and [bar_data] a [data] pointer names. *)
Inductive fbref := Foo | Bar.

#[global] Instance fbref_eq_dec : EqDecision fbref.
Proof. solve_decision. Defined.

Inductive reader := ReadJiffies | ReadFoobar.

(** The callback fields of a [struct proc_dir_entry]. *)
Record pde := MkPde { pde_data : option fbref; read_proc : option reader; write_proc : bool }.

(** What is asked of procfs: a directory, a file (with the reader of
    [create_proc_read_entry] if any) or a symbolic link. *)
Inductive entry_kind := KDir | KFile (mode : Z) (rd : option reader) | KLink (target : string).

Inductive proc_ev :=
| PvCreate (kind : entry_kind) (name : string) (parent r : option Z)
| PvRemove (name : string) (parent : option Z)
| PvCopy (left : nat).                 (* answer of copy_from_user *)

Record proc_kernel := {
  pk_create : list proc_ev → entry_kind → string → option Z → option Z;
  (* bytes that could not be copied *)
  pk_copy_from_user : list proc_ev → list Z → nat → nat;
  pk_jiffies : list proc_ev → Z;
  pk_long_bits : Z;
}.

Record proc_state := MkProc {
  proctest_dir : option Z;
  foo_file : option Z;
  bar_file : option Z;
  jiffies_file : option Z;
  symlink : option Z;
  foo_data : fb_data_t;
  bar_data : fb_data_t;
  entries : gmap Z pde;      (* the callback fields written so far *)
}.

Definition PM (A : Type) : Type := M proc_kernel proc_state proc_ev A.

Definition fb_of (d : fbref) (s : proc_state) : fb_data_t :=
  match d with Foo => foo_data s | Bar => bar_data s end.

Definition set_fb (d : fbref) (f : fb_data_t) (s : proc_state) : proc_state :=
  MkProc (proctest_dir s) (foo_file s) (bar_file s) (jiffies_file s) (symlink s)
    (if d is Foo then f else foo_data s) (if d is Bar then f else bar_data s) (entries s).

(** ** Printing *)

(** The decimal digits of [n]; [fuel] digits at most. *)
Fixpoint dec_digits (fuel : nat) (n : Z) : list Z :=
  match fuel with
  | O => []
  | S fuel => if n <? 10 then [48 + n] else dec_digits fuel (n / 10) ++ [48 + n mod 10]
  end.

(** Conversion to the signed type of [w] bits. *)
Definition signed (w z : Z) : Z := (z + 2 ^ (w - 1)) mod 2 ^ w - 2 ^ (w - 1).

(** [%ld]: at most 19 digits for 64 bits. *)
Definition fmt_ld (w z : Z) : list Z :=
  let n := signed w z in
  if n <? 0 then 45 :: dec_digits 20 (- n) else dec_digits 20 n.

(** "jiffies = ", " = " *)
Definition str_jiffies : list Z := [106; 105; 102; 102; 105; 101; 115; 32; 61; 32].
Definition str_eq : list Z := [32; 61; 32].
Definition str_foo : list Z := [102; 111; 111].
Definition str_bar : list Z := [98; 97; 114].

(** ** File operations; the text read is what is left in [page] *)

Definition proc_read_jiffies : PM (list Z) :=
  j <- kpeek pk_jiffies ;;
  w <- kpure pk_long_bits ;;
  ret (str_jiffies ++ fmt_ld w j ++ [10]).

(** A [%s] of [name] that is not terminated goes on into [value]. *)
Definition proc_read_foobar (data : fbref) : PM (list Z) :=
  fb <- get (fb_of data) ;;
  name <- index (cstr (fb_name fb ++ fb_value fb)) ;;
  value <- index (cstr (fb_value fb)) ;;
  ret (name ++ str_eq ++ value ++ [10]).

(** Bytes [copy_from_user(dst, buffer, len)] transfers when it reports [left]
    bytes missing, for the memory mapped at [buffer]. *)
Definition transferred (left : nat) (buffer : list Z) (len : nat) : list Z :=
  take (len - left) (take len buffer).

Definition proc_write_foobar (buffer : list Z) (count : Z) (data : fbref) : PM Z :=
  fb <- get (fb_of data) ;;
  let len := if Z.of_nat FOOBAR_LEN <? count then FOOBAR_LEN else Z.to_nat count in
  left <- kcall (λ k t, pk_copy_from_user k t buffer len) PvCopy ;;
  let got := transferred left buffer len in
  (* the rest of the destination is padded with zeros *)
  value <- index (splice 0 (got ++ replicate (len - length got) 0) (fb_value fb)) ;;
  modify (set_fb data (MkFb (fb_name fb) value)) ;;
  if decide (length got < len)%nat then ret (- EFAULT) else
  value <- index (splice len [0] value) ;;
  modify (set_fb data (MkFb (fb_name fb) value)) ;;
  ret (Z.of_nat len).

(** ** Load and unload *)

Definition proc_create (kind : entry_kind) (name : string) (parent : option Z) : PM (option Z) :=
  kcall (λ k t, pk_create k t kind name parent) (PvCreate kind name parent).

Definition remove_proc_entry (name : string) (parent : option Z) : PM unit := emit (PvRemove name parent).

(** [strcpy(fb->name, name); strcpy(fb->value, name)] *)
Definition fb_strcpy (d : fbref) (name : list Z) : PM unit :=
  fb <- get (fb_of d) ;;
  n <- index (splice 0 (cstring name) (fb_name fb)) ;;
  v <- index (splice 0 (cstring name) (fb_value fb)) ;;
  modify (set_fb d (MkFb n v)).

Definition set_entry (file : Z) (e : pde) (s : proc_state) : proc_state :=
  MkProc (proctest_dir s) (foo_file s) (bar_file s) (jiffies_file s) (symlink s)
    (foo_data s) (bar_data s) (<[file := e]> (entries s)).

Definition set_files (f : option Z * option Z * option Z * option Z * option Z) (s : proc_state) : proc_state :=
  let '(dir, foo, bar, jif, sym) := f in
  MkProc dir foo bar jif sym (foo_data s) (bar_data s) (entries s).

Definition MODULE_NAME : string := "proctest".

(** The labels of [proctest_init], each falling through to the next. *)
Definition no_jiffies (ret_ : Z) : PM Z := remove_proc_entry MODULE_NAME None ;; ret ret_.
Definition no_foo (ret_ : Z) : PM Z :=
  dir <- get proctest_dir ;; remove_proc_entry "jiffies" dir ;; no_jiffies ret_.
Definition no_bar (ret_ : Z) : PM Z :=
  dir <- get proctest_dir ;; remove_proc_entry "foo" dir ;; no_foo ret_.
Definition no_symlink (ret_ : Z) : PM Z :=
  dir <- get proctest_dir ;; remove_proc_entry "bar" dir ;; no_bar ret_.

Definition init_symlink : PM Z :=
  dir <- get proctest_dir ;;
  r <- proc_create (KLink "jiffies") "jiffies_too" dir ;;
  modify (λ s, set_files (proctest_dir s, foo_file s, bar_file s, jiffies_file s, r) s) ;;
  match r with None => no_symlink (- ENOMEM) | Some _ => ret 0 end.

Definition init_bar : PM Z :=
  dir <- get proctest_dir ;;
  r <- proc_create (KFile 420 None) "bar" dir ;;
  modify (λ s, set_files (proctest_dir s, foo_file s, r, jiffies_file s, symlink s) s) ;;
  match r with
  | None => no_bar (- ENOMEM)
  | Some p =>
      fb_strcpy Bar str_bar ;;
      modify (set_entry p (MkPde (Some Bar) (Some ReadFoobar) true)) ;;
      init_symlink
  end.

Definition init_foo : PM Z :=
  dir <- get proctest_dir ;;
  r <- proc_create (KFile 420 None) "foo" dir ;;
  modify (λ s, set_files (proctest_dir s, r, bar_file s, jiffies_file s, symlink s) s) ;;
  match r with
  | None => no_foo (- ENOMEM)
  | Some p =>
      fb_strcpy Foo str_foo ;;
      modify (set_entry p (MkPde (Some Foo) (Some ReadFoobar) true)) ;;
      init_bar
  end.

Definition proctest_init : PM Z :=
  dir <- proc_create KDir MODULE_NAME None ;;
  modify (λ s, set_files (dir, foo_file s, bar_file s, jiffies_file s, symlink s) s) ;;
  match dir with
  | None => ret (- ENOMEM)
  | Some _ =>
      r <- proc_create (KFile 292 (Some ReadJiffies)) "jiffies" dir ;;
      modify (λ s, set_files (proctest_dir s, foo_file s, bar_file s, r, symlink s) s) ;;
      match r with
      | None => no_jiffies (- ENOMEM)
      | Some p => modify (set_entry p (MkPde None (Some ReadJiffies) false)) ;; init_foo
      end
  end.

Definition proctest_exit : PM unit :=
  dir <- get proctest_dir ;;
  remove_proc_entry "jiffies_too" dir ;;
  remove_proc_entry "bar" dir ;;
  remove_proc_entry "foo" dir ;;
  remove_proc_entry "jiffies" dir ;;
  remove_proc_entry MODULE_NAME None.

(** The globals are zero when the module is loaded. *)
Definition fb_zero : fb_data_t := MkFb (replicate 9 0) (replicate 9 0).
Definition proc_state0 : proc_state := MkProc None None None None None fb_zero fb_zero ∅.

(** ** Specification

    The two files are cells holding a string each. *)

(** The text before the first NUL. *)
Fixpoint upto_nul (l : list Z) : list Z :=
  match l with [] => [] | b :: l => if b =? 0 then [] else b :: upto_nul l end.

Inductive proc_op := ORead (d : fbref) | OWrite (d : fbref) (buffer : list Z) (count : Z).
Inductive proc_ans := AText (text : list Z) | ARet (r : Z).

Definition proc_do (o : proc_op) : PM proc_ans :=
  match o with
  | ORead d => l <- proc_read_foobar d ;; ret (AText l)
  | OWrite d buffer count => r <- proc_write_foobar buffer count d ;; ret (ARet r)
  end.

Fixpoint proc_run (os : list proc_op) : PM (list proc_ans) :=
  match os with
  | [] => ret []
  | o :: os => a <- proc_do o ;; r <- proc_run os ;; ret (a :: r)
  end.

Record cells := MkCells { cell_foo : list Z; cell_bar : list Z }.

Definition cell (d : fbref) (c : cells) : list Z := match d with Foo => cell_foo c | Bar => cell_bar c end.
Definition set_cell (d : fbref) (v : list Z) (c : cells) : cells :=
  match d with Foo => MkCells v (cell_bar c) | Bar => MkCells (cell_foo c) v end.
Definition name_of (d : fbref) : list Z := match d with Foo => str_foo | Bar => str_bar end.

Inductive cell_step : proc_op → cells → proc_ans → cells → Prop :=
| cell_read d c : cell_step (ORead d) c (AText (name_of d ++ [32; 61; 32] ++ cell d c ++ [10])) c
| cell_write d buffer count c n :
    let len := Nat.min 8 (Z.to_nat count) in
    (n ≤ len)%nat → (n ≤ length buffer)%nat →
    cell_step (OWrite d buffer count) c
      (ARet (if decide (n = len) then Z.of_nat len else - EFAULT))
      (set_cell d (upto_nul (take n buffer)) c).

Inductive cell_run : list proc_op → cells → list proc_ans → cells → Prop :=
| cell_run_nil c : cell_run [] c [] c
| cell_run_cons o os c a c1 r c2 :
    cell_step o c a c1 → cell_run os c1 r c2 → cell_run (o :: os) c (a :: r) c2.

(** ** Facts *)

Lemma cstr_upto l r : cstr (l ++ 0 :: r) = Some (upto_nul l).
Proof. induction l as [|b l IH]; [done|]. simpl. destruct (b =? 0); [done|]. by rewrite IH. Qed.

(** The buffer [fb] holds the name [nm] and the value [v]; the last byte of
    the value is its guard. *)
Record fb_rep (nm v : list Z) (fb : fb_data_t) : Prop := {
  rep_name : cstr (fb_name fb) = Some nm;
  rep_guard : ∃ l, fb_value fb = l ++ [0] ∧ length l = 8%nat;
  rep_value : cstr (fb_value fb) = Some v;
}.

Definition proc_rep (c : cells) (s : proc_state) : Prop := ∀ d, fb_rep (name_of d) (cell d c) (fb_of d s).

Lemma fb_of_set d d' f s : fb_of d' (set_fb d f s) = if decide (d = d') then f else fb_of d' s.
Proof. by destruct d, d'. Qed.

Lemma set_fb_twice d f g s : set_fb d g (set_fb d f s) = set_fb d g s.
Proof. by destruct d. Qed.

Lemma proc_rep_set d nm v fb c s :
  proc_rep c s → nm = name_of d → fb_rep nm v fb → proc_rep (set_cell d v c) (set_fb d fb s).
Proof.
  intros Hrep -> Hfb d'. rewrite fb_of_set. specialize (Hrep d').
  by destruct d, d'.
Qed.

Lemma proc_read_ok k c s t d :
  proc_rep c s →
  proc_read_foobar d k s t = (Ok (name_of d ++ [32; 61; 32] ++ cell d c ++ [10]), s, t).
Proof.
  intros Hrep. destruct (Hrep d) as [Hn _ Hv]. unfold proc_read_foobar.
  erewrite bind_ok by reflexivity.
  apply cstr_Some in Hn as (Hnn & post & Hn). rewrite Hn, <-app_assoc, <-app_comm_cons, cstr_app by done.
  erewrite bind_ok by reflexivity. rewrite Hv. by erewrite bind_ok by reflexivity.
Qed.

(** Writing [bs] at the front keeps the guard. *)
Lemma guard_front bs l :
  length l = 8%nat → (length bs ≤ 8)%nat →
  ∃ l', bs ++ drop (length bs) (l ++ [0]) = bs ++ l' ++ [0] ∧ length (bs ++ l') = 8%nat.
Proof.
  intros Hl Hb. exists (drop (length bs) l). rewrite drop_app_le by lia.
  split; [done|]. rewrite length_app, length_drop. lia.
Qed.

Lemma splice_front bs buf :
  (length bs ≤ length buf)%nat → splice 0 bs buf = Some (bs ++ drop (length bs) buf).
Proof. intros. unfold splice. by rewrite decide_True by lia. Qed.

Lemma length_transferred left buffer len :
  length (transferred left buffer len) = Nat.min (len - left) (Nat.min len (length buffer)).
Proof. unfold transferred. by rewrite !length_take. Qed.

Lemma transferred_take left buffer len :
  transferred left buffer len = take (length (transferred left buffer len)) buffer.
Proof.
  rewrite length_transferred. unfold transferred. rewrite take_take.
  destruct (decide (Nat.min (len - left) len ≤ length buffer)%nat).
  - f_equal. lia.
  - rewrite !take_ge; [done|lia|lia].
Qed.

Lemma proc_write_ok k c s t d buffer count :
  proc_rep c s → 0 ≤ count →
  ∃ r c' s' t', proc_write_foobar buffer count d k s t = (Ok r, s', t') ∧
    cell_step (OWrite d buffer count) c (ARet r) c' ∧ proc_rep c' s'.
Proof.
  intros Hrep Hc. destruct (Hrep d) as [Hn (l & Hv & Hl) _]. unfold proc_write_foobar.
  erewrite bind_ok by reflexivity.
  set (len := if _ <? _ then _ else _). cbv zeta.
  assert (len = Nat.min 8 (Z.to_nat count)) as Hlen.
  { unfold len. destruct (_ <? _) eqn:?; zbool; unfold FOOBAR_LEN in *; lia. }
  erewrite bind_ok by reflexivity.
  set (left := pk_copy_from_user k t buffer len). set (got := transferred left buffer len).
  assert (length got ≤ len ∧ length got ≤ length buffer)%nat as [Hgl Hgb].
  { unfold got. rewrite length_transferred. lia. }
  assert (got = take (length got) buffer) as Hgot by apply transferred_take.
  assert (length (got ++ replicate (len - length got) 0) = len) as Hpl.
  { rewrite length_app, length_replicate. lia. }
  rewrite Hv, splice_front by (rewrite Hpl, length_app, Hl; simpl; lia). rewrite Hpl.
  do 2 (erewrite bind_ok by reflexivity).
  destruct (guard_front (got ++ replicate (len - length got) 0) l Hl ltac:(rewrite Hpl; lia)) as (l' & Heq & Hl').
  rewrite Hpl in Heq. rewrite Heq.
  pose proof (cell_write d buffer count c (length got)) as Hstep. cbv zeta in Hstep.
  rewrite <-Hlen, <-Hgot in Hstep. specialize (Hstep Hgl Hgb).
  destruct (decide (length got < len)%nat) as [Hfail|Hfail].
  - rewrite decide_False in Hstep by lia. eexists _, _, _, _. split_and!; [done|exact Hstep|].
    apply (proc_rep_set d (name_of d)); [done|done|]. split; [done| |].
    { eexists. split; [simpl; rewrite app_assoc; reflexivity|done]. }
    simpl. destruct (len - length got)%nat eqn:?; [lia|]. rewrite <-!app_assoc. simpl. by rewrite cstr_upto.
  - assert (length got = len) as Hg by lia. rewrite decide_True in Hstep by done.
    rewrite Hg, Nat.sub_diag in *. simpl in *. rewrite app_nil_r in *.
    assert (splice len [0] (got ++ l' ++ [0]) = Some (got ++ 0 :: drop 1 (l' ++ [0]))) as ->.
    { unfold splice. rewrite decide_True by (rewrite !length_app; simpl; lia).
      rewrite take_app_length' by done. rewrite drop_app_ge by (simpl; lia).
      do 4 f_equal. simpl. lia. }
    do 2 (erewrite bind_ok by reflexivity). rewrite set_fb_twice.
    eexists _, _, _, _. split_and!; [done|exact Hstep|].
    apply (proc_rep_set d (name_of d)); [done|done|]. split; [done| |apply cstr_upto].
    rewrite length_app in Hl'. destruct l' as [|b l'].
    + exists got. split; [done|]. simpl in *. lia.
    + exists (got ++ 0 :: l'). rewrite <-app_assoc. split; [done|]. rewrite length_app. simpl in *. lia.
Qed.

Lemma proc_run_ok k os c s t :
  Forall (λ o, match o with OWrite _ _ count => 0 ≤ count | _ => True end) os → proc_rep c s →
  ∃ r c' s' t', proc_run os k s t = (Ok r, s', t') ∧ cell_run os c r c' ∧ proc_rep c' s'.
Proof.
  intros Hos. revert c s t. induction Hos as [|o os Ho _ IH]; intros c s t Hrep.
  { exists [], c, s, t. split_and!; [done|constructor|done]. }
  assert (∃ a c1 s1 t1, proc_do o k s t = (Ok a, s1, t1) ∧ cell_step o c a c1 ∧ proc_rep c1 s1)
    as (a & c1 & s1 & t1 & E & Hstep & Hrep1).
  { destruct o as [d|d buffer count]; simpl.
    - eexists _, c, s, t. mrun (proc_read_ok k c s t d Hrep). split_and!; [done|constructor|done].
    - destruct (proc_write_ok k c s t d buffer count Hrep Ho) as (r & c1 & s1 & t1 & E & Hstep & Hrep1).
      mrun E. eexists _, _, _, _. by split_and!. }
  destruct (IH c1 s1 t1 Hrep1) as (r & c2 & s2 & t2 & E2 & Hrun & Hrep2).
  exists (a :: r), c2, s2, t2. cbn [proc_run]. mrun E. mrun E2.
  split_and!; [done|by econstructor|done].
Qed.

(** ** Load and unload *)

(** The entries that exist in procfs, by parent and name. *)
Definition reg_ev (X : gset (option Z * string)) (e : proc_ev) : gset (option Z * string) :=
  match e with
  | PvCreate _ name parent (Some _) => {[(parent, name)]} ∪ X
  | PvRemove name parent => X ∖ {[(parent, name)]}
  | _ => X
  end.

Definition registered (t : list proc_ev) : gset (option Z * string) := foldl reg_ev ∅ t.

(** The five entries of the module below the directory [dir]. *)
Definition all_entries (dir : Z) : gset (option Z * string) :=
  {[(None, MODULE_NAME); (Some dir, "jiffies"%string); (Some dir, "foo"%string); (Some dir, "bar"%string);
    (Some dir, "jiffies_too"%string)]}.

Lemma registered_app t t' : registered (t ++ t') = foldl reg_ev (registered t) t'.
Proof. apply foldl_app. Qed.

(** The outcome of (the rest of) [proctest_init]: everything is there, or an
    error and nothing is. *)
Definition init_result (dir : Z) (x : outcome Z * proc_state * list proc_ev) : Prop :=
  ∃ s t, (x = (Ok 0, s, t) ∧ proctest_dir s = Some dir ∧ registered t = all_entries dir ∧
      proc_rep (MkCells str_foo str_bar) s) ∨
    (x = (Ok (- ENOMEM), s, t) ∧ registered t = ∅).

Lemma fb_strcpy_ok k d nm s t :
  fb_of d s = fb_zero → no_nul nm → length nm = 3%nat →
  ∃ fb, fb_strcpy d nm k s t = (Ok tt, set_fb d fb s, t) ∧ fb_rep nm nm fb.
Proof.
  intros Hz Hn Hl. unfold fb_strcpy. erewrite bind_ok by reflexivity. rewrite Hz.
  assert (splice 0 (cstring nm) (replicate 9 0) = Some (cstring nm ++ replicate 5 0)) as Hs.
  { rewrite splice_front by (unfold cstring; rewrite length_app, Hl; simpl; lia).
    unfold cstring. by rewrite length_app, Hl. }
  unfold fb_zero. cbn [fb_name fb_value]. rewrite Hs. do 2 (erewrite bind_ok by reflexivity).
  eexists. split; [reflexivity|].
  assert (cstr (cstring nm ++ replicate 5 0) = Some nm) as Hc.
  { unfold cstring. rewrite <-app_assoc. by apply cstr_app. }
  split; [done| |done]. simpl. exists (nm ++ replicate 5 0).
  split; [by unfold cstring; rewrite <-!app_assoc|]. by rewrite length_app, Hl.
Qed.

Ltac set_eq := clear; set_solver.

Section Init.
Context (k : proc_kernel) (dir : Z).
Local Abbreviation D name := (Some dir, name%string).

Lemma no_jiffies_ok s t :
  registered t = {[(None, MODULE_NAME)]} → init_result dir (no_jiffies (- ENOMEM) k s t).
Proof.
  intros Ht. eexists _, _. right. split; [reflexivity|]. rewrite registered_app, Ht. simpl. set_eq.
Qed.

Lemma no_foo_ok s t :
  proctest_dir s = Some dir → registered t = {[(None, MODULE_NAME); D "jiffies"]} →
  init_result dir (no_foo (- ENOMEM) k s t).
Proof.
  intros Hd Ht. unfold no_foo. do 2 (erewrite bind_ok by reflexivity). rewrite Hd.
  apply no_jiffies_ok. rewrite registered_app, Ht. simpl. set_eq.
Qed.

Lemma no_bar_ok s t :
  proctest_dir s = Some dir → registered t = {[(None, MODULE_NAME); D "jiffies"; D "foo"]} →
  init_result dir (no_bar (- ENOMEM) k s t).
Proof.
  intros Hd Ht. unfold no_bar. do 2 (erewrite bind_ok by reflexivity). rewrite Hd.
  apply no_foo_ok; [done|]. rewrite registered_app, Ht. simpl. set_eq.
Qed.

Lemma no_symlink_ok s t :
  proctest_dir s = Some dir → registered t = {[(None, MODULE_NAME); D "jiffies"; D "foo"; D "bar"]} →
  init_result dir (no_symlink (- ENOMEM) k s t).
Proof.
  intros Hd Ht. unfold no_symlink. do 2 (erewrite bind_ok by reflexivity). rewrite Hd.
  apply no_bar_ok; [done|]. rewrite registered_app, Ht. simpl. set_eq.
Qed.

Lemma init_symlink_ok s t :
  proctest_dir s = Some dir → registered t = {[(None, MODULE_NAME); D "jiffies"; D "foo"; D "bar"]} →
  proc_rep (MkCells str_foo str_bar) s → init_result dir (init_symlink k s t).
Proof.
  intros Hd Ht Hrep. unfold init_symlink, proc_create. do 3 (erewrite bind_ok by reflexivity). rewrite Hd.
  destruct (pk_create k t _ _ _) as [p|].
  - eexists _, _. left. split; [reflexivity|]. split_and!; [done| |exact Hrep].
    rewrite registered_app, Ht. simpl. unfold all_entries. set_eq.
  - apply no_symlink_ok; [done|]. by rewrite registered_app, Ht.
Qed.

Lemma init_bar_ok s t :
  proctest_dir s = Some dir → registered t = {[(None, MODULE_NAME); D "jiffies"; D "foo"]} →
  fb_rep str_foo str_foo (foo_data s) → bar_data s = fb_zero → init_result dir (init_bar k s t).
Proof.
  intros Hd Ht Hfoo Hbar. unfold init_bar, proc_create. do 3 (erewrite bind_ok by reflexivity). rewrite Hd.
  destruct (pk_create k t _ _ _) as [p|].
  - set (s1 := set_files _ s). set (t1 := t ++ _).
    destruct (fb_strcpy_ok k Bar str_bar s1 t1) as (fb & E & Hfb); [done|by repeat constructor|done|].
    mrun E. erewrite bind_ok by reflexivity. apply init_symlink_ok; [done| |by intros []].
    unfold t1. rewrite registered_app, Ht. simpl. set_eq.
  - apply no_bar_ok; [done|]. by rewrite registered_app, Ht.
Qed.

Lemma init_foo_ok s t :
  proctest_dir s = Some dir → registered t = {[(None, MODULE_NAME); D "jiffies"]} →
  foo_data s = fb_zero → bar_data s = fb_zero → init_result dir (init_foo k s t).
Proof.
  intros Hd Ht Hfoo Hbar. unfold init_foo, proc_create. do 3 (erewrite bind_ok by reflexivity). rewrite Hd.
  destruct (pk_create k t _ _ _) as [p|].
  - set (s1 := set_files _ s). set (t1 := t ++ _).
    destruct (fb_strcpy_ok k Foo str_foo s1 t1) as (fb & E & Hfb); [done|by repeat constructor|done|].
    mrun E. erewrite bind_ok by reflexivity. apply init_bar_ok; [done| |done|done].
    unfold t1. rewrite registered_app, Ht. simpl. set_eq.
  - apply no_foo_ok; [done|]. by rewrite registered_app, Ht.
Qed.
End Init.

(** Loading the module on a fresh procfs. *)
Lemma proctest_init_ok k :
  (∃ s t, proctest_init k proc_state0 [] = (Ok (- ENOMEM), s, t) ∧ registered t = ∅) ∨
  (∃ dir, init_result dir (proctest_init k proc_state0 [])).
Proof.
  unfold proctest_init, proc_create. do 2 (erewrite bind_ok by reflexivity).
  destruct (pk_create k [] KDir MODULE_NAME None) as [dir|].
  - right. exists dir. do 2 (erewrite bind_ok by reflexivity).
    destruct (pk_create k _ _ "jiffies" _) as [p|].
    + erewrite bind_ok by reflexivity. apply init_foo_ok; [done| |done|done].
      unfold registered. simpl. set_eq.
    + apply no_jiffies_ok. unfold registered. simpl. set_eq.
  - left. eexists _, _. split; [reflexivity|]. done.
Qed.

(** File operations touch neither the registry nor the directory. *)
Lemma proc_run_quiet k os X d :
  preserves k (λ s t, registered t = X ∧ proctest_dir s = d) (proc_run os).
Proof.
  induction os as [|o os IH]; [apply preserves_ret|]. cbn [proc_run].
  apply preserves_bind; [|intros a; apply preserves_bind; [done|intros; apply preserves_ret]].
  destruct o as [f|f buffer count]; simpl; (apply preserves_bind; [|intros; apply preserves_ret]).
  - unfold proc_read_foobar. eauto 10 with kmod.
  - unfold proc_write_foobar. apply preserves_bind; [apply preserves_get|]. intros fb. cbv zeta.
    apply preserves_bind.
    { apply preserves_kcall. intros s t a [Ht Hd]. by rewrite registered_app. }
    intros left. apply preserves_bind; [apply preserves_index|]. intros v.
    apply preserves_bind; [apply preserves_modify; done|]. intros _.
    case_decide; [apply preserves_ret|].
    apply preserves_bind; [apply preserves_index|]. intros v'.
    apply preserves_bind; [apply preserves_modify; done|]. intros _. apply preserves_ret.
Qed.

Lemma proctest_exit_ok k dir s t :
  proctest_dir s = Some dir → registered t = all_entries dir →
  ∃ t', proctest_exit k s t = (Ok tt, s, t') ∧ registered t' = ∅.
Proof.
  intros Hd Ht. unfold proctest_exit, remove_proc_entry. do 5 (erewrite bind_ok by reflexivity).
  eexists. split; [reflexivity|]. rewrite !registered_app, Ht, Hd. simpl. unfold all_entries. set_eq.
Qed.

(** ** Decimal output *)

Lemma digits_cons acc c l : is_digit c = true → digits acc (c :: l) = digits (10 * acc + (c - 48)) l.
Proof. intros Hc. simpl. by rewrite Hc. Qed.

Lemma digit_ok n : 0 ≤ n < 10 → is_digit (48 + n) = true.
Proof. intros. unfold is_digit. apply andb_true_iff. rewrite !Z.leb_le. lia. Qed.

Lemma dec_digits_value fuel n acc r :
  0 ≤ n < 10 ^ Z.of_nat fuel →
  digits acc (dec_digits fuel n ++ r) = digits (acc * 10 ^ Z.of_nat (length (dec_digits fuel n)) + n) r.
Proof.
  revert n acc r. induction fuel as [|fuel IH]; intros n acc r Hn.
  { change (10 ^ Z.of_nat 0) with 1 in Hn. simpl. f_equal. lia. }
  cbn [dec_digits]. destruct (n <? 10) eqn:Hs; zbool.
  - rewrite <-app_comm_cons, digits_cons by (apply digit_ok; lia). f_equal. cbn [length]. lia.
  - rewrite Nat2Z.inj_succ, Z.pow_succ_r in Hn by lia.
    pose proof (Z.div_mod n 10 ltac:(lia)). pose proof (Z.mod_pos_bound n 10 ltac:(lia)).
    rewrite <-app_assoc, IH by lia. rewrite <-app_comm_cons, digits_cons by (apply digit_ok; lia).
    f_equal. rewrite length_app, Nat2Z.inj_add. cbn [length]. change (Z.of_nat 1) with 1.
    rewrite Z.pow_add_r by lia. lia.
Qed.

(** The number a reader of the text finds. *)
Definition ld_value (text : list Z) : Z :=
  match text with
  | c :: text' => if c =? 45 then - digits 0 text' else digits 0 text
  | [] => 0
  end.

Lemma fmt_ld_value w z rest :
  1 ≤ w ≤ 64 → (∀ acc, digits acc rest = acc) → ld_value (fmt_ld w z ++ rest) = signed w z.
Proof.
  intros Hw Hrest. unfold fmt_ld. set (n := signed w z).
  assert (- 10 ^ 20 < n < 10 ^ 20) as Hn.
  { unfold n, signed. pose proof (Z.mod_pos_bound (z + 2 ^ (w - 1)) (2 ^ w)).
    pose proof (Z.pow_le_mono_r 2 (w - 1) 63 ltac:(lia) ltac:(lia)).
    pose proof (Z.pow_pos_nonneg 2 (w - 1) ltac:(lia) ltac:(lia)).
    assert (2 ^ w = 2 * 2 ^ (w - 1)) as Hp by (rewrite <-Z.pow_succ_r by lia; f_equal; lia).
    rewrite Hp in *. lia. }
  clearbody n.
  assert (∀ m, 0 ≤ m < 10 ^ 20 → digits 0 (dec_digits 20 m ++ rest) = m) as Hd.
  { intros m Hm. rewrite dec_digits_value by done. by rewrite Hrest, Z.mul_0_l. }
  destruct (n <? 0) eqn:Hneg; zbool.
  - cbn [app]. cbn [ld_value]. rewrite Z.eqb_refl, Hd by lia. lia.
  - rewrite <-(Hd n) at 2 by lia. unfold ld_value.
    destruct (dec_digits 20 n ++ rest) as [|c l] eqn:E; [done|].
    destruct (c =? 45) eqn:Hc; [|done]. zbool. subst c.
    specialize (Hd n ltac:(lia)). rewrite E in Hd. simpl in Hd.
    by rewrite <-Hd in E.
Qed.

(** ** Properties *)

(** C17: the files are string cells.  After a successful load, any sequence of
    reads and writes of [foo] and [bar], whatever part of each buffer user
    memory delivers, runs without a fault and answers like two string cells:
    a write stores the text before the first NUL of the bytes delivered (at
    most eight), and returns their number or [-EFAULT] when some are missing;
    a read shows the name and the whole current text. *)
Theorem proc_files_refine k os s t :
  proctest_init k proc_state0 [] = (Ok 0, s, t) →
  Forall (λ o, match o with OWrite _ _ count => 0 ≤ count | _ => True end) os →
  ∃ answers s' t' c', proc_run os k s t = (Ok answers, s', t') ∧
    cell_run os (MkCells str_foo str_bar) answers c'.
Proof.
  intros Hinit Hos. destruct (proctest_init_ok k) as [(? & ? & E & _)|(dir & s1 & t1 & Hr)].
  { by rewrite Hinit in E. }
  destruct Hr as [(E & _ & _ & Hrep)|[E _]]; rewrite Hinit in E; simplify_eq.
  destruct (proc_run_ok k os _ s1 t1 Hos Hrep) as (r & c' & s' & t' & E & Hrun & _). eauto 8.
Qed.

(** C26: load and unload leave nothing behind.  Loading either succeeds with
    all five entries present, or fails with [-ENOMEM] and, whichever creation
    failed, every entry created before is removed again; after a successful
    load and any file operations, unloading removes all five. *)
Theorem proc_load_unload k :
  ∃ r s t, proctest_init k proc_state0 [] = (Ok r, s, t) ∧
    (r = - ENOMEM ∧ registered t = ∅ ∨
     r = 0 ∧ ∃ dir, registered t = all_entries dir ∧ ∀ os,
       Forall (λ o, match o with OWrite _ _ count => 0 ≤ count | _ => True end) os →
       ∃ a s1 t1 t2, proc_run os k s t = (Ok a, s1, t1) ∧ registered t1 = all_entries dir ∧
         proctest_exit k s1 t1 = (Ok tt, s1, t2) ∧ registered t2 = ∅).
Proof.
  destruct (proctest_init_ok k) as [(s & t & E & Ht)|(dir & s & t & [(E & Hd & Ht & Hrep)|[E Ht]])];
    eexists _, s, t; (split; [exact E|]); [by left| |by left].
  right. split; [done|]. exists dir. split; [done|]. intros os Hos.
  destruct (proc_run_ok k os _ s t Hos Hrep) as (a & c' & s1 & t1 & E1 & _).
  pose proof (proc_run_quiet k os (all_entries dir) (Some dir) s t (conj Ht Hd)) as Hq.
  rewrite E1 in Hq. destruct Hq as [Ht1 Hd1]. simpl in Ht1, Hd1.
  destruct (proctest_exit_ok k dir s1 t1 Hd1 Ht1) as (t2 & E2 & Ht2). eauto 10.
Qed.

(** The text of the [jiffies] file, read back as a number, is [jiffies]
    as a signed value: the unsigned counter is shown negative in the upper
    half of its range, where the kernel starts it. *)
Theorem proc_jiffies_text k s t :
  1 ≤ pk_long_bits k ≤ 64 →
  ∃ d, proc_read_jiffies k s t = (Ok (str_jiffies ++ d), s, t) ∧
    ld_value d = signed (pk_long_bits k) (pk_jiffies k t).
Proof. intros Hw. eexists. split; [reflexivity|]. by apply fmt_ld_value. Qed.

(** ** Witnesses *)

(** Creations succeed; user memory delivers everything. *)
Definition demo_pk : proc_kernel := {|
  pk_create t _ _ _ := Some (Z.of_nat (length t));
  pk_copy_from_user _ _ _ := 0%nat;
  pk_jiffies _ := 4294892296;       (* five minutes before the 32-bit counter wraps *)
  pk_long_bits := 32;
|}.

Definition demo_proc := proctest_init demo_pk proc_state0 [].

Lemma proc_files_refine_witness :
  ∃ answers s' t' c',
    proc_run [OWrite Foo [104; 101; 108; 108; 111; 32; 119; 111; 114; 108; 100] 11; ORead Foo; ORead Bar]
      demo_pk demo_proc.1.2 demo_proc.2 = (Ok answers, s', t') ∧
    cell_run [OWrite Foo [104; 101; 108; 108; 111; 32; 119; 111; 114; 108; 100] 11; ORead Foo; ORead Bar]
      (MkCells str_foo str_bar) answers c'.
Proof.
  refine (proc_files_refine demo_pk _ demo_proc.1.2 demo_proc.2 _ _); [vm_compute; reflexivity|].
  repeat constructor. lia.
Defined.

Lemma proc_jiffies_text_witness :
  ∃ d, proc_read_jiffies demo_pk proc_state0 [] = (Ok (str_jiffies ++ d), proc_state0, []) ∧
    ld_value d = - 75000.
Proof. refine (proc_jiffies_text demo_pk proc_state0 [] _). simpl. lia. Defined.
