(* ===== verification/Mon.v ===== *)
(** * The monitor device [src/mon/mon.c]

    A network device with private wireless ioctls: an integer and a string of
    at most 31 characters can be set and read back.  The ioctl handlers get
    the request block (kernel copy for integers, user pointer for strings);
    user memory and the network core are the record [mon_kernel]. *)

From S2P Require Import Prelude Bytes Nlmsg.

(** ** Commands and tables *)

Definition SIOCIWFIRSTPRIV : Z := 35808.    (* 0x8BE0 *)
Definition IW_PRIV_TYPE_CHAR : Z := 8192.
Definition IW_PRIV_TYPE_INT : Z := 16384.
Definition IW_PRIV_SIZE_FIXED : Z := 2048.
Definition IW_HEADER_TYPE_CHAR : Z := 2.

Definition IOCTL_MON_HELLO : Z := 17.
Definition IOCTL_MON_SET_LOVER : Z := 18.
Definition IOCTL_MON_GET_LOVER : Z := 19.
Definition IOCTL_MON_SET_MAXSTA : Z := 20.
Definition IOCTL_MON_GET_MAXSTA : Z := 21.

Definition IOCTL_SETPARA_MON : Z := SIOCIWFIRSTPRIV + 0.
Definition IOCTL_GETPARA_MON : Z := SIOCIWFIRSTPRIV + 1.
Definition IOCTL_CHAR128_MON : Z := SIOCIWFIRSTPRIV + 2.

Definition IOCTL_CHAR128 : nat := 128.
Definition LOVER_SIZE : nat := 32.

Inductive mon_handler := HSetpara | HGetpara | HChar128.

#[global] Instance mon_handler_eq_dec : EqDecision mon_handler.
Proof. solve_decision. Defined.

(** [iw_handlers_mon], indexed by command number minus [SIOCIWFIRSTPRIV]. *)
Definition iw_handlers_mon : list mon_handler := [HSetpara; HGetpara; HChar128].

Record iw_priv_args := MkArgs { pa_cmd : Z; pa_set : Z; pa_get : Z; pa_name : string }.

Definition int1 : Z := Z.lor (Z.lor IW_PRIV_TYPE_INT IW_PRIV_SIZE_FIXED) 1.
Definition char128 : Z := Z.lor IW_PRIV_TYPE_CHAR 128.
Definition header128 : Z := Z.lor IW_HEADER_TYPE_CHAR 128.

Definition priv_args_mon : list iw_priv_args :=
  [MkArgs IOCTL_SETPARA_MON int1 0 EmptyString;
   MkArgs IOCTL_GETPARA_MON 0 int1 EmptyString;
   MkArgs IOCTL_CHAR128_MON char128 header128 EmptyString;
   MkArgs IOCTL_MON_HELLO char128 header128 "hello";
   MkArgs IOCTL_MON_SET_LOVER char128 header128 "setlover";
   MkArgs IOCTL_MON_GET_LOVER char128 header128 "getlover";
   MkArgs IOCTL_MON_SET_MAXSTA int1 0 "setmaxsta";
   MkArgs IOCTL_MON_GET_MAXSTA 0 int1 "getmaxsta"].

(** ** State, events and kernel *)

(** The fields of [struct net_device] the module writes; operations and
    handler tables by whether they are installed. *)
(** [struct net_device_ops]: the function pointers the modules name, [false]
    for NULL. *)
Record net_device_ops := MkNetOps {
  ndo_open : bool;
  ndo_stop : bool;
  ndo_do_ioctl : bool;
  ndo_start_xmit : bool;
}.

Definition mon_ops : net_device_ops := MkNetOps false false false false.

(** Answers of an interrupt handler. *)
Inductive irqreturn := IRQ_NONE | IRQ_HANDLED.

(** The shared line 16 is never claimed. *)
Definition irq_handler (data : Z) : irqreturn := IRQ_NONE.

Record net_device := MkDev {
  dev_name : list Z;
  dev_addr : list Z;
  destructor : bool;
  netdev_ops : option net_device_ops;
  mtu : Z;
  hard_header_len : Z;
  addr_len : Z;
  tx_queue_len : Z;
  dev_flags : Z;
  dev_type : Z;
  wireless_handlers : bool;
  broadcast : list Z;
}.

Inductive mon_ev :=
| MvKzalloc (ok : bool)
| MvKfree
| MvCopyFrom (left : nat)
| MvCopyTo (left : nat)
| MvHello (msg : list Z)
| MvSetLover (s : list Z)
| MvGetLover (s : list Z)
| MvUnknown
| MvDevGet (found : bool)
| MvDevPut
| MvAlloc (r : option (Z * net_device))
| MvRegister (dev : Z) (d : net_device) (rc : Z)
| MvRequestIrq (dev rc : Z)
| MvUnregister (dev : Z)
| MvFreeIrq (dev : Z).

Record mon_kernel := {
  mk_kzalloc : list mon_ev → bool;
  (* bytes that could not be copied *)
  mk_copy_from_user : list mon_ev → nat → nat;
  mk_copy_to_user : list mon_ev → nat → nat;
  (* whether the kernel may read user memory through the pointer itself *)
  mk_user_direct : list mon_ev → bool;
  mk_dev_get : list mon_ev → bool;
  mk_alloc_etherdev : list mon_ev → option (Z * net_device);
  mk_ether_setup : net_device → net_device;
  mk_register_netdev : list mon_ev → Z;
  mk_request_irq : list mon_ev → Z;
}.

Record mon_state := MkMon { g_maxsta : Z; g_lover : list Z; dev_mon : option Z }.

Definition MM (A : Type) : Type := M mon_kernel mon_state mon_ev A.

Definition set_maxsta (v : Z) (s : mon_state) : mon_state := MkMon v (g_lover s) (dev_mon s).
Definition set_g_lover (v : list Z) (s : mon_state) : mon_state := MkMon (g_maxsta s) v (dev_mon s).
Definition set_dev_mon (v : option Z) (s : mon_state) : mon_state := MkMon (g_maxsta s) (g_lover s) v.

(** [u->data]: length, flags and the user memory at the pointer. *)
Record iw_point := MkPoint { iw_length : Z; iw_flags : Z; iw_user : list Z }.

(** ** Integer ioctls: [extra] is a kernel buffer *)

Definition int_at (off : nat) (extra : list Z) : option Z := s32 <$> field off 4 extra.

Definition ioctl_setpara_mon (extra : list Z) : MM Z :=
  param <- index (int_at 0 extra) ;;
  value <- index (int_at 4 extra) ;;
  if param =? IOCTL_MON_SET_MAXSTA then modify (set_maxsta value) ;; ret 0
  else ret (- EOPNOTSUPP).

Definition ioctl_getpara_mon (extra : list Z) : MM (Z * list Z) :=
  param <- index (int_at 0 extra) ;;
  if param =? IOCTL_MON_GET_MAXSTA then
    v <- get g_maxsta ;;
    extra <- index (splice 0 (le_enc 4 (u32 v)) extra) ;;
    ret (0, extra)
  else ret (- EOPNOTSUPP, extra).

(** ** String ioctls *)

(** The argument is the user pointer itself, read without [copy_from_user]. *)
Definition mon_hello_handler (msg : list Z) : MM unit :=
  ok <- kpeek mk_user_direct ;;
  if negb ok then crash BadPointer else
  s <- index (cstr msg) ;; emit (MvHello s).

Definition set_lover (buf : list Z) : MM unit :=
  b <- index (slice 0 LOVER_SIZE buf) ;;
  modify (set_g_lover b) ;;
  s <- index (cstr b) ;;
  emit (MvSetLover s).

Definition get_lover (buf : list Z) : MM (list Z) :=
  g <- get g_lover ;;
  buf <- index (splice 0 g buf) ;;
  buf <- index (splice (IOCTL_CHAR128 - 1) [0] buf) ;;
  s <- index (cstr g) ;;
  emit (MvGetLover s) ;;
  ret buf.

(** [copy_from_user(dst, user, len)]: the bytes delivered, padded with zeros. *)
Definition user_bytes (left : nat) (user : list Z) (len : nat) : list Z :=
  let got := take (len - left) (take len user) in got ++ replicate (len - length got) 0.

Definition ioctl_char128_mon (u : iw_point) : MM (Z * iw_point) :=
  let len := iw_length u in
  ok <- kcall mk_kzalloc MvKzalloc ;;
  let n := Z.to_nat (if Z.of_nat IOCTL_CHAR128 <? len then Z.of_nat IOCTL_CHAR128 else len) in
  if negb ok then crash NullDeref else
  left <- kcall (λ k t, mk_copy_from_user k t n) MvCopyFrom ;;
  s <- index (splice 0 (user_bytes left (iw_user u) n) (replicate IOCTL_CHAR128 0)) ;;
  s <- index (splice (IOCTL_CHAR128 - 1) [0] s) ;;
  let u := MkPoint (Z.of_nat n) (iw_flags u) (iw_user u) in
  r <- (if iw_flags u =? IOCTL_MON_HELLO then mon_hello_handler (iw_user u) ;; ret (0, u)
        else if iw_flags u =? IOCTL_MON_SET_LOVER then set_lover s ;; ret (0, u)
        else if iw_flags u =? IOCTL_MON_GET_LOVER then
          s <- get_lover s ;;
          l <- index (strlen s) ;;
          let m := S (Z.to_nat l) in
          out <- index (slice 0 m s) ;;
          left <- kcall (λ k t, mk_copy_to_user k t m) MvCopyTo ;;
          let done := take (Nat.min (m - left) (length (iw_user u))) out in
          let u := MkPoint (l + 1) (iw_flags u) (done ++ drop (length done) (iw_user u)) in
          ret (if decide (length done < m)%nat then - EFAULT else 0, u)
        else emit MvUnknown ;; ret (0, u)) ;;
  emit MvKfree ;;
  ret r.

(** ** The device *)

Definition ETH_HLEN : Z := 14.
Definition ETH_ALEN : Z := 6.
Definition IFNAMSIZ : nat := 16.
Definition IFF_BROADCAST : Z := 2.
Definition IFF_MULTICAST : Z := 4096.
Definition ARPHRD_IEEE80211_PRISM : Z := 802.

(** [for (i = 0; i < 6; i++) dev->dev_addr[i] = i;] *)
Fixpoint addr_loop (n : nat) (i : Z) (addr : list Z) : option (list Z) :=
  match n with
  | O => Some addr
  | S n => a ← splice (Z.to_nat i) [u8 i] addr; addr_loop n (i + 1) a
  end.

Definition str_mon : list Z := [109; 111; 110].

(** The device block, from the name to the broadcast address. *)
Definition mon_setup (ether_setup : net_device → net_device) (d : net_device) : option net_device :=
  addr ← addr_loop 6 0 (dev_addr d);
  let d := MkDev (strncpy str_mon IFNAMSIZ) addr (destructor d) (netdev_ops d) (mtu d) (hard_header_len d)
    (addr_len d) (tx_queue_len d) (dev_flags d) (dev_type d) (wireless_handlers d) (broadcast d) in
  let d := ether_setup d in
  bc ← splice 0 (replicate (Z.to_nat ETH_ALEN) 255) (broadcast d);
  Some (MkDev (dev_name d) (dev_addr d) true (Some mon_ops) (16 * 1024 + 20 + 20 + 12) ETH_HLEN ETH_ALEN 0
    (Z.lor IFF_BROADCAST IFF_MULTICAST) ARPHRD_IEEE80211_PRISM true bc).

Definition create_dev_mon : MM Z :=
  found <- kcall mk_dev_get MvDevGet ;;
  if (found : bool) then emit MvDevPut ;; ret 0 else
  dev <- kcall mk_alloc_etherdev MvAlloc ;;
  match dev with
  | None => ret 0
  | Some (a, d) =>
      ether_setup <- kpure mk_ether_setup ;;
      d <- index (mon_setup ether_setup d) ;;
      rc <- kcall mk_register_netdev (MvRegister a d) ;;
      modify (set_dev_mon (Some a)) ;;
      r <- kcall mk_request_irq (MvRequestIrq a) ;;
      ret 0
  end.

Definition delete_dev_mon : MM unit :=
  dev <- get dev_mon ;;
  match dev with
  | None => ret tt
  | Some a =>
      emit (MvUnregister a) ;;
      emit (MvFreeIrq a) ;;
      modify (set_dev_mon None)
  end.

(** The globals at load: [g_maxsta = 1], [g_lover = {0}]. *)
Definition mon_state0 : mon_state := MkMon 1 (replicate LOVER_SIZE 0) None.

(** ** Facts *)

Lemma length_user_bytes left user n : length (user_bytes left user n) = n.
Proof. unfold user_bytes. rewrite length_app, length_replicate, !length_take. lia. Qed.

Lemma user_bytes_full user n : (n ≤ length user)%nat → user_bytes 0 user n = take n user.
Proof.
  intros. unfold user_bytes. rewrite Nat.sub_0_r, take_take, Nat.min_id, length_take, Nat.min_l, Nat.sub_diag by lia.
  apply app_nil_r.
Qed.

(** The kernel copy of the request: the delivered bytes, zeros, and a NUL at
    the end. *)
Lemma mon_buffer left user n :
  (n ≤ 128)%nat →
  ∃ b l, splice 0 (user_bytes left user n) (replicate IOCTL_CHAR128 0) = Some b ∧
    splice (IOCTL_CHAR128 - 1) [0] b = Some (l ++ [0]) ∧ length l = 127%nat ∧
    l = take 127 (user_bytes left user n ++ replicate (128 - n) 0).
Proof.
  intros Hn. set (b := user_bytes left user n ++ replicate (128 - n) 0).
  assert (length b = 128%nat) as Hb.
  { unfold b. rewrite length_app, length_user_bytes, length_replicate. lia. }
  exists b, (take 127 b). split_and!; [| |by rewrite length_take; lia|done].
  - unfold splice, IOCTL_CHAR128. rewrite length_user_bytes, length_replicate, decide_True by lia.
    by rewrite drop_replicate.
  - unfold splice, IOCTL_CHAR128. cbn [length]. rewrite decide_True by lia.
    change (128 - 1)%nat with 127%nat. by rewrite (drop_ge b) by lia.
Qed.

(** [g_lover] holds the string [lover]. *)
Definition lover_is (lover g : list Z) : Prop := length g = LOVER_SIZE ∧ cstr g = Some lover.

Lemma get_lover_ok k s t lover l :
  lover_is lover (g_lover s) → length l = 127%nat →
  ∃ post, get_lover (l ++ [0]) k s t = (Ok (lover ++ 0 :: post), s, t ++ [MvGetLover lover]) ∧
    length (lover ++ 0 :: post) = 128%nat ∧ no_nul lover.
Proof.
  intros [Hg Hc] Hl. unfold get_lover, LOVER_SIZE in *. erewrite bind_ok by reflexivity.
  assert (splice 0 (g_lover s) (l ++ [0]) = Some ((g_lover s ++ drop 32 l) ++ [0])) as ->.
  { unfold splice. rewrite Hg, decide_True by (rewrite length_app, Hl; simpl; lia).
    simpl. by rewrite drop_app_le, app_assoc by lia. }
  erewrite bind_ok by reflexivity. set (b := g_lover s ++ drop 32 l).
  assert (length b = 127%nat) as Hb by (unfold b; rewrite length_app, length_drop; lia).
  assert (splice (IOCTL_CHAR128 - 1) [0] (b ++ [0]) = Some (b ++ [0])) as ->.
  { unfold splice, IOCTL_CHAR128. rewrite decide_True by (rewrite length_app, Hb; simpl; lia).
    change (128 - 1)%nat with 127%nat. rewrite take_app_length' by done.
    rewrite drop_ge; [done|]. rewrite length_app, Hb. simpl. lia. }
  erewrite bind_ok by reflexivity.
  rewrite Hc. do 2 (erewrite bind_ok by reflexivity).
  apply cstr_Some in Hc as (Hn & post & Hg'). exists (post ++ drop 32 l ++ [0]).
  assert (b ++ [0] = lover ++ 0 :: post ++ drop 32 l ++ [0]) as Hbb.
  { unfold b. rewrite Hg'. by rewrite <-!app_assoc, <-app_comm_cons. }
  rewrite Hbb. split_and!; [done| |done]. rewrite <-Hbb, length_app, Hb. done.
Qed.

(** The request a handler of the switch sees. *)
Definition req_len (u : iw_point) : nat :=
  Z.to_nat (if Z.of_nat IOCTL_CHAR128 <? iw_length u then Z.of_nat IOCTL_CHAR128 else iw_length u).

Lemma req_len_bound u : (req_len u ≤ 128)%nat.
Proof. unfold req_len, IOCTL_CHAR128. destruct (_ <? _) eqn:?; zbool; lia. Qed.

(** What the three string commands do with the buffer [l ++ [0]]. *)
Definition char128_result (u : iw_point) (l : list Z) (k : mon_kernel) (s : mon_state) (t : list mon_ev)
    (x : outcome (Z * iw_point) * mon_state * list mon_ev) : Prop :=
  if iw_flags u =? IOCTL_MON_HELLO then
    if mk_user_direct k t then
      match cstr (iw_user u) with
      | Some m => ∃ r, x = (Ok (0, r), s, t ++ [MvHello m; MvKfree])
      | None => x = (Crash OutOfBounds, s, t)
      end
    else x = (Crash BadPointer, s, t)
  else if iw_flags u =? IOCTL_MON_SET_LOVER then
    let g := take 32 l in
    match cstr g with
    | Some m => ∃ r, x = (Ok (0, r), set_g_lover g s, t ++ [MvSetLover m; MvKfree])
    | None => x = (Crash OutOfBounds, set_g_lover g s, t)
    end
  else if iw_flags u =? IOCTL_MON_GET_LOVER then
    ∀ lover, lover_is lover (g_lover s) →
      let m := S (length lover) in
      let left := mk_copy_to_user k (t ++ [MvGetLover lover]) m in
      let n := Nat.min (m - left) (length (iw_user u)) in
      x = (Ok (if decide (n < m)%nat then - EFAULT else 0,
               MkPoint (Z.of_nat m) (iw_flags u) (take n (lover ++ [0]) ++ drop n (iw_user u))),
           s, t ++ [MvGetLover lover; MvCopyTo left; MvKfree])
  else ∃ r, x = (Ok (0, r), s, t ++ [MvUnknown; MvKfree]).

Lemma ioctl_char128_cases k u s t :
  mk_kzalloc k t = true →
  let left := mk_copy_from_user k (t ++ [MvKzalloc true]) (req_len u) in
  char128_result u (take 127 (user_bytes left (iw_user u) (req_len u) ++ replicate (128 - req_len u) 0)) k s
    (t ++ [MvKzalloc true; MvCopyFrom left]) (ioctl_char128_mon u k s t).
Proof.
  intros Hz left. unfold ioctl_char128_mon. cbv zeta. fold (req_len u).
  erewrite bind_ok by reflexivity. rewrite Hz. change (negb true) with false. cbv iota.
  erewrite bind_ok by reflexivity. fold left.
  destruct (mon_buffer left (iw_user u) (req_len u) (req_len_bound u)) as (b & l & -> & Hb & Hl & Heq).
  erewrite bind_ok by reflexivity. rewrite Hb. erewrite bind_ok by reflexivity. rewrite <-Heq.
  cbn [iw_flags iw_user]. rewrite <-app_assoc. cbn [app].
  set (t1 := t ++ [_; _]).
  unfold char128_result. destruct (iw_flags u =? IOCTL_MON_HELLO).
  { unfold mon_hello_handler. mstep. destruct (mk_user_direct k t1); [|done]. simpl.
    destruct (cstr (iw_user u)) as [m|]; [|done].
    mstep. eexists. by rewrite <-app_assoc. }
  destruct (iw_flags u =? IOCTL_MON_SET_LOVER).
  { cbv zeta. unfold set_lover.
    assert (slice 0 LOVER_SIZE (l ++ [0]) = Some (take 32 l)) as ->.
    { unfold slice, LOVER_SIZE. rewrite decide_True by (rewrite length_app; simpl; lia).
      rewrite drop_0. by rewrite take_app_le by lia. }
    mstep. destruct (cstr (take 32 l)) as [m|]; mstep; [|done]. eexists. by rewrite <-app_assoc. }
  destruct (iw_flags u =? IOCTL_MON_GET_LOVER).
  { intros lover Hlov. cbv zeta. rewrite bind_assoc.
    destruct (get_lover_ok k s t1 lover l Hlov Hl) as (post & E & Hlen & Hnn). mrun E.
    assert (strlen (lover ++ 0 :: post) = Some (Z.of_nat (length lover))) as ->.
    { unfold strlen. by rewrite cstr_app. }
    rewrite bind_assoc. erewrite bind_ok by reflexivity. rewrite Nat2Z.id.
    assert (slice 0 (S (length lover)) (lover ++ 0 :: post) = Some (lover ++ [0])) as ->.
    { rewrite cons_middle, app_assoc. apply slice_0_app. rewrite length_app. simpl. lia. }
    mstep. set (left2 := mk_copy_to_user _ _ _). set (n := Nat.min _ _).
    assert (length (take n (lover ++ [0])) = n) as Hn.
    { rewrite length_take, length_app. subst n. simpl. lia. }
    rewrite Hn, <-!app_assoc. replace (Z.of_nat (length lover) + 1) with (Z.of_nat (S (length lover))) by lia.
    done. }
  mstep. eexists. by rewrite <-app_assoc.
Qed.

(** Allocations of the request buffer not freed yet. *)
Definition held_ev (e : mon_ev) : Z := match e with MvKzalloc true => 1 | MvKfree => -1 | _ => 0 end.
Definition held (t : list mon_ev) : Z := foldr (λ e n, held_ev e + n) 0 t.

Lemma held_app t t' : held (t ++ t') = held t + held t'.
Proof. induction t as [|e t IH]; simpl; lia. Qed.

Ltac held_done := rewrite !held_app; split_and!; [eauto|done|simpl; lia].

(** ** Properties *)

(** C36: string requests, whatever their length, flags and contents, whatever
    the user's memory holds and whatever part of it is delivered.  While the
    stored string is terminated, the handler either returns with its buffer
    freed, the stored string terminated and the integer untouched, or it faults
    in one of four ways: the allocation failed, which is not checked; hello
    reads user memory through the raw pointer where the kernel may not, or
    where it holds no NUL; a string to store has no NUL in its first 32 bytes
    and is read beyond its end. *)
Theorem mon_char128_safe k u s t lover :
  lover_is lover (g_lover s) →
  match ioctl_char128_mon u k s t with
  | (Ok _, s', t') =>
      (∃ lover', lover_is lover' (g_lover s')) ∧ g_maxsta s' = g_maxsta s ∧ held t' = held t
  | (Crash f, s', t') =>
      f = NullDeref ∧ mk_kzalloc k t = false ∧ s' = s ∨
      f = BadPointer ∧ iw_flags u = IOCTL_MON_HELLO ∧ mk_user_direct k t' = false ∧ s' = s ∨
      f = OutOfBounds ∧ iw_flags u = IOCTL_MON_HELLO ∧ no_nul (iw_user u) ∧ s' = s ∨
      f = OutOfBounds ∧ iw_flags u = IOCTL_MON_SET_LOVER ∧ no_nul (g_lover s')
  end.
Proof.
  intros Hlov. destruct (mk_kzalloc k t) eqn:Hz.
  2:{ unfold ioctl_char128_mon. cbv zeta. erewrite bind_ok by reflexivity. rewrite Hz. by left. }
  pose proof (ioctl_char128_cases k u s t Hz) as Hr. cbv zeta in Hr.
  set (left := mk_copy_from_user _ _ _) in Hr. set (l := take 127 _) in Hr.
  assert (length (take 32 l) = LOVER_SIZE) as Hl.
  { unfold l. rewrite !length_take, length_app, length_user_bytes, length_replicate.
    pose proof (req_len_bound u). unfold LOVER_SIZE. lia. }
  unfold char128_result in Hr.
  destruct (iw_flags u =? IOCTL_MON_HELLO) eqn:Hh; zbool.
  { destruct (mk_user_direct k _) eqn:Hd; [|rewrite Hr; by right; left].
    destruct (cstr (iw_user u)) as [m|] eqn:Hm; [destruct Hr as [r ->]; held_done|].
    rewrite Hr. do 2 right. left. split_and!; [done|done|by apply cstr_None|done]. }
  destruct (iw_flags u =? IOCTL_MON_SET_LOVER) eqn:Hset; zbool.
  { cbv zeta in Hr. destruct (cstr (take 32 l)) as [m'|] eqn:Hc.
    - destruct Hr as [r ->]. assert (lover_is m' (take 32 l)) by done. held_done.
    - rewrite Hr. do 3 right. split_and!; [done|done|by apply cstr_None]. }
  destruct (iw_flags u =? IOCTL_MON_GET_LOVER).
  { rewrite (Hr lover Hlov). held_done. }
  destruct Hr as [r ->]. held_done.
Qed.

(** User memory is readable and writable and the allocation succeeds. *)
Record mon_ok (k : mon_kernel) : Prop := {
  mok_kzalloc : ∀ t, mk_kzalloc k t = true;
  mok_from : ∀ t n, mk_copy_from_user k t n = 0%nat;
  mok_to : ∀ t n, mk_copy_to_user k t n = 0%nat;
  mok_direct : ∀ t, mk_user_direct k t = true;
}.

Lemma set_lover_ok k lover rest s t :
  mon_ok k → no_nul lover → (length lover < 32)%nat →
  ∃ r t', ioctl_char128_mon
      (MkPoint (Z.of_nat (length lover) + 1) IOCTL_MON_SET_LOVER (lover ++ 0 :: rest)) k s t =
      (Ok (0, r), set_g_lover (lover ++ replicate (32 - length lover) 0) s, t').
Proof.
  intros Hk Hn Hl. set (u := MkPoint _ _ _).
  assert (req_len u = S (length lover)) as Hlen.
  { unfold req_len, IOCTL_CHAR128, u. cbn [iw_length]. rewrite (proj2 (Z.ltb_ge _ _)) by lia. lia. }
  pose proof (ioctl_char128_cases k u s t (mok_kzalloc k Hk t)) as Hr. cbv zeta in Hr.
  rewrite mok_from, Hlen, user_bytes_full in Hr by (done || (unfold u; simpl; rewrite length_app; simpl; lia)).
  assert (take 32 (take 127 (take (S (length lover)) (iw_user u) ++ replicate (128 - S (length lover)) 0)) =
    lover ++ replicate (32 - length lover) 0) as Hg.
  { rewrite take_take. change (32 `min` 127)%nat with 32%nat. unfold u. cbn [iw_user].
    assert (take (S (length lover)) (lover ++ 0 :: rest) = lover ++ [0]) as ->.
    { rewrite cons_middle, app_assoc. apply take_app_length'. rewrite length_app. simpl. lia. }
    rewrite <-app_assoc, take_app_ge by lia. f_equal.
    change ([0] ++ replicate (128 - S (length lover)) 0) with (replicate (S (128 - S (length lover))) 0).
    rewrite take_replicate. f_equal. lia. }
  unfold char128_result in Hr. cbv zeta in Hr. rewrite Hg in Hr. cbn [iw_flags u] in Hr.
  change (IOCTL_MON_SET_LOVER =? IOCTL_MON_HELLO) with false in Hr.
  change (IOCTL_MON_SET_LOVER =? IOCTL_MON_SET_LOVER) with true in Hr. cbv iota in Hr.
  destruct (32 - length lover)%nat eqn:H32; [lia|]. cbn [replicate] in *.
  rewrite cstr_app in Hr by done. destruct Hr as [r Hr]. eauto.
Qed.

(** C21: a stored string is read back.  Once a string of fewer than 32
    characters was stored, any later read request, with any length and buffer
    contents, succeeds with exactly that string and its terminator, the new
    length counting both, and the rest of the reader's memory untouched. *)
Theorem mon_lover_roundtrip k lover rest s t :
  mon_ok k → no_nul lover → (length lover < 32)%nat →
  ∃ r s' t', ioctl_char128_mon
      (MkPoint (Z.of_nat (length lover) + 1) IOCTL_MON_SET_LOVER (lover ++ 0 :: rest)) k s t = (Ok (0, r), s', t') ∧
    ∀ len user t1, (length lover < length user)%nat → ∃ t2,
      ioctl_char128_mon (MkPoint len IOCTL_MON_GET_LOVER user) k s' t1 =
      (Ok (0, MkPoint (Z.of_nat (length lover) + 1) IOCTL_MON_GET_LOVER
        (lover ++ 0 :: drop (S (length lover)) user)), s', t2).
Proof.
  intros Hk Hn Hl. destruct (set_lover_ok k lover rest s t Hk Hn Hl) as (r & t' & E).
  eexists r, _, t'. split; [exact E|]. intros len user t1 Hu. set (s' := set_g_lover _ s).
  assert (lover_is lover (g_lover s')) as Hlov.
  { split; simpl; [rewrite length_app, length_replicate; unfold LOVER_SIZE; lia|].
    destruct (32 - length lover)%nat eqn:?; [lia|]. by apply cstr_app. }
  pose proof (ioctl_char128_cases k (MkPoint len IOCTL_MON_GET_LOVER user) s' t1 (mok_kzalloc k Hk t1)) as Hr.
  cbv zeta in Hr. unfold char128_result in Hr. cbn [iw_flags iw_user] in Hr.
  change (IOCTL_MON_GET_LOVER =? IOCTL_MON_HELLO) with false in Hr.
  change (IOCTL_MON_GET_LOVER =? IOCTL_MON_SET_LOVER) with false in Hr.
  change (IOCTL_MON_GET_LOVER =? IOCTL_MON_GET_LOVER) with true in Hr. cbv iota in Hr.
  rewrite (Hr lover Hlov). cbv zeta. rewrite (mok_to k Hk), Nat.sub_0_r, Nat.min_l by lia.
  rewrite decide_False by lia. rewrite take_ge by (rewrite length_app; simpl; lia).
  replace (Z.of_nat (length lover) + 1) with (Z.of_nat (S (length lover))) by lia.
  eexists. by rewrite <-app_assoc.
Qed.

(** A string of 32 characters or more is stored without a terminator and
    printing it reads beyond [g_lover]. *)
Theorem mon_lover_long k lover rest s t :
  mon_ok k → no_nul lover → (32 ≤ length lover ≤ 127)%nat →
  ∃ t', ioctl_char128_mon
      (MkPoint (Z.of_nat (length lover) + 1) IOCTL_MON_SET_LOVER (lover ++ 0 :: rest)) k s t =
      (Crash OutOfBounds, set_g_lover (take 32 lover) s, t').
Proof.
  intros Hk Hn Hl. set (u := MkPoint _ _ _).
  assert (req_len u = S (length lover)) as Hlen.
  { unfold req_len, IOCTL_CHAR128, u. cbn [iw_length]. rewrite (proj2 (Z.ltb_ge _ _)) by lia. lia. }
  pose proof (ioctl_char128_cases k u s t (mok_kzalloc k Hk t)) as Hr. cbv zeta in Hr.
  rewrite mok_from, Hlen, user_bytes_full in Hr by (done || (unfold u; simpl; rewrite length_app; simpl; lia)).
  assert (take 32 (take 127 (take (S (length lover)) (iw_user u) ++ replicate (128 - S (length lover)) 0)) =
    take 32 lover) as Hg.
  { rewrite take_take. change (32 `min` 127)%nat with 32%nat. unfold u. cbn [iw_user].
    rewrite take_app_le by (rewrite length_take, length_app; cbn [length]; lia).
    rewrite take_take, Nat.min_l by lia. by rewrite take_app_le by lia. }
  unfold char128_result in Hr. cbv zeta in Hr. rewrite Hg in Hr. cbn [iw_flags u] in Hr.
  change (IOCTL_MON_SET_LOVER =? IOCTL_MON_HELLO) with false in Hr.
  change (IOCTL_MON_SET_LOVER =? IOCTL_MON_SET_LOVER) with true in Hr. cbv iota in Hr.
  rewrite (proj2 (cstr_None _)) in Hr by (by apply Forall_take). eauto.
Qed.

Lemma int_at_front z rest : - 2 ^ 31 ≤ z < 2 ^ 31 → int_at 0 (le_enc 4 (u32 z) ++ rest) = Some z.
Proof.
  intros Hz. unfold int_at. rewrite (field_front 4 4) by (done || lia || apply u32_range). simpl.
  by rewrite s32_u32, s32_small.
Qed.

(** The integer ioctls.  A value set with [IOCTL_MON_SET_MAXSTA] is the
    one every later [IOCTL_MON_GET_MAXSTA] returns in the first integer of its
    block, leaving the rest of the block alone; any other parameter is
    answered with [-EOPNOTSUPP] and changes nothing. *)
Theorem mon_maxsta_roundtrip k p v rest s t :
  - 2 ^ 31 ≤ p < 2 ^ 31 → - 2 ^ 31 ≤ v < 2 ^ 31 →
  let set_block := le_enc 4 (u32 p) ++ le_enc 4 (u32 v) in
  let get_block := le_enc 4 (u32 p) ++ rest in
  ioctl_setpara_mon set_block k s t =
    (if p =? IOCTL_MON_SET_MAXSTA then (Ok 0, set_maxsta v s, t) else (Ok (- EOPNOTSUPP), s, t)) ∧
  ∃ r block, ioctl_getpara_mon get_block k (set_maxsta v s) t = (Ok (r, block), set_maxsta v s, t) ∧
    if p =? IOCTL_MON_GET_MAXSTA then r = 0 ∧ int_at 0 block = Some v ∧ drop 4 block = rest
    else r = - EOPNOTSUPP ∧ block = get_block.
Proof.
  intros Hp Hv. cbv zeta. split.
  - unfold ioctl_setpara_mon. rewrite int_at_front by done. erewrite bind_ok by reflexivity.
    assert (int_at 4 (le_enc 4 (u32 p) ++ le_enc 4 (u32 v)) = Some v) as ->.
    { rewrite <-(app_nil_r (le_enc 4 (u32 v))). unfold int_at.
      rewrite (field_app 4 4 4 (le_enc 4 (u32 p))) by (rewrite ?length_le_enc; done || lia || apply u32_range).
      simpl. by rewrite s32_u32, s32_small. }
    erewrite bind_ok by reflexivity. by destruct (p =? _).
  - unfold ioctl_getpara_mon. rewrite int_at_front by done. erewrite bind_ok by reflexivity.
    destruct (p =? IOCTL_MON_GET_MAXSTA); [|by eexists _, _].
    erewrite bind_ok by reflexivity. simpl g_maxsta.
    assert (splice 0 (le_enc 4 (u32 v)) (le_enc 4 (u32 p) ++ rest) = Some (le_enc 4 (u32 v) ++ rest)) as ->.
    { unfold splice. rewrite !length_app, !length_le_enc, decide_True by lia.
      rewrite drop_app_length' by (by rewrite length_le_enc). done. }
    erewrite bind_ok by reflexivity. eexists _, _. split; [reflexivity|].
    split_and!; [done|by apply int_at_front|]. by rewrite drop_app_length' by (by rewrite length_le_enc).
Qed.

(** ** The device *)

Lemma addr_loop_6 addr :
  (6 ≤ length addr)%nat → addr_loop 6 0 addr = Some ([0; 1; 2; 3; 4; 5] ++ drop 6 addr).
Proof. intros Hl. do 6 (destruct addr as [|? addr]; [simpl in Hl; lia|]). reflexivity. Qed.

(** What the network core promises: an allocated device has room for the
    addresses, and [ether_setup] keeps name and address. *)
Record mon_net_ok (k : mon_kernel) : Prop := {
  mno_alloc : ∀ t a d, mk_alloc_etherdev k t = Some (a, d) → (6 ≤ length (dev_addr d))%nat;
  mno_name : ∀ d, dev_name (mk_ether_setup k d) = dev_name d;
  mno_addr : ∀ d, dev_addr (mk_ether_setup k d) = dev_addr d;
  mno_bc : ∀ d, (6 ≤ length (broadcast (mk_ether_setup k d)))%nat;
}.

Lemma mon_setup_ok k d :
  mon_net_ok k → (6 ≤ length (dev_addr d))%nat →
  ∃ d', mon_setup (mk_ether_setup k) d = Some d' ∧
    cstr (dev_name d') = Some str_mon ∧ take 6 (dev_addr d') = [0; 1; 2; 3; 4; 5] ∧
    take 6 (broadcast d') = replicate 6 255 ∧ mtu d' = 16436 ∧ wireless_handlers d' = true.
Proof.
  intros Hk Hd. unfold mon_setup. rewrite addr_loop_6 by done. cbn [mbind option_bind]. cbv zeta.
  set (d1 := mk_ether_setup k _). pose proof (mno_bc k Hk) as Hbc.
  assert (splice 0 (replicate (Z.to_nat ETH_ALEN) 255) (broadcast d1) =
    Some (replicate 6 255 ++ drop 6 (broadcast d1))) as Hs.
  { unfold splice. rewrite decide_True by apply Hbc. done. }
  rewrite Hs. cbn [mbind option_bind]. eexists. split; [reflexivity|].
  cbn [dev_name dev_addr broadcast mtu wireless_handlers]. split_and!; try done.
  - unfold d1. by rewrite (mno_name k Hk).
  - unfold d1. by rewrite (mno_addr k Hk).
Qed.

(** Loading and unloading.  When no device "mon" exists and one can be
    allocated, loading registers a device named "mon" with address
    00:01:02:03:04:05, the all-ones broadcast address and an MTU of 16436 and
    requests its interrupt; unloading unregisters that same device and frees
    its interrupt, once.  Both happen whatever [register_netdev] and
    [request_irq] answer: their failure is not acted on. *)
Theorem mon_device_lifecycle k a d s t :
  mon_net_ok k → mk_dev_get k t = false → mk_alloc_etherdev k (t ++ [MvDevGet false]) = Some (a, d) →
  ∃ s' d' rc1 rc2, create_dev_mon k s t = (Ok 0, s',
      t ++ [MvDevGet false; MvAlloc (Some (a, d)); MvRegister a d' rc1; MvRequestIrq a rc2]) ∧
    cstr (dev_name d') = Some str_mon ∧ take 6 (dev_addr d') = [0; 1; 2; 3; 4; 5] ∧
    take 6 (broadcast d') = replicate 6 255 ∧ mtu d' = 16436 ∧ wireless_handlers d' = true ∧
    ∀ t1, delete_dev_mon k s' t1 = (Ok tt, set_dev_mon None s', t1 ++ [MvUnregister a; MvFreeIrq a]) ∧
      ∀ t2, delete_dev_mon k (set_dev_mon None s') t2 = (Ok tt, set_dev_mon None s', t2).
Proof.
  intros Hk Hget Halloc. unfold create_dev_mon. erewrite bind_ok by reflexivity. rewrite Hget. cbv iota.
  erewrite bind_ok by reflexivity. rewrite Halloc. cbv iota.
  destruct (mon_setup_ok k d Hk) as (d' & Hd & Hprops); [by eapply mno_alloc|].
  erewrite bind_ok by reflexivity. rewrite Hd. erewrite bind_ok by reflexivity.
  do 3 (erewrite bind_ok by reflexivity).
  eexists _, d', _, _. split; [rewrite <-!app_assoc; reflexivity|].
  destruct Hprops as (H1 & H2 & H3 & H4 & H5). split_and!; [done..|].
  intros t1. split; [|done]. unfold delete_dev_mon. erewrite bind_ok by reflexivity. cbn [dev_mon set_dev_mon].
  do 2 (erewrite bind_ok by reflexivity). by rewrite <-app_assoc.
Qed.

(** Running a sub-command through a handler: whether the handler knows it. *)
Definition mon_knows (k : mon_kernel) (h : mon_handler) (sub : Z) : bool :=
  match h with
  | HSetpara => match (ioctl_setpara_mon (le_enc 4 sub ++ le_enc 4 7) k mon_state0 []).1.1 with
      Ok r => r =? 0 | _ => false end
  | HGetpara => match (ioctl_getpara_mon (le_enc 4 sub) k mon_state0 []).1.1 with
      Ok r => r.1 =? 0 | _ => false end
  | HChar128 =>
      let r := ioctl_char128_mon (MkPoint 3 sub [104; 105; 0; 0]) k mon_state0 [] in
      match r.1.1 with
      | Ok a => (a.1 =? 0) && forallb (λ e, match e with MvUnknown => false | _ => true end) r.2
      | _ => false
      end
  end.

(** The unnamed entry a named sub-command is sent through: the one with the
    same argument descriptions. *)
Definition mon_route (e : iw_priv_args) : option mon_handler :=
  c ← list_find (λ e', pa_name e' = EmptyString ∧ pa_set e' = pa_set e ∧ pa_get e' = pa_get e) priv_args_mon;
  iw_handlers_mon !! Z.to_nat (pa_cmd c.2 - SIOCIWFIRSTPRIV).

Lemma mon_knows_spec k h sub :
  mon_ok k → 0 ≤ sub < 2 ^ 31 →
  mon_knows k h sub = match h with
    | HSetpara => sub =? IOCTL_MON_SET_MAXSTA
    | HGetpara => sub =? IOCTL_MON_GET_MAXSTA
    | HChar128 => (sub =? IOCTL_MON_HELLO) || (sub =? IOCTL_MON_SET_LOVER) || (sub =? IOCTL_MON_GET_LOVER)
    end.
Proof.
  intros Hk Hs. assert (u32 sub = sub) as Hu by (apply u32_small; lia).
  destruct h; unfold mon_knows.
  - unfold ioctl_setpara_mon. rewrite <-Hu, int_at_front, Hu by lia. erewrite bind_ok by reflexivity.
    change (le_enc 4 7) with (le_enc 4 7 ++ []). unfold int_at.
    rewrite (field_app 4 4 4 (le_enc 4 sub)) by (rewrite ?length_le_enc; done || lia).
    simpl. by destruct (sub =? _).
  - unfold ioctl_getpara_mon. rewrite <-(app_nil_r (le_enc 4 sub)), <-Hu, int_at_front, Hu by lia.
    erewrite bind_ok by reflexivity. destruct (sub =? _); [|done].
    erewrite bind_ok by reflexivity. unfold splice.
    rewrite !length_app, !length_le_enc, decide_True by lia. done.
  - pose proof (ioctl_char128_cases k (MkPoint 3 sub [104; 105; 0; 0]) mon_state0 [] (mok_kzalloc k Hk [])) as Hr.
    cbv zeta in Hr |- *. rewrite (mok_from k Hk) in Hr. unfold char128_result in Hr. rewrite (mok_direct k Hk) in Hr. cbn [iw_flags iw_user] in Hr.
    destruct (sub =? IOCTL_MON_HELLO); [by destruct Hr as [r ->]|].
    destruct (sub =? IOCTL_MON_SET_LOVER); [by destruct Hr as [r ->]|].
    destruct (sub =? IOCTL_MON_GET_LOVER); [|by destruct Hr as [r ->]].
    rewrite (Hr [] ltac:(done)). by rewrite (mok_to k Hk).
Qed.

(** The ioctl tables agree with the handlers.  Every named sub-command
    has an unnamed entry with the same argument descriptions, and the handler
    installed for that entry knows the sub-command; no other command number in
    the sub-command range is known to any handler. *)
Theorem mon_subcommands_routed k :
  mon_ok k →
  Forall (λ e, pa_name e = EmptyString ∨ ∃ h, mon_route e = Some h ∧ mon_knows k h (pa_cmd e) = true) priv_args_mon ∧
  ∀ h sub, 0 ≤ sub < 2 ^ 31 → mon_knows k h sub = true →
    ∃ e, e ∈ priv_args_mon ∧ pa_cmd e = sub ∧ pa_name e ≠ EmptyString ∧ mon_route e = Some h.
Proof.
  intros Hk. split.
  - repeat (apply Forall_cons; split); [by left|by left|by left|..|done];
      right; eexists; (split; [vm_compute; reflexivity|]); by rewrite mon_knows_spec.
  - intros h sub Hs Hknows. rewrite mon_knows_spec in Hknows by done.
    destruct h; rewrite ?orb_true_iff, ?Z.eqb_eq in Hknows.
    + exists (MkArgs IOCTL_MON_SET_MAXSTA int1 0 "setmaxsta"). subst. split_and!; [|done..]. set_solver.
    + exists (MkArgs IOCTL_MON_GET_MAXSTA 0 int1 "getmaxsta"). subst. split_and!; [|done..]. set_solver.
    + destruct Hknows as [[-> | ->]| ->].
      * exists (MkArgs IOCTL_MON_HELLO char128 header128 "hello"). split_and!; [|done..]. set_solver.
      * exists (MkArgs IOCTL_MON_SET_LOVER char128 header128 "setlover"). split_and!; [|done..]. set_solver.
      * exists (MkArgs IOCTL_MON_GET_LOVER char128 header128 "getlover"). split_and!; [|done..]. set_solver.
Qed.

(** ** Witnesses *)

Definition demo_dev : net_device :=
  MkDev (replicate 16 0) (replicate 32 0) false None 1500 14 6 1000 4098 1 false (replicate 32 0).

Definition demo_mk : mon_kernel := {|
  mk_kzalloc _ := true;
  mk_copy_from_user _ _ := 0%nat;
  mk_copy_to_user _ _ := 0%nat;
  mk_user_direct _ := true;
  mk_dev_get _ := false;
  mk_alloc_etherdev _ := Some (100, demo_dev);
  mk_ether_setup d := MkDev (dev_name d) (dev_addr d) (destructor d) (netdev_ops d) 1500 14 6 1000 4098 1
    (wireless_handlers d) (replicate 32 255);
  mk_register_netdev _ := 0;
  mk_request_irq _ := 0;
|}.

Lemma demo_mon_ok : mon_ok demo_mk.
Proof. by split. Qed.

Lemma demo_mon_net_ok : mon_net_ok demo_mk.
Proof. split; simpl; intros; simplify_eq; simpl; lia || done. Qed.

Lemma mon_char128_safe_witness :
  let x := ioctl_char128_mon (MkPoint 200 IOCTL_MON_SET_LOVER [97; 98; 0]) demo_mk mon_state0 [] in
  match x with
  | (Ok _, s', t') =>
      (∃ lover', lover_is lover' (g_lover s')) ∧ g_maxsta s' = g_maxsta mon_state0 ∧ held t' = held []
  | (Crash f, s', t') =>
      f = NullDeref ∧ mk_kzalloc demo_mk [] = false ∧ s' = mon_state0 ∨
      f = BadPointer ∧ IOCTL_MON_SET_LOVER = IOCTL_MON_HELLO ∧ mk_user_direct demo_mk t' = false ∧ s' = mon_state0 ∨
      f = OutOfBounds ∧ IOCTL_MON_SET_LOVER = IOCTL_MON_HELLO ∧ no_nul [97; 98; 0] ∧ s' = mon_state0 ∨
      f = OutOfBounds ∧ IOCTL_MON_SET_LOVER = IOCTL_MON_SET_LOVER ∧ no_nul (g_lover s')
  end ∧ take 3 (g_lover x.1.2) = [97; 98; 0].
Proof.
  split; [|vm_compute; reflexivity].
  refine (mon_char128_safe demo_mk (MkPoint 200 IOCTL_MON_SET_LOVER [97; 98; 0]) mon_state0 [] [] _). done.
Defined.

Lemma mon_lover_roundtrip_witness :
  ∃ r s' t', ioctl_char128_mon (MkPoint 3 IOCTL_MON_SET_LOVER [97; 98; 0; 99]) demo_mk mon_state0 [] =
      (Ok (0, r), s', t') ∧
    ∀ len user t1, (2 < length user)%nat → ∃ t2,
      ioctl_char128_mon (MkPoint len IOCTL_MON_GET_LOVER user) demo_mk s' t1 =
      (Ok (0, MkPoint 3 IOCTL_MON_GET_LOVER ([97; 98] ++ 0 :: drop 3 user)), s', t2).
Proof.
  refine (mon_lover_roundtrip demo_mk [97; 98] [99] mon_state0 [] demo_mon_ok _ _);
    [repeat constructor; lia|simpl; lia].
Defined.

Lemma mon_lover_long_witness :
  ∃ t', ioctl_char128_mon
      (MkPoint (Z.of_nat (length (replicate 40 97)) + 1) IOCTL_MON_SET_LOVER (replicate 40 97 ++ [0]))
      demo_mk mon_state0 [] =
      (Crash OutOfBounds, set_g_lover (take 32 (replicate 40 97)) mon_state0, t').
Proof.
  refine (mon_lover_long demo_mk (replicate 40 97) [] mon_state0 [] demo_mon_ok _ _);
    [repeat constructor; lia|simpl; lia].
Defined.

Lemma mon_maxsta_roundtrip_witness :
  let set_block := le_enc 4 (u32 20) ++ le_enc 4 (u32 123) in
  let get_block := le_enc 4 (u32 20) ++ [] in
  ioctl_setpara_mon set_block demo_mk mon_state0 [] = (Ok 0, set_maxsta 123 mon_state0, []) ∧
  ∃ r block, ioctl_getpara_mon get_block demo_mk (set_maxsta 123 mon_state0) [] =
      (Ok (r, block), set_maxsta 123 mon_state0, []) ∧ r = - EOPNOTSUPP ∧ block = get_block.
Proof. refine (mon_maxsta_roundtrip demo_mk 20 123 [] mon_state0 [] _ _); lia. Defined.

Lemma mon_device_lifecycle_witness :
  ∃ s' d' rc1 rc2, create_dev_mon demo_mk mon_state0 [] = (Ok 0, s',
      [] ++ [MvDevGet false; MvAlloc (Some (100, demo_dev)); MvRegister 100 d' rc1; MvRequestIrq 100 rc2]) ∧
    cstr (dev_name d') = Some str_mon ∧ take 6 (dev_addr d') = [0; 1; 2; 3; 4; 5] ∧
    take 6 (broadcast d') = replicate 6 255 ∧ mtu d' = 16436 ∧ wireless_handlers d' = true ∧
    ∀ t1, delete_dev_mon demo_mk s' t1 = (Ok tt, set_dev_mon None s', t1 ++ [MvUnregister 100; MvFreeIrq 100]) ∧
      ∀ t2, delete_dev_mon demo_mk (set_dev_mon None s') t2 = (Ok tt, set_dev_mon None s', t2).
Proof. exact (mon_device_lifecycle demo_mk 100 demo_dev mon_state0 [] demo_mon_net_ok eq_refl eq_refl). Defined.

Lemma mon_subcommands_routed_witness :
  Forall (λ e, pa_name e = EmptyString ∨ ∃ h, mon_route e = Some h ∧ mon_knows demo_mk h (pa_cmd e) = true)
    priv_args_mon ∧
  ∀ h sub, 0 ≤ sub < 2 ^ 31 → mon_knows demo_mk h sub = true →
    ∃ e, e ∈ priv_args_mon ∧ pa_cmd e = sub ∧ pa_name e ≠ EmptyString ∧ mon_route e = Some h.
Proof. exact (mon_subcommands_routed demo_mk demo_mon_ok). Defined.
