(* ===== verification/Workqueue.v ===== *)
(** * The work queue demo [src/tasklet_workqueue/myworkqueue.c]

    [wq_init] allocates two work items and queues them on its own work queue;
    worker threads print each item and free it, concurrently with the rest of
    [wq_init] and, since the queue has a worker on every CPU, with each other.
    The model interleaves the statements of [wq_init] and [wq_exit] with those
    of the handlers of [my_wq] and of the system work queue, which runs the
    static item [work3]. *)

From S2P Require Import Prelude Bytes Nlmsg.

(** [my_work_t] without its linkage: the field [x], [None] while it holds
    whatever [kmalloc] left there. *)
Definition my_work_t : Type := option Z.

(** The point [wq_init] (then [wq_exit]) has reached. *)
Inductive wq_pc :=
| PCreate      (* create_workqueue *)
| PAlloc1      (* work = kmalloc *)
| PQueue1      (* INIT_WORK(work), work->x = 1, queue_work *)
| PAlloc2      (* work2 = kmalloc *)
| PStore       (* INIT_WORK(work2), work->x = 2 *)
| PQueue2      (* queue_work(work2) *)
| PSched       (* INIT_WORK(work3), schedule_work *)
| PReturn (r : Z)
| PUnloaded.   (* wq_exit has returned *)

(** How far an item is: waiting in the queue, its handler about to load [x],
    to print what it loaded, to free the item, and done. *)
Inductive stage := JQueued | JLoad | JPrint (x : my_work_t) | JFree | JDone.

(** The same for [work3], whose handler only prints. *)
Inductive sys_stage := SIdle | SPending | SPrint | SDone.

Record wq := MkWq {
  pc : wq_pc;
  heap : gmap Z my_work_t;
  work : option Z;
  work2 : option Z;
  my_wq : list (Z * stage);     (* the items queued so far, in order *)
  work3 : sys_stage;
  printed : list my_work_t;     (* what my_wq_func printed *)
  failure : option fault;
}.

Definition wq0 : wq := MkWq PCreate ∅ None None [] SIdle [] None.

Definition at_pc (p : wq_pc) (s : wq) : wq :=
  MkWq p (heap s) (work s) (work2 s) (my_wq s) (work3 s) (printed s) (failure s).
Definition fails (f : fault) (s : wq) : wq :=
  MkWq (pc s) (heap s) (work s) (work2 s) (my_wq s) (work3 s) (printed s) (Some f).
Definition set_items (l : list (Z * stage)) (s : wq) : wq :=
  MkWq (pc s) (heap s) (work s) (work2 s) l (work3 s) (printed s) (failure s).
Definition set_work3 (v : sys_stage) (s : wq) : wq :=
  MkWq (pc s) (heap s) (work s) (work2 s) (my_wq s) v (printed s) (failure s).
Definition set_heap (h : gmap Z my_work_t) (s : wq) : wq :=
  MkWq (pc s) h (work s) (work2 s) (my_wq s) (work3 s) (printed s) (failure s).
Definition print_x (x : my_work_t) (s : wq) : wq :=
  MkWq (pc s) (heap s) (work s) (work2 s) (my_wq s) (work3 s) (printed s ++ [x]) (failure s).

(** A store to [p->x]. *)
Definition store_x (p : option Z) (v : Z) (next : wq_pc) (s : wq) : wq :=
  match p with
  | None => fails NullDeref s
  | Some a =>
      match heap s !! a with
      | None => fails UseAfterFree s
      | Some _ => at_pc next (set_heap (<[a := Some v]> (heap s)) s)
      end
  end.

Definition queue_work (p : option Z) (next : wq_pc) (s : wq) : wq :=
  match p with
  | None => fails NullDeref s
  | Some a => at_pc next (set_items (my_wq s ++ [(a, JQueued)]) s)
  end.

(** One step of [wq_init]; [created] and [mem] are the answers of
    [create_workqueue] and [kmalloc].  Up to [queue_work] nobody else knows the
    item, so initialising and queueing the first is one step. *)
Definition wq_init (created : bool) (mem : option Z) (s : wq) : option wq :=
  match pc s with
  | PCreate => Some (if created then at_pc PAlloc1 s else at_pc (PReturn (- ENOMEM)) s)
  | PAlloc1 =>
      let h := match mem with Some a => <[a := None]> (heap s) | None => heap s end in
      Some (MkWq (if mem is Some _ then PQueue1 else PAlloc2) h mem (work2 s) (my_wq s)
        (work3 s) (printed s) (failure s))
  | PQueue1 => let s' := store_x (work s) 1 PQueue1 s in
      Some (if failure s' is Some _ then s' else queue_work (work s') PAlloc2 s')
  | PAlloc2 =>
      let h := match mem with Some a => <[a := None]> (heap s) | None => heap s end in
      Some (MkWq (if mem is Some _ then PStore else PSched) h (work s) mem (my_wq s)
        (work3 s) (printed s) (failure s))
  | PStore => Some (store_x (work s) 2 PQueue2 s)
  | PQueue2 => Some (queue_work (work2 s) PSched s)
  | PSched => Some (at_pc (PReturn 0) (set_work3 SPending s))
  | PReturn _ | PUnloaded => None
  end.

(** The next step of [my_wq_func] on the item at [a]: the load of its [x], the
    [printk] of the value, then the [kfree]. *)
Definition my_wq_func (a : Z) (j : stage) (s : wq) : option (stage * wq) :=
  match j with
  | JQueued => Some (JLoad, s)
  | JLoad =>
      Some match heap s !! a with Some x => (JPrint x, s) | None => (JLoad, fails UseAfterFree s) end
  | JPrint x => Some (JFree, print_x x s)
  | JFree =>
      Some (JDone, match heap s !! a with Some _ => set_heap (delete a (heap s)) s | None => fails UseAfterFree s end)
  | JDone => None
  end.

(** A worker of [my_wq] takes the [i]th item or goes on with it. *)
Definition worker (i : nat) (s : wq) : option wq :=
  '(a, j) ← my_wq s !! i;
  '(j', s') ← my_wq_func a j s;
  Some (set_items (<[i := (a, j')]> (my_wq s)) s').

(** The system work queue runs [sys_work_handler], code of the module. *)
Definition sys_worker (s : wq) : option wq :=
  match work3 s with
  | SIdle | SDone => None
  | _ =>
      Some match pc s with
      | PUnloaded => fails UseAfterFree s
      | _ => set_work3 (match work3 s with SPending => SPrint | _ => SDone end) s
      end
  end.

Definition item_done (e : Z * stage) : bool := match e.2 with JDone => true | _ => false end.

(** [wq_exit]: [flush_workqueue] waits until every item of [my_wq] is done. *)
Definition wq_exit (s : wq) : option wq :=
  match pc s with
  | PReturn 0 => if forallb item_done (my_wq s) then Some (at_pc PUnloaded s) else None
  | _ => None
  end.

(** A failure stops the machine; [kmalloc] hands out memory nobody owns. *)
Inductive wq_step : wq → wq → Prop :=
| step_init created mem s s' :
    failure s = None → (∀ a, mem = Some a → heap s !! a = None) →
    wq_init created mem s = Some s' → wq_step s s'
| step_worker i s s' : failure s = None → worker i s = Some s' → wq_step s s'
| step_sys s s' : failure s = None → sys_worker s = Some s' → wq_step s s'
| step_exit s s' : failure s = None → wq_exit s = Some s' → wq_step s s'.

(** Loaded, every item of [my_wq] done, nothing failed. *)
Definition finished (s : wq) : Prop := pc s = PReturn 0 ∧ forallb item_done (my_wq s) = true ∧ failure s = None.

(** ** Reachable states *)

(** The memory of an item at [a] that holds [x]. *)
Definition item_mem (a : Z) (j : stage) (x : my_work_t) : gmap Z my_work_t :=
  match j with JDone => ∅ | _ => {[a := x]} end.

(** What an item has printed. *)
Definition item_out (j : stage) (x : my_work_t) : list my_work_t :=
  match j with JFree | JDone => [x] | _ => [] end.

(** What it will print, once it has loaded it. *)
Definition loaded (j : stage) (x : my_work_t) : Prop := match j with JPrint y => y = x | _ => True end.

(** Only the first item is there. *)
Definition early (s : wq) : Prop :=
  match work s with
  | None => my_wq s = [] ∧ heap s = ∅ ∧ printed s = []
  | Some a => ∃ j, my_wq s = [(a, j)] ∧ heap s = item_mem a j (Some 1) ∧ loaded j (Some 1) ∧
      printed s = item_out j (Some 1)
  end.

(** The second item is allocated, [work->x = 2] comes next. *)
Definition before_store (b : Z) (s : wq) : Prop :=
  match work s with
  | None => my_wq s = []
  | Some a => ∃ j, my_wq s = [(a, j)] ∧ heap s = item_mem a j (Some 1) ∪ {[b := None]} ∧
      loaded j (Some 1) ∧ printed s = item_out j (Some 1) ∧ (j ≠ JDone → a ≠ b)
  end.

(** The store has hit the first item, which may have loaded 1 before, or, when
    its memory was handed out again, the second; [j2] is the second. *)
Definition stored (a b : Z) (j1 j2 : stage) (h : gmap Z my_work_t) (pr : list my_work_t) : Prop :=
  (a ≠ b ∧ h = item_mem a j1 (Some 2) ∪ item_mem b j2 None ∧ loaded j2 None ∧
    ∃ v, (v = 1 ∨ v = 2) ∧ loaded j1 (Some v) ∧ pr ≡ₚ item_out j1 (Some v) ++ item_out j2 None) ∨
  (a = b ∧ j1 = JDone ∧ h = item_mem b j2 (Some 2) ∧ loaded j2 (Some 2) ∧ pr = Some 1 :: item_out j2 (Some 2)).

Definition late (s : wq) : Prop :=
  match work2 s with
  | None => early s
  | Some b => ∃ a j1 j2, work s = Some a ∧ my_wq s = [(a, j1); (b, j2)] ∧ stored a b j1 j2 (heap s) (printed s)
  end.

Definition wq_inv (s : wq) : Prop :=
  match failure s with
  | Some NullDeref => pc s = PStore ∧ work s = None
  | Some UseAfterFree =>
      (pc s = PStore ∧ ∃ a, work s = Some a ∧ heap s !! a = None) ∨
      (pc s = PUnloaded ∧ (work3 s = SPending ∨ work3 s = SPrint))
  | Some _ => False
  | None =>
      match pc s with
      | PCreate | PAlloc1 => work s = None ∧ work2 s = None ∧ heap s = ∅ ∧ my_wq s = [] ∧ printed s = []
      | PQueue1 => work2 s = None ∧ my_wq s = [] ∧ printed s = [] ∧ ∃ a, work s = Some a ∧ heap s = {[a := None]}
      | PAlloc2 => work2 s = None ∧ early s
      | PStore => ∃ b, work2 s = Some b ∧ before_store b s
      | PQueue2 => ∃ a b j, work s = Some a ∧ work2 s = Some b ∧ my_wq s = [(a, j)] ∧
          stored a b j JQueued (heap s) (printed s)
      | PSched | PUnloaded => late s
      | PReturn r => if r =? 0 then late s else my_wq s = []
      end
  end.

(** Equality of small maps, by cases on the key. *)
Ltac map_cases :=
  apply map_eq; intros ?i;
  rewrite ?lookup_union, ?lookup_delete, ?lookup_insert, ?lookup_union, ?lookup_delete, ?lookup_insert,
    ?lookup_singleton, ?lookup_empty;
  repeat case_decide; simplify_eq; done.

Lemma item_mem_lookup a j x : j ≠ JDone → item_mem a j x !! a = Some x.
Proof. destruct j; [..|done]; intros _; apply lookup_singleton_eq. Qed.

Lemma item_mem_ne a b j x : a ≠ b → item_mem a j x !! b = None.
Proof. intros. destruct j; [by apply lookup_singleton_ne..|done]. Qed.

(** ** Steps *)

Lemma wq_inv_init created mem s s' :
  failure s = None → (∀ a, mem = Some a → heap s !! a = None) → wq_init created mem s = Some s' →
  wq_inv s → wq_inv s'.
Proof.
  destruct s as [p h w w2 q w3 pr f]. intros Hf Hmem. simpl in Hf, Hmem. subst f. unfold wq_init, wq_inv. cbn.
  destruct p; intros E; simplify_eq; cbn.
  - intros (-> & -> & -> & -> & ->). by destruct created.
  - intros (-> & -> & -> & -> & ->). destruct mem as [a|]; cbn; [|done].
    split_and!; [done..|]. exists a. split; [done|]. map_cases.
  - intros (-> & -> & -> & a & -> & ->). unfold store_x. cbn. rewrite lookup_singleton_eq. cbn. split; [done|].
    exists JQueued. split_and!; [done|cbn; map_cases|done|done].
  - intros (-> & He). destruct mem as [b|]; cbn; [|done]. exists b. split; [done|].
    unfold early, before_store in *. cbn in *. specialize (Hmem b eq_refl). destruct w as [a|]; [|naive_solver].
    destruct He as (j & -> & -> & Hl & ->). exists j. split_and!; [done| |done|done|].
    + by apply insert_union_singleton_r.
    + intros Hj ->. by rewrite item_mem_lookup in Hmem.
  - intros (b & -> & Hb). unfold before_store, store_x in *. cbn in *. destruct w as [a|]; cbn; [|done].
    destruct (h !! a) as [x|] eqn:Ha; cbn; [|left; split; [done|by exists a]].
    destruct Hb as (j & -> & -> & Hl & -> & Hne). exists a, b, j. split_and!; [done..|].
    destruct (decide (a = b)) as [->|Hab].
    + assert (j = JDone) as -> by (destruct j; try done; by destruct Hne). right. split_and!; [done|done| |done|done].
      cbn. map_cases.
    + left. split_and!; [done| |done|].
      * destruct j; cbn in *; try map_cases. by rewrite lookup_union, lookup_empty, lookup_singleton_ne in Ha.
      * exists 1. split_and!; [by left|done|]. by rewrite app_nil_r.
  - intros (a & b & j & -> & -> & -> & Hs). cbn. by exists a, j, JQueued.
  - done.
Qed.

(** One statement of a handler on an item in memory. *)
Lemma worker_step s i a j s' x :
  my_wq s !! i = Some (a, j) → worker i s = Some s' → (j ≠ JDone → heap s !! a = Some x) →
  ∃ j', my_wq s' = <[i := (a, j')]> (my_wq s) ∧
    pc s' = pc s ∧ work s' = work s ∧ work2 s' = work2 s ∧ failure s' = failure s ∧
    match j with
    | JQueued => j' = JLoad ∧ heap s' = heap s ∧ printed s' = printed s
    | JLoad => j' = JPrint x ∧ heap s' = heap s ∧ printed s' = printed s
    | JPrint y => j' = JFree ∧ heap s' = heap s ∧ printed s' = printed s ++ [y]
    | JFree => j' = JDone ∧ heap s' = delete a (heap s) ∧ printed s' = printed s
    | JDone => False
    end.
Proof.
  intros Hi E Hx. unfold worker in E. rewrite Hi in E. cbn in E. destruct j; cbn in E; [..|done];
    rewrite ?Hx in E by done; simplify_eq; by eexists.
Qed.

Lemma early_worker i s s' : early s → worker i s = Some s' →
  pc s' = pc s ∧ work s' = work s ∧ work2 s' = work2 s ∧ failure s' = failure s ∧ early s'.
Proof.
  unfold early. intros He E. destruct (work s) as [a|] eqn:Hw; [|destruct He as (Hq & _); unfold worker in E; by rewrite Hq in E].
  destruct He as (j & Hq & Hh & Hl & Hp). destruct i as [|i]; [|unfold worker in E; by rewrite Hq in E].
  destruct (worker_step s 0 a j s' (Some 1)) as (j' & Hq' & Hpc & Hw' & Hw2 & Hf & Hj); [by rewrite Hq|done| |].
  { intros Hj. rewrite Hh. by apply item_mem_lookup. }
  split_and!; [done|congruence|done|done|]. rewrite Hw', Hw. exists j'. rewrite Hq', Hq. split; [done|].
  destruct j; [..|done]; destruct Hj as (-> & -> & ->); rewrite Hh, Hp; cbn in *; subst; (split; [|done]); try done.
  map_cases.
Qed.

Lemma before_store_worker b i s s' : before_store b s → worker i s = Some s' →
  pc s' = pc s ∧ work2 s' = work2 s ∧ failure s' = failure s ∧ before_store b s'.
Proof.
  unfold before_store. intros He E. destruct (work s) as [a|] eqn:Hw; [|unfold worker in E; by rewrite He in E].
  destruct He as (j & Hq & Hh & Hl & Hp & Hne). destruct i as [|i]; [|unfold worker in E; by rewrite Hq in E].
  destruct (worker_step s 0 a j s' (Some 1)) as (j' & Hq' & Hpc & Hw' & Hw2 & Hf & Hj); [by rewrite Hq|done| |].
  { intros Hj. rewrite Hh. apply lookup_union_Some_l. by apply item_mem_lookup. }
  split_and!; [done..|]. rewrite Hw', Hw. exists j'. rewrite Hq', Hq. split; [done|].
  destruct j; [..|done]; destruct Hj as (-> & -> & ->); rewrite Hh, Hp; cbn in *; subst;
    (split; [|split_and!; [done|done|try by intros _; apply Hne]]); try done.
  pose proof (Hne ltac:(done)). map_cases.
Qed.

(** The first item after the store. *)
Lemma stored_first a b j1 j2 s s' :
  my_wq s !! 0%nat = Some (a, j1) → stored a b j1 j2 (heap s) (printed s) → worker 0 s = Some s' →
  pc s' = pc s ∧ work s' = work s ∧ work2 s' = work2 s ∧ failure s' = failure s ∧
  ∃ j1', my_wq s' = <[0%nat := (a, j1')]> (my_wq s) ∧ stored a b j1' j2 (heap s') (printed s').
Proof.
  intros Hq Hs E. destruct Hs as [(Hne & Hh & Hl2 & v & Hv & Hl & Hp)|(-> & -> & Hh & _)]; [|unfold worker in E; by rewrite Hq in E].
  destruct (worker_step s 0 a j1 s' (Some 2)) as (j' & Hq' & -> & -> & -> & -> & Hj); [done|done| |].
  { intros Hj. rewrite Hh. apply lookup_union_Some_l. by apply item_mem_lookup. }
  split_and!; [done..|]. exists j'. split; [done|]. left. split; [done|].
  destruct j1; [..|done]; destruct Hj as (-> & -> & ->); rewrite Hh; cbn in *; subst; (split; [try done|split; [done|]]).
  - by exists v.
  - exists 2. by auto.
  - exists v. split_and!; [done..|]. by rewrite Hp, Permutation_app_comm.
  - destruct j2; cbn; map_cases.
  - by exists v.
Qed.

(** The second item. *)
Lemma stored_second a b j1 j2 s s' :
  my_wq s !! 1%nat = Some (b, j2) → stored a b j1 j2 (heap s) (printed s) → worker 1 s = Some s' →
  pc s' = pc s ∧ work s' = work s ∧ work2 s' = work2 s ∧ failure s' = failure s ∧
  ∃ j2', my_wq s' = <[1%nat := (b, j2')]> (my_wq s) ∧ stored a b j1 j2' (heap s') (printed s').
Proof.
  intros Hq Hs E. destruct Hs as [(Hne & Hh & Hl2 & v & Hv & Hl & Hp)|(-> & -> & Hh & Hl & Hp)].
  - destruct (worker_step s 1 b j2 s' None) as (j' & Hq' & -> & -> & -> & -> & Hj); [done|done| |].
    { intros Hj. rewrite Hh. rewrite lookup_union_r by by apply item_mem_ne. by apply item_mem_lookup. }
    split_and!; [done..|]. exists j'. split; [done|]. left. split; [done|].
    destruct j2; [..|done]; destruct Hj as (-> & -> & ->); rewrite Hh; cbn in *; subst; (split; [try done|split; [done|]]);
      try by exists v.
    + exists v. split_and!; [done..|]. by rewrite Hp, app_nil_r.
    + destruct j1; cbn; map_cases.
  - destruct (worker_step s 1 b j2 s' (Some 2)) as (j' & Hq' & -> & -> & -> & -> & Hj); [done|done| |].
    { intros Hj. rewrite Hh. by apply item_mem_lookup. }
    split_and!; [done..|]. exists j'. split; [done|]. right. split_and!; [done|done|..].
    + destruct j2; [..|done]; destruct Hj as (-> & -> & _); rewrite Hh; try done. cbn. map_cases.
    + by destruct j2; [..|done]; destruct Hj as (-> & _).
    + destruct j2; [..|done]; destruct Hj as (-> & _ & ->); rewrite Hp; cbn in *; by subst.
Qed.

Lemma late_worker i s s' : late s → worker i s = Some s' → pc s' = pc s ∧ failure s' = failure s ∧ late s'.
Proof.
  unfold late. intros Hl E. destruct (work2 s) as [b|] eqn:Hw2.
  - destruct Hl as (a & j1 & j2 & Hw & Hq & Hb). destruct i as [|[|i]]; [..|unfold worker in E; by rewrite Hq in E].
    + destruct (stored_first a b j1 j2 s s') as (? & Hw' & -> & ? & j' & Hq' & ?); [by rewrite Hq|done..|].
      rewrite Hw2. split_and!; [done|done|]. exists a, j', j2. by rewrite Hw', Hq', Hq.
    + destruct (stored_second a b j1 j2 s s') as (? & Hw' & -> & ? & j' & Hq' & ?); [by rewrite Hq|done..|].
      rewrite Hw2. split_and!; [done|done|]. exists a, j1, j'. by rewrite Hw', Hq', Hq.
  - destruct (early_worker i s s' Hl E) as (? & ? & Hw2' & ? & ?). by rewrite Hw2', Hw2.
Qed.

Lemma wq_inv_worker i s s' : failure s = None → worker i s = Some s' → wq_inv s → wq_inv s'.
Proof.
  intros Hf E. assert (my_wq s ≠ []) as Hne by (intros Hq; unfold worker in E; by rewrite Hq in E).
  unfold wq_inv. rewrite Hf. destruct (pc s) as [| | | | | | |r|] eqn:Hpc; [naive_solver..| | | | | |].
  - intros [Hw2 He]. destruct (early_worker i s s' He E) as (-> & _ & -> & -> & ?). by rewrite Hf, Hpc.
  - intros (b & Hw2 & Hb). destruct (before_store_worker b i s s' Hb E) as (-> & -> & -> & ?). rewrite Hf, Hpc. by exists b.
  - intros (a & b & j & Hw & Hw2 & Hq & Hs). destruct i as [|i]; [|unfold worker in E; by rewrite Hq in E].
    destruct (stored_first a b j JQueued s s') as (-> & -> & -> & -> & j' & Hq' & ?); [by rewrite Hq|done..|].
    rewrite Hf, Hpc. exists a, b, j'. by rewrite Hq', Hq.
  - intros Hl. destruct (late_worker i s s' Hl E) as (-> & -> & ?). by rewrite Hf, Hpc.
  - destruct (r =? 0) eqn:Hr; intros Hl; [|done].
    destruct (late_worker i s s' Hl E) as (-> & -> & ?). by rewrite Hf, Hpc, Hr.
  - intros Hl. destruct (late_worker i s s' Hl E) as (-> & -> & ?). by rewrite Hf, Hpc.
Qed.

Lemma wq_inv_step : invariant_of wq_step wq_inv.
Proof.
  intros s s' Hstep Hinv. destruct Hstep as [created mem s s' Hf Hmem E|i s s' Hf E|s s' Hf E|s s' Hf E].
  - by eapply wq_inv_init.
  - by eapply wq_inv_worker.
  - unfold sys_worker in E. unfold wq_inv in *. rewrite Hf in Hinv. destruct s as [p h w w2 q w3 pr f]. cbn in *.
    destruct w3, p; simplify_eq; cbn; try rewrite Hf; try done; right; auto.
  - unfold wq_exit in E. unfold wq_inv in *. rewrite Hf in Hinv. destruct s as [p h w w2 q w3 pr f]. cbn in *.
    destruct p as [| | | | | | |[]|]; try done. destruct (forallb item_done q); simplify_eq. cbn. done.
Qed.

Lemma wq_reachable s : rtc wq_step wq0 s → wq_inv s.
Proof. intros Hr. apply (rtc_invariant wq_step wq_inv wq0 s wq_inv_step Hr). by split_and!. Qed.

(** ** Schedules *)

Inductive action := AInit (created : bool) (mem : option Z) | AWorker (i : nat) | ASys | AExit.

Definition wq_do (x : action) (s : wq) : option wq :=
  match failure s with
  | Some _ => None
  | None =>
      match x with
      | AInit created mem =>
          if match mem with Some a => bool_decide (heap s !! a = None) | None => true end
          then wq_init created mem s else None
      | AWorker i => worker i s
      | ASys => sys_worker s
      | AExit => wq_exit s
      end
  end.

Fixpoint wq_exec (xs : list action) (s : wq) : option wq :=
  match xs with [] => Some s | x :: xs => s' ← wq_do x s; wq_exec xs s' end.

Lemma wq_exec_sound xs s s' : wq_exec xs s = Some s' → rtc wq_step s s'.
Proof.
  revert s. induction xs as [|x xs IH]; intros s E; simpl in E; [by simplify_eq|].
  destruct (wq_do x s) as [s1|] eqn:Hx; [|done]. simpl in E.
  apply rtc_l with s1; [|by apply IH]. unfold wq_do in Hx. destruct (failure s) eqn:Hf; [done|].
  destruct x as [created mem|i| |]; [|by econstructor..]. destruct (match mem with Some _ => _ | _ => _ end) eqn:Hm in Hx; [|done].
  econstructor; [done| |exact Hx]. intros a ->. by apply bool_decide_eq_true in Hm.
Qed.

Definition run_item (i : nat) : list action := replicate 4 (AWorker i).
Definition steps (n : nat) : list action := replicate n (AInit true None).

(** Everything is queued before a worker runs. *)
Definition sched_late : list action :=
  steps 1 ++ [AInit true (Some 1)] ++ steps 1 ++ [AInit true (Some 2)] ++ steps 3 ++ run_item 0 ++ run_item 1.

(** A worker prints the first item before the store and frees it after. *)
Definition sched_between : list action :=
  steps 1 ++ [AInit true (Some 1)] ++ steps 1 ++ replicate 3 (AWorker 0) ++ [AInit true (Some 2)] ++ steps 1 ++
  [AWorker 0] ++ steps 2 ++ run_item 1.

(** Two workers at once: the second item is printed first, and the first has
    loaded its [x] before the store or not. *)
Definition sched_parallel (before : bool) : list action :=
  let n := if before then 2%nat else 0%nat in
  steps 1 ++ [AInit true (Some 1)] ++ steps 1 ++ replicate n (AWorker 0) ++ [AInit true (Some 2)] ++ steps 3 ++
  run_item 1 ++ replicate (4 - n) (AWorker 0).

(** A worker runs as soon as there is work; the memory is handed out again
    ([reuse]) or not. *)
Definition sched_eager (reuse : bool) : list action :=
  steps 1 ++ [AInit true (Some 1)] ++ steps 1 ++ run_item 0 ++ [AInit true (Some (if reuse then 1 else 2))] ++ steps 1.

(** ** Properties *)

(** C24: what the work queue prints.  In every interleaving of the statements
    of [wq_init] with those of the handlers, which run on any CPU in any order
    once their item is queued, that loads without a failure and finishes all
    queued items: all items have been freed; if both were allocated, in
    different memory, one prints 1 or 2 and the other, [work2], whose [x] is
    never written, uninitialised memory, in either order; if [kmalloc] handed
    the memory of the first out again for the second, they print 1 and then 2;
    if only the first was allocated it prints 1; and the second alone is never
    printed. *)
Theorem wq_outcomes s :
  rtc wq_step wq0 s → finished s →
  heap s = ∅ ∧
  match work s, work2 s with
  | Some a, Some b =>
      a ≠ b ∧ (∃ v, (v = 1 ∨ v = 2) ∧ printed s ≡ₚ [Some v; None]) ∨
      a = b ∧ printed s = [Some 1; Some 2]
  | Some _, None => printed s = [Some 1]
  | None, None => printed s = []
  | None, Some _ => False
  end.
Proof.
  intros Hr (Hpc & Hq & Hf). apply wq_reachable in Hr. unfold wq_inv in Hr. rewrite Hf, Hpc in Hr.
  cbn in Hr. unfold late, early in Hr. destruct (work2 s) as [b|].
  - destruct Hr as (a & j1 & j2 & -> & Hj & Hs). rewrite Hj in Hq. destruct j1, j2; try done.
    destruct Hs as [(Hne & -> & _ & v & Hv & _ & Hp)|(-> & _ & -> & _ & Hp)]; [|by split; [|right]].
    split; [done|]. left. split; [done|]. by exists v.
  - destruct (work s) as [a|]; [|naive_solver]. destruct Hr as (j & Hj & -> & _ & ->). rewrite Hj in Hq. by destruct j.
Qed.

(** C33: the only failures.  In the same interleavings the module fails only
    in the store [work->x = 2] of the second block, when the first item was
    not allocated or has already been freed by its handler, and by
    [sys_work_handler], waiting or running, when the module is gone. *)
Theorem wq_failures s f :
  rtc wq_step wq0 s → failure s = Some f →
  f = NullDeref ∧ pc s = PStore ∧ work s = None ∨
  f = UseAfterFree ∧
    (pc s = PStore ∧ (∃ a, work s = Some a ∧ heap s !! a = None) ∨
     pc s = PUnloaded ∧ (work3 s = SPending ∨ work3 s = SPrint)).
Proof.
  intros Hr Hf. apply wq_reachable in Hr. unfold wq_inv in Hr. rewrite Hf in Hr. destruct f; naive_solver.
Qed.

(** A schedule that shows an outcome. *)
Ltac occurs xs := eexists; split; [apply (wq_exec_sound xs); vm_compute; reflexivity|by split_and!].

(** Each of these outcomes occurs. *)
Theorem wq_outcomes_occur :
  (∃ s, rtc wq_step wq0 s ∧ finished s ∧ printed s = [Some 2; None]) ∧
  (∃ s, rtc wq_step wq0 s ∧ finished s ∧ printed s = [Some 1; None]) ∧
  (∃ s, rtc wq_step wq0 s ∧ finished s ∧ printed s = [None; Some 1]) ∧
  (∃ s, rtc wq_step wq0 s ∧ finished s ∧ printed s = [None; Some 2]) ∧
  (∃ s, rtc wq_step wq0 s ∧ finished s ∧ printed s = [Some 1; Some 2]) ∧
  (∃ s, rtc wq_step wq0 s ∧ pc s = PStore ∧ failure s = Some UseAfterFree) ∧
  (∃ s, rtc wq_step wq0 s ∧ pc s = PStore ∧ failure s = Some NullDeref) ∧
  (∃ s, rtc wq_step wq0 s ∧ pc s = PUnloaded ∧ failure s = Some UseAfterFree).
Proof.
  split_and!.
  - occurs sched_late.
  - occurs sched_between.
  - occurs (sched_parallel true).
  - occurs (sched_parallel false).
  - occurs (sched_eager true ++ steps 2 ++ run_item 1).
  - occurs (sched_eager false).
  - occurs (steps 2 ++ [AInit true (Some 2)] ++ steps 1).
  - occurs (sched_late ++ [ASys; AExit; ASys]).
Qed.

(** ** Witnesses *)

Definition demo_between : wq := default wq0 (wq_exec sched_between wq0).
Definition demo_uaf : wq := default wq0 (wq_exec (sched_eager false) wq0).

Lemma wq_outcomes_witness :
  (heap demo_between = ∅ ∧
   match work demo_between, work2 demo_between with
   | Some a, Some b =>
       a ≠ b ∧ (∃ v, (v = 1 ∨ v = 2) ∧ printed demo_between ≡ₚ [Some v; None]) ∨
       a = b ∧ printed demo_between = [Some 1; Some 2]
   | Some _, None => printed demo_between = [Some 1]
   | None, None => printed demo_between = []
   | None, Some _ => False
   end) ∧ printed demo_between = [Some 1; None].
Proof.
  split; [|vm_compute; reflexivity].
  refine (wq_outcomes demo_between _ _); [apply (wq_exec_sound sched_between)|split_and!]; vm_compute; reflexivity.
Defined.

Lemma wq_failures_witness :
  UseAfterFree = NullDeref ∧ pc demo_uaf = PStore ∧ work demo_uaf = None ∨
  UseAfterFree = UseAfterFree ∧
    (pc demo_uaf = PStore ∧ (∃ a, work demo_uaf = Some a ∧ heap demo_uaf !! a = None) ∨
     pc demo_uaf = PUnloaded ∧ (work3 demo_uaf = SPending ∨ work3 demo_uaf = SPrint)).
Proof.
  refine (wq_failures demo_uaf UseAfterFree _ _); [apply (wq_exec_sound (sched_eager false))|];
    vm_compute; reflexivity.
Defined.
