(* ===== verification/SkbTx.v ===== *)
(** * Building packets in a socket buffer

    [src/nic/udp.c], [src/nic/tcp.c] and [src/nic/garp.c] build a packet in a
    fresh [sk_buff] with the kernel's buffer primitives.  These are the class
    [SkbApi]; what their documentation says is [SkbLaws], in terms of the bytes
    between [skb->data] and the tail and the room on both sides.  The kernel's
    checksum helpers and the reference counts they touch are [tx_kernel]. *)

From S2P Require Import Prelude Bytes Nlmsg.

Class SkbApi := {
  skbuf : Type;
  skb_reserve : nat → skbuf → skbuf;
  (* [None]: the kernel panics because the room is too small *)
  skb_put : nat → skbuf → option skbuf;
  skb_push : nat → skbuf → option skbuf;
  (* a store through a pointer into the data area, at an offset *)
  skb_store : nat → list Z → skbuf → option skbuf;
  skb_load : skbuf → list Z;
}.

Class SkbLaws `{SkbApi} := {
  headroom : skbuf → nat;
  tailroom : skbuf → nat;
  reserve_ok : ∀ n s, skb_load s = [] → (n ≤ tailroom s)%nat →
    skb_load (skb_reserve n s) = [] ∧ headroom (skb_reserve n s) = (headroom s + n)%nat ∧
    tailroom (skb_reserve n s) = (tailroom s - n)%nat;
  put_ok : ∀ n s, (n ≤ tailroom s)%nat → ∃ s' area, skb_put n s = Some s' ∧ length area = n ∧
    skb_load s' = skb_load s ++ area ∧ headroom s' = headroom s ∧ tailroom s' = (tailroom s - n)%nat;
  push_ok : ∀ n s, (n ≤ headroom s)%nat → ∃ s' area, skb_push n s = Some s' ∧ length area = n ∧
    skb_load s' = area ++ skb_load s ∧ headroom s' = (headroom s - n)%nat ∧ tailroom s' = tailroom s;
  store_ok : ∀ off bs s b, splice off bs (skb_load s) = Some b → ∃ s', skb_store off bs s = Some s' ∧
    skb_load s' = b ∧ headroom s' = headroom s ∧ tailroom s' = tailroom s;
}.

(** ** Buffer operations in the monad *)

Section Ops.
Context {K St Ev : Type} `{SkbApi}.

(** A buffer primitive, which panics when the room is too small. *)
Definition room (o : option skbuf) : M K St Ev skbuf :=
  match o with Some s => ret s | None => crash BugOn end.

(** Assignments to header fields, in order: offset and bytes. *)
Fixpoint stores (fs : list (Z * list Z)) (s : skbuf) : M K St Ev skbuf :=
  match fs with
  | [] => ret s
  | (off, bs) :: fs => s <- index (skb_store (Z.to_nat off) bs s) ;; stores fs s
  end.

End Ops.

Section OpsFacts.
Context {K St Ev : Type} `{SkbLaws}.

(** The buffer holds [bs] between the given rooms. *)
Definition is_skb (hr tr : nat) (bs : list Z) (s : skbuf) : Prop :=
  headroom s = hr ∧ tailroom s = tr ∧ skb_load s = bs.

(** The bytes after a list of stores. *)
Fixpoint splices (fs : list (Z * list Z)) (b : list Z) : option (list Z) :=
  match fs with [] => Some b | (off, bs) :: fs => b ← splice (Z.to_nat off) bs b; splices fs b end.

Lemma store_is (k : K) (st : St) (t : list Ev) hr tr bs off x b s :
  is_skb hr tr bs s → splice off x bs = Some b →
  ∃ s', (index (skb_store off x s) : M K St Ev skbuf) k st t = (Ok s', st, t) ∧ is_skb hr tr b s'.
Proof.
  intros (Hh & Ht & Hl) Hs. rewrite <-Hl in Hs. destruct (store_ok off x s b Hs) as (s' & -> & ? & ? & ?).
  exists s'. split; [done|]. split_and!; congruence.
Qed.

Lemma stores_is (k : K) (st : St) (t : list Ev) hr tr fs bs b s :
  is_skb hr tr bs s → splices fs bs = Some b →
  ∃ s', stores fs s k st t = (Ok s', st, t) ∧ is_skb hr tr b s'.
Proof.
  revert bs s. induction fs as [|[off x] fs IH]; intros bs s Hs E; simpl in *; simplify_eq; [eauto|].
  destruct (splice (Z.to_nat off) x bs) as [b1|] eqn:E1; [|done].
  destruct (store_is k st t hr tr bs _ x b1 s Hs E1) as (s1 & R & Hs1). mrun R. by eapply IH.
Qed.

Lemma put_is (k : K) (st : St) (t : list Ev) hr tr bs n s :
  is_skb hr tr bs s → (n ≤ tr)%nat →
  ∃ s' area, room (skb_put n s) k st t = (Ok s', st, t) ∧ length area = n ∧ is_skb hr (tr - n) (bs ++ area) s'.
Proof.
  intros (Hh & Ht & Hl) Hn. destruct (put_ok n s) as (s' & area & -> & ? & ? & ? & ?); [lia|].
  exists s', area. split; [done|]. split; [done|]. split_and!; congruence.
Qed.

Lemma push_is (k : K) (st : St) (t : list Ev) hr tr bs n s :
  is_skb hr tr bs s → (n ≤ hr)%nat →
  ∃ s' area, room (skb_push n s) k st t = (Ok s', st, t) ∧ length area = n ∧ is_skb (hr - n) tr (area ++ bs) s'.
Proof.
  intros (Hh & Ht & Hl) Hn. destruct (push_ok n s) as (s' & area & -> & ? & ? & ? & ?); [lia|].
  exists s', area. split; [done|]. split; [done|]. split_and!; congruence.
Qed.

End OpsFacts.

(** Splitting memory of known length into its bytes. *)
Ltac split_area area Ha :=
  repeat (destruct area as [|? area]; [discriminate Ha|apply Nat.succ_inj in Ha]);
  destruct area; [clear Ha|discriminate Ha].

(** Run the next group of stores; [Hs] describes the buffer before and after. *)
Ltac run_stores Hs :=
  let s' := fresh "s" in let E := fresh "E" in let Hs' := fresh in
  lazymatch goal with
  | |- context [bind (stores ?fs ?s) _ ?k ?st ?t] =>
      epose proof (stores_is k st t _ _ fs _ _ s Hs eq_refl) as (s' & E & Hs'); mrun E
  | |- context [stores ?fs ?s ?k ?st ?t] =>
      epose proof (stores_is k st t _ _ fs _ _ s Hs eq_refl) as (s' & E & Hs'); rewrite E
  end; clear E Hs; rename Hs' into Hs; simpl in Hs.

Ltac run_store Hs :=
  let s' := fresh "s" in let E := fresh "E" in let Hs' := fresh in
  lazymatch goal with
  | |- context [bind (index (skb_store ?off ?x ?s)) _ ?k ?st ?t] =>
      epose proof (store_is k st t _ _ _ off x _ s Hs eq_refl) as (s' & E & Hs'); mrun E
  end; clear E Hs; rename Hs' into Hs; simpl in Hs.

(** ** Network byte order *)

Definition be16 (z : Z) : list Z := [Z.shiftr (u16 z) 8; Z.land z 255].

(** The 16-bit words of a buffer as the checksum routines of a little-endian
    machine add them up; an odd byte counts as a low byte. *)
Fixpoint words (bs : list Z) : Z :=
  match bs with
  | a :: b :: bs => a + 256 * b + words bs
  | [a] => a
  | [] => 0
  end.

(** ** Kernel services *)

Section Tx.
Context `{SkbApi}.

(** A network device, as far as the senders read it. *)
Record tx_dev := MkTxDev { hard_space : nat; needed_tailroom : nat }.

Inductive tx_ev :=
| TxDevGet (dev : option tx_dev)
| TxDevPut
| TxAlloc (n : nat) (ok : bool)
| TxXmit (frame : list Z) (ret : Z)     (* consumes the buffer, whatever it returns *)
| TxKfreeSkb.

Record tx_kernel := {
  tk_dev_get : list tx_ev → option tx_dev;
  tk_alloc_skb : list tx_ev → nat → option skbuf;
  tk_xmit : list tx_ev → list Z → Z;
  tk_ip_fast_csum : list Z → Z;
  (* skb_checksum: 32-bit partial sum *)
  tk_checksum : list Z → Z;
  (* csum_tcpudp_magic(saddr, daddr, len, proto, sum) *)
  tk_magic : list Z → list Z → Z → Z → Z → Z;
}.
End Tx.

(** What the kernel documents: a fresh buffer is empty and as large as asked
    for, [LL_RESERVED_SPACE] covers an Ethernet header, and the checksums are
    those of RFC 1071: adding them to what they cover gives 0 modulo 65535. *)
Record tx_laws `{SkbLaws} (k : tx_kernel) : Prop := {
  law_dev : ∀ t d, tk_dev_get k t = Some d → (14 ≤ hard_space d)%nat;
  law_alloc : ∀ t n s, tk_alloc_skb k t n = Some s →
    skb_load s = [] ∧ headroom s = 0%nat ∧ (n ≤ tailroom s)%nat;
  law_ip_csum : ∀ bs, 0 ≤ tk_ip_fast_csum k bs < 2 ^ 16 ∧ (tk_ip_fast_csum k bs + words bs) mod 65535 = 0;
  law_checksum : ∀ bs, 0 ≤ tk_checksum k bs < 2 ^ 32 ∧ tk_checksum k bs mod 65535 = words bs mod 65535;
  law_magic : ∀ sip dip len proto sum, 0 ≤ tk_magic k sip dip len proto sum < 2 ^ 16 ∧
    (tk_magic k sip dip len proto sum + words sip + words dip + 256 * (len + proto) + sum) mod 65535 = 0;
}.

(** ** A concrete buffer *)

(** Room in front, bytes, room behind; new bytes read 170. *)
#[export] Instance list_skb : SkbApi := {|
  skbuf := nat * list Z * nat;
  skb_reserve n s := (s.1.1 + n, s.1.2, s.2 - n)%nat;
  skb_put n s := if decide (n ≤ s.2)%nat then Some (s.1.1, s.1.2 ++ replicate n 170, (s.2 - n)%nat) else None;
  skb_push n s := if decide (n ≤ s.1.1)%nat then Some ((s.1.1 - n)%nat, replicate n 170 ++ s.1.2, s.2) else None;
  skb_store off bs s := b ← splice off bs s.1.2; Some (s.1.1, b, s.2);
  skb_load s := s.1.2;
|}.

#[export] Instance list_skb_laws : SkbLaws.
Proof.
  refine {| headroom := λ s : skbuf, s.1.1; tailroom := λ s : skbuf, s.2 |}.
  - by intros n [[h b] r].
  - intros n [[h b] r] Hn. simpl in *. rewrite decide_True by done.
    eexists _, (replicate n 170). by rewrite length_replicate.
  - intros n [[h b] r] Hn. simpl in *. rewrite decide_True by done.
    eexists _, (replicate n 170). by rewrite length_replicate.
  - intros off bs [[h b] r] b' E. simpl in *. rewrite E. eexists. done.
Defined.

