(* ===== verification/NicTx.v ===== *)
(** * Sending a packet from the kernel: [src/nic/udp.c] and [src/nic/tcp.c]

    Both modules build one Ethernet frame when they are loaded and hand it to
    the device "eth0".  The two [create_new_skb] functions differ in the
    transport header only; what they share is written once. *)

From S2P Require Import Prelude Bytes Nlmsg SkbTx.

(** "i want to send a packet within kernel" with its NUL *)
Definition payload : list Z :=
  [105; 32; 119; 97; 110; 116; 32; 116; 111; 32; 115; 101; 110; 100; 32; 97; 32; 112; 97; 99; 107; 101; 116; 32;
   119; 105; 116; 104; 105; 110; 32; 107; 101; 114; 110; 101; 108; 0].

Definition dstmac : list Z := [212; 61; 126; 18; 73; 6].
Definition srcmac : list Z := [68; 55; 230; 166; 214; 224].
Definition dstip : list Z := [10; 0; 3; 58].
Definition srcip : list Z := [10; 0; 1; 199].
Definition SPORT : Z := 5320.
Definition DPORT : Z := 5321.

Definition IPHDR : nat := 20.
Definition UDPHDR : nat := 8.
Definition TCPHDR : nat := 20.
Definition IPPROTO_UDP : Z := 17.
Definition IPPROTO_TCP : Z := 6.

(** The globals; [sip] and [dip] as the bytes in memory. *)
Record tx_state := MkTx { sip : list Z; dip : list Z; seq : Z; ack_seq : Z }.
Definition tx_state0 : tx_state := MkTx [0; 0; 0; 0] [0; 0; 0; 0] 0 0.

Section Build.
Context `{SkbApi}.

Definition TM (A : Type) : Type := M tx_kernel tx_state tx_ev A.

(** [len], the device and the empty buffer with its headroom; the result is
    [inl] of the error code or [inr] of the buffer. *)
Definition start_skb (hdr : nat) : TM (Z + skbuf) :=
  dev <- kcall tk_dev_get TxDevGet ;;
  match dev with
  | None => ret (inl (-1))
  | Some d =>
      let len := (length payload + hard_space d + IPHDR + hdr + needed_tailroom d)%nat in
      skb <- (λ k s t, let r := tk_alloc_skb k t len in
                (Ok r, s, t ++ [TxAlloc len (if r is Some _ then true else false)])) ;;
      match skb with
      | None => ret (inl (- ENOMEM))
      | Some skb => ret (inr (skb_reserve (hard_space d) skb))
      end
  end.

(** The IP header up to [tot_len]; identification and checksum keep what the
    memory held. *)
Definition put_iphdr (proto ttl : Z) (hdr : nat) (skb : skbuf) : TM skbuf :=
  skb <- room (skb_put IPHDR skb) ;;
  skb <- stores [(0, [Z.lor (Z.shiftl 4 4) 5]); (6, [0; 0]); (9, [proto]); (1, [0])] skb ;;
  modify (λ s, MkTx srcip dstip (seq s) (ack_seq s)) ;;
  sip <- get sip ;;
  dip <- get dip ;;
  stores [(12, sip); (16, dip); (8, [ttl]); (2, be16 (Z.of_nat (length payload + IPHDR + hdr)))] skb.

(** Sum over what follows the IP header, stored at [off]. *)
Definition put_check (proto : Z) (off : nat) (skb : skbuf) : TM skbuf :=
  let seg := drop IPHDR (skb_load skb) in
  sip <- get sip ;;
  dip <- get dip ;;
  csum <- kpure (λ k, tk_checksum k seg) ;;
  check <- kpure (λ k, tk_magic k sip dip (Z.of_nat (length seg)) proto csum) ;;
  index (skb_store off (le_enc 2 check) skb).

(** Payload, Ethernet header and transmission. *)
Definition finish_skb (hdr : nat) (skb : skbuf) : TM Z :=
  skb <- room (skb_put (length payload) skb) ;;
  skb <- index (skb_store (IPHDR + hdr) payload skb) ;;
  skb <- room (skb_push 14 skb) ;;
  skb <- stores [(12, be16 2048); (0, dstmac); (6, srcmac)] skb ;;
  r <- kcall (λ k t, tk_xmit k t (skb_load skb)) (TxXmit (skb_load skb)) ;;
  if r <? 0 then emit TxKfreeSkb ;; emit TxDevPut ;; ret r
  else emit TxDevPut ;; ret 0.

(** ** [src/nic/udp.c] *)

Definition put_udphdr (skb : skbuf) : TM skbuf :=
  csum <- kpure (λ k, tk_ip_fast_csum k (take IPHDR (skb_load skb))) ;;
  skb <- index (skb_store 10 (le_enc 2 csum) skb) ;;
  skb <- room (skb_put UDPHDR skb) ;;
  skb <- stores [(20, be16 SPORT); (22, be16 DPORT); (24, be16 (Z.of_nat (UDPHDR + length payload))); (26, [0; 0])] skb ;;
  put_check IPPROTO_UDP 26 skb.

Definition udp_create_new_skb : TM Z :=
  r <- start_skb UDPHDR ;;
  match r with
  | inl err => ret err
  | inr skb =>
      skb <- put_iphdr IPPROTO_UDP 64 UDPHDR skb ;;
      skb <- put_udphdr skb ;;
      finish_skb UDPHDR skb
  end.

(** ** [src/nic/tcp.c] *)

(** [doff] is the upper half of byte 12; the flags and the urgent pointer keep
    what the memory held. *)
Definition put_tcphdr (skb : skbuf) : TM skbuf :=
  skb <- index (skb_store 10 [0; 0] skb) ;;
  skb <- room (skb_put TCPHDR skb) ;;
  q <- get seq ;;
  modify (λ s, MkTx (sip s) (dip s) ((q + 1) mod 2 ^ 64) (ack_seq s)) ;;
  ack <- get ack_seq ;;
  b <- index (skb_load skb !! 32%nat) ;;
  skb <- stores [(20, be16 SPORT); (22, be16 DPORT); (24, le_enc 4 (u32 q)); (28, le_enc 4 (u32 ack));
    (32, [Z.lor (Z.land b 15) (Z.shiftl 5 4)]); (34, be16 5840); (36, [0; 0])] skb ;;
  put_check IPPROTO_TCP 36 skb.

Definition tcp_create_new_skb : TM Z :=
  r <- start_skb TCPHDR ;;
  match r with
  | inl err => ret err
  | inr skb =>
      skb <- put_iphdr IPPROTO_TCP 32 TCPHDR skb ;;
      skb <- put_tcphdr skb ;;
      finish_skb TCPHDR skb
  end.

(** [skbinit] of either module ignores the result. *)
Definition skbinit (create_new_skb : TM Z) : TM Z := create_new_skb ;; ret 0.
End Build.

(** ** Facts *)

Section Facts.
Context `{SkbLaws}.

(** ** The frame *)

(** The IP header with identification [id] and checksum [chk]. *)
Definition iphdr (proto ttl : Z) (hdr : nat) (id chk : list Z) : list Z :=
  [69; 0] ++ be16 (Z.of_nat (58 + hdr)) ++ id ++ [0; 0; ttl; proto] ++ chk ++ srcip ++ dstip.

Definition ethhdr : list Z := dstmac ++ srcmac ++ [8; 0].

(** The bytes of a fresh IP header that the code reads or sends without
    having written them: identification and checksum. *)
Definition stale (s : skbuf) (i0 i1 g0 g1 : Z) : Prop :=
  ∃ s', skb_put IPHDR s = Some s' ∧ skb_load s' !! 4%nat = Some i0 ∧ skb_load s' !! 5%nat = Some i1 ∧
    skb_load s' !! 10%nat = Some g0 ∧ skb_load s' !! 11%nat = Some g1.

Lemma put_iphdr_is k st t hr tr proto ttl hdr s :
  is_skb hr tr [] s → (20 ≤ tr)%nat →
  ∃ s' i0 i1 g0 g1, stale s i0 i1 g0 g1 ∧ put_iphdr proto ttl hdr s k st t = (Ok s', MkTx srcip dstip (seq st) (ack_seq st), t) ∧
    is_skb hr (tr - 20) (iphdr proto ttl hdr [i0; i1] [g0; g1]) s'.
Proof.
  intros Hs Htr. unfold put_iphdr.
  destruct (put_is k st t hr tr [] IPHDR s Hs Htr) as (s1 & area & E1 & Ha & Hs1).
  assert (skb_put IPHDR s = Some s1) as Hput.
  { unfold room in E1. destruct (skb_put IPHDR s); [|done]. unfold ret in E1. congruence. }
  mrun E1.
  unfold IPHDR in Ha. split_area area Ha. cbn [app] in Hs1. pose proof Hs1 as (_ & _ & Hl).
  run_stores Hs1. erewrite bind_ok by reflexivity. do 2 (erewrite bind_ok by reflexivity). cbn [sip dip].
  run_stores Hs1. eexists _, _, _, _, _. split; [|split; [reflexivity|exact Hs1]].
  exists s1. by rewrite Hl.
Qed.


Lemma put_check_is k st t hr tr proto off hdr body b check s :
  is_skb hr tr (hdr ++ body) s → length hdr = IPHDR →
  check = tk_magic k (sip st) (dip st) (Z.of_nat (length body)) proto (tk_checksum k body) →
  splice off (le_enc 2 check) (hdr ++ body) = Some b →
  ∃ s', put_check proto off s k st t = (Ok s', st, t) ∧ is_skb hr tr b s'.
Proof.
  intros Hs Hh -> Hb. unfold put_check. pose proof Hs as (_ & _ & Hl). rewrite Hl, drop_app_length' by done.
  cbv zeta. do 4 (erewrite bind_ok by reflexivity).
  by eapply store_is.
Qed.

(** Payload behind, Ethernet header in front, and the frame is sent. *)
Lemma finish_skb_is k st t hr tr hdr bs s :
  is_skb hr tr bs s → length bs = (IPHDR + hdr)%nat → (38 ≤ tr)%nat → (14 ≤ hr)%nat →
  let frame := ethhdr ++ bs ++ payload in
  let r := tk_xmit k t frame in
  finish_skb hdr s k st t =
    if r <? 0 then (Ok r, st, t ++ [TxXmit frame r; TxKfreeSkb; TxDevPut])
    else (Ok 0, st, t ++ [TxXmit frame r; TxDevPut]).
Proof.
  intros Hs Hbs Htr Hhr. cbv zeta. unfold finish_skb.
  destruct (put_is k st t hr tr bs (length payload) s Hs Htr) as (s1 & area & E1 & Ha & Hs1). mrun E1.
  assert (splice (IPHDR + hdr) payload (bs ++ area) = Some (bs ++ payload)) as Hsp.
  { unfold splice. rewrite length_app, Ha, decide_True by lia. rewrite take_app_length' by done.
    rewrite drop_ge; [by rewrite app_nil_r|]. rewrite length_app. lia. }
  destruct (store_is k st t hr _ _ _ _ _ s1 Hs1 Hsp) as (s2 & E2 & Hs2). mrun E2.
  destruct (push_is k st t hr _ _ 14 s2 Hs2 Hhr) as (s3 & area2 & E3 & Ha2 & Hs3). mrun E3.
  split_area area2 Ha2. cbn [app] in Hs3. run_stores Hs3.
  assert (skb_load s0 = ethhdr ++ bs ++ payload) as -> by apply Hs3.
  erewrite bind_ok by reflexivity. destruct (_ <? 0).
  - do 2 (erewrite bind_ok by reflexivity). unfold ret. by rewrite <-!app_assoc.
  - erewrite bind_ok by reflexivity. unfold ret. by rewrite <-!app_assoc.
Qed.

Definition udphdr (chk : list Z) : list Z := be16 SPORT ++ be16 DPORT ++ be16 46 ++ chk.

(** The TCP header; [b12], [fl] and [urg] come from the memory. *)
Definition tcphdr (q ack : Z) (b12 fl : Z) (chk urg : list Z) : list Z :=
  be16 SPORT ++ be16 DPORT ++ le_enc 4 (u32 q) ++ le_enc 4 (u32 ack) ++ [Z.lor (Z.land b12 15) 80; fl]
  ++ be16 5840 ++ chk ++ urg.

Lemma put_udphdr_is k st t hr tr i0 i1 g0 g1 s :
  is_skb hr tr (iphdr 17 64 8 [i0; i1] [g0; g1]) s → (8 ≤ tr)%nat →
  let c := tk_ip_fast_csum k (iphdr 17 64 8 [i0; i1] [g0; g1]) in
  let u := tk_magic k (sip st) (dip st) 8 17 (tk_checksum k (udphdr [0; 0])) in
  ∃ s', put_udphdr s k st t = (Ok s', st, t) ∧
    is_skb hr (tr - 8) (iphdr 17 64 8 [i0; i1] (le_enc 2 c) ++ udphdr (le_enc 2 u)) s'.
Proof.
  intros Hs Htr. cbv zeta. unfold put_udphdr. pose proof Hs as (_ & _ & Hl). rewrite Hl.
  change (take IPHDR (iphdr 17 64 8 [i0; i1] [g0; g1])) with (iphdr 17 64 8 [i0; i1] [g0; g1]).
  set (c := tk_ip_fast_csum k _). set (u := tk_magic k _ _ _ _ _).
  erewrite bind_ok by reflexivity. rewrite !le_enc_2.
  run_store Hs.
  destruct (put_is k st t hr tr _ UDPHDR _ Hs Htr) as (s2 & area & E2 & Ha & Hs2). mrun E2.
  unfold UDPHDR in Ha. split_area area Ha. cbn [app] in Hs2. run_stores Hs2.
  edestruct (put_check_is k st t hr (tr - 8) IPPROTO_UDP 26 (iphdr 17 64 8 [i0; i1] (le_enc 2 c)) (udphdr [0; 0]))
    as (s3 & E3 & Hs3); [rewrite le_enc_2; exact Hs2|by rewrite le_enc_2|reflexivity| |].
  { rewrite !le_enc_2. reflexivity. }
  exists s3. split; [exact E3|]. exact Hs3.
Qed.

Lemma le_enc_4 z : ∃ a b c d, le_enc 4 z = [a; b; c; d].
Proof.
  pose proof (length_le_enc 4 z ltac:(lia)) as Hl.
  destruct (le_enc 4 z) as [|a [|b [|c [|d [|]]]]]; simpl in Hl; try lia. eauto.
Qed.

Lemma area_20 (area : list Z) : length area = 20%nat →
  ∃ y0 y1 y2 y3 y4 y5 y6 y7 y8 y9 y10 y11 y12 y13 y14 y15 y16 y17 y18 y19, area = [y0; y1; y2; y3; y4; y5; y6; y7; y8; y9; y10; y11; y12; y13; y14; y15; y16; y17; y18; y19].
Proof. intros Ha. split_area area Ha. by do 20 eexists. Qed.

Lemma put_tcphdr_is k st t hr tr i0 i1 g0 g1 s :
  is_skb hr tr (iphdr 6 32 20 [i0; i1] [g0; g1]) s → (20 ≤ tr)%nat →
  ∃ s' b12 fl u0 u1,
    let tcp chk := tcphdr (seq st) (ack_seq st) b12 fl chk [u0; u1] in
    let u := tk_magic k (sip st) (dip st) 20 6 (tk_checksum k (tcp [0; 0])) in
    put_tcphdr s k st t = (Ok s', MkTx (sip st) (dip st) ((seq st + 1) mod 2 ^ 64) (ack_seq st), t) ∧
    is_skb hr (tr - 20) (iphdr 6 32 20 [i0; i1] [0; 0] ++ tcp (le_enc 2 u)) s'.
Proof.
  intros Hs Htr. unfold put_tcphdr.
  run_store Hs.
  destruct (put_is k st t hr tr _ TCPHDR _ Hs Htr) as (s2 & area & E2 & Ha & Hs2). mrun E2.
  unfold TCPHDR in Ha.
  destruct (area_20 area Ha) as (y0 & y1 & y2 & y3 & y4 & y5 & y6 & y7 & y8 & y9 & y10 & y11 & y12 & y13 & y14 & y15 & y16 & y17 & y18 & y19 & ->). cbn [app] in Hs2.
  do 3 (erewrite bind_ok by reflexivity). pose proof Hs2 as (_ & _ & Hl). rewrite Hl.
  erewrite bind_ok by reflexivity. cbn [ack_seq].
  destruct (le_enc_4 (u32 (seq st))) as (q0 & q1 & q2 & q3 & Hq).
  destruct (le_enc_4 (u32 (ack_seq st))) as (a0 & a1 & a2 & a3 & Hk).
  rewrite Hq, Hk. run_stores Hs2.
  set (tcp chk := tcphdr (seq st) (ack_seq st) y12 y13 chk [y18; y19]).
  edestruct (put_check_is k (MkTx (sip st) (dip st) ((seq st + 1) mod 2 ^ 64) (ack_seq st)) t hr (tr - 20)
    IPPROTO_TCP 36 (iphdr 6 32 20 [i0; i1] [0; 0]) (tcp [0; 0])) as (s3 & E3 & Hs3).
  - unfold tcp, tcphdr. rewrite Hq, Hk. exact Hs2.
  - done.
  - reflexivity.
  - unfold tcp at 3, tcphdr. rewrite Hq, Hk, le_enc_2. reflexivity.
  - exists s3, y12, y13, y18, y19. cbv zeta. split; [exact E3|]. rewrite le_enc_2.
    unfold tcphdr at 1. rewrite Hq, Hk. exact Hs3.
Qed.

(** [s] is the buffer the kernel hands out for a packet with a transport
    header of [hdr] bytes, with the device's headroom reserved. *)
Definition fresh_skb (k : tx_kernel) (t : list tx_ev) (hdr : nat) (s : skbuf) : Prop :=
  ∃ d s0, tk_dev_get k t = Some d ∧
    tk_alloc_skb k (t ++ [TxDevGet (Some d)]) (length payload + hard_space d + IPHDR + hdr + needed_tailroom d)%nat = Some s0 ∧
    s = skb_reserve (hard_space d) s0.

(** The three ways [start_skb] ends. *)
Lemma start_skb_is k st t hdr :
  tx_laws k →
  start_skb hdr k st t = (Ok (inl (-1)), st, t ++ [TxDevGet None]) ∨
  (∃ d n, start_skb hdr k st t = (Ok (inl (- ENOMEM)), st, t ++ [TxDevGet (Some d); TxAlloc n false])) ∨
  (∃ d n s hr tr, start_skb hdr k st t = (Ok (inr s), st, t ++ [TxDevGet (Some d); TxAlloc n true]) ∧
    is_skb hr tr [] s ∧ (14 ≤ hr)%nat ∧ (58 + hdr ≤ tr)%nat ∧ fresh_skb k t hdr s).
Proof.
  intros Hk. unfold start_skb. erewrite bind_ok by reflexivity.
  destruct (tk_dev_get k t) as [d|] eqn:Hd; [|by left]. right. cbv zeta.
  erewrite bind_ok by reflexivity. rewrite <-app_assoc.
  destruct (tk_alloc_skb k _ _) as [s|] eqn:Hs; [right|left; by eexists _, _].
  destruct (law_alloc k Hk _ _ _ Hs) as (Hl & Hh & Ht). pose proof (law_dev k Hk _ _ Hd).
  change (length payload) with 38%nat in Ht. unfold IPHDR in Ht.
  destruct (reserve_ok (hard_space d) s Hl) as (Hl' & Hh' & Ht'); [lia|].
  eexists _, _, _, _, _. split; [reflexivity|]. split; [split_and!; [reflexivity|reflexivity|exact Hl']|].
  split_and!; [lia|lia|by exists d, s].
Qed.

(** References taken and not given back; a buffer counts from its allocation
    until it is handed to the device or freed. *)
Definition dev_refs (e : tx_ev) : Z := match e with TxDevGet (Some _) => 1 | TxDevPut => -1 | _ => 0 end.
Definition skb_owned (e : tx_ev) : Z :=
  match e with TxAlloc _ true => 1 | TxXmit _ _ | TxKfreeSkb => -1 | _ => 0 end.
Definition total (f : tx_ev → Z) (t : list tx_ev) : Z := foldr (λ e n, f e + n) 0 t.

(** What a sender does, for the packets [good] describes: it reports a missing
    device or buffer, or it sends one frame. *)
Definition sends (good : list Z → Prop) (ret_ : Z) (ev : list tx_ev) : Prop :=
  ret_ = -1 ∧ ev = [TxDevGet None] ∨
  (ret_ = - ENOMEM ∧ ∃ d n, ev = [TxDevGet (Some d); TxAlloc n false]) ∨
  (∃ d n bs r, good bs ∧ let frame := ethhdr ++ bs ++ payload in
    if r <? 0 then ret_ = r ∧ ev = [TxDevGet (Some d); TxAlloc n true; TxXmit frame r; TxKfreeSkb; TxDevPut]
    else ret_ = 0 ∧ ev = [TxDevGet (Some d); TxAlloc n true; TxXmit frame r; TxDevPut]).

Definition udp_packet (k : tx_kernel) (t : list tx_ev) (bs : list Z) : Prop :=
  ∃ s i0 i1 g0 g1, fresh_skb k t UDPHDR s ∧ stale s i0 i1 g0 g1 ∧
    let c := tk_ip_fast_csum k (iphdr 17 64 8 [i0; i1] [g0; g1]) in
    let u := tk_magic k srcip dstip 8 17 (tk_checksum k (udphdr [0; 0])) in
    bs = iphdr 17 64 8 [i0; i1] (le_enc 2 c) ++ udphdr (le_enc 2 u).

Definition tcp_packet (k : tx_kernel) (q ack : Z) (bs : list Z) : Prop :=
  ∃ i0 i1 b12 fl u0 u1,
    let tcp chk := tcphdr q ack b12 fl chk [u0; u1] in
    let u := tk_magic k srcip dstip 20 6 (tk_checksum k (tcp [0; 0])) in
    bs = iphdr 6 32 20 [i0; i1] [0; 0] ++ tcp (le_enc 2 u).

Lemma udp_sends k st t :
  tx_laws k → ∃ r st' ev, udp_create_new_skb k st t = (Ok r, st', t ++ ev) ∧ sends (udp_packet k t) r ev.
Proof.
  intros Hk. unfold udp_create_new_skb.
  destruct (start_skb_is k st t UDPHDR Hk) as [E|[(d & n & E)|(d & n & s & hr & tr & E & Hs & Hhr & Htr & Hfr)]]; mrun E.
  - eexists _, _, _. split; [reflexivity|]. by left.
  - eexists _, _, _. split; [reflexivity|]. right. left. eauto.
  - set (t1 := t ++ _). unfold UDPHDR in Htr.
    destruct (put_iphdr_is k st t1 hr tr IPPROTO_UDP 64 UDPHDR s Hs) as (s1 & i0 & i1 & g0 & g1 & Hst & E1 & Hs1); [lia|].
    mrun E1. set (st1 := MkTx _ _ _ _).
    destruct (put_udphdr_is k st1 t1 _ _ i0 i1 g0 g1 s1 Hs1) as (s2 & E2 & Hs2); [lia|]. mrun E2.
    rewrite (finish_skb_is k st1 t1 _ _ UDPHDR _ s2 Hs2) by (rewrite ?le_enc_2; done || lia). cbv zeta.
    set (r := tk_xmit _ _ _). unfold t1. rewrite <-!app_assoc.
    destruct (r <? 0) eqn:Hr; (eexists _, _, _; split; [reflexivity|]); right; right;
      eexists d, n, _, r; rewrite Hr; (split; [by eexists s, i0, i1, g0, g1|done]).
Qed.

Lemma tcp_sends k st t :
  tx_laws k → ∃ r st' ev, tcp_create_new_skb k st t = (Ok r, st', t ++ ev) ∧
    sends (tcp_packet k (seq st) (ack_seq st)) r ev ∧
    ∀ frame r', TxXmit frame r' ∈ ev → seq st' = (seq st + 1) mod 2 ^ 64.
Proof.
  intros Hk. unfold tcp_create_new_skb.
  destruct (start_skb_is k st t TCPHDR Hk) as [E|[(d & n & E)|(d & n & s & hr & tr & E & Hs & Hhr & Htr & Hfr)]]; mrun E.
  - eexists _, _, _. split; [reflexivity|]. split; [by left|set_solver].
  - eexists _, _, _. split; [reflexivity|]. split; [right; left; eauto|set_solver].
  - set (t1 := t ++ _). unfold TCPHDR in Htr.
    destruct (put_iphdr_is k st t1 hr tr IPPROTO_TCP 32 TCPHDR s Hs) as (s1 & i0 & i1 & g0 & g1 & Hst & E1 & Hs1); [lia|].
    mrun E1. set (st1 := MkTx _ _ _ _).
    destruct (put_tcphdr_is k st1 t1 _ _ i0 i1 g0 g1 s1 Hs1) as (s2 & b12 & fl & u0 & u1 & E2 & Hs2); [lia|]. mrun E2.
    assert (∀ chk, length chk = 2%nat → length (iphdr 6 32 20 [i0; i1] [0; 0] ++
      tcphdr (seq st1) (ack_seq st1) b12 fl chk [u0; u1]) = 40%nat) as Hlen.
    { intros chk Hc. unfold tcphdr. rewrite !length_app, !length_le_enc, Hc by lia. done. }
    rewrite (finish_skb_is k _ t1 _ _ TCPHDR _ s2 Hs2) by (rewrite ?Hlen by (by rewrite length_le_enc); done || lia).
    cbv zeta. set (r := tk_xmit _ _ _). unfold t1. rewrite <-!app_assoc.
    destruct (r <? 0) eqn:Hr; (eexists _, _, _; split; [reflexivity|]); (split; [|done]); right; right;
      eexists d, n, _, r; rewrite Hr; (split; [by eexists i0, i1, b12, fl, u0, u1|done]).
Qed.

(** ** Checksums *)

Lemma words_le_enc c : 0 ≤ c < 2 ^ 16 → words (le_enc 2 c) = c.
Proof.
  intros Hc. rewrite le_enc_2. cbn [words]. rewrite (Z.mod_small (c / 256)).
  - pose proof (Z.div_mod c 256). lia.
  - split; [apply Z.div_pos; lia|]. apply Z.div_lt_upper_bound; lia.
Qed.

Lemma words_app a b : Nat.even (length a) = true → words (a ++ b) = words a + words b.
Proof.
  revert a. fix IH 1. intros [|x [|y a]] Hl; [done|done|]. simpl. rewrite IH by done. lia.
Qed.

(** The sum a receiver computes over the pseudo header and the segment; it
    accepts when it is 0 modulo 65535. *)
Definition transport_sum (proto : Z) (seg : list Z) : Z :=
  (words srcip + words dstip + 256 * (Z.of_nat (length seg) + proto) + words seg) mod 65535.

(** A checksum computed before the payload is there leaves the payload and the
    difference in length uncounted. *)
Lemma late_payload_sum k proto hdr0 hdr u :
  tx_laws k → u = tk_magic k srcip dstip (Z.of_nat (length hdr0)) proto (tk_checksum k hdr0) →
  length hdr = length hdr0 → words hdr = words hdr0 + u → Nat.even (length hdr) = true →
  transport_sum proto (hdr ++ payload) = 47351.
Proof.
  intros Hk Hu Hl Hw He. unfold transport_sum. rewrite words_app by done. rewrite length_app, Hl, Nat2Z.inj_add, Hw.
  destruct (law_magic k Hk srcip dstip (Z.of_nat (length hdr0)) proto (tk_checksum k hdr0)) as [_ Hm].
  destruct (law_checksum k Hk hdr0) as [_ Hc]. rewrite <-Hu in Hm.
  change (words payload) with 430833. change (Z.of_nat (length payload)) with 38.
  pose proof (Z.div_mod (tk_checksum k hdr0) 65535). pose proof (Z.div_mod (words hdr0) 65535).
  apply Z.mod_divide in Hm as [q Hq]; [|lia].
  symmetry. apply Z.mod_unique with (q + 6 + (words hdr0 / 65535) - (tk_checksum k hdr0 / 65535)); lia.
Qed.

(** C23: every UDP frame has the intended layout and a wrong checksum.  Loading
    the module never panics for lack of buffer room.  A frame it sends is
    Ethernet, IP and UDP headers with the configured addresses, ports and
    lengths and the whole payload.  The UDP checksum was computed before the
    payload was there: it is always 9917, not the 0 that means "no checksum",
    and never verifies at the receiver.  The IP identification is whatever the
    memory of the buffer held, and the IP checksum is computed over a header
    whose checksum field still holds what the memory held: it verifies exactly
    when those two bytes of the buffer, as [skb_put] handed them out, were 0
    modulo 65535. *)
Theorem udp_frame_checksums k st t :
  tx_laws k →
  ∃ ret_ st' ev, udp_create_new_skb k st t = (Ok ret_, st', t ++ ev) ∧
    ∀ frame r, TxXmit frame r ∈ ev →
      ∃ s i0 i1 g0 g1 c u, fresh_skb k t UDPHDR s ∧ stale s i0 i1 g0 g1 ∧
        frame = ethhdr ++ iphdr 17 64 8 [i0; i1] (le_enc 2 c) ++ udphdr (le_enc 2 u) ++ payload ∧
        length frame = 80%nat ∧ c = tk_ip_fast_csum k (iphdr 17 64 8 [i0; i1] [g0; g1]) ∧ u = 9917 ∧
        transport_sum 17 (udphdr (le_enc 2 u) ++ payload) ≠ 0 ∧
        (words (iphdr 17 64 8 [i0; i1] (le_enc 2 c)) mod 65535 = 0 ↔ (g0 + 256 * g1) mod 65535 = 0).
Proof.
  intros Hk. destruct (udp_sends k st t Hk) as (r & st' & ev & E & Hsends).
  exists r, st', ev. split; [done|]. intros frame r' Hin.
  assert (∃ bs, udp_packet k t bs ∧ frame = ethhdr ++ bs ++ payload) as (bs & (s & i0 & i1 & g0 & g1 & Hfr & Hst & ->) & ->).
  { destruct Hsends as [[_ ->]|[(_ & d & n & ->)|(d & n & bs & r0 & Hg & Hr)]]; [set_solver..|].
    exists bs. split; [done|]. cbv zeta in Hr. destruct (r0 <? 0); destruct Hr as [_ ->]; set_solver. }
  set (c := tk_ip_fast_csum _ _). set (u := tk_magic _ _ _ _ _ _).
  assert (0 ≤ c < 2 ^ 16 ∧ 0 ≤ u < 2 ^ 16) as [Hc Hu] by (split; [apply law_ip_csum|apply law_magic]; done).
  exists s, i0, i1, g0, g1, c, u. split; [done|]. split; [done|]. split; [by rewrite <-app_assoc|].
  split; [by rewrite !le_enc_2|]. split; [done|]. split_and!.
  - destruct (law_magic k Hk srcip dstip 8 17 (tk_checksum k (udphdr [0; 0]))) as [_ Hm]. fold u in Hm.
    destruct (law_checksum k Hk (udphdr [0; 0])) as [_ Hs].
    change (words (udphdr [0; 0]) mod 65535) with 48937 in Hs.
    change (words srcip) with 50955 in Hm. change (words dstip) with 14861 in Hm.
    pose proof (Z.div_mod (tk_checksum k (udphdr [0; 0])) 65535).
    apply Z.mod_divide in Hm as [q Hq]; lia.
  - rewrite (late_payload_sum k 17 (udphdr [0; 0]) (udphdr (le_enc 2 u)) u) by (done || (by rewrite le_enc_2) ||
      (unfold udphdr; rewrite !app_assoc, !(words_app (_ ++ _)), words_le_enc by done; done)). done.
  - destruct (law_ip_csum k Hk (iphdr 17 64 8 [i0; i1] [g0; g1])) as [_ Hv]. fold c in Hv.
    assert (∀ chk, length chk = 2%nat → words (iphdr 17 64 8 [i0; i1] chk) =
      words (iphdr 17 64 8 [i0; i1] [0; 0]) + words chk) as Hw.
    { intros [|a [|b [|]]] Hl; try done. simpl. lia. }
    rewrite Hw in Hv |- * by (done || by rewrite le_enc_2). rewrite words_le_enc by done. cbn [words] in Hv.
    set (w := words (iphdr 17 64 8 [i0; i1] [0; 0])) in *.
    apply Z.mod_divide in Hv as [q Hq]; [|lia].
    split; intros Hx; apply Z.mod_divide in Hx as [p Hp]; [|lia| |lia];
      (apply Z.mod_divide; [lia|]); exists (q - p); lia.
Qed.

(** Every TCP frame carries the current sequence number, which is then
    advanced, and a checksum that never verifies at the receiver, computed
    before the payload was there. *)
Theorem tcp_frame_checksums k st t :
  tx_laws k →
  ∃ ret_ st' ev, tcp_create_new_skb k st t = (Ok ret_, st', t ++ ev) ∧
    ∀ frame r, TxXmit frame r ∈ ev →
      seq st' = (seq st + 1) mod 2 ^ 64 ∧
      ∃ i0 i1 b12 fl u urg, frame = ethhdr ++ iphdr 6 32 20 [i0; i1] [0; 0] ++
          tcphdr (seq st) (ack_seq st) b12 fl (le_enc 2 u) urg ++ payload ∧ length frame = 92%nat ∧
        transport_sum 6 (tcphdr (seq st) (ack_seq st) b12 fl (le_enc 2 u) urg ++ payload) ≠ 0.
Proof.
  intros Hk. destruct (tcp_sends k st t Hk) as (r & st' & ev & E & Hsends & Hseq).
  exists r, st', ev. split; [done|]. intros frame r' Hin.
  assert (∃ bs, tcp_packet k (seq st) (ack_seq st) bs ∧ frame = ethhdr ++ bs ++ payload)
    as (bs & (i0 & i1 & b12 & fl & u0 & u1 & ->) & ->).
  { destruct Hsends as [[_ ->]|[(_ & d & n & ->)|(d & n & bs & r0 & Hg & Hr)]]; [set_solver..|].
    exists bs. split; [done|]. cbv zeta in Hr. destruct (r0 <? 0); destruct Hr as [_ ->]; set_solver. }
  split; [by eapply Hseq|].
  set (u := tk_magic _ _ _ _ _ _).
  assert (0 ≤ u < 2 ^ 16) as Hu by (by apply law_magic).
  destruct (le_enc_4 (u32 (seq st))) as (q0 & q1 & q2 & q3 & Hq).
  destruct (le_enc_4 (u32 (ack_seq st))) as (a0 & a1 & a2 & a3 & Ha).
  exists i0, i1, b12, fl, u, [u0; u1]. split; [by rewrite <-app_assoc|].
  assert (∀ chk, length chk = 2%nat → length (tcphdr (seq st) (ack_seq st) b12 fl chk [u0; u1]) = 20%nat ∧
    words (tcphdr (seq st) (ack_seq st) b12 fl chk [u0; u1]) =
    words (tcphdr (seq st) (ack_seq st) b12 fl [0; 0] [u0; u1]) + words chk) as Hw.
  { unfold tcphdr. rewrite Hq, Ha. intros [|a [|b [|]]] Hl; try done. split; [done|]. simpl. lia. }
  assert (length (le_enc 2 u) = 2%nat) as Hl by (by rewrite le_enc_2).
  destruct (Hw (le_enc 2 u) Hl) as [Hlen Hsum]. destruct (Hw [0; 0] eq_refl) as [Hlen0 _].
  split; [rewrite !length_app, Hlen; done|].
  rewrite (late_payload_sum k 6 (tcphdr (seq st) (ack_seq st) b12 fl [0; 0] [u0; u1]) _ u); [done|done|..].
  - by rewrite Hlen0.
  - by rewrite Hlen.
  - by rewrite Hsum, words_le_enc.
  - by rewrite Hlen.
Qed.

(** C32: ownership.  When the frame is accepted the device reference and the
    buffer are both accounted for.  Without memory for the buffer the device
    reference is kept for good; when the device refuses the frame the buffer,
    which [dev_queue_xmit] has consumed, is freed a second time.  The same holds
    of both modules. *)
Theorem nic_sender_ownership k st t create :
  tx_laws k → create = udp_create_new_skb ∨ create = tcp_create_new_skb →
  ∃ ret_ st' ev, create k st t = (Ok ret_, st', t ++ ev) ∧
    (total dev_refs ev = 0 ∧ total skb_owned ev = 0 ∧ (ret_ = 0 ∨ ev = [TxDevGet None]) ∨
     total dev_refs ev = 1 ∧ total skb_owned ev = 0 ∧ ret_ = - ENOMEM ∨
     total dev_refs ev = 0 ∧ total skb_owned ev = -1 ∧ ret_ < 0 ∧ ∃ frame, TxXmit frame ret_ ∈ ev).
Proof.
  intros Hk Hc.
  assert (∃ good ret_ st' ev, create k st t = (Ok ret_, st', t ++ ev) ∧ sends good ret_ ev)
    as (good & r & st' & ev & E & Hs).
  { destruct Hc as [-> | ->]; [destruct (udp_sends k st t Hk)|destruct (tcp_sends k st t Hk)]; naive_solver. }
  exists r, st', ev. split; [done|].
  destruct Hs as [[-> ->]|[(-> & d & n & ->)|(d & n & bs & r0 & _ & Hr)]].
  - left. eauto.
  - right. left. done.
  - cbv zeta in Hr. destruct (r0 <? 0) eqn:Hneg; destruct Hr as [-> ->]; zbool.
    + do 2 right. split_and!; [done|done|done|]. exists (ethhdr ++ bs ++ payload). set_solver.
    + left. eauto.
Qed.
End Facts.

(** Checksums by their defining equation. *)
Definition demo_tk : tx_kernel := {|
  tk_dev_get _ := Some (MkTxDev 16 0);
  tk_alloc_skb _ n := Some (0%nat, [], n);
  tk_xmit _ _ := 0;
  tk_ip_fast_csum bs := (- words bs) mod 65535;
  tk_checksum bs := words bs mod 65535;
  tk_magic sip dip len proto sum := (- (words sip + words dip + 256 * (len + proto) + sum)) mod 65535;
|}.

Lemma demo_tx_laws : tx_laws demo_tk.
Proof.
  split; simpl.
  - intros _ d E. simplify_eq. simpl. lia.
  - intros _ n s E. simplify_eq. simpl. split_and!; [done|done|lia].
  - intros bs. pose proof (Z.mod_pos_bound (- words bs) 65535). split; [lia|].
    rewrite Zplus_mod_idemp_l. by rewrite Z.add_opp_diag_l.
  - intros bs. pose proof (Z.mod_pos_bound (words bs) 65535). split; [lia|]. by rewrite Z.mod_mod.
  - intros a b len proto sum. set (x := words a + words b + 256 * (len + proto) + sum).
    pose proof (Z.mod_pos_bound (- x) 65535). split; [lia|].
    replace (_ + words a + words b + _ + sum) with ((- x) mod 65535 + x) by (unfold x; lia).
    rewrite Zplus_mod_idemp_l. by rewrite Z.add_opp_diag_l.
Qed.

Lemma udp_frame_checksums_witness :
  ∃ ret_ st' ev, udp_create_new_skb demo_tk tx_state0 [] = (Ok ret_, st', [] ++ ev) ∧
    ∀ frame r, TxXmit frame r ∈ ev →
      ∃ s i0 i1 g0 g1 c u, fresh_skb demo_tk [] UDPHDR s ∧ stale s i0 i1 g0 g1 ∧
        frame = ethhdr ++ iphdr 17 64 8 [i0; i1] (le_enc 2 c) ++ udphdr (le_enc 2 u) ++ payload ∧
        length frame = 80%nat ∧ c = tk_ip_fast_csum demo_tk (iphdr 17 64 8 [i0; i1] [g0; g1]) ∧ u = 9917 ∧
        transport_sum 17 (udphdr (le_enc 2 u) ++ payload) ≠ 0 ∧
        (words (iphdr 17 64 8 [i0; i1] (le_enc 2 c)) mod 65535 = 0 ↔ (g0 + 256 * g1) mod 65535 = 0).
Proof. exact (udp_frame_checksums demo_tk tx_state0 [] demo_tx_laws). Defined.

Lemma tcp_frame_checksums_witness :
  ∃ ret_ st' ev, tcp_create_new_skb demo_tk tx_state0 [] = (Ok ret_, st', [] ++ ev) ∧
    ∀ frame r, TxXmit frame r ∈ ev →
      seq st' = (seq tx_state0 + 1) mod 2 ^ 64 ∧
      ∃ i0 i1 b12 fl u urg, frame = ethhdr ++ iphdr 6 32 20 [i0; i1] [0; 0] ++
          tcphdr (seq tx_state0) (ack_seq tx_state0) b12 fl (le_enc 2 u) urg ++ payload ∧ length frame = 92%nat ∧
        transport_sum 6 (tcphdr (seq tx_state0) (ack_seq tx_state0) b12 fl (le_enc 2 u) urg ++ payload) ≠ 0.
Proof. exact (tcp_frame_checksums demo_tk tx_state0 [] demo_tx_laws). Defined.

Lemma nic_sender_ownership_witness :
  ∃ ret_ st' ev, tcp_create_new_skb demo_tk tx_state0 [] = (Ok ret_, st', [] ++ ev) ∧
    (total dev_refs ev = 0 ∧ total skb_owned ev = 0 ∧ (ret_ = 0 ∨ ev = [TxDevGet None]) ∨
     total dev_refs ev = 1 ∧ total skb_owned ev = 0 ∧ ret_ = - ENOMEM ∨
     total dev_refs ev = 0 ∧ total skb_owned ev = -1 ∧ ret_ < 0 ∧ ∃ frame, TxXmit frame ret_ ∈ ev).
Proof.
  exact (nic_sender_ownership demo_tk tx_state0 [] tcp_create_new_skb demo_tx_laws (or_intror eq_refl)).
Defined.
