(* ===== verification/Garp.v ===== *)
(** * Gratuitous ARP: [src/nic/garp.c]

    On load the module announces every address of "eth0" three times.  The
    frame is built with the buffer interface of [SkbTx]; the device, its
    addresses and the Ethernet header helper belong to the kernel record
    [garp_kernel]. *)

From S2P Require Import Prelude Bytes Nlmsg SkbTx.

Definition ETH_P_IP : Z := 2048.
Definition ETH_P_ARP : Z := 2054.
Definition ARPOP_REQUEST : Z := 1.

(** The fields of [struct net_device] the module reads. *)
Record arp_dev := MkArpDev {
  ll_reserved : nat;              (* LL_RESERVED_SPACE *)
  tailroom_needed : nat;
  hw_addr : list Z;
  hw_broadcast : list Z;
  hw_len : nat;
  hw_type : Z;
}.

Section Model.
Context `{SkbApi}.

Inductive garp_ev :=
| GvDevGet (dev : option arp_dev)
| GvDevPut
| GvAlloc (ok : bool)
| GvKfreeSkb
| GvXmit (frame : list Z) (ret : Z).

Record garp_kernel := {
  gk_dev_get : list garp_ev → option arp_dev;
  gk_arp_hdr_len : arp_dev → nat;
  gk_alloc_skb : list garp_ev → nat → option skbuf;
  (* eth_header(skb, dev, type, daddr, saddr): result and buffer *)
  gk_eth_header : arp_dev → Z → list Z → list Z → skbuf → Z * skbuf;
  gk_xmit : list garp_ev → list Z → Z;
  (* the interface addresses of __in_dev_get_rtnl(dev) *)
  gk_in_dev : list garp_ev → arp_dev → option (list (list Z));
}.

Definition GM (A : Type) : Type := M garp_kernel unit garp_ev A.

Definition alloc_skb (n : nat) : GM (option skbuf) := λ k s t,
  let r := gk_alloc_skb k t n in (Ok r, s, t ++ [GvAlloc (if r is Some _ then true else false)]).

(** [arp] points to the area [skb_put] returned; [eth_header] moves
    [skb->data] in front of it, so that it is found at the end of the data. *)
Definition garp_create (dest_ip : list Z) (dev : arp_dev) (src_ip : list Z)
    (dest_hw src_hw target_hw : option (list Z)) : GM (option skbuf) :=
  let hlen := ll_reserved dev in
  let tlen := tailroom_needed dev in
  alen <- kpure (λ k, gk_arp_hdr_len k dev) ;;
  skb <- alloc_skb (alen + hlen + tlen) ;;
  match skb with
  | None => ret None
  | Some skb =>
      let skb := skb_reserve hlen skb in
      skb <- room (skb_put alen skb) ;;
      let src_hw := default (hw_addr dev) src_hw in
      let dest_hw := default (hw_broadcast dev) dest_hw in
      r <- kpure (λ k, gk_eth_header k dev ETH_P_ARP dest_hw src_hw skb) ;;
      let skb := r.2 in
      if r.1 <? 0 then emit GvKfreeSkb ;; ret None else
      let arp := Z.of_nat (length (skb_load skb) - alen) in
      skb <- stores [(arp, be16 (hw_type dev)); (arp + 2, be16 ETH_P_IP); (arp + 4, [u8 (Z.of_nat (hw_len dev))]);
        (arp + 5, [4]); (arp + 6, be16 ARPOP_REQUEST)] skb ;;
      let arp_ptr := arp + 8 in
      let n := Z.of_nat (hw_len dev) in
      src <- index (slice 0 (hw_len dev) src_hw) ;;
      skb <- stores [(arp_ptr, src); (arp_ptr + n, src_ip)] skb ;;
      let arp_ptr := arp_ptr + n + 4 in
      target <- index (match target_hw with
                       | Some hw => slice 0 (hw_len dev) hw
                       | None => Some (replicate (hw_len dev) 0)
                       end) ;;
      skb <- stores [(arp_ptr, target); (arp_ptr + n, dest_ip)] skb ;;
      ret (Some skb)
  end.

Definition garp_xmit (skb : skbuf) : GM Z :=
  kcall (λ k t, gk_xmit k t (skb_load skb)) (GvXmit (skb_load skb)).

Definition garp_send (dest_ip : list Z) (dev : arp_dev) (src_ip : list Z)
    (dest_hw src_hw target_hw : option (list Z)) : GM unit :=
  skb <- garp_create dest_ip dev src_ip dest_hw src_hw target_hw ;;
  match skb with
  | None => ret tt
  | Some skb =>
      r <- garp_xmit skb ;;
      when (r <? 0) do emit GvKfreeSkb
  end.

(** The walk along [ifa_list]. *)
Fixpoint ifa_loop (dev : arp_dev) (ifas : list (list Z)) : GM unit :=
  match ifas with
  | [] => ret tt
  | ifa_local :: ifas =>
      garp_send ifa_local dev ifa_local None (Some (hw_addr dev)) None ;;
      ifa_loop dev ifas
  end.

Definition garp_send_gratuitous_arp (dev : arp_dev) : GM unit :=
  in_dev <- kpeek (λ k t, gk_in_dev k t dev) ;;
  ifas <- deref in_dev ;;
  ifa_loop dev ifas.

Definition garp_init : GM Z :=
  dev <- kcall gk_dev_get GvDevGet ;;
  match dev with
  | None => ret (-1)
  | Some dev =>
      garp_send_gratuitous_arp dev ;;
      garp_send_gratuitous_arp dev ;;
      garp_send_gratuitous_arp dev ;;
      emit GvDevPut ;;
      ret 0
  end.
End Model.

(** ** What the kernel documents *)

(** An Ethernet device. *)
Record eth_dev (d : arp_dev) : Prop := {
  ed_room : (14 ≤ ll_reserved d)%nat;
  ed_addr : length (hw_addr d) = 6%nat;
  ed_bcast : length (hw_broadcast d) = 6%nat;
  ed_len : hw_len d = 6%nat;
  ed_type : hw_type d = 1;
}.

Record garp_laws `{SkbLaws} (k : garp_kernel) : Prop := {
  gl_hdr_len : ∀ d, hw_type d ≠ 24 → gk_arp_hdr_len k d = (8 + 2 * (hw_len d + 4))%nat;
  gl_alloc : ∀ t n s, gk_alloc_skb k t n = Some s →
    skb_load s = [] ∧ headroom s = 0%nat ∧ (n ≤ tailroom s)%nat;
  (* the Ethernet header of an ARP frame is pushed in front of the data *)
  gl_eth_header : ∀ d dst src s, length dst = 6%nat → length src = 6%nat → (14 ≤ headroom s)%nat →
    ∃ s', gk_eth_header k d ETH_P_ARP dst src s = (14, s') ∧
      is_skb (headroom s - 14) (tailroom s) (dst ++ src ++ be16 ETH_P_ARP ++ skb_load s) s';
}.

(** ** Facts *)

(** The announcement of the address [ip]: a request to everybody, asking for
    the sender's own address. *)
Definition garp_frame (d : arp_dev) (ip : list Z) : list Z :=
  hw_broadcast d ++ hw_addr d ++ [8; 6] ++
  [0; 1; 8; 0; 6; 4; 0; 1] ++ hw_addr d ++ ip ++ replicate 6 0 ++ ip.

Section Facts.
Context `{SkbLaws} (k : garp_kernel) (d : arp_dev).
Hypothesis Hlaws : garp_laws k.
Hypothesis Heth : eth_dev d.

Lemma area_ip (ip : list Z) : length ip = 4%nat → ∃ a b c e, ip = [a; b; c; e].
Proof. intros Hl. split_area ip Hl. by do 4 eexists. Qed.

Lemma area_hw (hw : list Z) : length hw = 6%nat → ∃ a b c e f g, hw = [a; b; c; e; f; g].
Proof. intros Hl. split_area hw Hl. by do 6 eexists. Qed.

Lemma garp_create_ok ip t :
  length ip = 4%nat →
  garp_create ip d ip None (Some (hw_addr d)) None k tt t = (Ok None, tt, t ++ [GvAlloc false]) ∨
  ∃ s, garp_create ip d ip None (Some (hw_addr d)) None k tt t = (Ok (Some s), tt, t ++ [GvAlloc true]) ∧
    skb_load s = garp_frame d ip.
Proof.
  intros Hip. destruct Heth as [Hroom Haddr Hbc Hlen Htype]. unfold garp_create.
  erewrite bind_ok by reflexivity. rewrite (gl_hdr_len k Hlaws) by lia. rewrite Hlen.
  change (8 + 2 * (6 + 4))%nat with 28%nat. erewrite bind_ok by reflexivity.
  destruct (gk_alloc_skb k t _) as [s|] eqn:Hs; [right|by left].
  destruct (gl_alloc k Hlaws _ _ _ Hs) as (Hl & Hh & Ht).
  destruct (reserve_ok (ll_reserved d) s Hl) as (Hl' & Hh' & Ht'); [lia|].
  assert (is_skb (headroom s + ll_reserved d) (tailroom s - ll_reserved d) [] (skb_reserve (ll_reserved d) s)) as Hs0
    by done.
  set (t1 := t ++ _).
  destruct (put_is k tt t1 _ _ [] 28 _ Hs0) as (s1 & area & E1 & Ha & Hs1); [lia|]. mrun E1.
  erewrite bind_ok by reflexivity. simpl (default _ _). pose proof Hs1 as (Hh1 & _ & Hl1).
  destruct (gl_eth_header k Hlaws d (hw_broadcast d) (hw_addr d) s1) as (s2 & E2 & Hs2); [done|done|lia|].
  rewrite E2. cbn [fst snd]. change (14 <? 0) with false. cbv iota.
  rewrite Hl1 in Hs2. cbn [app] in Hs2. unfold garp_frame.
  destruct (area_hw _ Haddr) as (h0 & h1 & h2 & h3 & h4 & h5 & Ehw).
  destruct (area_hw _ Hbc) as (b0 & b1 & b2 & b3 & b4 & b5 & Ebc).
  destruct (area_ip _ Hip) as (p0 & p1 & p2 & p3 & ->).
  rewrite Htype, Ehw, Ebc in *. split_area area Ha. cbn [app] in Hs2.
  pose proof Hs2 as (_ & _ & Hl2). rewrite Hl2. cbv zeta. run_stores Hs2.
  erewrite bind_ok by reflexivity. run_stores Hs2. erewrite bind_ok by reflexivity. run_stores Hs2.
  eexists. split; [reflexivity|]. destruct Hs2 as (_ & _ & ->). reflexivity.
Qed.

(** What announcing one address leaves in the trace.  [dev_queue_xmit] takes
    the buffer whatever it answers. *)
Inductive announced (ip : list Z) : list garp_ev → Prop :=
| announced_no_memory : announced ip [GvAlloc false]
| announced_sent r : 0 ≤ r → announced ip [GvAlloc true; GvXmit (garp_frame d ip) r]
| announced_freed_twice r : r < 0 →
    announced ip [GvAlloc true; GvXmit (garp_frame d ip) r; GvKfreeSkb].

Lemma garp_send_ok ip t :
  length ip = 4%nat →
  ∃ ev, garp_send ip d ip None (Some (hw_addr d)) None k tt t = (Ok tt, tt, t ++ ev) ∧ announced ip ev.
Proof.
  intros Hip. unfold garp_send. destruct (garp_create_ok ip t Hip) as [E|(s & E & Hs)]; mrun E.
  - exists [GvAlloc false]. split; [done|constructor].
  - unfold garp_xmit. rewrite Hs. erewrite bind_ok by reflexivity.
    set (r := gk_xmit _ _ _). destruct (r <? 0) eqn:Hr; zbool.
    + eexists. split; [unfold emit; by rewrite <-!app_assoc|by constructor].
    + eexists. split; [unfold ret; by rewrite <-!app_assoc|by constructor].
Qed.

Lemma ifa_loop_ok ifas t :
  Forall (λ ip, length ip = 4%nat) ifas →
  ∃ evs, ifa_loop d ifas k tt t = (Ok tt, tt, t ++ concat evs) ∧ Forall2 announced ifas evs.
Proof.
  intros Hf. revert t. induction Hf as [|ip ifas Hip _ IH]; intros t.
  - exists []. by rewrite app_nil_r.
  - destruct (garp_send_ok ip t Hip) as (ev & E & Ha). cbn [ifa_loop]. mrun E.
    destruct (IH (t ++ ev)) as (evs & E' & Hevs). exists (ev :: evs). split; [|by constructor].
    rewrite E'. cbn [concat]. by rewrite app_assoc.
Qed.
End Facts.

(** C22: when "eth0" is an Ethernet device with the addresses [addrs], loading
    garp.c never runs out of buffer room: three times over, and in order, it
    announces each address in a broadcast ARP request whose sender and target
    address are that address, or skips it for lack of memory; it returns 0 with
    the device reference given back.  Where the device refuses a frame, the
    buffer is freed a second time. *)
Theorem garp_frames `{SkbLaws} (k : garp_kernel) (d : arp_dev) (addrs : list (list Z)) (t : list garp_ev)
    (Hlaws : garp_laws k) (Heth : eth_dev d) (Hdev : gk_dev_get k t = Some d)
    (Haddrs : ∀ t', gk_in_dev k t' d = Some addrs) (Hlen : Forall (λ ip, length ip = 4%nat) addrs) :
  ∃ evs, garp_init k tt t = (Ok 0, tt, t ++ [GvDevGet (Some d)] ++ concat evs ++ [GvDevPut]) ∧
    Forall2 (announced d) (addrs ++ addrs ++ addrs) evs.
Proof.
  assert (∀ t', ∃ evs, garp_send_gratuitous_arp d k tt t' = (Ok tt, tt, t' ++ concat evs) ∧
    Forall2 (announced d) addrs evs) as Hround.
  { intros t'. unfold garp_send_gratuitous_arp. erewrite bind_ok by reflexivity. rewrite Haddrs.
    by apply ifa_loop_ok. }
  unfold garp_init. erewrite bind_ok by reflexivity. rewrite Hdev.
  destruct (Hround (t ++ [GvDevGet (Some d)])) as (e1 & E1 & F1). mrun E1.
  destruct (Hround ((t ++ [GvDevGet (Some d)]) ++ concat e1)) as (e2 & E2 & F2). mrun E2.
  destruct (Hround (((t ++ [GvDevGet (Some d)]) ++ concat e1) ++ concat e2)) as (e3 & E3 & F3). mrun E3.
  erewrite bind_ok by reflexivity. exists (e1 ++ e2 ++ e3). split.
  - unfold ret. by rewrite !concat_app, <-!app_assoc.
  - by repeat apply Forall2_app.
Qed.

(** ** A concrete kernel *)

Definition demo_arp_dev : arp_dev := MkArpDev 16 0 [2; 0; 0; 0; 0; 1] (replicate 6 255) 6 1.

(** The device refuses its first frame. *)
Definition demo_gk : garp_kernel := {|
  gk_dev_get _ := Some demo_arp_dev;
  gk_arp_hdr_len d := (8 + 2 * (hw_len d + 4))%nat;
  gk_alloc_skb _ n := Some (0%nat, [], n);
  gk_eth_header _ ty dst src s := (14, ((s.1.1 - 14)%nat, dst ++ src ++ be16 ty ++ s.1.2, s.2));
  gk_xmit t _ := if decide (length t < 3)%nat then -100 else 0;
  gk_in_dev _ _ := Some [[10; 0; 0; 1]; [10; 0; 0; 2]];
|}.

Lemma demo_garp_laws : garp_laws demo_gk.
Proof.
  split; [done| |].
  - intros t n s E. simplify_eq/=. split_and!; [done|done|lia].
  - intros d dst src [[h b] r] _ _ Hh. simpl. eexists. split; [done|]. repeat split.
Qed.

Lemma garp_frames_witness :
  ∃ evs, garp_init demo_gk tt [] =
      (Ok 0, tt, [] ++ [GvDevGet (Some demo_arp_dev)] ++ concat evs ++ [GvDevPut]) ∧
    Forall2 (announced demo_arp_dev) ([[10; 0; 0; 1]; [10; 0; 0; 2]] ++ [[10; 0; 0; 1]; [10; 0; 0; 2]] ++
      [[10; 0; 0; 1]; [10; 0; 0; 2]]) evs.
Proof.
  refine (garp_frames demo_gk demo_arp_dev [[10; 0; 0; 1]; [10; 0; 0; 2]] [] demo_garp_laws _ eq_refl _ _).
  - split; simpl; done || lia.
  - done.
  - by repeat constructor.
Defined.
