(* ===== verification/NicDev.v ===== *)
(** * The dummy network device [src/nic/nic.c]

    A device without a transmit operation, a shared interrupt and three netfilter hooks,
    all set up at load and torn down at unload.  The device record and the
    loop that fills its address are those of [Mon]. *)

From S2P Require Import Prelude Bytes Nlmsg Netctrl Mon.

(** The resources the module obtains from the kernel. *)
Inductive nic_res :=
| RMemory (dev : Z)        (* the allocated device *)
| RNetdev (dev : Z)        (* its registration *)
| RIrq (dev : Z)
| RHooks
| RDevRef.                 (* a counted reference to the device of that name *)

#[global] Instance nic_res_eq_dec : EqDecision nic_res.
Proof. solve_decision. Defined.

Inductive nic_hook := nic_hook_local_out_ | nic_hook_pre_routing_ | nic_hook_post_routing_.

(** An entry of [nic_hooks]: the hook, protocol family, hook point; the
    priority stays 0. *)
Record nic_hook_ops := MkNicHook { nh_hook : nic_hook; nh_pf : Z; nh_num : Z; nh_priority : Z }.

Definition nic_hooks : list nic_hook_ops :=
  [MkNicHook nic_hook_local_out_ PF_INET 3 0;
   MkNicHook nic_hook_pre_routing_ PF_INET 0 0;
   MkNicHook nic_hook_post_routing_ PF_INET 4 0].

Inductive nic_ev :=
| NvDevGet (found : bool)
| NvDevPut
| NvAlloc (r : option (Z * net_device))
| NvRegister (dev : Z) (d : net_device) (rc : Z)
| NvRequestIrq (irq dev rc : Z)
| NvRegisterHooks (hooks : list nic_hook_ops) (rc : Z)
| NvUnregister (dev : Z)
| NvFreeIrq (irq dev : Z)
| NvUnregisterHooks (hooks : list nic_hook_ops)
| NvPacket (len : Z) (first : list Z).       (* printk of the first twelve bytes *)

Record nic_kernel := {
  ik_dev_get : list nic_ev → bool;
  ik_alloc_etherdev : list nic_ev → option (Z * net_device);
  ik_ether_setup : net_device → net_device;
  ik_register_netdev : list nic_ev → Z;
  ik_request_irq : list nic_ev → Z;
  ik_register_hooks : list nic_ev → Z;
}.

(** The only global that changes is [nic_netdev]. *)
Definition IM (A : Type) : Type := M nic_kernel (option Z) nic_ev A.

Definition nic_irq : Z := 16.
Definition str_nic : list Z := [110; 105; 99].

(** ** The hooks *)

(** [data] is the linear part of the packet, [len] is [skb->len]. *)
Definition nic_hook_local_out (len : Z) (data : list Z) : IM Z :=
  first <- index (slice 0 12 data) ;;
  emit (NvPacket len first) ;;
  ret NF_ACCEPT.

Definition nic_hook_pre_routing (len : Z) (data : list Z) : IM Z := ret NF_ACCEPT.
Definition nic_hook_post_routing (len : Z) (data : list Z) : IM Z := ret NF_ACCEPT.

Definition nic_run_hook (h : nic_hook) : Z → list Z → IM Z :=
  match h with
  | nic_hook_local_out_ => nic_hook_local_out
  | nic_hook_pre_routing_ => nic_hook_pre_routing
  | nic_hook_post_routing_ => nic_hook_post_routing
  end.

Definition nic_hooks_init : IM Z :=
  kcall ik_register_hooks (NvRegisterHooks nic_hooks).

(** ** Load and unload *)

Definition nic_netdevice_ops : net_device_ops := MkNetOps false false false false.

Definition nic_intr (data : Z) : irqreturn := IRQ_NONE.

(** From the name to [netdev_ops]; [dev->priv] is not read by anybody. *)
Definition nic_setup (ether_setup : net_device → net_device) (d : net_device) : option net_device :=
  addr ← addr_loop 6 0 (dev_addr d);
  let d := MkDev (strncpy str_nic IFNAMSIZ) addr (destructor d) (netdev_ops d) (mtu d) (hard_header_len d)
    (addr_len d) (tx_queue_len d) (dev_flags d) (dev_type d) (wireless_handlers d) (broadcast d) in
  let d := ether_setup d in
  Some (MkDev (dev_name d) (dev_addr d) (destructor d) (Some nic_netdevice_ops) (mtu d) (hard_header_len d)
    (addr_len d) (tx_queue_len d) (dev_flags d) (dev_type d) (wireless_handlers d) (broadcast d)).

Definition nic_init : IM Z :=
  found <- kcall ik_dev_get NvDevGet ;;
  if (found : bool) then emit NvDevPut ;; ret 0 else
  dev <- kcall ik_alloc_etherdev NvAlloc ;;
  match dev with
  | None => ret (- ENOMEM)
  | Some (a, d) =>
      ether_setup <- kpure ik_ether_setup ;;
      d <- index (nic_setup ether_setup d) ;;
      r <- kcall ik_register_netdev (NvRegister a d) ;;
      modify (λ _, Some a) ;;
      r <- kcall ik_request_irq (NvRequestIrq nic_irq a) ;;
      nic_hooks_init ;;
      ret 0
  end.

Definition nic_fini : IM unit :=
  dev <- get (λ s, s) ;;
  match dev with
  | None => ret tt
  | Some a =>
      emit (NvUnregister a) ;;
      emit (NvFreeIrq nic_irq a) ;;
      modify (λ _, None) ;;
      emit (NvUnregisterHooks nic_hooks)
  end.

(** ** Facts *)

(** What a call obtains (when it succeeds) and what it gives back. *)
Definition acquires (e : nic_ev) : option nic_res :=
  match e with
  | NvDevGet true => Some RDevRef
  | NvAlloc (Some (a, _)) => Some (RMemory a)
  | NvRegister a _ rc => if rc =? 0 then Some (RNetdev a) else None
  | NvRequestIrq _ a rc => if rc =? 0 then Some (RIrq a) else None
  | NvRegisterHooks _ rc => if rc =? 0 then Some RHooks else None
  | _ => None
  end.

Definition releases (e : nic_ev) : option nic_res :=
  match e with
  | NvDevPut => Some RDevRef
  | NvUnregister a => Some (RNetdev a)
  | NvFreeIrq _ a => Some (RIrq a)
  | NvUnregisterHooks _ => Some RHooks
  | _ => None
  end.

(** What the network core promises: a new device has room for an address and
    no destructor; [ether_setup] keeps name, address and destructor. *)
Record nic_net_ok (k : nic_kernel) : Prop := {
  nno_alloc : ∀ t a d, ik_alloc_etherdev k t = Some (a, d) →
    (6 ≤ length (dev_addr d))%nat ∧ destructor d = false;
  nno_name : ∀ d, dev_name (ik_ether_setup k d) = dev_name d;
  nno_addr : ∀ d, dev_addr (ik_ether_setup k d) = dev_addr d;
  nno_destructor : ∀ d, destructor (ik_ether_setup k d) = destructor d;
}.

Lemma nic_setup_ok k d :
  nic_net_ok k → (6 ≤ length (dev_addr d))%nat → destructor d = false →
  ∃ d', nic_setup (ik_ether_setup k) d = Some d' ∧ cstr (dev_name d') = Some str_nic ∧
    take 6 (dev_addr d') = [0; 1; 2; 3; 4; 5] ∧ destructor d' = false ∧ ndo_start_xmit <$> netdev_ops d' = Some false.
Proof.
  intros Hk Hd Hf. unfold nic_setup. rewrite addr_loop_6 by done. eexists. split; [reflexivity|].
  cbn [dev_name dev_addr destructor].
  by rewrite (nno_name k Hk), (nno_addr k Hk), (nno_destructor k Hk).
Qed.

(** All three set-up calls succeeded exactly when what was obtained is what
    unloading gives back, plus the memory. *)
Lemma nic_balance a d d' rc1 rc2 rc3 :
  omap acquires [NvDevGet false; NvAlloc (Some (a, d)); NvRegister a d' rc1; NvRequestIrq nic_irq a rc2;
    NvRegisterHooks nic_hooks rc3] ≡ₚ
  RMemory a :: omap releases [NvUnregister a; NvFreeIrq nic_irq a; NvUnregisterHooks nic_hooks] ↔
  rc1 = 0 ∧ rc2 = 0 ∧ rc3 = 0.
Proof.
  cbn [omap list_omap acquires releases].
  destruct (rc1 =? 0) eqn:E1, (rc2 =? 0) eqn:E2, (rc3 =? 0) eqn:E3; zbool;
    (split; [intros Hp; apply Permutation_length in Hp; simpl in Hp; done || lia|by intros (? & ? & ?)]).
Qed.

Lemma nic_fini_some k a t :
  nic_fini k (Some a) t = (Ok tt, None, t ++ [NvUnregister a; NvFreeIrq nic_irq a; NvUnregisterHooks nic_hooks]).
Proof. unfold nic_fini. mstep. by rewrite <-!app_assoc. Qed.

(** C35: load and unload of nic.c.  If a device "nic" exists, its reference is
    given back and nothing else happens; without memory loading fails and holds
    nothing; in both cases unloading does nothing.  Otherwise loading returns
    0, whatever the kernel answers, with a device "nic" of address
    00:01:02:03:04:05, no destructor and no transmit function, and unloading gives back registration,
    interrupt and hooks, which matches what was obtained exactly when all three
    calls had succeeded; the memory of the device is never given back. *)
Theorem nic_lifecycle (k : nic_kernel) (t : list nic_ev) (Hk : nic_net_ok k) :
  ∃ r s' ev evx, nic_init k None t = (Ok r, s', t ++ ev) ∧
    (∀ t1, nic_fini k s' t1 = (Ok tt, None, t1 ++ evx)) ∧
    (ev = [NvDevGet true; NvDevPut] ∧ r = 0 ∧ evx = [] ∨
     ev = [NvDevGet false; NvAlloc None] ∧ r = - ENOMEM ∧ evx = [] ∨
     ∃ a d d' rc1 rc2 rc3, r = 0 ∧
       ev = [NvDevGet false; NvAlloc (Some (a, d)); NvRegister a d' rc1; NvRequestIrq nic_irq a rc2;
         NvRegisterHooks nic_hooks rc3] ∧
       cstr (dev_name d') = Some str_nic ∧ take 6 (dev_addr d') = [0; 1; 2; 3; 4; 5] ∧ destructor d' = false ∧
       ndo_start_xmit <$> netdev_ops d' = Some false ∧
       (omap acquires ev ≡ₚ RMemory a :: omap releases evx ↔ rc1 = 0 ∧ rc2 = 0 ∧ rc3 = 0)).
Proof.
  unfold nic_init. erewrite bind_ok by reflexivity. destruct (ik_dev_get k t).
  { eexists 0, None, _, []. split; [erewrite bind_ok by reflexivity; unfold ret; by rewrite <-app_assoc|].
    split; [intros t1; by rewrite app_nil_r|by left]. }
  erewrite bind_ok by reflexivity. set (t1 := t ++ _). destruct (ik_alloc_etherdev k t1) as [[a d]|] eqn:Ha.
  - destruct (nno_alloc k Hk _ _ _ Ha) as [Hlen Hdes].
    destruct (nic_setup_ok k d Hk Hlen Hdes) as (d' & Hd' & Hname & Haddr & Hnone & Hxmit).
    erewrite bind_ok by reflexivity. rewrite Hd'. do 4 (erewrite bind_ok by reflexivity).
    unfold nic_hooks_init. erewrite bind_ok by reflexivity. eexists 0, (Some a), _, _.
    split; [unfold ret, t1; by rewrite <-!app_assoc|].
    split; [intros t2; apply nic_fini_some|].
    right; right. eexists a, d, d', _, _, _. split_and!; [done|reflexivity|done..|apply nic_balance].
  - eexists _, None, _, []. split; [unfold ret, t1; by rewrite <-app_assoc|].
    split; [intros t2; by rewrite app_nil_r|by right; left].
Qed.

(** Every hook accepts an IPv4 packet, whose header has twenty bytes. *)
Lemma nic_hooks_accept k s t h len data :
  (12 ≤ length data)%nat → (nic_run_hook h len data k s t).1 = (Ok NF_ACCEPT, s).
Proof. intros Hl. destruct h; [|done..]. by do 12 (destruct data as [|? data]; [simpl in Hl; lia|]). Qed.

(** ** Witness *)

(** The interrupt is refused. *)
Definition demo_ik : nic_kernel := {|
  ik_dev_get _ := false;
  ik_alloc_etherdev _ := Some (100, demo_dev);
  ik_ether_setup d := MkDev (dev_name d) (dev_addr d) (destructor d) (netdev_ops d) 1500 14 6 1000 4098 1
    (wireless_handlers d) (replicate 32 255);
  ik_register_netdev _ := 0;
  ik_request_irq _ := -16;
  ik_register_hooks _ := 0;
|}.

Lemma demo_nic_net_ok : nic_net_ok demo_ik.
Proof. split; simpl; intros; simplify_eq/=; done || (split; [lia|done]). Qed.

Lemma nic_lifecycle_witness :
  ∃ r s' ev evx, nic_init demo_ik None [] = (Ok r, s', [] ++ ev) ∧
    (∀ t1, nic_fini demo_ik s' t1 = (Ok tt, None, t1 ++ evx)) ∧
    (ev = [NvDevGet true; NvDevPut] ∧ r = 0 ∧ evx = [] ∨
     ev = [NvDevGet false; NvAlloc None] ∧ r = - ENOMEM ∧ evx = [] ∨
     ∃ a d d' rc1 rc2 rc3, r = 0 ∧
       ev = [NvDevGet false; NvAlloc (Some (a, d)); NvRegister a d' rc1; NvRequestIrq nic_irq a rc2;
         NvRegisterHooks nic_hooks rc3] ∧
       cstr (dev_name d') = Some str_nic ∧ take 6 (dev_addr d') = [0; 1; 2; 3; 4; 5] ∧ destructor d' = false ∧
       ndo_start_xmit <$> netdev_ops d' = Some false ∧
       (omap acquires ev ≡ₚ RMemory a :: omap releases evx ↔ rc1 = 0 ∧ rc2 = 0 ∧ rc3 = 0)).
Proof. exact (nic_lifecycle demo_ik [] demo_nic_net_ok). Defined.
