(* ===== verification/Kthread.v ===== *)
(** * Kernel threads: [src/kthread/kthread_sema.c] and [src/kthread/mythread.c]

    Two threads share a counter under a reader-writer semaphore, and the module
    starts and stops them.  Reader, writer and the module's own code are the
    actors of a transition system; one step is one statement.  The semaphore is
    kernel code: the class [RwSem] names its operations and [RwSemLaws] states
    what they promise. *)

From S2P Require Import Prelude.

(** ** The semaphore *)

(** [down_write] queues the caller and then waits to be let in; [down_read]
    waits to be let in.  [None] means that the caller still waits. *)
Class RwSem := {
  rw_semaphore : Type;
  init_rwsem : rw_semaphore;
  down_write_queue : rw_semaphore → rw_semaphore;
  down_write_enter : rw_semaphore → option rw_semaphore;
  down_read : rw_semaphore → option rw_semaphore;
  up_read : rw_semaphore → rw_semaphore;
  up_write : rw_semaphore → rw_semaphore;
  sem_count : rw_semaphore → Z;
}.

(** What a semaphore is for its users: the readers inside, whether a writer is
    inside, and the writers that wait. *)
Record rw_view := MkView { v_readers : nat; v_writer : bool; v_waiting : nat }.

Class RwSemLaws `{RwSem} := {
  view : rw_semaphore → rw_view;
  view_init : view init_rwsem = MkView 0 false 0;
  view_queue s : view (down_write_queue s) = MkView (v_readers (view s)) (v_writer (view s)) (S (v_waiting (view s)));
  view_enter s s' : down_write_enter s = Some s' →
    v_readers (view s) = 0%nat ∧ v_writer (view s) = false ∧
    view s' = MkView 0 true (pred (v_waiting (view s)));
  view_read s s' : down_read s = Some s' →
    v_writer (view s) = false ∧ view s' = MkView (S (v_readers (view s))) false (v_waiting (view s));
  view_up_read s n : v_readers (view s) = S n →
    view (up_read s) = MkView n (v_writer (view s)) (v_waiting (view s));
  view_up_write s : v_writer (view s) = true →
    view (up_write s) = MkView (v_readers (view s)) false (v_waiting (view s));
  (* a waiting writer gets in once the semaphore is free, and readers do not
     overtake it; a reader gets in when no writer is inside or waits *)
  writer_gets_in s : v_readers (view s) = 0%nat → v_writer (view s) = false → (0 < v_waiting (view s))%nat →
    is_Some (down_write_enter s);
  reader_waits s : (0 < v_waiting (view s))%nat → down_read s = None;
  reader_gets_in s : v_writer (view s) = false → v_waiting (view s) = 0%nat → is_Some (down_read s);
}.

(** ** The module *)

(** Program counters: the statement a thread executes next. *)
Inductive reader_pc :=
| RStart        (* created, not yet running *)
| RTest         (* while (!kthread_should_stop()) *)
| RDown         (* down_read(&rwsem) *)
| RPrint        (* printk("... reading number") *)
| RSleep        (* msleep(1000) *)
| RUp           (* up_read(&rwsem) *)
| RExit         (* printk("read thread now exit") *)
| RDone.

Inductive writer_pc :=
| WStart
| WTest
| WDown         (* down_write(&rwsem): queue *)
| WWait         (* down_write(&rwsem): enter *)
| WLoad         (* number++: load *)
| WStore (v : Z)  (* number++: store *)
| WPrint
| WUp           (* up_write(&rwsem) *)
| WSleep        (* msleep(500) *)
| WExit
| WDone.

(** What [kthread_run] left in [rthread] and [wthread]. *)
Inductive task (pc : Type) :=
| TNull
| TError         (* an ERR_PTR *)
| TRun (p : pc).
Arguments TNull {pc}.
Arguments TError {pc}.
Arguments TRun {pc} p.

(** The module's code: the statements of [down_read_init] and
    [down_read_exit]. *)
Inductive main_pc :=
| MInitSem | MRunReader | MPrintReader | MRunWriter | MPrintWriter
| MLoaded       (* a step from here is the call of [rmmod] *)
| MStopWriter | MWaitWriter | MStopReader | MWaitReader | MPrintExit
| MUnloaded
| MCrashed (f : fault).

Inductive sema_ev :=
| PInit (count : Z)
| PReaderCreated
| PWriterCreated
| PRead (count number : Z)
| PReaderExit
| PWrite (count number : Z)
| PWriterExit
| PExit.

Section Model.
Context `{RwSem}.

Record sema_sys := MkSema {
  rwsem : rw_semaphore;
  number : Z;
  rthread : task reader_pc;
  wthread : task writer_pc;
  r_stop : bool;           (* kthread_should_stop() of the reader *)
  w_stop : bool;
  main : main_pc;
  klog : list sema_ev;
}.

Definition set_sem (v : rw_semaphore) (s : sema_sys) : sema_sys :=
  MkSema v (number s) (rthread s) (wthread s) (r_stop s) (w_stop s) (main s) (klog s).
Definition set_number (v : Z) (s : sema_sys) : sema_sys :=
  MkSema (rwsem s) v (rthread s) (wthread s) (r_stop s) (w_stop s) (main s) (klog s).
Definition goto_r (p : reader_pc) (s : sema_sys) : sema_sys :=
  MkSema (rwsem s) (number s) (TRun p) (wthread s) (r_stop s) (w_stop s) (main s) (klog s).
Definition goto_w (p : writer_pc) (s : sema_sys) : sema_sys :=
  MkSema (rwsem s) (number s) (rthread s) (TRun p) (r_stop s) (w_stop s) (main s) (klog s).
Definition goto_m (p : main_pc) (s : sema_sys) : sema_sys :=
  MkSema (rwsem s) (number s) (rthread s) (wthread s) (r_stop s) (w_stop s) p (klog s).
Definition print (e : sema_ev) (s : sema_sys) : sema_sys :=
  MkSema (rwsem s) (number s) (rthread s) (wthread s) (r_stop s) (w_stop s) (main s) (klog s ++ [e]).
Definition set_rthread (v : task reader_pc) (s : sema_sys) : sema_sys :=
  MkSema (rwsem s) (number s) v (wthread s) (r_stop s) (w_stop s) (main s) (klog s).
Definition set_wthread (v : task writer_pc) (s : sema_sys) : sema_sys :=
  MkSema (rwsem s) (number s) (rthread s) v (r_stop s) (w_stop s) (main s) (klog s).
Definition stop_r (s : sema_sys) : sema_sys :=
  MkSema (rwsem s) (number s) (rthread s) (wthread s) true (w_stop s) (main s) (klog s).
Definition stop_w (s : sema_sys) : sema_sys :=
  MkSema (rwsem s) (number s) (rthread s) (wthread s) (r_stop s) true (main s) (klog s).

(** A thread stopped before it ran never calls its function. *)
Definition thread_read_func (s : sema_sys) : option sema_sys :=
  match rthread s with
  | TNull | TError => None
  | TRun RStart => Some (goto_r (if r_stop s then RDone else RTest) s)
  | TRun RTest => Some (goto_r (if r_stop s then RExit else RDown) s)
  | TRun RDown => sem ← down_read (rwsem s); Some (goto_r RPrint (set_sem sem s))
  | TRun RPrint => Some (goto_r RSleep (print (PRead (sem_count (rwsem s)) (number s)) s))
  | TRun RSleep => Some (goto_r RUp s)
  | TRun RUp => Some (goto_r RTest (set_sem (up_read (rwsem s)) s))
  | TRun RExit => Some (goto_r RDone (print PReaderExit s))
  | TRun RDone => None
  end.

Definition thread_write_func (s : sema_sys) : option sema_sys :=
  match wthread s with
  | TNull | TError => None
  | TRun WStart => Some (goto_w (if w_stop s then WDone else WTest) s)
  | TRun WTest => Some (goto_w (if w_stop s then WExit else WDown) s)
  | TRun WDown => Some (goto_w WWait (set_sem (down_write_queue (rwsem s)) s))
  | TRun WWait => sem ← down_write_enter (rwsem s); Some (goto_w WLoad (set_sem sem s))
  | TRun WLoad => Some (goto_w (WStore (number s)) s)
  | TRun (WStore v) => Some (goto_w WPrint (set_number (ulong (v + 1)) s))
  | TRun WPrint => Some (goto_w WUp (print (PWrite (sem_count (rwsem s)) (number s)) s))
  | TRun WUp => Some (goto_w WSleep (set_sem (up_write (rwsem s)) s))
  | TRun WSleep => Some (goto_w WTest s)
  | TRun WExit => Some (goto_w WDone (print PWriterExit s))
  | TRun WDone => None
  end.

(** Whether [kthread_run] succeeds for the reader and for the writer. *)
Context (run_r run_w : bool).

Definition down_read_init (s : sema_sys) : option sema_sys :=
  match main s with
  | MInitSem => Some (goto_m MRunReader (print (PInit (sem_count init_rwsem)) (set_sem init_rwsem s)))
  | MRunReader => Some (goto_m MPrintReader (set_rthread (if run_r then TRun RStart else TError) s))
  | MPrintReader => Some (goto_m MRunWriter
      match rthread s with TError => s | _ => print PReaderCreated s end)
  | MRunWriter => Some (goto_m MPrintWriter (set_wthread (if run_w then TRun WStart else TError) s))
  | MPrintWriter => Some (goto_m MLoaded
      match wthread s with TError => s | _ => print PWriterCreated s end)
  | _ => None
  end.

(** [kthread_stop(t)]: set the flag, then wait until the thread is gone. *)
Definition down_read_exit (s : sema_sys) : option sema_sys :=
  match main s with
  | MLoaded => Some (goto_m MStopWriter s)
  | MStopWriter =>
      match wthread s with
      | TRun _ => Some (goto_m MWaitWriter (stop_w s))
      | TError => Some (goto_m (MCrashed BadPointer) s)
      | TNull => Some (goto_m (MCrashed NullDeref) s)
      end
  | MWaitWriter => match wthread s with TRun WDone => Some (goto_m MStopReader s) | _ => None end
  | MStopReader =>
      match rthread s with
      | TRun _ => Some (goto_m MWaitReader (stop_r s))
      | TError => Some (goto_m (MCrashed BadPointer) s)
      | TNull => Some (goto_m (MCrashed NullDeref) s)
      end
  | MWaitReader => match rthread s with TRun RDone => Some (goto_m MPrintExit s) | _ => None end
  | MPrintExit => Some (goto_m MUnloaded (print PExit s))
  | _ => None
  end.

Inductive actor := Reader | Writer | Module_.

#[global] Instance actor_eq_dec : EqDecision actor.
Proof. solve_decision. Defined.

Definition sema_step (a : actor) (s : sema_sys) : option sema_sys :=
  match a with
  | Reader => thread_read_func s
  | Writer => thread_write_func s
  | Module_ => match down_read_init s with Some s' => Some s' | None => down_read_exit s end
  end.

(** The image before [insmod] runs the initialisation; the semaphore's memory
    holds anything. *)
Definition sema0 (mem : rw_semaphore) : sema_sys := MkSema mem 0 TNull TNull false false MInitSem [].
End Model.
Arguments sema_sys {_}.

(** ** The log *)

Definition is_write (e : sema_ev) : Prop := match e with PWrite _ _ => True | _ => False end.

#[global] Instance is_write_dec e : Decision (is_write e).
Proof. destruct e; apply _. Defined.

Definition writes (l : list sema_ev) : Z := Z.of_nat (length (filter is_write l)).

(** A line of the log against the lines before it: the [n]th write shows [n],
    a read shows the number of writes. *)
Definition line_ok (before : list sema_ev) (e : sema_ev) : Prop :=
  match e with
  | PRead _ n => n = ulong (writes before)
  | PWrite _ n => n = ulong (writes before + 1)
  | _ => True
  end.

Definition log_ok (l : list sema_ev) : Prop := ∀ i e, l !! i = Some e → line_ok (take i l) e.

Lemma log_ok_snoc l e : log_ok l → line_ok l e → log_ok (l ++ [e]).
Proof.
  intros Hl He i e' Hi. apply lookup_snoc_Some in Hi as [[Hlt Hi]|[-> ->]].
  - rewrite take_app_le by lia. by apply Hl.
  - by rewrite take_app_length.
Qed.

Lemma writes_snoc l e : writes (l ++ [e]) = writes l + (if decide (is_write e) then 1 else 0).
Proof.
  unfold writes. rewrite filter_app, length_app, filter_cons, filter_nil. destruct (decide (is_write e)); simpl; lia.
Qed.

(** ** Invariants *)

Section Facts.
Context `{RwSemLaws} (run_r run_w : bool).

Abbreviation step := (sema_step run_r run_w).

Definition r_in (r : task reader_pc) : bool :=
  match r with TRun RPrint | TRun RSleep | TRun RUp => true | _ => false end.
Definition w_in (w : task writer_pc) : bool :=
  match w with TRun WLoad | TRun (WStore _) | TRun WPrint | TRun WUp => true | _ => false end.
Definition w_waits (w : task writer_pc) : bool := match w with TRun WWait => true | _ => false end.
Definition nat_of (b : bool) : nat := if b then 1%nat else 0%nat.

(** The threads inside are those the semaphore let in. *)
Record lock_inv (s : sema_sys) : Prop := {
  li_start : main s = MInitSem → rthread s = TNull ∧ wthread s = TNull;
  li_view : main s ≠ MInitSem →
    view (rwsem s) = MkView (nat_of (r_in (rthread s))) (w_in (wthread s)) (nat_of (w_waits (wthread s)));
  li_excl : r_in (rthread s) && w_in (wthread s) = false;
}.

Definition pending (w : task writer_pc) : Z := match w with TRun WPrint => 1 | _ => 0 end.

Record count_inv (s : sema_sys) : Prop := {
  ci_number : number s = ulong (writes (klog s) + pending (wthread s));
  ci_store : ∀ v, wthread s = TRun (WStore v) → v = number s;
  ci_log : log_ok (klog s);
}.

(** What the result of [kthread_run] left behind. *)
Definition spawned {pc} (ok : bool) (t : task pc) : Prop :=
  match t with TNull => False | TError => ok = false | TRun _ => ok = true end.

(** How far the module's code is, and what it means for the threads. *)
Definition started (m : main_pc) : bool :=
  match m with MInitSem | MRunReader | MPrintReader | MRunWriter => false | _ => true end.
Definition half_started (m : main_pc) : bool :=
  match m with MPrintReader | MRunWriter => true | _ => false end.
Definition stopped_w (m : main_pc) : bool :=
  match m with MWaitWriter | MStopReader | MWaitReader | MPrintExit | MUnloaded => true | _ => false end.
Definition stopped_r (m : main_pc) : bool :=
  match m with MWaitReader | MPrintExit | MUnloaded => true | _ => false end.
Definition waited_w (m : main_pc) : bool :=
  match m with MStopReader | MWaitReader | MPrintExit | MUnloaded => true | _ => false end.
Definition waited_r (m : main_pc) : bool := match m with MPrintExit | MUnloaded => true | _ => false end.

Record main_inv (s : sema_sys) : Prop := {
  mi_reader : started (main s) = true → spawned run_r (rthread s);
  mi_reader' : half_started (main s) = true → spawned run_r (rthread s);
  mi_writer : started (main s) = true → spawned run_w (wthread s);
  mi_unstarted : started (main s) = false → w_stop s = false ∧ r_stop s = false ∧ wthread s = TNull;
  mi_null : (main s = MInitSem → rthread s = TNull) ∧ (main s = MRunReader → rthread s = TNull);
  mi_ok_w : stopped_w (main s) = true → run_w = true;
  mi_ok_r : stopped_r (main s) = true → run_r = true;
  mi_stop_w : stopped_w (main s) = true → w_stop s = true;
  mi_stop_r : stopped_r (main s) = true → r_stop s = true;
  mi_done_w : waited_w (main s) = true → wthread s = TRun WDone;
  mi_done_r : waited_r (main s) = true → rthread s = TRun RDone;
  mi_crash : ∀ f, main s = MCrashed f → f = BadPointer ∧ run_r && run_w = false;
}.

(** Case analysis on who acts and what the actor executes next. *)
Ltac act_cases E :=
  lazymatch type of E with
  | sema_step _ _ ?a _ = _ =>
    destruct a; cbn [sema_step] in E;
    unfold thread_read_func, thread_write_func, down_read_init, down_read_exit in E;
    repeat (case_match; simplify_eq/=);
    repeat match type of E with (_ ← ?o; _) = _ => destruct o eqn:?; simplify_eq/= end
  end.

Lemma main_invariant : invariant_of (acts step) main_inv.
Proof.
  intros [sem n r w rs ws m l] s' [a E] [I1 I1' I2 I3 [I4 I4'] I5 I6 I7 I8 I9 I10 I11]. simpl in *.
  act_cases E; (split; [..|split| | | | | | |]); simpl in *; intros; simplify_eq/=; use_facts; destruct_and?; subst; rewrite ?andb_false_r; done.
Qed.

(** A reader or a writer only runs once the semaphore is initialised. *)
Lemma lock_running s : lock_inv s → (∃ p, rthread s = TRun p) ∨ (∃ p, wthread s = TRun p) →
  main s ≠ MInitSem ∧
  view (rwsem s) = MkView (nat_of (r_in (rthread s))) (w_in (wthread s)) (nat_of (w_waits (wthread s))).
Proof.
  intros [H1 H2 _] Hrun. assert (main s ≠ MInitSem) as Hm; [|by auto].
  intros Hm. destruct (H1 Hm) as [Hr Hw], Hrun as [[p Hp]|[p Hp]]; congruence.
Qed.

Lemma lock_reader s s' : thread_read_func s = Some s' → lock_inv s → lock_inv s'.
Proof.
  intros E Hl. assert (∃ p, rthread s = TRun p) as [p Hp].
  { unfold thread_read_func in E. destruct (rthread s) as [| |p]; [done|done|by exists p]. }
  destruct (lock_running s Hl) as [Hns Hv]; [eauto|]. destruct Hl as [_ _ Hx].
  destruct s as [sem n r w rs ws m l]; simpl in *. subst r. unfold thread_read_func in E; simpl in E.
  destruct p; simplify_eq/=; try (destruct rs; by split).
  - destruct (down_read sem) as [sem'|] eqn:Hd; simplify_eq/=.
    apply view_read in Hd as [Hw Hv']. rewrite Hv in Hw, Hv'. simpl in Hw. split; simpl; rewrite ?Hw; done.
  - split; simpl; [done| |done]. intros _. by rewrite (view_up_read sem 0), Hv by (by rewrite Hv).
Qed.

Lemma lock_writer s s' : thread_write_func s = Some s' → lock_inv s → lock_inv s'.
Proof.
  intros E Hl. assert (∃ p, wthread s = TRun p) as [p Hp].
  { unfold thread_write_func in E. destruct (wthread s) as [| |p]; [done|done|by exists p]. }
  destruct (lock_running s Hl) as [Hns Hv]; [eauto|]. destruct Hl as [_ _ Hx].
  destruct s as [sem n r w rs ws m l]; simpl in *. subst w. unfold thread_write_func in E; simpl in E.
  destruct p; simplify_eq/=; rewrite ?andb_false_r; try (destruct ws; by (split; simpl; rewrite ?andb_false_r)).
  - split; simpl; rewrite ?andb_false_r; [done| |done]. intros _. by rewrite view_queue, Hv.
  - destruct (down_write_enter sem) as [sem'|] eqn:Hd; simplify_eq/=.
    apply view_enter in Hd as (Hr & _ & Hv'). rewrite Hv in Hr, Hv'. simpl in Hr.
    destruct (r_in r) eqn:Hin; [done|]. split; simpl; rewrite ?Hin; done.
  - split; simpl; rewrite ?andb_false_r; [done| |done]. intros _. by rewrite view_up_write, Hv by (by rewrite Hv).
Qed.

Lemma lock_module s s' : step Module_ s = Some s' → main_inv s → lock_inv s → lock_inv s'.
Proof.
  intros E [_ _ _ Hn [_ Hr] _ _ _ _ _ _ _] [Hs Hv Hx]. destruct s as [sem n r w rs ws m l]; simpl in *.
  unfold down_read_init, down_read_exit in E.
  destruct m; repeat (case_match; simplify_eq/=); use_facts; destruct_and?; subst;
    (split; simpl; [done| |by rewrite ?andb_false_r]); intros _; try apply Hv; try done. apply view_init.
Qed.

Lemma lock_invariant : invariant_of (acts step) (λ s, main_inv s ∧ lock_inv s).
Proof.
  intros s s' [a E] [Hm Hl]. split; [eapply main_invariant; [by exists a|done]|].
  destruct a; [by eapply lock_reader|by eapply lock_writer|by eapply lock_module].
Qed.

Lemma pending_out w : w_in w = false → pending w = 0.
Proof. by destruct w as [| |[]]. Qed.

Lemma sema_count_invariant : invariant_of (acts step) (λ s, (main_inv s ∧ lock_inv s) ∧ count_inv s).
Proof.
  intros s s' Ha [Hml [Hn Hs Hlog]]. split; [by eapply lock_invariant|].
  destruct Hml as [[_ _ _ Hun _ _ _ _ _ _ _ _] [_ _ Hx]], Ha as [a E].
  destruct s as [sem n r w rs ws m l]; simpl in *.
  act_cases E; (split; simpl; [| |try (apply log_ok_snoc; [done|])]); try done;
    rewrite ?writes_snoc, ?Z.add_0_r; simpl; try done. 
  - rewrite pending_out by done. by rewrite Z.add_0_r.
  - intros v Ev. by simplify_eq.
  - rewrite (Hs v) by done. rewrite Z.add_0_r. apply ulong_succ.
  - destruct Hun as (_ & _ & ->); [done|]. by rewrite Z.add_0_r.
  - destruct Hun as (_ & _ & ->); [done|]. by rewrite Z.add_0_r.
Qed.

Lemma sema_invariant mem s :
  rtc (acts step) (sema0 mem) s → main_inv s ∧ lock_inv s ∧ count_inv s.
Proof.
  intros Hr. apply and_assoc. refine (rtc_invariant _ _ _ _ sema_count_invariant Hr _).
  split_and!; split; by repeat split.
Qed.

(** ** Unloading *)

Definition unloading (m : main_pc) : bool :=
  match m with MInitSem | MRunReader | MPrintReader | MRunWriter | MPrintWriter | MLoaded => false | _ => true end.

Definition finished (m : main_pc) : bool := match m with MUnloaded | MCrashed _ => true | _ => false end.

(** Statements until a stopped thread is gone. *)
Definition rank_w (w : task writer_pc) : nat :=
  match w with
  | TRun p => match p with
    | WDone => 0 | WExit => 1 | WTest => 2 | WStart | WSleep => 3 | WUp => 4 | WPrint => 5
    | WStore _ => 6 | WLoad => 7 | WWait => 8 | WDown => 9 end
  | _ => 0
  end.
Definition rank_r (r : task reader_pc) : nat :=
  match r with
  | TRun p => match p with
    | RDone => 0 | RExit => 1 | RTest => 2 | RStart | RUp => 3 | RSleep => 4 | RPrint => 5 | RDown => 6 end
  | _ => 0
  end.

(** Statements until the reader leaves the semaphore. *)
Definition inside (r : task reader_pc) : nat :=
  match r with TRun RPrint => 3 | TRun RSleep => 2 | TRun RUp => 1 | _ => 0 end.

Definition unload_rank (s : sema_sys) : nat :=
  match main s with
  | MStopWriter => 90
  | MWaitWriter => 40 + 4 * rank_w (wthread s) + (if w_waits (wthread s) then inside (rthread s) else 0)
  | MStopReader => 30
  | MWaitReader => 10 + rank_r (rthread s)
  | MPrintExit => 5
  | _ => 0
  end.

(** Who brings the end of the unloading nearer. *)
Definition unload_helper (s : sema_sys) : actor :=
  match main s with
  | MWaitWriter =>
      if w_waits (wthread s) && r_in (rthread s) then Reader else
      match wthread s with TRun WDone => Module_ | _ => Writer end
  | MWaitReader => match rthread s with TRun RDone => Module_ | _ => Reader end
  | _ => Module_
  end.

#[local] Arguments Nat.add : simpl never.
#[local] Arguments Nat.mul : simpl never.

Lemma ranks_bounded r w : (inside r ≤ 3 ∧ (if w_waits w then inside r else 0) ≤ 3 ∧ rank_w w ≤ 9 ∧ rank_r r ≤ 6)%nat.
Proof. destruct r as [| |[]], w as [| |[]]; simpl; lia. Qed.

Definition unload_inv (s : sema_sys) : Prop := (main_inv s ∧ lock_inv s) ∧ unloading (main s) = true.

Lemma unload_invariant : invariant_of (acts step) unload_inv.
Proof.
  intros s s' Ha [Hml Hu]. split; [by eapply lock_invariant|]. clear Hml.
  destruct Ha as [a E], s as [sem n r w rs ws m l]; simpl in *. act_cases E; done.
Qed.

Lemma unload_helps s :
  unload_inv s → ¬ finished (main s) = true →
  ∃ s', step (unload_helper s) s = Some s' ∧ (unload_rank s' < unload_rank s)%nat.
Proof.
  intros [[Hm Hl] Hu] Hf. destruct Hm as [Hr _ Hw _ _ Hokw Hokr Hsw Hsr Hdw Hdr _].
  pose proof (ranks_bounded (rthread s) (wthread s)) as (? & ? & ? & ?).
  assert (main s ≠ MInitSem) as Hns by (intros E; by rewrite E in Hu). pose proof (li_view s Hl Hns) as Hv.
  assert (w_waits (wthread s) = true → r_in (rthread s) = false → is_Some (down_write_enter (rwsem s))) as Henter.
  { intros Hww Hri. apply writer_gets_in; rewrite Hv, ?Hww, ?Hri; simpl; [done| |lia].
    by destruct (wthread s) as [| |[]]. }
  assert (wthread s = TRun WDone → is_Some (down_read (rwsem s))) as Hread.
  { intros Hww. by apply reader_gets_in; rewrite Hv, Hww. }
  clear Hl Hv. destruct s as [sem n r w rs ws m l]; unfold unload_rank, unload_helper; simpl in *.
  destruct m; try done; use_facts; subst; simpl in *.
  - destruct w as [| |p]; [done|..]; (eexists; split; [reflexivity|simpl in *; lia]).
  - destruct w as [| |p]; try done. destruct (w_waits _ && r_in r) eqn:Hb.
    + apply andb_prop in Hb as [Hp Hi]. destruct p; try done. destruct r as [| |[]]; try done;
        (eexists; split; [reflexivity|simpl; lia]).
    + destruct p; try (eexists; split; [reflexivity|simpl in *; lia]). simpl in Hb, Henter.
      destruct (Henter eq_refl Hb) as [sem' He]. simpl. unfold thread_write_func. simpl. rewrite He.
      eexists; split; [reflexivity|simpl; lia].
  - destruct r as [| |p]; [done|..]; (eexists; split; [reflexivity|simpl in *; lia]).
  - destruct r as [| |p]; try done. destruct p; try (eexists; split; [reflexivity|simpl in *; lia]).
    destruct Hread as [sem' He]. simpl. unfold thread_read_func. simpl. rewrite He.
    eexists; split; [reflexivity|simpl; lia].
  - eexists; split; [reflexivity|simpl; lia].
Qed.

Lemma unload_others a s s' :
  unload_inv s → ¬ finished (main s) = true → step a s = Some s' →
  (unload_rank s' < unload_rank s)%nat ∨ unload_rank s' = unload_rank s ∧ unload_helper s' = unload_helper s.
Proof.
  intros [[Hm Hl] Hu] Hf E.
  assert (w_waits (wthread s) = true → down_read (rwsem s) = None) as Hwait.
  { intros Hw. destruct (lock_running s Hl) as [_ Hv].
    - right. destruct (wthread s) as [| |p]; [done|done|by exists p].
    - apply reader_waits. rewrite Hv, Hw. simpl. lia. }
  destruct Hm as [_ _ _ _ _ _ _ Hsw Hsr Hdw Hdr _]. clear Hl.
  destruct s as [sem n r w rs ws m l]; simpl in *.
  pose proof (ranks_bounded r w) as (? & ? & ? & ?).
  destruct m; try done; use_facts; subst;
    act_cases E; unfold unload_rank, unload_helper; simpl; try (left; lia); try (right; done);
    destruct (w_waits w) eqn:Hw; simpl; try (left; lia); try (right; done); use_facts; congruence.
Qed.
End Facts.

(** C16: the counter under the semaphore.  Whatever the interleaving of
    reader, writer and module, the two threads are never inside together, the
    log is that of an atomic counter (the [n]th write prints [n], every read
    prints the number of writes printed before it), and whenever the writer is
    not between its store and its print, [number] is the number of writes
    printed, modulo 2^64. *)
Theorem sema_counter `{RwSemLaws} (run_r run_w : bool) (mem : rw_semaphore) (s : sema_sys)
    (Hreach : rtc (acts (sema_step run_r run_w)) (sema0 mem) s) :
  r_in (rthread s) && w_in (wthread s) = false ∧ log_ok (klog s) ∧
  (wthread s ≠ TRun WPrint → number s = ulong (writes (klog s))).
Proof.
  destruct (sema_invariant run_r run_w mem s Hreach) as (_ & [_ _ Hx] & [Hn _ Hlog]).
  split_and!; [done|done|]. intros Hw. rewrite Hn. destruct (wthread s) as [| |[]]; try done; by rewrite Z.add_0_r.
Qed.

(** C8: unloading ends.  Once [rmmod] has been called, in whatever state the
    threads are, every fair schedule brings the module to its end: when both
    threads were created, [down_read_exit] returns with both gone and the
    semaphore free; when [kthread_run] failed for one of them,
    [kthread_stop] is called with its error pointer. *)
Theorem sema_unload_terminates `{RwSemLaws} (run_r run_w : bool) (mem : rw_semaphore) (s : sema_sys)
    (σ : nat → actor)
    (Hreach : rtc (acts (sema_step run_r run_w)) (sema0 mem) s) (Hrmmod : main s = MStopWriter) (Hfair : fair σ) :
  ∃ n, let s' := sched (sema_step run_r run_w) σ n s in
    if run_r && run_w then
      main s' = MUnloaded ∧ rthread s' = TRun RDone ∧ wthread s' = TRun WDone ∧ view (rwsem s') = MkView 0 false 0
    else main s' = MCrashed BadPointer.
Proof.
  destruct (sema_invariant run_r run_w mem s Hreach) as (Hm & Hl & _).
  assert (unload_inv run_r run_w s) as Hi by (split; [done|by rewrite Hrmmod]).
  destruct (fair_termination _ _ (λ s, finished (main s) = true) unload_rank unload_helper (λ _, _)
    (unload_invariant run_r run_w) (unload_helps run_r run_w) (unload_others run_r run_w) s σ Hfair Hi) as [n Hn].
  exists n. pose proof (sched_invariant _ _ σ n s (unload_invariant run_r run_w) Hi) as [[Hm' Hl'] _]. cbv zeta.
  set (s' := sched _ σ n s) in *. clearbody s'.
  destruct (main s') as [| | | | | | | | | | | |f] eqn:E; try done.
  - rewrite (mi_ok_r _ _ _ Hm'), (mi_ok_w _ _ _ Hm') by (by rewrite E). simpl.
    pose proof (mi_done_r _ _ _ Hm') as Hr. pose proof (mi_done_w _ _ _ Hm') as Hw.
    rewrite E in Hr, Hw. use_facts. split_and!; [done..|]. rewrite (li_view _ Hl') by (by rewrite E). by rewrite Hr, Hw.
  - destruct (mi_crash _ _ _ Hm' f E) as [-> ->]. done.
Qed.

(** ** A concrete semaphore *)

#[export] Instance view_rwsem : RwSem := {|
  rw_semaphore := rw_view;
  init_rwsem := MkView 0 false 0;
  down_write_queue s := MkView (v_readers s) (v_writer s) (S (v_waiting s));
  down_write_enter s :=
    if decide (v_readers s = 0%nat ∧ v_writer s = false) then Some (MkView 0 true (pred (v_waiting s))) else None;
  down_read s :=
    if decide (v_writer s = false ∧ v_waiting s = 0%nat) then Some (MkView (S (v_readers s)) false 0) else None;
  up_read s := MkView (pred (v_readers s)) (v_writer s) (v_waiting s);
  up_write s := MkView (v_readers s) false (v_waiting s);
  sem_count s := Z.of_nat (v_readers s);
|}.

#[export] Instance view_rwsem_laws : RwSemLaws.
Proof.
  refine {| view := λ s : rw_semaphore, s |}; try done.
  - intros [r w q] s'. simpl. case_decide as Hd; [|done]. destruct Hd. naive_solver.
  - intros [r w q] s'. simpl. case_decide as Hd; [|done]. destruct Hd as [-> ->]. naive_solver.
  - intros [r w q] n. simpl. by intros ->.
  - intros [r w q] Hr Hw _. simpl in *. by rewrite decide_True.
  - intros [r w q] Hq. simpl in *. rewrite decide_False by lia. done.
  - intros [r w q] Hw Hq. simpl in *. by rewrite decide_True.
Defined.

(** Everybody in turn. *)
Definition round_robin (i : nat) : actor := match (i mod 3)%nat with 0%nat => Reader | 1%nat => Writer | _ => Module_ end.

Lemma round_robin_fair : fair round_robin.
Proof.
  intros a n. exists (match a with Reader => 0 | Writer => 1 | Module_ => 2 end + n * 3)%nat. split; [lia|].
  unfold round_robin. rewrite Nat.Div0.mod_add. by destruct a.
Qed.

Lemma sema_counter_witness :
  let s := sched (sema_step true true) round_robin 60 (sema0 (MkView 7 true 7)) in
  r_in (rthread s) && w_in (wthread s) = false ∧ log_ok (klog s) ∧
  (wthread s ≠ TRun WPrint → number s = ulong (writes (klog s))).
Proof. exact (sema_counter true true (MkView 7 true 7) _ (sched_reachable _ round_robin 60 _)). Defined.

Lemma sema_unload_terminates_witness :
  ∃ n, let s' := sched (sema_step true true) round_robin n
      (sched (sema_step true true) round_robin 18 (sema0 (MkView 7 true 7))) in
    main s' = MUnloaded ∧ rthread s' = TRun RDone ∧ wthread s' = TRun WDone ∧ view (rwsem s') = MkView 0 false 0.
Proof.
  refine (sema_unload_terminates true true (MkView 7 true 7) _ round_robin
    (sched_reachable _ round_robin 18 _) _ round_robin_fair). reflexivity.
Defined.

(** ** [mythread.c]: one thread *)

Module MyThread.

(** [printk] of thread and module. *)
Inductive my_ev :=
| PCreating | PCreated | PCreateFailed | PRunning | PStopping | PCleaning | PStopped.

Inductive thread_pc :=
| TStart
| TAllow        (* allow_signal(SIGKILL) *)
| TTest
| TPrint
| TSleep        (* ssleep(3) *)
| TStopping
| TDoExit       (* do_exit(0) *)
| TGone.

Inductive my_pc :=
| IPrint | IRun | IReport | ILoaded | XPrint | XTest | XStop | XWait | XPrintStopped | XUnloaded
| XCrashed (f : fault).

Record my_sys := MkMy {
  thread : task thread_pc;
  should_stop : bool;
  signals_allowed : bool;
  my_main : my_pc;
  my_log : list my_ev;
}.

Definition goto_t (p : thread_pc) (s : my_sys) : my_sys :=
  MkMy (TRun p) (should_stop s) (signals_allowed s) (my_main s) (my_log s).
Definition my_print (e : my_ev) (s : my_sys) : my_sys :=
  MkMy (thread s) (should_stop s) (signals_allowed s) (my_main s) (my_log s ++ [e]).
Definition goto_my (p : my_pc) (s : my_sys) : my_sys :=
  MkMy (thread s) (should_stop s) (signals_allowed s) p (my_log s).

Definition thread_func (s : my_sys) : option my_sys :=
  match thread s with
  | TNull | TError => None
  | TRun TStart => Some (goto_t (if should_stop s then TGone else TAllow) s)
  | TRun TAllow => Some (MkMy (TRun TTest) (should_stop s) true (my_main s) (my_log s))
  | TRun TTest => Some (goto_t (if should_stop s then TStopping else TPrint) s)
  | TRun TPrint => Some (goto_t TSleep (my_print PRunning s))
  | TRun TSleep => Some (goto_t TTest s)
  | TRun TStopping => Some (goto_t TDoExit (my_print PStopping s))
  | TRun TDoExit => Some (goto_t TGone s)
  | TRun TGone => None
  end.

(** [if (thread)]: an error pointer is not NULL. *)
Definition nonnull {pc} (t : task pc) : bool := match t with TNull => false | _ => true end.

Definition minit_thread (run_ok : bool) (s : my_sys) : option my_sys :=
  match my_main s with
  | IPrint => Some (goto_my IRun (my_print PCreating s))
  | IRun => Some (MkMy (if run_ok then TRun TStart else TError) (should_stop s) (signals_allowed s) IReport (my_log s))
  | IReport => Some (goto_my ILoaded (my_print (if nonnull (thread s) then PCreated else PCreateFailed) s))
  | _ => None
  end.

Definition mexit_thread (s : my_sys) : option my_sys :=
  match my_main s with
  | ILoaded => Some (goto_my XPrint s)        (* rmmod *)
  | XPrint => Some (goto_my XTest (my_print PCleaning s))
  | XTest => Some (goto_my (if nonnull (thread s) then XStop else XUnloaded) s)
  | XStop =>
      match thread s with
      | TRun _ => Some (MkMy (thread s) true (signals_allowed s) XWait (my_log s))
      | TError => Some (goto_my (XCrashed BadPointer) s)
      | TNull => Some (goto_my (XCrashed NullDeref) s)
      end
  | XWait => match thread s with TRun TGone => Some (goto_my XPrintStopped s) | _ => None end
  | XPrintStopped => Some (goto_my XUnloaded (my_print PStopped s))
  | _ => None
  end.

(** [true] is the thread, [false] the module's code. *)
Definition my_step (run_ok : bool) (a : bool) (s : my_sys) : option my_sys :=
  if a then thread_func s else
  match minit_thread run_ok s with Some s' => Some s' | None => mexit_thread s end.

Definition my_sys0 : my_sys := MkMy TNull false false IPrint [].

(** *** Facts *)

Section Facts.
Context (run_ok : bool).

Definition loading (m : my_pc) : bool := match m with IPrint | IRun => true | _ => false end.
Definition reported (m : my_pc) : bool := match m with IPrint | IRun | IReport => false | _ => true end.
Definition stopping (m : my_pc) : bool := match m with XWait | XPrintStopped | XUnloaded => true | _ => false end.
Definition waited (m : my_pc) : bool := match m with XPrintStopped | XUnloaded => true | _ => false end.

Record my_inv (s : my_sys) : Prop := {
  my_unborn : loading (my_main s) = true → thread s = TNull;
  my_spawned : loading (my_main s) = false → spawned run_ok (thread s);
  my_report : reported (my_main s) = true → PCreated ∈ my_log s;
  my_no_failure : PCreateFailed ∉ my_log s;
  my_stop : stopping (my_main s) = true → should_stop s = true ∧ run_ok = true;
  my_gone : waited (my_main s) = true → thread s = TRun TGone;
  my_crash : ∀ f, my_main s = XCrashed f → f = BadPointer ∧ run_ok = false;
}.

Lemma my_invariant : invariant_of (acts (my_step run_ok)) my_inv.
Proof.
  intros [t st sg m l] s' [a E] [I1 I2 I3 I4 I5 I6 I7]. simpl in *.
  assert (spawned run_ok t → nonnull t = true) as Hnn by (by destruct t).
  destruct a; cbn [my_step] in E; unfold thread_func, minit_thread, mexit_thread in E;
    repeat (case_match; simplify_eq/=); use_facts; destruct_and?; simplify_eq/=;
    (split; simpl in *; intros; simplify_eq; use_facts; destruct_and?; rewrite ?elem_of_app, ?list_elem_of_singleton;
      try done; try (by auto); try (by intros [?|?]); try (by apply I4); try congruence).
Qed.

Definition my_finished (m : my_pc) : bool := match m with XUnloaded | XCrashed _ => true | _ => false end.
Definition my_unloading (m : my_pc) : bool := match m with IPrint | IRun | IReport | ILoaded => false | _ => true end.

Definition rank_t (t : task thread_pc) : nat :=
  match t with
  | TRun p => match p with
    | TGone => 0 | TDoExit => 1 | TStopping => 2 | TTest => 3 | TSleep => 4 | TPrint => 5 | TAllow => 6 | TStart => 7
    end
  | _ => 0
  end.

Definition my_rank (s : my_sys) : nat :=
  match my_main s with
  | XPrint => 50 | XTest => 40 | XStop => 30 | XWait => 10 + rank_t (thread s) | XPrintStopped => 5 | _ => 0
  end.

Definition my_helper (s : my_sys) : bool :=
  match my_main s, thread s with
  | XWait, TRun TGone => false
  | XWait, _ => true
  | _, _ => false
  end.

Definition my_unload_inv (s : my_sys) : Prop := my_inv s ∧ my_unloading (my_main s) = true.

Lemma my_unload_invariant : invariant_of (acts (my_step run_ok)) my_unload_inv.
Proof.
  intros s s' Ha [Hi Hu]. split; [by eapply my_invariant|]. destruct Ha as [a E], s as [t st sg m l], Hi. simpl in *.
  destruct a; cbn [my_step] in E; unfold thread_func, minit_thread, mexit_thread in E;
    repeat (case_match; simplify_eq/=); done.
Qed.

Lemma my_helps s :
  my_unload_inv s → ¬ my_finished (my_main s) = true →
  ∃ s', my_step run_ok (my_helper s) s = Some s' ∧ (my_rank s' < my_rank s)%nat.
Proof.
  intros [[I1 I2 I3 I4 I5 I6 I7] Hu] Hf. destruct s as [t st sg m l]; unfold my_helper, my_rank; simpl in *.
  destruct m; simpl in *; try done; use_facts; destruct_and?; simplify_eq/=; try destruct t as [| |[]]; try done;
    (eexists; split; [reflexivity|simpl; lia]).
Qed.

Lemma my_others a s s' :
  my_unload_inv s → ¬ my_finished (my_main s) = true → my_step run_ok a s = Some s' →
  (my_rank s' < my_rank s)%nat ∨ my_rank s' = my_rank s ∧ my_helper s' = my_helper s.
Proof.
  intros [[I1 I2 I3 I4 I5 I6 I7] Hu] Hf E. destruct s as [t st sg m l]; unfold my_helper, my_rank; simpl in *.
  destruct m; simpl in *; try done; use_facts; destruct_and?; simplify_eq/=;
    destruct a; cbn [my_step] in E; unfold thread_func, minit_thread, mexit_thread in E;
    repeat (case_match; simplify_eq/=); try (left; simpl; lia); by right.
Qed.
End Facts.

(** [mythread.c]: loading always reports success, and once [rmmod] has
    been called every fair schedule ends: with the thread gone when it had been
    created, and otherwise with [kthread_stop] of an error pointer, because
    [if (thread)] does not recognise the failure of [kthread_run]. *)
Theorem mythread_unload (run_ok : bool) (s : my_sys) (σ : nat → bool)
    (Hreach : rtc (acts (my_step run_ok)) my_sys0 s) (Hrmmod : my_main s = XPrint) (Hfair : fair σ) :
  PCreated ∈ my_log s ∧ (PCreateFailed ∉ my_log s) ∧
  ∃ n, let s' := sched (my_step run_ok) σ n s in
    if run_ok then my_main s' = XUnloaded ∧ thread s' = TRun TGone else my_main s' = XCrashed BadPointer.
Proof.
  assert (my_inv run_ok s) as Hi.
  { refine (rtc_invariant _ _ _ _ (my_invariant run_ok) Hreach _). split; try done. apply not_elem_of_nil. }
  split_and!; [by apply (my_report _ _ Hi); rewrite Hrmmod|apply (my_no_failure _ _ Hi)|].
  assert (my_unload_inv run_ok s) as Hu by (split; [done|by rewrite Hrmmod]).
  destruct (fair_termination _ _ (λ s, my_finished (my_main s) = true) my_rank my_helper (λ _, _)
    (my_unload_invariant run_ok) (my_helps run_ok) (my_others run_ok) s σ Hfair Hu) as [n Hn].
  exists n. pose proof (sched_invariant _ _ σ n s (my_unload_invariant run_ok) Hu) as [[_ _ _ _ H5 H6 H7] _]. cbv zeta.
  set (s' := sched _ σ n s) in *. clearbody s'. destruct (my_main s') as [| | | | | | | | | |f]; try done; use_facts.
  - by destruct H5 as [_ ->].
  - by destruct H7 as [-> ->].
Qed.

Lemma mythread_unload_witness :
  let s := sched (my_step false) Nat.odd 8 my_sys0 in
  PCreated ∈ my_log s ∧ (PCreateFailed ∉ my_log s) ∧
  ∃ n, my_main (sched (my_step false) Nat.odd n s) = XCrashed BadPointer.
Proof.
  refine (mythread_unload false _ Nat.odd (sched_reachable _ Nat.odd 8 _) _ _); [reflexivity|].
  intros [|] n; [exists (2 * n + 1)%nat|exists (2 * n)%nat]; (split; [lia|]).
  - by rewrite Nat.add_comm, Nat.odd_add_mul_2.
  - by rewrite Nat.odd_mul.
Defined.
End MyThread.
