(* ===== verification/Timers.v ===== *)
(** * Deferred calls: [src/timer/stdtimer.c], [src/timer/hrtimer.c] and
    [src/tasklet_workqueue/tasklet.c]

    Each module arms something that makes the kernel call back later, and has
    to be rid of it before its code is unloaded.  The kernel's part is the class
    [Deferral]; callback, module and clock are the actors of a transition
    system in which one step is one statement. *)

From S2P Require Import Prelude.

(** ** The kernel's part *)

(** [arm e] makes the call due at time [e]; it and [cancel] tell whether the
    call was due already; [expire now] is the kernel taking a call that is
    due. *)
Class Deferral := {
  dtimer : Type;
  d_setup : dtimer;
  arm : Z → dtimer → bool * dtimer;
  cancel : dtimer → bool * dtimer;
  expire : Z → dtimer → option dtimer;
  pending : dtimer → bool;
}.

Class DeferralLaws `{Deferral} := {
  due : dtimer → option Z;
  due_setup : due d_setup = None;
  due_arm e d : due (arm e d).2 = Some e ∧ (arm e d).1 = bool_decide (is_Some (due d));
  due_cancel d : due (cancel d).2 = None ∧ (cancel d).1 = bool_decide (is_Some (due d));
  due_pending d : pending d = bool_decide (is_Some (due d));
  due_expire now d d' : expire now d = Some d' → due d' = None ∧ is_Some (due d);
}.

(** [jiffies] and the times given to [mod_timer] are [unsigned long], [W] bits
    wide, and wrap around; a timer runs when [time_after_eq(jiffies, expires)],
    the sign of their difference. *)
Definition unsigned (W z : Z) : Z := z mod 2 ^ W.
Definition signed (W z : Z) : Z := (z + 2 ^ (W - 1)) mod 2 ^ W - 2 ^ (W - 1).
Definition time_after_eq (W a b : Z) : bool := 0 <=? signed W (a - b).

Class JiffiesLaws (W : Z) `{DeferralLaws} := {
  expire_due now d d' e : expire now d = Some d' → due d = Some e → time_after_eq W now e = true;
}.

(** What the comparison tells about the time that has really passed: it never
    runs a timer early, whether or not the counter has wrapped. *)
Lemma time_after_eq_elapsed W period t0 t :
  0 < W → 0 ≤ period < 2 ^ (W - 1) → t0 ≤ t →
  time_after_eq W (unsigned W t) (unsigned W (t0 + period)) = true → t0 + period ≤ t.
Proof.
  intros HW Hp Ht. unfold time_after_eq, signed, unsigned. rewrite Z.leb_le. intros Hs.
  assert (2 ^ W = 2 * 2 ^ (W - 1)) as Hpow.
  { rewrite <-Z.pow_succ_r by lia. f_equal. lia. }
  destruct (decide (t0 + period ≤ t)) as [?|Hlt]; [done|exfalso].
  assert ((t mod 2 ^ W - (t0 + period) mod 2 ^ W + 2 ^ (W - 1)) mod 2 ^ W = t - (t0 + period) + 2 ^ (W - 1)) as E.
  { rewrite <-Zplus_mod_idemp_l, <-Zminus_mod, Zplus_mod_idemp_l. apply Z.mod_small. lia. }
  rewrite E in Hs. lia.
Qed.

(** Who acts: time passes, the kernel runs the callback, the module's own code
    runs. *)
Inductive d_actor := Clock | Softirq | Modcode.

(** ** [stdtimer.c] *)

Module StdTimer.

(** The statements of [my_timer_callback]; [n] is its local [num], [r] its
    [result]. *)
Inductive cb_pc :=
| CLoad
| CPrintNum (n : Z)
| CPrintJiffies (n : Z)
| CModTimer (n : Z)
| CStore (n : Z) (r : bool)
| CReport (r : bool).

Inductive mod_pc :=
| IPrint | ISetup | IPrintJiffies | IModTimer
| ILoaded
| XDelTimer
| XReport (r : bool)
| XPrint
| XGone.         (* the module's memory is freed *)

Inductive st_ev :=
| PInstalling | PStarting (jiffies : Z)
| PCalled (times : Z) | PCalledAt (jiffies : Z) | PModError
| PInUse | PUninstalling.

Section Model.
Context `{Deferral} (W period : Z).       (* period is msecs_to_jiffies(5000) *)

(** [ticks] are the timer interrupts since the machine started; [jiffies] is
    what is left of them in an [unsigned long].  The log is stamped with the
    ticks at which a line is printed. *)
Record st_sys := MkSt {
  my_timer : dtimer;
  num : Z;
  ticks : Z;
  callback : option cb_pc;       (* the callback that runs *)
  code : mod_pc;
  st_log : list (Z * st_ev);
  st_fault : option fault;
}.

Definition jiffies (s : st_sys) : Z := unsigned W (ticks s).

Definition set_timer (v : dtimer) (s : st_sys) : st_sys :=
  MkSt v (num s) (ticks s) (callback s) (code s) (st_log s) (st_fault s).
Definition goto_cb (v : option cb_pc) (s : st_sys) : st_sys :=
  MkSt (my_timer s) (num s) (ticks s) v (code s) (st_log s) (st_fault s).
Definition goto_mod (v : mod_pc) (s : st_sys) : st_sys :=
  MkSt (my_timer s) (num s) (ticks s) (callback s) v (st_log s) (st_fault s).
Definition set_num (v : Z) (s : st_sys) : st_sys :=
  MkSt (my_timer s) v (ticks s) (callback s) (code s) (st_log s) (st_fault s).
Definition st_print (e : st_ev) (s : st_sys) : st_sys :=
  MkSt (my_timer s) (num s) (ticks s) (callback s) (code s) (st_log s ++ [(ticks s, e)]) (st_fault s).
Definition st_crash (s : st_sys) : st_sys :=
  MkSt (my_timer s) (num s) (ticks s) (callback s) (code s) (st_log s) (Some UseAfterFree).
Definition tick (s : st_sys) : st_sys :=
  MkSt (my_timer s) (num s) (ticks s + 1) (callback s) (code s) (st_log s) (st_fault s).

Definition my_timer_callback (pc : cb_pc) (s : st_sys) : st_sys :=
  match pc with
  | CLoad => goto_cb (Some (CPrintNum (num s))) s
  | CPrintNum n => goto_cb (Some (CPrintJiffies (s32 (n + 1)))) (st_print (PCalled (s32 (n + 1))) s)
  | CPrintJiffies n => goto_cb (Some (CModTimer n)) (st_print (PCalledAt (signed W (jiffies s))) s)
  | CModTimer n =>
      let r := arm (unsigned W (jiffies s + period)) (my_timer s) in
      goto_cb (Some (CStore n r.1)) (set_timer r.2 s)
  | CStore n r => goto_cb (Some (CReport r)) (set_num n s)
  | CReport r => goto_cb None (if r then st_print PModError s else s)
  end.

Definition timer_init_module (s : st_sys) : option st_sys :=
  match code s with
  | IPrint => Some (goto_mod ISetup (st_print PInstalling s))
  | ISetup => Some (goto_mod IPrintJiffies (set_timer d_setup s))
  | IPrintJiffies => Some (goto_mod IModTimer (st_print (PStarting (signed W (jiffies s))) s))
  | IModTimer => Some (goto_mod ILoaded (set_timer (arm (unsigned W (jiffies s + period)) (my_timer s)).2 s))
  | _ => None
  end.

Definition timer_exit_module (s : st_sys) : option st_sys :=
  match code s with
  | ILoaded => Some (goto_mod XDelTimer s)       (* rmmod *)
  | XDelTimer => let r := cancel (my_timer s) in Some (goto_mod (XReport r.1) (set_timer r.2 s))
  | XReport r => Some (goto_mod XPrint (if r then st_print PInUse s else s))
  | XPrint => Some (goto_mod XGone (st_print PUninstalling s))
  | _ => None
  end.

Definition gone (m : mod_pc) : bool := match m with XGone => true | _ => false end.

(** Whether the timer is set up. *)
Inductive mod_phase := PhNew | PhSetUp | PhArming | PhArmed.
Definition phase (m : mod_pc) : mod_phase :=
  match m with IPrint | ISetup => PhNew | IPrintJiffies => PhSetUp | IModTimer => PhArming | _ => PhArmed end.

(** The kernel runs one callback of a timer at a time; a callback whose code
    or data is gone is a fault.  Nothing happens after a fault. *)
Definition st_step (a : d_actor) (s : st_sys) : option st_sys :=
  match st_fault s with
  | Some _ => None
  | None =>
      match a with
      | Clock => Some (tick s)
      | Modcode => match timer_init_module s with Some s' => Some s' | None => timer_exit_module s end
      | Softirq =>
          match callback s with
          | Some pc => Some (if gone (code s) then st_crash s else my_timer_callback pc s)
          | None =>
              if phase (code s) is PhNew then None else
              t ← expire (jiffies s) (my_timer s); Some (goto_cb (Some CLoad) (set_timer t s))
          end
      end
  end.

Definition st_sys0 (mem : dtimer) (now : Z) : st_sys := MkSt mem 0 now None IPrint [] None.
End Model.

(** *** Facts *)

(** The counts of the log, and the ticks and printed values of its times. *)
Definition call_of (e : Z * st_ev) : option Z := match e.2 with PCalled n => Some n | _ => None end.
Definition time_of (e : Z * st_ev) : option (Z * Z) :=
  match e.2 with PStarting j | PCalledAt j => Some (e.1, j) | _ => None end.

Definition counted (calls : list Z) : Prop := ∀ i n, calls !! i = Some n → n = s32 (Z.of_nat i + 1).

(** Every printed time is the low [W] bits of the tick it was printed at, as a
    [long], and between two of them at least [period] ticks have passed. *)
Definition spaced (W period : Z) (times : list (Z * Z)) : Prop :=
  (∀ i p, times !! i = Some p → p.2 = signed W (unsigned W p.1)) ∧
  ∀ i p q, times !! i = Some p → times !! S i = Some q → p.1 + period ≤ q.1.

Lemma counted_snoc calls : counted calls → counted (calls ++ [s32 (Z.of_nat (length calls) + 1)]).
Proof. intros Hc i n Hi. apply lookup_snoc_Some in Hi as [[_ Hi]|[-> <-]]; [by apply Hc|done]. Qed.

Lemma spaced_snoc W period times t :
  spaced W period times → (∀ p, last times = Some p → p.1 + period ≤ t) →
  spaced W period (times ++ [(t, signed W (unsigned W t))]).
Proof.
  intros [Hv Hs] Hb. split.
  - intros i p Hp. apply lookup_snoc_Some in Hp as [[_ Hp]|[_ <-]]; [by eapply Hv|done].
  - intros i x y Hx Hy. apply lookup_snoc_Some in Hy as [[Hlt Hy]|[Hi <-]].
    + rewrite lookup_app_l in Hx by lia. by apply (Hs i).
    + rewrite lookup_app_l in Hx by lia. apply Hb. rewrite last_lookup. by rewrite <-Hi.
Qed.

Section Facts.
Context `{DeferralLaws} (W period : Z).

Abbreviation calls s := (omap call_of (st_log s)).
Abbreviation times s := (omap time_of (st_log s)).

(** What the running callback holds against what was printed. *)
Definition num_inv (s : st_sys) : Prop :=
  let n := s32 (Z.of_nat (length (calls s))) in
  match callback s with
  | None | Some CLoad | Some (CReport _) => num s = n
  | Some (CPrintNum m) => num s = n ∧ m = n
  | Some (CPrintJiffies m) | Some (CModTimer m) | Some (CStore m _) => m = n
  end.

Record count_inv (s : st_sys) : Prop := {
  ci_calls : counted (calls s);
  ci_num : num_inv s;
}.

(** No time printed so far is later than [t]. *)
Definition not_after (times : list (Z * Z)) (t : Z) : Prop := ∀ p, last times = Some p → p.1 ≤ t.

(** If the timer is due, it was armed, a period ahead, after the last time
    printed. *)
Definition armed (tm : dtimer) (now : Z) (times : list (Z * Z)) : Prop :=
  ∀ e, due tm = Some e → ∃ t0, e = unsigned W (t0 + period) ∧ t0 ≤ now ∧ not_after times t0.

(** The next call lies a period after the last time printed. *)
Definition call_inv (cb : option cb_pc) (tm : dtimer) (now : Z) (times : list (Z * Z)) : Prop :=
  match cb with
  | Some CLoad | Some (CPrintNum _) | Some (CPrintJiffies _) => due tm = None ∧ not_after times (now - period)
  | Some (CModTimer _) => due tm = None ∧ not_after times now
  | Some (CStore _ r) | Some (CReport r) => r = false ∧ armed tm now times
  | None => armed tm now times
  end.

Definition phase_inv (s : st_sys) : Prop :=
  match phase (code s) with
  | PhNew => callback s = None ∧ times s = []
  | PhSetUp => callback s = None ∧ times s = [] ∧ due (my_timer s) = None
  | PhArming => callback s = None ∧ due (my_timer s) = None ∧ not_after (times s) (ticks s)
  | PhArmed => call_inv (callback s) (my_timer s) (ticks s) (times s)
  end.

Definition no_error (l : list (Z * st_ev)) : Prop := PModError ∉ l.*2.

Record time_inv (s : st_sys) : Prop := {
  ti_spaced : spaced W period (times s);
  ti_phase : phase_inv s;
  ti_error : no_error (st_log s);
}.

Ltac st_cases E :=
  lazymatch type of E with
  | st_step _ _ ?a ?s = _ =>
    unfold st_step, timer_init_module, timer_exit_module in E; destruct (st_fault s) eqn:?; [done|];
    destruct a; simpl in E;
    repeat (case_match; simplify_eq/=);
    repeat match type of E with (_ ← ?o; _) = _ => destruct o eqn:?; simplify_eq/= end
  end.

Lemma count_invariant : invariant_of (acts (st_step W period)) count_inv.
Proof.
  intros [tm n j cb m l f] s' [a E] [I1 I2]. unfold num_inv in I2. simpl in *.
  st_cases E; repeat (case_match; simplify_eq/=); destruct_and?; subst; (split; unfold num_inv; simpl);
    rewrite ?omap_app, ?app_nil_r; simpl; rewrite ?app_nil_r; try done.
  - rewrite s32_succ. by apply counted_snoc.
  - rewrite s32_succ, length_app. simpl. f_equal. lia.
Qed.

Lemma not_after_le ts t t' : t ≤ t' → not_after ts t → not_after ts t'.
Proof. intros Hle Hn p Hp. specialize (Hn p Hp). lia. Qed.

Lemma no_error_snoc l t e : e ≠ PModError → no_error l → no_error (l ++ [(t, e)]).
Proof. unfold no_error. rewrite fmap_app. set_solver. Qed.

Lemma call_tick cb tm now ts : call_inv cb tm now ts → call_inv cb tm (now + 1) ts.
Proof.
  assert (armed tm now ts → armed tm (now + 1) ts) as Ha.
  { intros Ha e He. destruct (Ha e He) as (t0 & ? & ? & ?). exists t0. split_and!; [done|lia|done]. }
  destruct cb as [[]|]; simpl; try naive_solver;
    (intros [Hd Hc]; split; [done|]); (eapply not_after_le; [|exact Hc]); lia.
Qed.

Lemma armed_now tm now ts : not_after ts now → armed (arm (unsigned W (unsigned W now + period)) tm).2 now ts.
Proof.
  intros Hn e. destruct (due_arm (unsigned W (unsigned W now + period)) tm) as [-> _]. intros [= <-]. exists now.
  split_and!; [|lia|done]. unfold unsigned. by rewrite Zplus_mod_idemp_l.
Qed.

Lemma call_cancel cb tm now ts : call_inv cb tm now ts → call_inv cb (cancel tm).2 now ts.
Proof.
  destruct (due_cancel tm) as [Hd _].
  assert (armed (cancel tm).2 now ts) as Ha by (intros e; by rewrite Hd).
  destruct cb as [[]|]; simpl; naive_solver.
Qed.

Lemma call_callback pc s :
  spaced W period (times s) → no_error (st_log s) → call_inv (Some pc) (my_timer s) (ticks s) (times s) →
  let s' := my_timer_callback W period pc s in
  spaced W period (times s') ∧ no_error (st_log s') ∧
  call_inv (callback s') (my_timer s') (ticks s') (times s') ∧ code s' = code s.
Proof.
  destruct s as [tm n j cb m l f]. intros Hsp Herr Hc. destruct pc; simpl in *;
    rewrite ?omap_app, ?app_nil_r; simpl; rewrite ?app_nil_r; destruct Hc as [Hd Hc].
  - done.
  - split_and!; try done. by apply no_error_snoc.
  - split_and!; try done; [|by apply no_error_snoc|].
    + apply spaced_snoc; [done|]. intros p Hp. specialize (Hc p Hp). lia.
    + intros p. rewrite last_snoc. intros [= <-]. simpl. lia.
  - destruct (due_arm (unsigned W (jiffies W (MkSt tm n j cb m l f) + period)) tm) as [_ Ha2]. rewrite Ha2, Hd.
    split_and!; try done. by apply armed_now.
  - done.
  - subst. done.
Qed.

Context (HW : 0 < W) (Hperiod : 0 ≤ period < 2 ^ (W - 1)) {HJ : JiffiesLaws W}.

Lemma time_invariant : invariant_of (acts (st_step W period)) time_inv.
Proof.
  intros s s' [a E] [I1 I2 I3]. unfold phase_inv in I2. unfold st_step in E.
  destruct (st_fault s); [done|]. destruct a; simplify_eq.
  - split; simpl; [done| |done]. unfold phase_inv. simpl. destruct (phase (code s)); try done.
    + destruct I2 as (? & ? & Hj). split_and!; try done. eapply not_after_le; [|exact Hj]. lia.
    + by apply call_tick.
  - destruct (callback s) as [pc|] eqn:Hcb.
    + destruct (phase (code s)) eqn:Hph; [by destruct I2 as [? _]..|].
      destruct (gone (code s)); simplify_eq; [split; simpl; try done; unfold phase_inv; simpl; by rewrite Hph, Hcb|].
      destruct (call_callback pc s I1 I3 I2) as (H1 & H2 & H3 & H4).
      split; try done. unfold phase_inv. by rewrite H4, Hph.
    + destruct (expire _ _) as [tm|] eqn:Hx; [|by destruct (phase (code s))].
      destruct (due_expire _ _ _ Hx) as (Hd & e & He).
      destruct (phase (code s)) eqn:Hph; [done|destruct I2 as (_ & _ & ?); congruence|destruct I2 as (_ & ? & _); congruence|].
      injection E as <-. split; try done. unfold phase_inv. simpl. rewrite Hph. simpl. split; [done|].
      destruct (I2 e He) as (t0 & -> & Ht0 & Hn).
      pose proof (time_after_eq_elapsed W period t0 (ticks s) HW Hperiod Ht0 (expire_due _ _ _ _ Hx He)).
      eapply not_after_le; [|exact Hn]. lia.
  - destruct s as [tm n j cb m l f]. unfold timer_init_module, timer_exit_module in E.
    destruct m; simplify_eq/=; (split; unfold phase_inv; simpl);
      repeat case_match; rewrite ?omap_app, ?app_nil_r; simpl; rewrite ?app_nil_r; try done;
      try match goal with |- no_error _ => by apply no_error_snoc end.
    + destruct I2 as [-> ->]. by rewrite due_setup.
    + destruct I2 as (_ & -> & _). by apply spaced_snoc.
    + destruct I2 as (-> & -> & ->). split_and!; [done|done|]. intros p [= <-]. simpl. lia.
    + destruct I2 as (-> & _ & Hj). by apply armed_now.
    + by apply call_cancel.
    + by rewrite omap_app, app_nil_r.
    + by rewrite omap_app, app_nil_r.
Qed.

(** After [del_timer] with no callback running, nothing is left. *)
Record quiet (s : st_sys) : Prop := {
  q_code : code s ≠ ILoaded ∧ phase (code s) = PhArmed;
  q_callback : callback s = None;
  q_due : due (my_timer s) = None;
  q_fault : st_fault s = None;
}.

Lemma quiet_invariant : invariant_of (acts (st_step W period)) quiet.
Proof.
  intros s s' [a E] [[Hc Hph] Hcb Hd Hf]. unfold st_step in E. rewrite Hf, Hcb, Hph in E. destruct a.
  - simplify_eq. by split.
  - destruct (expire _ _) as [tm|] eqn:Hx; [|done]. apply due_expire in Hx as (_ & e & He). congruence.
  - destruct s as [tm n j cb m l f]. unfold timer_init_module, timer_exit_module in E.
    destruct m; simplify_eq/=; (split; simpl; repeat case_match; try done). by apply due_cancel.
Qed.
End Facts.

(** C20: the periodic timer.  Whatever the interleaving of clock, callback and
    module, the callback prints 1, 2, 3, ... (as an [int]); what it prints as
    its time is [jiffies], the low [W] bits of the ticks since the machine
    started, shown as a [long]; at least a period of ticks passes between load
    and first call and between any two calls, also when [jiffies] wraps around
    in between; re-arming never reports an error; and while no callback runs
    [num] is the number of calls.  The period is below half the range of
    [jiffies]. *)
Theorem stdtimer_periodic (W period now : Z) `{HD : DeferralLaws} {HJ : JiffiesLaws W} (mem : dtimer) (s : st_sys)
    (HW : 0 < W) (Hperiod : 0 ≤ period < 2 ^ (W - 1))
    (Hreach : rtc (acts (st_step W period)) (st_sys0 mem now) s) :
  counted (omap call_of (st_log s)) ∧ spaced W period (omap time_of (st_log s)) ∧ (PModError ∉ (st_log s).*2) ∧
  (callback s = None → num s = s32 (Z.of_nat (length (omap call_of (st_log s))))).
Proof.
  destruct (rtc_invariant _ _ _ _ (count_invariant W period) Hreach) as [Hc Hn]; [by split|].
  destruct (rtc_invariant _ _ _ _ (time_invariant W period HW Hperiod) Hreach) as [Hs _ He].
  { split; [by split|done|apply not_elem_of_nil]. }
  split_and!; [done..|]. unfold num_inv in Hn. intros Hcb. by rewrite Hcb in Hn.
Qed.

(** C29: unloading the timer module.  [timer_exit_module] uses [del_timer],
    which does not wait: if no callback runs at that moment, the module goes
    away with nothing of it ever running again; if one runs, it may go on
    executing code that is no longer there. *)
Theorem stdtimer_unload `{DeferralLaws} (W period : Z) (s : st_sys)
    (Hcode : code s = XDelTimer) (Hfault : st_fault s = None) :
  (∀ s', rtc (acts (st_step W period)) (sched_step (st_step W period) Modcode s) s' → st_fault s' = None) ↔
  callback s = None.
Proof.
  destruct s as [tm n j cb m l f]; simpl in *; subst. split.
  - intros Hsafe. destruct cb as [pc|]; [exfalso|done].
    set (σ := λ i, match i with 0%nat | 1%nat => Modcode | _ => Softirq end).
    specialize (Hsafe _ (sched_reachable _ σ 3 _)). cbn in Hsafe. by destruct (cancel tm).1.
  - intros -> s' Hr. eapply q_fault, (rtc_invariant _ _ _ _ (quiet_invariant W period) Hr).
    split; simpl; try done. by apply due_cancel.
Qed.

End StdTimer.

(** ** [hrtimer.c] *)

Module HrTimer.

(** [MS_TO_NS(delay_in_ms)] with [delay_in_ms = 200]. *)
Definition delay_in_ms : Z := 200.
Definition MS_TO_NS (x : Z) : Z := x * 1000000.

Inductive cb_pc := HPrint | HReturn.      (* return HRTIMER_NORESTART *)

Inductive mod_pc :=
| IPrint | IInit | IFunction | IPrintStart | IStart
| ILoaded
| XCancel
| XReport (r : bool)
| XPrint
| XGone.

Inductive hr_ev := PInstalling | PStarting (ms : Z) | PCalled | PInUse | PUninstalling.

Section Model.
Context `{Deferral}.

Record hr_sys := MkHr {
  hr_timer : dtimer;
  hr_function : bool;            (* hr_timer.function is the callback *)
  now : Z;                       (* CLOCK_MONOTONIC in ns *)
  callback : option cb_pc;
  code : mod_pc;
  hr_log : list hr_ev;
  hr_fault : option fault;
}.

Definition hr_goto (v : mod_pc) (s : hr_sys) : hr_sys :=
  MkHr (hr_timer s) (hr_function s) (now s) (callback s) v (hr_log s) (hr_fault s).
Definition hr_goto_cb (v : option cb_pc) (s : hr_sys) : hr_sys :=
  MkHr (hr_timer s) (hr_function s) (now s) v (code s) (hr_log s) (hr_fault s).
Definition hr_set_timer (v : dtimer) (s : hr_sys) : hr_sys :=
  MkHr v (hr_function s) (now s) (callback s) (code s) (hr_log s) (hr_fault s).
Definition hr_set_function (s : hr_sys) : hr_sys :=
  MkHr (hr_timer s) true (now s) (callback s) (code s) (hr_log s) (hr_fault s).
Definition hr_print (e : hr_ev) (s : hr_sys) : hr_sys :=
  MkHr (hr_timer s) (hr_function s) (now s) (callback s) (code s) (hr_log s ++ [e]) (hr_fault s).
Definition hr_tick (s : hr_sys) : hr_sys :=
  MkHr (hr_timer s) (hr_function s) (now s + 1) (callback s) (code s) (hr_log s) (hr_fault s).
Definition hr_crash (f : fault) (s : hr_sys) : hr_sys :=
  MkHr (hr_timer s) (hr_function s) (now s) (callback s) (code s) (hr_log s) (Some f).

Definition my_hrtimer_callback (pc : cb_pc) (s : hr_sys) : hr_sys :=
  match pc with
  | HPrint => hr_goto_cb (Some HReturn) (hr_print PCalled s)
  | HReturn => hr_goto_cb None s
  end.

Definition hrtimer_init_module (s : hr_sys) : option hr_sys :=
  match code s with
  | IPrint => Some (hr_goto IInit (hr_print PInstalling s))
  | IInit => Some (hr_goto IFunction (hr_set_timer d_setup s))
  | IFunction => Some (hr_goto IPrintStart (hr_set_function s))
  | IPrintStart => Some (hr_goto IStart (hr_print (PStarting delay_in_ms) s))
  | IStart => Some (hr_goto ILoaded (hr_set_timer (arm (now s + MS_TO_NS delay_in_ms) (hr_timer s)).2 s))
  | _ => None
  end.

(** [hrtimer_cancel] waits while the callback runs. *)
Definition hrtimer_exit_module (s : hr_sys) : option hr_sys :=
  match code s with
  | ILoaded => Some (hr_goto XCancel s)        (* rmmod *)
  | XCancel =>
      match callback s with
      | Some _ => None
      | None => let r := cancel (hr_timer s) in Some (hr_goto (XReport r.1) (hr_set_timer r.2 s))
      end
  | XReport r => Some (hr_goto XPrint (if r then hr_print PInUse s else s))
  | XPrint => Some (hr_goto XGone (hr_print PUninstalling s))
  | _ => None
  end.

Definition gone (m : mod_pc) : bool := match m with XGone => true | _ => false end.
Definition not_set_up (m : mod_pc) : bool := match m with IPrint | IInit => true | _ => false end.

Definition hr_step (a : d_actor) (s : hr_sys) : option hr_sys :=
  match hr_fault s with
  | Some _ => None
  | None =>
      match a with
      | Clock => Some (hr_tick s)
      | Modcode => match hrtimer_init_module s with Some s' => Some s' | None => hrtimer_exit_module s end
      | Softirq =>
          match callback s with
          | Some pc => Some (if gone (code s) then hr_crash UseAfterFree s else my_hrtimer_callback pc s)
          | None =>
              if not_set_up (code s) then None else
              t ← expire (now s) (hr_timer s);
              Some (if hr_function s then hr_goto_cb (Some HPrint) (hr_set_timer t s) else hr_crash NullDeref s)
          end
      end
  end.

Definition hr_sys0 (mem : dtimer) (t : Z) : hr_sys := MkHr mem false t None IPrint [] None.
End Model.

(** *** Facts *)

Section Facts.
Context `{DeferralLaws}.

Definition is_call (e : hr_ev) : Prop := match e with PCalled => True | _ => False end.

#[global] Instance is_call_dec e : Decision (is_call e).
Proof. destruct e; apply _. Defined.

Definition called (l : list hr_ev) : nat := length (filter is_call l).

Lemma called_snoc l e : called (l ++ [e]) = (called l + if decide (is_call e) then 1 else 0)%nat.
Proof.
  unfold called. rewrite filter_app, length_app, filter_cons, filter_nil. by destruct (decide (is_call e)).
Qed.

(** The one call has been made, is being made or is due. *)
Definition call_made (cb : option cb_pc) (d : option Z) (n : nat) : Prop :=
  match cb with
  | Some HPrint => d = None ∧ n = 0%nat
  | Some HReturn => d = None ∧ n = 1%nat
  | None => is_Some d ∧ n = 0%nat ∨ d = None ∧ n = 1%nat
  end.

Inductive hr_phase := PhNew | PhSetUp | PhReady | PhArmed | PhQuiet.
Definition phase (m : mod_pc) : hr_phase :=
  match m with
  | IPrint | IInit => PhNew | IFunction => PhSetUp | IPrintStart | IStart => PhReady
  | ILoaded | XCancel => PhArmed | _ => PhQuiet
  end.

Record hr_inv (s : hr_sys) : Prop := {
  hi_fault : hr_fault s = None;
  hi_phase : let d := due (hr_timer s) in let n := called (hr_log s) in
    match phase (code s) with
    | PhNew => callback s = None ∧ n = 0%nat
    | PhSetUp => callback s = None ∧ d = None ∧ n = 0%nat
    | PhReady => callback s = None ∧ d = None ∧ n = 0%nat ∧ hr_function s = true
    | PhArmed => call_made (callback s) d n ∧ hr_function s = true
    | PhQuiet => callback s = None ∧ d = None ∧ (n ≤ 1)%nat
    end;
}.

Lemma hr_invariant : invariant_of (acts hr_step) hr_inv.
Proof.
  intros [tm fn t cb m l f] s' [a E] [Hf Hp]. simpl in Hf, Hp. subst f.
  unfold hr_step, hrtimer_init_module, hrtimer_exit_module in E. destruct a; simpl in E.
  - simplify_eq. by split.
  - destruct cb as [pc|].
    + destruct m; simpl in *; try (by destruct Hp as [? _]); simplify_eq;
        destruct Hp as [Hm Hfn], pc, Hm as [Hd Hn]; (split; simpl; [done|rewrite ?called_snoc; simpl; first [split_and!; done || lia|split; [by right|done]]]).
    + destruct (expire t tm) as [tm'|] eqn:Hx; [|by destruct (not_set_up m)].
      apply due_expire in Hx as (Hd & e & He). rewrite He in Hp.
      destruct m; simpl in *; destruct_and?; simplify_eq/=; destruct_or?; destruct_and?; simplify_eq/=; by split.
  - destruct m; simplify_eq/=; repeat (case_match; simplify_eq/=); destruct_and?;
      (split; simpl; rewrite ?called_snoc; simpl; rewrite ?Nat.add_0_r; try done).
    + by rewrite due_setup.
    + destruct (due_arm (t + MS_TO_NS delay_in_ms) tm) as [-> _]. simplify_eq. split; [by left; eauto|done].
    + split_and!; [done|apply due_cancel|]. unfold call_made in *. lia.
Qed.
End Facts.
End HrTimer.

(** ** [tasklet.c] *)

Module Tasklet.

Definition my_tasklet_data : string := "my tasklet function was called".

Inductive mod_pc := IPrint | ISchedule | ILoaded | XPrint | XKill | XGone.

Inductive tl_ev := PSchedule | PKill | PData (s : string).

Section Model.
Context `{Deferral}.

(** [my_tasklet_func] is one statement. *)
Record tl_sys := MkTl {
  my_tasklet : dtimer;
  running : bool;
  code : mod_pc;
  tl_log : list tl_ev;
  tl_fault : option fault;
}.

Definition tl_goto (v : mod_pc) (s : tl_sys) : tl_sys := MkTl (my_tasklet s) (running s) v (tl_log s) (tl_fault s).
Definition tl_print (e : tl_ev) (s : tl_sys) : tl_sys :=
  MkTl (my_tasklet s) (running s) (code s) (tl_log s ++ [e]) (tl_fault s).

Definition my_tasklet_func (data : string) (s : tl_sys) : tl_sys :=
  MkTl (my_tasklet s) false (code s) (tl_log s ++ [PData data]) (tl_fault s).

Definition tasklet_init_module (s : tl_sys) : option tl_sys :=
  match code s with
  | IPrint => Some (tl_goto ISchedule (tl_print PSchedule s))
  | ISchedule => Some (MkTl (arm 0 (my_tasklet s)).2 (running s) ILoaded (tl_log s) (tl_fault s))
  | _ => None
  end.

(** [tasklet_kill] waits until the tasklet is neither scheduled nor running. *)
Definition tasklet_cleanup_module (s : tl_sys) : option tl_sys :=
  match code s with
  | ILoaded => Some (tl_goto XPrint s)         (* rmmod *)
  | XPrint => Some (tl_goto XKill (tl_print PKill s))
  | XKill => if running s || pending (my_tasklet s) then None else Some (tl_goto XGone s)
  | _ => None
  end.

Definition gone (m : mod_pc) : bool := match m with XGone => true | _ => false end.

Definition tl_step (a : d_actor) (s : tl_sys) : option tl_sys :=
  match tl_fault s with
  | Some _ => None
  | None =>
      match a with
      | Clock => None
      | Modcode => match tasklet_init_module s with Some s' => Some s' | None => tasklet_cleanup_module s end
      | Softirq =>
          if running s then
            Some (if gone (code s) then MkTl (my_tasklet s) true XGone (tl_log s) (Some UseAfterFree)
                  else my_tasklet_func my_tasklet_data s)
          else t ← expire 0 (my_tasklet s); Some (MkTl t true (code s) (tl_log s) (tl_fault s))
      end
  end.

(** [DECLARE_TASKLET]: set up statically. *)
Definition tl_sys0 : tl_sys := MkTl d_setup false IPrint [] None.
End Model.

(** *** Facts *)

Section Facts.
Context `{DeferralLaws}.

Definition shown (l : list tl_ev) : list string := omap (λ e, match e with PData d => Some d | _ => None end) l.

Lemma shown_snoc l e : shown (l ++ [e]) = shown l ++ match e with PData d => [d] | _ => [] end.
Proof. unfold shown. rewrite omap_app. by destruct e. Qed.

Record tl_inv (s : tl_sys) : Prop := {
  tl_no_fault : tl_fault s = None;
  tl_phase : let d := due (my_tasklet s) in
    match code s with
    | IPrint | ISchedule => running s = false ∧ d = None ∧ shown (tl_log s) = []
    | XGone => running s = false ∧ d = None ∧ shown (tl_log s) = [my_tasklet_data]
    | _ => running s = false ∧ is_Some d ∧ shown (tl_log s) = [] ∨
           running s = true ∧ d = None ∧ shown (tl_log s) = [] ∨
           running s = false ∧ d = None ∧ shown (tl_log s) = [my_tasklet_data]
    end;
}.

Lemma tl_invariant : invariant_of (acts tl_step) tl_inv.
Proof.
  intros [tl r m l f] s' [a E] [Hf Hp]. simpl in Hf, Hp. subst f.
  unfold tl_step, tasklet_init_module, tasklet_cleanup_module in E. destruct a; simpl in E; [done|..].
  - destruct r.
    + destruct m; simpl in *; simplify_eq; destruct_or?; destruct_and?; simplify_eq;
        (split; simpl; [done|]); rewrite shown_snoc; match goal with H : shown l = [] |- _ => rewrite H end; auto.
    + destruct (expire 0 tl) as [tl'|] eqn:Hx; [|done]. simpl in E. simplify_eq.
      apply due_expire in Hx as (Hd & e & He). rewrite He in Hp.
      destruct m; destruct_or?; destruct_and?; try done; (split; simpl; auto).
  - destruct m; simplify_eq; try (by split; simpl; rewrite ?shown_snoc, ?app_nil_r).
    + destruct Hp as (-> & _ & Hs). split; simpl; [done|]. destruct (due_arm 0 tl) as [-> _]. eauto.
    + rewrite due_pending in E. case_match eqn:Hc; simplify_eq. apply orb_false_iff in Hc as [-> Hb].
      apply bool_decide_eq_false in Hb. split; simpl; [done|]. naive_solver.
Qed.
End Facts.
End Tasklet.

(** C30: the one-shot modules.  In every interleaving neither hrtimer.c nor
    tasklet.c ever runs code or data of an unloaded module; once unloaded, the
    high-resolution timer has called back at most once and is not due, and the
    tasklet has printed its message exactly once. *)
Theorem oneshot_modules_safe `{DeferralLaws} (mem : dtimer) (t : Z) :
  (∀ s, rtc (acts HrTimer.hr_step) (HrTimer.hr_sys0 mem t) s →
     HrTimer.hr_fault s = None ∧
     (HrTimer.code s = HrTimer.XGone →
       HrTimer.callback s = None ∧ due (HrTimer.hr_timer s) = None ∧ (HrTimer.called (HrTimer.hr_log s) ≤ 1)%nat)) ∧
  (∀ s, rtc (acts Tasklet.tl_step) Tasklet.tl_sys0 s →
     Tasklet.tl_fault s = None ∧
     (Tasklet.code s = Tasklet.XGone →
       Tasklet.running s = false ∧ due (Tasklet.my_tasklet s) = None ∧
       Tasklet.shown (Tasklet.tl_log s) = [Tasklet.my_tasklet_data])).
Proof.
  split; intros s Hr.
  - destruct (rtc_invariant _ _ _ _ HrTimer.hr_invariant Hr) as [Hf Hp]; [by split|].
    split; [done|]. intros Hc. by rewrite Hc in Hp.
  - destruct (rtc_invariant _ _ _ _ Tasklet.tl_invariant Hr) as [Hf Hp]; [by split; simpl; rewrite ?due_setup|].
    split; [done|]. intros Hc. by rewrite Hc in Hp.
Qed.

(** ** A concrete timer *)

(** Four-bit times, so that a run of a few ticks wraps around. *)
#[export] Instance option_deferral : Deferral := {|
  dtimer := option Z;
  d_setup := None;
  arm e d := (bool_decide (is_Some d), Some e);
  cancel d := (bool_decide (is_Some d), None);
  expire now d := match d with Some e => if time_after_eq 4 now e then Some None else None | None => None end;
  pending d := bool_decide (is_Some d);
|}.

#[export] Instance option_deferral_laws : DeferralLaws.
Proof.
  refine {| due := λ d : dtimer, d |}; try done.
  intros now [e|] d'; simpl; [|done]. case_match; [|done]. intros ?; simplify_eq. eauto.
Defined.

#[export] Instance option_jiffies_laws : JiffiesLaws 4.
Proof. split. intros now [e'|] d' e; simpl; [|done]. case_match; naive_solver. Defined.

(** Turns of module, callback and clock with a period of two ticks, starting
    just before [jiffies] wraps around. *)
Definition demo_turns (i : nat) : d_actor :=
  match (i mod 3)%nat with 0%nat => if decide (i < 12)%nat then Modcode else Softirq | 1%nat => Softirq | _ => Clock end.

Definition demo_wrap : StdTimer.st_sys := sched (StdTimer.st_step 4 2) demo_turns 60 (StdTimer.st_sys0 (Some 7) 2).

Lemma stdtimer_periodic_witness :
  (StdTimer.counted (omap StdTimer.call_of (StdTimer.st_log demo_wrap)) ∧
   StdTimer.spaced 4 2 (omap StdTimer.time_of (StdTimer.st_log demo_wrap)) ∧
   (StdTimer.PModError ∉ (StdTimer.st_log demo_wrap).*2) ∧
   (StdTimer.callback demo_wrap = None →
    StdTimer.num demo_wrap = s32 (Z.of_nat (length (omap StdTimer.call_of (StdTimer.st_log demo_wrap)))))) ∧
  omap StdTimer.time_of (StdTimer.st_log demo_wrap) = [(4, 4); (8, -8); (12, -4); (16, 0); (20, 4)].
Proof.
  split; [|vm_compute; reflexivity].
  refine (StdTimer.stdtimer_periodic 4 2 2 (H := option_deferral) (Some 7) _ _ _ _); [done|done|apply sched_reachable].
Defined.

Lemma stdtimer_unload_witness :
  let s := StdTimer.MkSt None 0 100 (Some StdTimer.CLoad) StdTimer.XDelTimer [] None in
  (∀ s', rtc (acts (StdTimer.st_step 4 2)) (sched_step (StdTimer.st_step 4 2) Modcode s) s' → StdTimer.st_fault s' = None) ↔
  StdTimer.callback s = None.
Proof. exact (StdTimer.stdtimer_unload 4 2 (StdTimer.MkSt None 0 100 (Some StdTimer.CLoad) StdTimer.XDelTimer [] None) eq_refl eq_refl). Defined.

Lemma oneshot_modules_safe_witness :
  (∀ s, rtc (acts HrTimer.hr_step) (HrTimer.hr_sys0 (Some 7) 100) s →
     HrTimer.hr_fault s = None ∧
     (HrTimer.code s = HrTimer.XGone →
       HrTimer.callback s = None ∧ due (HrTimer.hr_timer s) = None ∧ (HrTimer.called (HrTimer.hr_log s) ≤ 1)%nat)) ∧
  (∀ s, rtc (acts Tasklet.tl_step) Tasklet.tl_sys0 s →
     Tasklet.tl_fault s = None ∧
     (Tasklet.code s = Tasklet.XGone →
       Tasklet.running s = false ∧ due (Tasklet.my_tasklet s) = None ∧
       Tasklet.shown (Tasklet.tl_log s) = [Tasklet.my_tasklet_data])).
Proof. exact (oneshot_modules_safe (Some 7) 100). Defined.

(** The race of [stdtimer_unload] happens: the timer expires just before
    [rmmod], and the callback goes on after the module is gone. *)
Definition race (i : nat) : d_actor :=
  match i with
  | 4%nat | 5%nat => Clock
  | 6%nat | 11%nat => Softirq
  | _ => Modcode
  end.

Example stdtimer_race :
  StdTimer.st_fault (sched (StdTimer.st_step 4 2) race 12 (StdTimer.st_sys0 None 100)) = Some UseAfterFree.
Proof. vm_compute. reflexivity. Qed.
