(* ===== verification/Probes.v ===== *)
(** * Probes: [src/kprobe/kprobe.c] and [src/funcexectime/funcexectime.c]

    [Kprobe]: the probes the module plants at load and removes at unload, with
    the rollback of a failed load.  [FuncExecTime]: the return probe that
    measures how long a function runs. *)

From S2P Require Import Prelude.

(** ** [kprobe.c] *)

Module Kprobe.

(** The static probe objects: [kp], [kp0], [debug_kprobe[i]] and
    [debug_jprobe[i]]. *)
Inductive probe := PKp | PKp0 | PDebugK (i : nat) | PDebugJ (i : nat).

#[global] Instance probe_eq_dec : EqDecision probe.
Proof. solve_decision. Defined.

Inductive handler := handler_pre_ | handler_post_ | handler_fault_.

(** The fields of [struct kprobe] the module sets. *)
Record kprobe := MkKprobe {
  symbol_name : option string;
  addr : Z;
  pre_handler : option handler;
  post_handler : option handler;
  fault_handler : option handler;
}.

Inductive jentry := ip_rcv_ | wext_handle_ioctl_ | ioctl_private_call_ | handle_fasteoi_irq_.

Record jprobe := MkJprobe { entry : jentry; j_symbol_name : string }.

Definition KPROBE_DEFINE_NAME (func : string) (pre post fault : option handler) : kprobe :=
  MkKprobe (Some func) 0 pre post fault.
Definition KPROBE_DEFINE_ADDR (a : Z) (pre post fault : option handler) : kprobe :=
  MkKprobe None a pre post fault.

Definition debug_kprobe : list kprobe :=
  [KPROBE_DEFINE_NAME "netif_rx" (Some handler_pre_) (Some handler_post_) (Some handler_fault_);
   KPROBE_DEFINE_ADDR 0xc161f240 None None None].

(** Entries that depend on [KCONFIG_WEXT_ENABLED]. *)
Definition debug_jprobe (wext : bool) : list jprobe :=
  [MkJprobe ip_rcv_ "ip_rcv"] ++
  (if wext then [MkJprobe wext_handle_ioctl_ "wext_handle_ioctl"; MkJprobe ioctl_private_call_ "ioctl_private_call"]
   else []) ++
  [MkJprobe handle_fasteoi_irq_ "handle_fasteoi_irq"].

Inductive probe_ev :=
| KvRegisterK (p : probe) (what : kprobe) (rc : Z)
| KvRegisterJ (p : probe) (what : jprobe) (rc : Z)
| KvUnregister (p : probe)
| KvLookup (a : Z)
(* what the handlers print *)
| KvPre (sym : option string) (a ip flags : Z)
| KvPost (sym : option string) (a flags : Z)
| KvFault (sym : option string) (a trapnr : Z)
| KvIrq (name : string) (nr_actions : Z)
| KvRcv (name : string)
| KvCmd (cmd : Z)
| KvArgs (cmd : Z) (num : nat)
| KvArg (i : nat) (cmd : Z)
| KvBreak (i : nat) (cmd : Z).

Record probe_kernel := {
  pk_lookup : list probe_ev → string → Z;
  pk_register_k : list probe_ev → probe → kprobe → Z;
  pk_register_j : list probe_ev → probe → jprobe → Z;
}.

(** The globals that change: [kp]; [kp0] and the tables stay as defined. *)
Definition kp0 : kprobe := MkKprobe (Some "loopback_xmit") 0 None None None.
Definition kp_initial : kprobe :=
  MkKprobe None 0 (Some handler_pre_) (Some handler_post_) (Some handler_fault_).
Definition set_addr (a : Z) (p : kprobe) : kprobe :=
  MkKprobe (symbol_name p) a (pre_handler p) (post_handler p) (fault_handler p).

Definition PM (A : Type) : Type := M probe_kernel kprobe probe_ev A.

(** *** Handlers *)

Definition handler_pre (p : kprobe) (ip flags : Z) : PM Z :=
  emit (KvPre (symbol_name p) (addr p) ip flags) ;; ret 0.
Definition handler_post (p : kprobe) (flags : Z) : PM unit :=
  emit (KvPost (symbol_name p) (addr p) flags).
Definition handler_fault (p : kprobe) (trapnr : Z) : PM Z :=
  emit (KvFault (symbol_name p) (addr p) trapnr) ;; ret 0.

(** [jprobe_return] does not come back. *)
Definition handle_fasteoi_irq_jentry (irq : Z) (name : string) (nr_actions : Z) : PM unit :=
  when (irq =? 16) do emit (KvIrq name nr_actions).
Definition ip_rcv_jentry (dev_name : string) : PM unit := emit (KvRcv dev_name).

Definition wext_cmd (cmd : Z) : bool := (cmd =? 0x8be1) || (cmd =? 0x8be0) || (cmd =? 0x8be2).

Definition wext_handle_ioctl_jentry (cmd : Z) : PM unit := when (wext_cmd cmd) do emit (KvCmd cmd).

(** Not in the table: its target is static. *)
Definition get_priv_descr_and_size_jentry (cmd : Z) : PM unit := emit (KvCmd cmd).

(** The two loops over [private_args], given by the commands it lists. *)
Fixpoint print_args (i : nat) (args : list Z) : PM unit :=
  match args with
  | [] => ret tt
  | c :: args => emit (KvArg i c) ;; print_args (S i) args
  end.
Fixpoint find_arg (cmd : Z) (i : nat) (args : list Z) : PM unit :=
  match args with
  | [] => ret tt
  | c :: args => if cmd =? c then emit (KvBreak i c) else find_arg cmd (S i) args
  end.

Definition ioctl_private_call_jentry (cmd : Z) (private_args : list Z) : PM unit :=
  (when (wext_cmd cmd) do
    (emit (KvArgs cmd (length private_args)) ;; print_args 0 private_args)) ;;
  (when (wext_cmd cmd) do
    (emit (KvArgs cmd (length private_args)) ;; find_arg cmd 0 private_args)).

(** *** Load *)

Definition register_kprobe (p : probe) (what : kprobe) : PM Z :=
  kcall (λ k t, pk_register_k k t p what) (KvRegisterK p what).
Definition register_jprobe (p : probe) (what : jprobe) : PM Z :=
  kcall (λ k t, pk_register_j k t p what) (KvRegisterJ p what).
Definition unregister (p : probe) : PM unit := emit (KvUnregister p).

(** [for (i = 0; i < ARRAY_SIZE(a); i++) { ret = register(&a[i]); if (ret < 0)
    goto bad; }]: [None] when all were registered, otherwise [ret] and [i]. *)
Fixpoint register_loop {A} (reg : nat → A → PM Z) (i : nat) (a : list A) : PM (option (Z * nat)) :=
  match a with
  | [] => ret None
  | x :: a =>
      r <- reg i x ;;
      if r <? 0 then ret (Some (r, i)) else register_loop reg (S i) a
  end.

(** [for (j = 0; j < n; j++) unregister(&a[j]);] *)
Fixpoint unregister_loop (obj : nat → probe) (j n : nat) : PM unit :=
  match n with
  | O => ret tt
  | S n => unregister (obj j) ;; unregister_loop obj (S j) n
  end.

Definition kprobe_init : PM Z :=
  a <- kcall (λ k t, pk_lookup k t "kernel_thread") KvLookup ;;
  modify (set_addr a) ;;
  kp <- get (λ s, s) ;;
  r <- register_kprobe PKp kp ;;
  if r <? 0 then ret r else
  r <- register_kprobe PKp0 kp0 ;;
  if r <? 0 then ret r else
  bad <- register_loop (λ i, register_kprobe (PDebugK i)) 0 debug_kprobe ;;
  match bad with
  | None => ret 0
  | Some (r, i) => unregister_loop PDebugK 0 i ;; ret r
  end.

Definition kprobe_exit : PM unit :=
  unregister PKp ;;
  unregister PKp0 ;;
  unregister_loop PDebugK 0 (length debug_kprobe).

Definition jprobe_init (wext : bool) : PM Z :=
  bad <- register_loop (λ i, register_jprobe (PDebugJ i)) 0 (debug_jprobe wext) ;;
  match bad with
  | None => ret 0
  | Some (_, i) => unregister_loop PDebugJ 0 i ;; ret (-1)
  end.

Definition jprobe_exit (wext : bool) : PM unit :=
  unregister_loop PDebugJ 0 (length (debug_jprobe wext)).

Definition probe_init (wext : bool) : PM Z :=
  kprobe_init ;;
  jprobe_init wext ;;
  ret 0.

Definition probe_exit (wext : bool) : PM unit :=
  kprobe_exit ;;
  jprobe_exit wext.

(** *** Facts *)

(** The probes that are planted after a trace. *)
Definition plant (l : list probe) (e : probe_ev) : list probe :=
  match e with
  | KvRegisterK p _ rc | KvRegisterJ p _ rc => if rc <? 0 then l else l ++ [p]
  | KvUnregister p => filter (λ q, q ≠ p) l
  | _ => l
  end.

Definition planted (t : list probe_ev) : list probe := foldl plant [] t.

Lemma planted_snoc t e : planted (t ++ [e]) = plant (planted t) e.
Proof. unfold planted. by rewrite foldl_app. Qed.

Section Facts.
Context (k : probe_kernel).

(** A registration plants its probe exactly when it does not fail. *)
Definition registers {A} (reg : nat → A → PM Z) (obj : nat → probe) : Prop :=
  ∀ i x s t, ∃ r t', reg i x k s t = (Ok r, s, t') ∧
    planted t' = if r <? 0 then planted t else planted t ++ [obj i].

Lemma register_kprobe_ok : registers (λ i, register_kprobe (PDebugK i)) PDebugK.
Proof. intros i x s t. eexists _, _. split; [reflexivity|]. by rewrite planted_snoc. Qed.

Lemma register_jprobe_ok : registers (λ i, register_jprobe (PDebugJ i)) PDebugJ.
Proof. intros i x s t. eexists _, _. split; [reflexivity|]. by rewrite planted_snoc. Qed.

Lemma register_loop_ok {A} (reg : nat → A → PM Z) obj (a : list A) i s t :
  registers reg obj →
  ∃ bad t', register_loop reg i a k s t = (Ok bad, s, t') ∧
    match bad with
    | None => planted t' = planted t ++ (obj <$> seq i (length a))
    | Some (r, j) => r < 0 ∧ (i ≤ j)%nat ∧ planted t' = planted t ++ (obj <$> seq i (j - i))
    end.
Proof.
  intros Hreg. revert i t. induction a as [|x a IH]; intros i t.
  - exists None, t. split; [done|]. by rewrite app_nil_r.
  - destruct (Hreg i x s t) as (r & t1 & E & Hp). cbn [register_loop]. mrun E. destruct (r <? 0) eqn:Hr.
    + exists (Some (r, i)), t1. zbool. rewrite Nat.sub_diag, app_nil_r. done.
    + destruct (IH (S i) t1) as (bad & t2 & E2 & H2). exists bad, t2. split; [done|]. destruct bad as [[r' j]|].
      * destruct H2 as (? & ? & ->). split_and!; [done|lia|]. rewrite Hp, <-app_assoc.
        replace (j - i)%nat with (S (j - S i)) by lia. done.
      * by rewrite H2, Hp, <-app_assoc.
Qed.

Lemma unregister_loop_ok obj n j s t :
  ∃ t', unregister_loop obj j n k s t = (Ok tt, s, t') ∧
    planted t' = filter (λ q, q ∉ obj <$> seq j n) (planted t).
Proof.
  revert j t. induction n as [|n IH]; intros j t.
  - exists t. split; [done|]. symmetry. apply filter_all, Forall_true. intros q. apply not_elem_of_nil.
  - cbn [unregister_loop]. erewrite bind_ok by reflexivity.
    destruct (IH (S j) (t ++ [KvUnregister (obj j)])) as (t' & E & Hp). exists t'. split; [done|].
    rewrite Hp, planted_snoc. simpl. rewrite list_filter_filter. apply list_filter_iff. set_solver.
Qed.

Definition all_k : list probe := [PKp; PKp0] ++ (PDebugK <$> seq 0 (length debug_kprobe)).
Definition all_j (wext : bool) : list probe := PDebugJ <$> seq 0 (length (debug_jprobe wext)).

(** Taking back what a failed loop had planted. *)
Lemma rollback_ok obj n s t l :
  (∀ i, obj i ∉ l) → planted t = l ++ (obj <$> seq 0 n) →
  ∃ t', unregister_loop obj 0 n k s t = (Ok tt, s, t') ∧ planted t' = l.
Proof.
  intros Hl Hp. destruct (unregister_loop_ok obj n 0 s t) as (t' & E & Hp'). exists t'. split; [done|].
  rewrite Hp', Hp, filter_app, filter_all, filter_none, app_nil_r; [done|..]; apply Forall_forall; [set_solver|].
  intros q Hq Hin. apply list_elem_of_fmap in Hin as (i & -> & _). by eapply Hl.
Qed.

Lemma kprobe_init_ok s t :
  planted t = [] →
  ∃ r s' t', kprobe_init k s t = (Ok r, s', t') ∧
    (r = 0 ∧ planted t' = all_k ∨ r < 0 ∧ planted t' ∈ [[]; [PKp]; [PKp; PKp0]]).
Proof.
  intros Ht. unfold kprobe_init. do 3 (erewrite bind_ok by reflexivity). set (t0 := t ++ _). set (s0 := set_addr _ s).
  assert (planted t0 = []) as H0 by (unfold t0; by rewrite planted_snoc).
  unfold register_kprobe at 1. erewrite bind_ok by reflexivity. set (r1 := pk_register_k _ _ _ _). set (t1 := t0 ++ _).
  assert (planted t1 = if r1 <? 0 then [] else [PKp]) as H1 by (unfold t1; rewrite planted_snoc; simpl; by rewrite H0).
  destruct (r1 <? 0) eqn:E1; zbool.
  { eexists r1, s0, t1. split; [done|right]. split; [done|]. rewrite H1. left. }
  unfold register_kprobe at 1. erewrite bind_ok by reflexivity. set (r2 := pk_register_k _ _ _ _). set (t2 := t1 ++ _).
  assert (planted t2 = if r2 <? 0 then [PKp] else [PKp; PKp0]) as H2
    by (unfold t2; rewrite planted_snoc; simpl; by rewrite H1).
  destruct (r2 <? 0) eqn:E2; zbool.
  { eexists r2, s0, t2. split; [done|right]. split; [done|]. rewrite H2. right; left. }
  destruct (register_loop_ok _ _ debug_kprobe 0 s0 t2 register_kprobe_ok) as (bad & t3 & E3 & H3). mrun E3.
  destruct bad as [[r i]|]; rewrite H2 in H3.
  - destruct H3 as (Hr & _ & H3). rewrite Nat.sub_0_r in H3.
    destruct (rollback_ok PDebugK i s0 t3 [PKp; PKp0]) as (t4 & E4 & H4); [set_solver|done|]. mrun E4.
    eexists r, s0, t4. split; [done|right]. split; [done|]. rewrite H4. right; right; left.
  - eexists 0, s0, t3. split; [done|left]. by rewrite H3.
Qed.

Lemma ks_subset ks : ks ∈ [[]; [PKp]; [PKp; PKp0]; all_k] → ks ⊆ all_k.
Proof. rewrite !elem_of_cons, elem_of_nil. intros [->|[->|[->|[->|[]]]]]; unfold all_k; set_solver. Qed.

Lemma jprobe_init_ok wext s t :
  (∀ i, PDebugJ i ∉ planted t) →
  ∃ r t', jprobe_init wext k s t = (Ok r, s, t') ∧
    (r = 0 ∧ planted t' = planted t ++ all_j wext ∨ r = -1 ∧ planted t' = planted t).
Proof.
  intros Ht. unfold jprobe_init.
  destruct (register_loop_ok _ _ (debug_jprobe wext) 0 s t register_jprobe_ok) as (bad & t1 & E & H1). mrun E.
  destruct bad as [[r i]|]; [|by eexists 0, t1; auto].
  destruct H1 as (_ & _ & H1). rewrite Nat.sub_0_r in H1.
  destruct (rollback_ok PDebugJ i s t1 _ Ht H1) as (t2 & E2 & H2). mrun E2. eexists (-1), t2. auto.
Qed.

Lemma probe_exit_ok wext s t :
  planted t ⊆ all_k ++ all_j wext →
  ∃ t', probe_exit wext k s t = (Ok tt, s, t') ∧ planted t' = [].
Proof.
  intros Ht. unfold probe_exit, kprobe_exit. rewrite bind_assoc. erewrite bind_ok by reflexivity.
  rewrite bind_assoc. erewrite bind_ok by reflexivity.
  destruct (unregister_loop_ok PDebugK (length debug_kprobe) 0 s ((t ++ [KvUnregister PKp]) ++ [KvUnregister PKp0]))
    as (t1 & E1 & H1). mrun E1.
  destruct (unregister_loop_ok PDebugJ (length (debug_jprobe wext)) 0 s t1) as (t2 & E2 & H2).
  exists t2. split; [done|]. rewrite H2, H1, !planted_snoc. simpl. rewrite !list_filter_filter.
  apply filter_none, Forall_forall. intros q Hq Hout. apply Ht in Hq. unfold all_k, all_j in Hq. set_solver.
Qed.
End Facts.

(** C27: planting and removing probes.  Loading reports success whatever the
    kernel answers, with the kprobes either all planted or at most the first
    two (a failure in the table takes back the table but neither [kp] nor
    [kp0]), and the jprobes all planted or none; unloading leaves nothing
    planted in any of these cases. *)
Theorem probe_load_unload (k : probe_kernel) (wext : bool) (s : kprobe) (t : list probe_ev) (Hnone : planted t = []) :
  ∃ s' t1 ks js, probe_init wext k s t = (Ok 0, s', t1) ∧ planted t1 = ks ++ js ∧
    ks ∈ [[]; [PKp]; [PKp; PKp0]; all_k] ∧ js ∈ [[]; all_j wext] ∧
    ∃ t2, probe_exit wext k s' t1 = (Ok tt, s', t2) ∧ planted t2 = [].
Proof.
  unfold probe_init. destruct (kprobe_init_ok k s t Hnone) as (r & s' & t1 & E1 & H1). mrun E1.
  assert (planted t1 ∈ [[]; [PKp]; [PKp; PKp0]; all_k]) as Hk by (destruct H1 as [[_ ->]|[_ H1]]; set_solver).
  pose proof (ks_subset _ Hk) as Hsub.
  destruct (jprobe_init_ok k wext s' t1) as (r2 & t2 & E2 & H2).
  { intros i Hin. apply Hsub in Hin. unfold all_k in Hin. set_solver. }
  mrun E2. exists s', t2, (planted t1), (if decide (r2 = 0) then all_j wext else []).
  assert (planted t2 = planted t1 ++ if decide (r2 = 0) then all_j wext else []) as H3.
  { destruct H2 as [[-> ->]|[-> ->]]; [by rewrite decide_True|by rewrite decide_False, app_nil_r by lia]. }
  split_and!; [done|done|done|case_decide; set_solver|]. apply probe_exit_ok. rewrite H3.
  intros q [Hq|Hq]%elem_of_app; apply elem_of_app; [left; by apply Hsub|right].
  case_decide; [done|]. by apply elem_of_nil in Hq.
Qed.

(** The first table entry can be planted, the second cannot. *)
Definition demo_pk : probe_kernel := {|
  pk_lookup _ _ := 4096;
  pk_register_k _ p _ := if decide (p = PDebugK 1) then -22 else 0;
  pk_register_j _ _ _ := 0;
|}.

Lemma probe_load_unload_witness :
  ∃ s' t1 ks js, probe_init true demo_pk kp_initial [] = (Ok 0, s', t1) ∧ planted t1 = ks ++ js ∧
    ks ∈ [[]; [PKp]; [PKp; PKp0]; all_k] ∧ js ∈ [[]; all_j true] ∧
    ∃ t2, probe_exit true demo_pk s' t1 = (Ok tt, s', t2) ∧ planted t2 = [].
Proof. exact (probe_load_unload demo_pk true kp_initial [] eq_refl). Defined.

(** With that kernel the two first probes stay although [kprobe_init] fails. *)
Example demo_probe_leftover : ∃ s' t', kprobe_init demo_pk kp_initial [] = (Ok (-22), s', t') ∧ planted t' = [PKp; PKp0].
Proof. eexists _, _. split; reflexivity. Qed.
End Kprobe.

(** ** [funcexectime.c] *)

Module FuncExecTime.

(** [modukretp.maxactive]: the instances the kernel may hand out. *)
Definition maxactive : nat := 20.

Inductive fet_ev :=
| FvKtime (now : Z)
| FvLine (n : Z) (func : list Z) (retval delta : Z)     (* trace_printk *)
| FvRegister (func : list Z) (rc : Z)
| FvUnregister (func : list Z)
| FvMissed (n : Z).

Record fet_kernel := {
  fk_ktime : list fet_ev → Z;
  fk_register : list fet_ev → list Z → Z;
  fk_nmissed : list fet_ev → Z;
}.

(** [funcname] (a module parameter), [count], the private data of every
    instance ([struct insstamp] is one time), and the probe's symbol. *)
Record fet_state := MkFet {
  funcname : list Z;
  count : Z;
  entry_stamp : list Z;
  kp_symbol : option (list Z);
}.

Definition set_count (v : Z) (s : fet_state) : fet_state := MkFet (funcname s) v (entry_stamp s) (kp_symbol s).
Definition set_stamps (v : list Z) (s : fet_state) : fet_state := MkFet (funcname s) (count s) v (kp_symbol s).
Definition set_symbol (v : list Z) (s : fet_state) : fet_state := MkFet (funcname s) (count s) (entry_stamp s) (Some v).

Definition FM (A : Type) : Type := M fet_kernel fet_state fet_ev A.

(** [ri] is the instance; [mm] tells whether the caller is a user task. *)
Definition entry_handler (ri : nat) (mm : bool) : FM Z :=
  if negb mm then ret 1 else
  now <- kcall fk_ktime FvKtime ;;
  stamps <- get entry_stamp ;;
  old <- index (stamps !! ri) ;;
  modify (set_stamps (<[ri := now]> stamps)) ;;
  ret 0.

(** The statements of [ret_handler]: reading the clock and the instance's own
    data, which nobody else touches, then the load and the store of [count++],
    which handlers on other CPUs share, then [trace_printk]. *)
Inductive ret_pc :=
| RClock (regs : Z)
| RLoad (retval delta : Z)
| RStore (retval delta n : Z)
| RPrint (retval delta n : Z).

(** The next statement of [ret_handler] on instance [ri]; [None] when it has
    returned. *)
Definition ret_handler (ri : nat) (pc : ret_pc) : FM (option ret_pc) :=
  match pc with
  | RClock regs =>
      let retval := s32 regs in
      now <- kcall fk_ktime FvKtime ;;
      stamps <- get entry_stamp ;;
      stamp <- index (stamps !! ri) ;;
      ret (Some (RLoad retval (s64 (now - stamp))))
  | RLoad retval delta => n <- get count ;; ret (Some (RStore retval delta n))
  | RStore retval delta n => modify (set_count (ulong (n + 1))) ;; ret (Some (RPrint retval delta n))
  | RPrint retval delta n => func <- get funcname ;; emit (FvLine n func retval delta) ;; ret None
  end.

Definition fet_init : FM Z :=
  func <- get funcname ;;
  modify (set_symbol func) ;;
  rc <- kcall (λ k t, fk_register k t func) (FvRegister func) ;;
  if rc <? 0 then ret (-1) else ret 0.

Definition fet_exit : FM unit :=
  sym <- get kp_symbol ;;
  func <- deref sym ;;
  emit (FvUnregister func) ;;
  kcall fk_nmissed FvMissed ;;
  ret tt.

(** *** The kernel's use of the handlers *)

(** A call of the probed function and its return, as they happen. *)
Inductive call_ev :=
| HEntry (ri : nat) (now : Z)
| HReturn (ri : nat) (regs now : Z).

(** What an instance is used for: nothing, a call that has not returned, or a
    call whose return handler runs. *)
Inductive inst := Free | Inside | InRet (pc : ret_pc).

(** The module's memory, the instances, the module's trace, the history of
    calls, and whether two handlers have been between the load and the store
    of [count++] at the same time. *)
Record fet_sys := MkSys {
  mem : fet_state;
  insts : list inst;
  ftrace : list fet_ev;
  hist : list call_ev;
  raced : bool;
}.

Definition storing (i : inst) : bool := match i with InRet (RStore _ _ _) => true | _ => false end.

(** A user task or a kernel thread calls the function, it returns, a return
    handler goes on. *)
Inductive fet_actor :=
| AEnter (ri : nat) (mm : bool)
| AReturn (ri : nat) (regs : Z)
| AHandler (ri : nat).

(** An entry is given an instance that is not in use and keeps it when the
    handler returns 0; the return handler runs on that instance, at the same
    time as those of other instances, and gives it back. *)
Definition fet_step (k : fet_kernel) (a : fet_actor) (s : fet_sys) : option fet_sys :=
  let 'MkSys m ins t h r := s in
  match a with
  | AEnter ri mm =>
      match ins !! ri, entry_handler ri mm k m t with
      | Some Free, (Ok rc, m', t') =>
          Some (if rc =? 0 then MkSys m' (<[ri := Inside]> ins) t' (h ++ [HEntry ri (fk_ktime k t)]) r
                else MkSys m' ins t' h r)
      | _, _ => None
      end
  | AReturn ri regs =>
      match ins !! ri with Some Inside => Some (MkSys m (<[ri := InRet (RClock regs)]> ins) t h r) | _ => None end
  | AHandler ri =>
      match ins !! ri with
      | Some (InRet pc) =>
          match ret_handler ri pc k m t with
          | (Ok pc', m', t') =>
              Some (MkSys m' (<[ri := match pc' with Some pc' => InRet pc' | None => Free end]> ins) t'
                (match pc with RClock regs => h ++ [HReturn ri regs (fk_ktime k t)] | _ => h end)
                (match pc with RLoad _ _ => r || existsb storing ins | _ => r end))
          | _ => None
          end
      | _ => None
      end
  end.

Definition fet_sys0 (func : list Z) (stale : list Z) (sym : option (list Z)) : fet_sys :=
  MkSys (MkFet func 0 stale sym) (replicate maxactive Free) [] [] false.

(** *** What the lines should say *)

(** Walking through the history: when the call of each instance was entered,
    and what the calls that have returned returned and how long they took. *)
Definition observe (acc : gmap nat Z * list (Z * Z)) (e : call_ev) : gmap nat Z * list (Z * Z) :=
  match e with
  | HEntry ri t0 => (<[ri := t0]> acc.1, acc.2)
  | HReturn ri regs t1 =>
      (acc.1, match acc.1 !! ri with Some t0 => acc.2 ++ [(s32 regs, s64 (t1 - t0))] | None => acc.2 end)
  end.

Definition observed (h : list call_ev) : gmap nat Z * list (Z * Z) := foldl observe (∅, []) h.
Definition measured (h : list call_ev) : list (Z * Z) := (observed h).2.

Lemma observed_snoc h e : observed (h ++ [e]) = observe (observed h) e.
Proof. unfold observed. by rewrite foldl_app. Qed.

(** The lines: number, function, value and duration. *)
Definition line_of (e : fet_ev) : option (Z * list Z * (Z * Z)) :=
  match e with FvLine n f v d => Some (n, f, (v, d)) | _ => None end.
Definition lines (s : fet_sys) : list (Z * list Z * (Z * Z)) := omap line_of (ftrace s).

(** What the handlers in progress will print: value and duration, and the
    number when it has been taken. *)
Definition value_of (i : inst) : option (Z * Z) :=
  match i with
  | InRet (RLoad v d) | InRet (RStore v d _) | InRet (RPrint v d _) => Some (v, d)
  | _ => None
  end.
Definition number_of (i : inst) : option Z := match i with InRet (RPrint _ _ n) => Some n | _ => None end.
Definition loaded_of (i : inst) : option Z := match i with InRet (RStore _ _ n) => Some n | _ => None end.

Definition values (s : fet_sys) : list (Z * Z) := (lines s).*2 ++ omap value_of (insts s).
Definition numbers (s : fet_sys) : list Z := (lines s).*1.*1 ++ omap number_of (insts s).

(** [n] is the remainder of a count below [k]. *)
Definition below (k : nat) (n : Z) : Prop := ∃ m, (m < k)%nat ∧ n = ulong (Z.of_nat m).

Lemma below_le k k' n : (k ≤ k')%nat → below k n → below k' n.
Proof. intros Hle (m & Hm & ->). exists m. split; [lia|done]. Qed.

Lemma existsb_storing l : existsb storing l = negb (bool_decide (omap loaded_of l = [])).
Proof. induction l as [|[| |[]] l IH]; simpl; try done; exact IH. Qed.

(** The counter [c], the numbers taken, and those loaded but not yet stored
    back: lost increments only ever make numbers smaller, and without a race
    they are 0, 1, 2, ... *)
Record num_ok (r : bool) (c : Z) (nums loaded : list Z) : Prop := {
  no_count : below (S (length nums)) c;
  no_loaded : Forall (below (S (length nums))) loaded;
  no_nums : Forall (below (length nums)) nums;
  no_race : r = false →
    c = ulong (Z.of_nat (length nums)) ∧ (length loaded ≤ 1)%nat ∧ Forall (λ n, n = c) loaded ∧
    nums ≡ₚ (λ i, ulong (Z.of_nat i)) <$> seq 0 (length nums);
}.

Lemma num_perm r c nums nums' lo lo' : nums ≡ₚ nums' → lo ≡ₚ lo' → num_ok r c nums lo → num_ok r c nums' lo'.
Proof.
  intros En El [H1 H2 H3 H4]. pose proof (Permutation_length En) as Ln. pose proof (Permutation_length El) as Ll.
  split; rewrite <-Ln; [done|by rewrite <-El|by rewrite <-En|].
  intros Hr. destruct (H4 Hr) as (Hc & Hl & Hf & Hp). split_and!; [done|lia|by rewrite <-El|by rewrite <-En].
Qed.

Lemma num_load r c nums lo :
  num_ok r c nums lo → num_ok (r || negb (bool_decide (lo = []))) c nums (c :: lo).
Proof.
  intros [H1 H2 H3 H4]. split; [done|by constructor|done|].
  intros [Hr Hl]%orb_false_iff. destruct (H4 Hr) as (Hc & _ & _ & Hn).
  apply negb_false_iff, bool_decide_eq_true in Hl as ->. split_and!; [done|simpl; lia|by repeat constructor|done].
Qed.

Lemma num_store r c nums n lo : num_ok r c nums (n :: lo) → num_ok r (ulong (n + 1)) (nums ++ [n]) lo.
Proof.
  intros [H1 [Hn Hlo]%Forall_cons H3 H4]. split; rewrite ?length_app; simpl.
  - destruct Hn as (m & Hm & ->). exists (S m). split; [lia|]. rewrite ulong_succ. f_equal. lia.
  - eapply Forall_impl; [exact Hlo|]. intros x. apply below_le. lia.
  - apply Forall_app. split.
    + eapply Forall_impl; [exact H3|]. intros x. apply below_le. lia.
    + constructor; [|done]. eapply below_le, Hn. lia.
  - intros Hr. destruct (H4 Hr) as (Hc & Hl & [-> _]%Forall_cons & Hp). simpl in Hl. destruct lo; [|simpl in Hl; lia].
    split_and!; [|simpl; lia|done|].
    + rewrite Hc, ulong_succ. f_equal. lia.
    + rewrite Nat.add_1_r, seq_S, fmap_app. simpl. by rewrite <-Hp, <-Hc.
Qed.

Section Facts.
Context (k : fet_kernel) (func : list Z).

Record fet_inv (s : fet_sys) : Prop := {
  fi_func : funcname (mem s) = func;
  fi_stamps : length (entry_stamp (mem s)) = maxactive;
  fi_insts : length (insts s) = maxactive;
  fi_inside : ∀ i x, insts s !! i = Some x → (x = Inside ∨ ∃ regs, x = InRet (RClock regs)) →
    ∃ t0, entry_stamp (mem s) !! i = Some t0 ∧ (observed (hist s)).1 !! i = Some t0;
  fi_lines : Forall (λ l, l.1.2 = func) (lines s);
  fi_values : values s ≡ₚ measured (hist s);
  fi_numbers : num_ok (raced s) (count (mem s)) (numbers s) (omap loaded_of (insts s));
}.

(** One instance changes. *)
Lemma omap_insert {A} (f : inst → option A) l i x y :
  l !! i = Some x →
  ∃ rest, omap f l ≡ₚ option_list (f x) ++ rest ∧ omap f (<[i := y]> l) ≡ₚ option_list (f y) ++ rest.
Proof.
  intros Hi. exists (omap f (delete i l)). split.
  - rewrite (delete_Permutation _ _ _ Hi) at 1. simpl. by destruct (f x).
  - rewrite (insert_perm _ _ _ y Hi). simpl. by destruct (f y).
Qed.

(** When an instance that is inside a call or enters one changes, the others
    keep what is known about them. *)
Lemma inside_insert m m' (l : list inst) (g g' : gmap nat Z) i y :
  (∀ j, j ≠ i → entry_stamp m' !! j = entry_stamp m !! j ∧ g' !! j = g !! j) →
  (y = Inside ∨ (∃ regs, y = InRet (RClock regs)) → ∃ t0, entry_stamp m' !! i = Some t0 ∧ g' !! i = Some t0) →
  (∀ j x, l !! j = Some x → (x = Inside ∨ ∃ regs, x = InRet (RClock regs)) →
    ∃ t0, entry_stamp m !! j = Some t0 ∧ g !! j = Some t0) →
  ∀ j x, <[i := y]> l !! j = Some x → (x = Inside ∨ ∃ regs, x = InRet (RClock regs)) →
    ∃ t0, entry_stamp m' !! j = Some t0 ∧ g' !! j = Some t0.
Proof.
  intros Heq Hy Hl j x Hj Hx. destruct (decide (j = i)) as [->|Hne].
  - apply list_lookup_insert_Some in Hj as [(_ & -> & _)|(? & _)]; [by apply Hy|done].
  - rewrite list_lookup_insert_ne in Hj by done. destruct (Heq j Hne) as [-> ->]. by eapply Hl.
Qed.

Lemma entry_handler_user ri m t :
  (ri < length (entry_stamp m))%nat →
  entry_handler ri true k m t =
    (Ok 0, set_stamps (<[ri := fk_ktime k t]> (entry_stamp m)) m, t ++ [FvKtime (fk_ktime k t)]).
Proof.
  intros Hl. destruct (lookup_lt_is_Some_2 (entry_stamp m) ri Hl) as [x Hx]. unfold entry_handler. simpl.
  do 2 (erewrite bind_ok by reflexivity). by rewrite Hx.
Qed.

(** A step that changes instance [ri] from [x] to [y] and adds the lines [ln]. *)
Lemma fet_update ri x y m ins t h r m' t' h' r' ln :
  ins !! ri = Some x → omap line_of t' = omap line_of t ++ ln → Forall (λ l, l.1.2 = func) ln →
  funcname m' = funcname m → length (entry_stamp m') = length (entry_stamp m) →
  (∀ j, j ≠ ri → entry_stamp m' !! j = entry_stamp m !! j ∧ (observed h').1 !! j = (observed h).1 !! j) →
  (y = Inside ∨ (∃ regs, y = InRet (RClock regs)) →
    ∃ t0, entry_stamp m' !! ri = Some t0 ∧ (observed h').1 !! ri = Some t0) →
  (∀ rest, rest ++ option_list (value_of x) ≡ₚ measured h →
    rest ++ ln.*2 ++ option_list (value_of y) ≡ₚ measured h') →
  (∀ nums rl, omap loaded_of ins ≡ₚ option_list (loaded_of x) ++ rl →
    num_ok r (count m) (nums ++ option_list (number_of x)) (option_list (loaded_of x) ++ rl) →
    num_ok r' (count m') (nums ++ ln.*1.*1 ++ option_list (number_of y)) (option_list (loaded_of y) ++ rl)) →
  fet_inv (MkSys m ins t h r) → fet_inv (MkSys m' (<[ri := y]> ins) t' h' r').
Proof.
  intros Hi Ht Hln Hm Hlen Heq Hy Hval Hnum [I1 I2 I3 I4 I5 I6 I7].
  destruct (omap_insert value_of ins ri x y Hi) as (rv & Ev & Ev').
  destruct (omap_insert number_of ins ri x y Hi) as (rn & En & En').
  destruct (omap_insert loaded_of ins ri x y Hi) as (rl & El & El').
  unfold values, numbers, lines in *; cbn [mem insts ftrace hist raced] in *.
  split; unfold values, numbers, lines; cbn [mem insts ftrace hist raced]; rewrite ?Ht.
  - congruence.
  - congruence.
  - by rewrite length_insert.
  - by eapply inside_insert.
  - by apply Forall_app.
  - transitivity (((omap line_of t).*2 ++ rv) ++ ln.*2 ++ option_list (value_of y)).
    + rewrite fmap_app, Ev'. solve_Permutation.
    + apply Hval. rewrite <-I6, Ev. solve_Permutation.
  - eapply num_perm; [| |apply (Hnum ((omap line_of t).*1.*1 ++ rn) rl El)].
    + rewrite !fmap_app, En'. solve_Permutation.
    + by rewrite El'.
    + eapply num_perm, I7; [|done]. rewrite En. solve_Permutation.
Qed.

Lemma fet_enter ri mm s s' : fet_step k (AEnter ri mm) s = Some s' → fet_inv s → fet_inv s'.
Proof.
  destruct s as [m ins t h r]. intros E I. pose proof (fi_stamps _ I) as I2. pose proof (fi_insts _ I) as I3. simpl in *.
  destruct (ins !! ri) as [[]|] eqn:Hi; try done. destruct mm; [|by simplify_eq/=].
  pose proof (lookup_lt_Some _ _ _ Hi). rewrite entry_handler_user in E by lia. simplify_eq/=.
  eapply (fet_update ri Free Inside m ins t h r _ _ _ _ []); try done.
  - by rewrite omap_app.
  - simpl. by rewrite length_insert.
  - intros j Hj. simpl. rewrite observed_snoc, list_lookup_insert_ne by done. simpl. by rewrite lookup_insert_ne.
  - intros _. exists (fk_ktime k t). simpl. rewrite observed_snoc. simpl. rewrite lookup_insert_eq.
    split; [|done]. apply list_lookup_insert_eq. lia.
  - intros rest. unfold measured. by rewrite observed_snoc.
Qed.

Lemma fet_return ri regs s s' : fet_step k (AReturn ri regs) s = Some s' → fet_inv s → fet_inv s'.
Proof.
  destruct s as [m ins t h r]. intros E I. simpl in *. destruct (ins !! ri) as [[]|] eqn:Hi; try done. simplify_eq.
  eapply (fet_update ri Inside _ m ins t h r _ _ _ _ []); try done; [by rewrite app_nil_r|].
  intros _. apply (fi_inside _ I ri Inside); [done|by left].
Qed.

Lemma fet_handler ri s s' : fet_step k (AHandler ri) s = Some s' → fet_inv s → fet_inv s'.
Proof.
  destruct s as [m ins t h r]. intros E I. simpl in *. destruct (ins !! ri) as [[| |pc]|] eqn:Hi; try done.
  pose proof (fi_inside _ I ri _ Hi) as Hin. pose proof (fi_func _ I) as Hfn. simpl in Hin, Hfn.
  destruct pc as [regs|v d|v d n|v d n]; simpl in E.
  - destruct Hin as (t0 & Hs & Ho); [by eauto|]. unfold bind, kcall, get, index in E. rewrite Hs in E. simplify_eq/=.
    eapply (fet_update ri _ _ m ins t h r _ _ _ _ []); try done; simpl.
    + by rewrite omap_app.
    + intros j Hj. by rewrite observed_snoc.
    + by intros [?|[??]].
    + intros rest Hr. unfold measured in *. rewrite observed_snoc. simpl. rewrite Ho, <-Hr. by rewrite app_nil_r.
  - simplify_eq/=. eapply (fet_update ri _ _ m ins t h r _ _ _ _ []); try done; simpl; [by rewrite app_nil_r|by intros [?|[??]]|].
    intros nums rl Hl Hnum. rewrite existsb_storing.
    replace (bool_decide (omap loaded_of ins = [])) with (bool_decide (rl = [])).
    + by apply num_load.
    + apply bool_decide_ext. split; intros Hnil; rewrite Hnil in Hl; [by apply Permutation_nil_r|by apply Permutation_nil_l in Hl].
  - simplify_eq/=. eapply (fet_update ri _ _ m ins t h r _ _ _ _ []); try done; simpl; [by rewrite app_nil_r|by intros [?|[??]]|].
    intros nums rl _ Hnum. rewrite app_nil_r in Hnum. by eapply num_store.
  - simplify_eq/=. eapply (fet_update ri _ _ m ins t h r _ _ _ _ [(n, funcname m, (v, d))]); try done; simpl.
    + by rewrite omap_app.
    + by repeat constructor.
    + by intros [?|[??]].
Qed.

Lemma fet_invariant : invariant_of (acts (fet_step k)) fet_inv.
Proof. intros s s' [[ri mm|ri regs|ri] E]; [by eapply fet_enter|by eapply fet_return|by eapply fet_handler]. Qed.
End Facts.


(** A clock that ticks with every call, and two overlapping calls. *)
Definition demo_fk : fet_kernel := {|
  fk_ktime t := Z.of_nat (length t);
  fk_register _ _ := 0;
  fk_nmissed _ := 0;
|}.

Definition demo_fet (l : list fet_actor) : fet_sys :=
  sched (fet_step demo_fk) (λ n, default (AEnter 19 false) (l !! n)) (length l) (fet_sys0 [102] (replicate 20 0) None).

(** Two calls return at the same time; in the first run the handlers take
    turns as a whole, in the second both load [count] before either stores. *)
Definition demo_calls : list fet_actor := [AEnter 0 true; AEnter 1 true; AReturn 0 5; AReturn 1 6].
Definition demo_orderly : list fet_actor := demo_calls ++ replicate 4 (AHandler 0) ++ replicate 4 (AHandler 1).
Definition demo_race : list fet_actor := demo_calls ++ mjoin (replicate 4 [AHandler 0; AHandler 1]).

End FuncExecTime.
