(* ===== verification/Notifier.v ===== *)
(** * The notifier chain: [src/notifierchain/]

    Three modules share a chain of callbacks: [buildchain.c] owns it,
    [regchain.c] puts three notifiers on it, [notify.c] calls them.  The chain
    type is the kernel's; the loader, which frees a module's memory when its
    initialisation fails or it is removed, is part of the system. *)

From S2P Require Import Prelude.

(** The static notifiers of [regchain.c]. *)
Inductive notifier_block := test_notifier1 | test_notifier2 | test_notifier3.

#[global] Instance notifier_block_eq_dec : EqDecision notifier_block.
Proof. solve_decision. Defined.

Inductive chain_ev :=
| CvRegister (nb : notifier_block) (err : Z)
| CvUnregister (nb : notifier_block)
| CvEvent (i : nat) (event : Z)           (* printk of a callback *)
| CvNotify                                (* "Begin to notify" *)
| CvError.                                (* "notifier_call_chain error" *)

(** The kernel's raw notifier chains.  [rc_call run event c] calls [run nb] for
    the notifiers of the chain. *)
Class RawChain := {
  raw_chain : Type;
  RAW_NOTIFIER_HEAD : raw_chain;
  rc_register : list chain_ev → notifier_block → raw_chain → Z * raw_chain;
  rc_unregister : notifier_block → raw_chain → raw_chain;
  rc_call {S : Type} : (notifier_block → M unit S chain_ev Z) → raw_chain → M unit S chain_ev Z;
}.

(** Notifiers of one priority are called in the order of registration, until
    one answers with the bit [NOTIFY_STOP_MASK]; the last answer is the
    result. *)
Definition NOTIFY_STOP_MASK : Z := 32768.

Fixpoint call_list {S} (run : notifier_block → M unit S chain_ev Z) (r : Z) (l : list notifier_block) :
    M unit S chain_ev Z :=
  match l with
  | [] => ret r
  | nb :: l => r <- run nb ;; if Z.land r NOTIFY_STOP_MASK =? 0 then call_list run r l else ret r
  end.

Class RawChainLaws `{RawChain} := {
  notifiers : raw_chain → list notifier_block;
  law_head : notifiers RAW_NOTIFIER_HEAD = [];
  law_register t nb c : let r := rc_register t nb c in
    notifiers r.2 = if r.1 =? 0 then notifiers c ++ [nb] else notifiers c;
  law_unregister nb c : notifiers (rc_unregister nb c) = filter (λ x, x ≠ nb) (notifiers c);
  law_call {S} (run : notifier_block → M unit S chain_ev Z) c s t :
    rc_call run c tt s t = call_list run 0 (notifiers c) tt s t;
}.

Section Model.
Context `{RawChain}.

(** [test_chain] of [buildchain.c], and whether the memory of [regchain.c] is
    there. *)
Record chain_state := MkChain { test_chain : raw_chain; regchain_loaded : bool }.

Definition CM (A : Type) : Type := M unit chain_state chain_ev A.

Definition set_chain (c : raw_chain) (s : chain_state) : chain_state := MkChain c (regchain_loaded s).
Definition set_loaded (b : bool) (s : chain_state) : chain_state := MkChain (test_chain s) b.

(** ** [regchain.c]: the callbacks *)

Definition test_event1 (event : Z) : CM Z := emit (CvEvent 1 event) ;; ret 0.
Definition test_event2 (event : Z) : CM Z := emit (CvEvent 2 event) ;; ret 0.
Definition test_event3 (event : Z) : CM Z := emit (CvEvent 3 event) ;; ret 0.

(** Calling through a notifier reads its memory. *)
Definition notifier_call (event : Z) (nb : notifier_block) : CM Z :=
  loaded <- get regchain_loaded ;;
  if negb loaded then crash UseAfterFree else
  match nb with
  | test_notifier1 => test_event1 event
  | test_notifier2 => test_event2 event
  | test_notifier3 => test_event3 event
  end.

(** ** [buildchain.c] *)

Definition register_test_notifier (nb : notifier_block) : CM Z := λ k s t,
  let r := rc_register t nb (test_chain s) in
  (Ok r.1, set_chain r.2 s, t ++ [CvRegister nb r.1]).

Definition unregister_test_notifier (nb : notifier_block) : CM unit :=
  modify (λ s, set_chain (rc_unregister nb (test_chain s)) s) ;;
  emit (CvUnregister nb).

Definition test_notifier_call_chain (val : Z) : CM Z :=
  c <- get test_chain ;;
  rc_call (notifier_call val) c.

(** ** [regchain.c]: load and unload *)

Definition reg_notifier : CM Z :=
  err <- register_test_notifier test_notifier1 ;;
  if negb (err =? 0) then ret (-1) else
  err <- register_test_notifier test_notifier2 ;;
  if negb (err =? 0) then ret (-1) else
  err <- register_test_notifier test_notifier3 ;;
  if negb (err =? 0) then ret (-1) else
  ret err.

Definition unregister_notifier : CM unit :=
  unregister_test_notifier test_notifier1 ;;
  unregister_test_notifier test_notifier2 ;;
  unregister_test_notifier test_notifier3.

(** ** [notify.c] *)

Definition call_notifier : CM Z :=
  emit CvNotify ;;
  err <- test_notifier_call_chain 1 ;;
  (when (negb (err =? 0)) do emit CvError) ;;
  err <- test_notifier_call_chain 2 ;;
  (when (negb (err =? 0)) do emit CvError) ;;
  ret err.

(** ** The loader *)

(** [insmod regchain.ko]: the module stays only if its initialisation returns
    0. *)
Definition insmod_regchain : CM Z :=
  modify (set_loaded true) ;;
  r <- reg_notifier ;;
  modify (set_loaded (r =? 0)) ;;
  ret r.

Definition rmmod_regchain : CM unit :=
  unregister_notifier ;;
  modify (set_loaded false).
End Model.

(** ** Facts *)

Section Facts.
Context `{RawChainLaws}.

Definition all_notifiers : list notifier_block := [test_notifier1; test_notifier2; test_notifier3].

(** How many of the notifiers [nbs], offered to the kernel one after the other,
    it accepts before the first refusal, and the registrations made. *)
Fixpoint accepted (nbs : list notifier_block) (t : list chain_ev) (c : raw_chain) : nat * list chain_ev :=
  match nbs with
  | [] => (0%nat, t)
  | nb :: nbs =>
      let r := rc_register t nb c in
      let t := t ++ [CvRegister nb r.1] in
      if r.1 =? 0 then let x := accepted nbs t r.2 in (S x.1, x.2) else (0%nat, t)
  end.

(** Registration stops at the first failure and takes nothing back. *)
Lemma reg_notifier_ok s t :
  notifiers (test_chain s) = [] →
  let x := accepted all_notifiers t (test_chain s) in
  ∃ c, reg_notifier tt s t = (Ok (if decide (x.1 = 3%nat) then 0 else -1), set_chain c s, x.2) ∧
    (x.1 ≤ 3)%nat ∧ notifiers c = take x.1 all_notifiers.
Proof.
  intros Hs. unfold reg_notifier, all_notifiers, accepted. cbv zeta.
  pose proof (law_register t test_notifier1 (test_chain s)) as H1. cbv zeta in H1. rewrite Hs in H1.
  erewrite bind_ok by reflexivity. set (r1 := rc_register t _ _) in *. destruct (r1.1 =? 0) eqn:E1; cbn [negb fst snd];
    [|by exists r1.2; split_and!; [done|lia|done]].
  set (t1 := t ++ _). pose proof (law_register t1 test_notifier2 r1.2) as H2. cbv zeta in H2. rewrite H1 in H2.
  erewrite bind_ok by reflexivity. cbn [test_chain set_chain].
  set (r2 := rc_register t1 _ _) in *. destruct (r2.1 =? 0) eqn:E2; cbn [negb fst snd];
    [|by exists r2.2; split_and!; [done|lia|done]].
  set (t2 := t1 ++ _). pose proof (law_register t2 test_notifier3 r2.2) as H3. cbv zeta in H3. rewrite H2 in H3.
  erewrite bind_ok by reflexivity. cbn [test_chain set_chain].
  set (r3 := rc_register t2 _ _) in *. destruct (r3.1 =? 0) eqn:E3; cbn [negb fst snd];
    [|by exists r3.2; split_and!; [done|lia|done]].
  exists r3.2. split_and!; [|lia|done]. unfold ret. apply Z.eqb_eq in E3. by rewrite E3.
Qed.

Lemma call_chain_ok val s t :
  test_notifier_call_chain val tt s t = call_list (notifier_call val) 0 (notifiers (test_chain s)) tt s t.
Proof. unfold test_notifier_call_chain. erewrite bind_ok by reflexivity. apply law_call. Qed.

Lemma call_chain_full val s t :
  notifiers (test_chain s) = all_notifiers → regchain_loaded s = true →
  test_notifier_call_chain val tt s t = (Ok 0, s, t ++ [CvEvent 1 val; CvEvent 2 val; CvEvent 3 val]).
Proof.
  intros Hc Hl. rewrite call_chain_ok, Hc. destruct s as [c l]. simpl in Hl. subst l.
  transitivity (Ok 0, MkChain c true, ((t ++ [CvEvent 1 val]) ++ [CvEvent 2 val]) ++ [CvEvent 3 val]); [reflexivity|].
  by rewrite <-!app_assoc.
Qed.

Lemma call_notifier_crash s t nb l :
  notifiers (test_chain s) = nb :: l → regchain_loaded s = false →
  call_notifier tt s t = (Crash UseAfterFree, s, t ++ [CvNotify]).
Proof.
  intros Hc Hl. unfold call_notifier. erewrite bind_ok by reflexivity. apply bind_crash.
  rewrite call_chain_ok, Hc. destruct s as [c b]. simpl in Hl. by subst b.
Qed.

Lemma call_notifier_empty s t :
  notifiers (test_chain s) = [] → call_notifier tt s t = (Ok 0, s, t ++ [CvNotify]).
Proof.
  intros Hc. unfold call_notifier. erewrite bind_ok by reflexivity.
  erewrite bind_ok by (by rewrite call_chain_ok, Hc). erewrite bind_ok by reflexivity.
  by erewrite bind_ok by (by rewrite call_chain_ok, Hc).
Qed.

Lemma call_notifier_full s t :
  notifiers (test_chain s) = all_notifiers → regchain_loaded s = true →
  call_notifier tt s t = (Ok 0, s, t ++ [CvNotify; CvEvent 1 1; CvEvent 2 1; CvEvent 3 1;
    CvEvent 1 2; CvEvent 2 2; CvEvent 3 2]).
Proof.
  intros Hc Hl. unfold call_notifier. erewrite bind_ok by reflexivity.
  erewrite bind_ok by (by rewrite call_chain_full). erewrite bind_ok by reflexivity.
  erewrite bind_ok by (by rewrite call_chain_full). unfold bind, ret. simpl. by rewrite <-!app_assoc.
Qed.
End Facts.

(** C28: the notifier modules.  Loading [regchain.c] over an empty chain offers
    its notifiers to the kernel in order up to the first refusal, succeeds
    exactly when all three are accepted, and leaves the accepted ones on the
    chain in order.  When all three
    are registered, [notify.c] calls them in that order for event 1 and for
    event 2 and reports success, and after [regchain.c] is removed the chain is
    empty again and [notify.c] calls nothing.  When a registration fails after
    an earlier one succeeded, the earlier notifiers stay on the chain although
    their module is gone, and [notify.c] runs into freed memory. *)
Theorem notifier_modules `{RawChainLaws} (s : chain_state) (t : list chain_ev)
    (Hempty : notifiers (test_chain s) = []) :
  let '(n, t1) := accepted all_notifiers t (test_chain s) in
  ∃ s1, (n ≤ 3)%nat ∧ insmod_regchain tt s t = (Ok (if decide (n = 3%nat) then 0 else -1), s1, t1) ∧
    notifiers (test_chain s1) = take n all_notifiers ∧
    match n with
    | 0%nat => call_notifier tt s1 t1 = (Ok 0, s1, t1 ++ [CvNotify])
    | 3%nat =>
        call_notifier tt s1 t1 = (Ok 0, s1, t1 ++ [CvNotify; CvEvent 1 1; CvEvent 2 1; CvEvent 3 1;
          CvEvent 1 2; CvEvent 2 2; CvEvent 3 2]) ∧
        ∀ t2, ∃ s3 t3, rmmod_regchain tt s1 t2 = (Ok tt, s3, t3) ∧
          call_notifier tt s3 t3 = (Ok 0, s3, t3 ++ [CvNotify])
    | _ => call_notifier tt s1 t1 = (Crash UseAfterFree, s1, t1 ++ [CvNotify])
    end.
Proof.
  pose proof (reg_notifier_ok (set_loaded true s) t Hempty) as Hreg. cbn [test_chain set_loaded] in Hreg.
  destruct (accepted all_notifiers t (test_chain s)) as [n t1]. destruct Hreg as (c & E & Hn & Hc). cbn [fst snd] in *.
  unfold insmod_regchain. erewrite bind_ok by reflexivity. mrun E.
  erewrite bind_ok by reflexivity. eexists. split; [done|]. split; [reflexivity|].
  split; [done|]. destruct n as [|[|[|[|n]]]]; [..|lia].
  - by apply call_notifier_empty.
  - eapply call_notifier_crash; [exact Hc|done].
  - eapply call_notifier_crash; [exact Hc|done].
  - split; [by apply call_notifier_full|]. intros t2. eexists _, _. split; [reflexivity|].
    apply call_notifier_empty. cbn [test_chain set_loaded set_chain]. by rewrite !law_unregister, Hc.
Qed.

(** ** A concrete chain *)

(** The second registration is refused. *)
#[export] Instance list_chain : RawChain := {|
  raw_chain := list notifier_block;
  RAW_NOTIFIER_HEAD := [];
  rc_register _ nb c := if decide (nb = test_notifier2) then (-17, c) else (0, c ++ [nb]);
  rc_unregister nb c := filter (λ x, x ≠ nb) c;
  rc_call _ run c := call_list run 0 c;
|}.

#[export] Instance list_chain_laws : RawChainLaws.
Proof. refine {| notifiers := λ c : raw_chain, c |}; try done. intros t nb c. simpl. by destruct nb. Defined.

Lemma notifier_modules_witness :
  let '(n, t1) := accepted all_notifiers [] (test_chain (MkChain [] false)) in
  ∃ s1, (n ≤ 3)%nat ∧ insmod_regchain tt (MkChain [] false) [] = (Ok (if decide (n = 3%nat) then 0 else -1), s1, t1) ∧
    notifiers (test_chain s1) = take n all_notifiers ∧
    match n with
    | 0%nat => call_notifier tt s1 t1 = (Ok 0, s1, t1 ++ [CvNotify])
    | 3%nat =>
        call_notifier tt s1 t1 = (Ok 0, s1, t1 ++ [CvNotify; CvEvent 1 1; CvEvent 2 1; CvEvent 3 1;
          CvEvent 1 2; CvEvent 2 2; CvEvent 3 2]) ∧
        ∀ t2, ∃ s3 t3, rmmod_regchain tt s1 t2 = (Ok tt, s3, t3) ∧
          call_notifier tt s3 t3 = (Ok 0, s3, t3 ++ [CvNotify])
    | _ => call_notifier tt s1 t1 = (Crash UseAfterFree, s1, t1 ++ [CvNotify])
    end.
Proof. exact (notifier_modules (MkChain [] false) [] eq_refl). Defined.
