(* ===== verification/Demos.v ===== *)
(** * Small demonstrations: [src/tty/tty.c], [src/usermode_helper/] and
    [src/multifile/]

    Modules whose load and unload functions make one or two kernel calls. *)

From S2P Require Import Prelude Bytes.

(** ** [tty.c] *)

Module Tty.

Inductive tty_ev := TvWrite (tty : Z) (bytes : list Z) (count : Z).

(** The terminal of the current task may be missing, and may change between
    load and unload. *)
Record tty_kernel := { tk_tty : list tty_ev → option Z }.

Definition TM (A : Type) : Type := M tty_kernel unit tty_ev A.

(** [str] is the memory of the C string. *)
Definition print_string (str : list Z) : TM unit :=
  my_tty <- kpeek tk_tty ;;
  match my_tty with
  | None => ret tt
  | Some tty =>
      n <- index (strlen str) ;;
      text <- index (slice 0 (Z.to_nat n) str) ;;
      emit (TvWrite tty text n) ;;
      emit (TvWrite tty [13; 10] 2)
  end.

Definition bytes_of (s : string) : list Z := (λ c, Z.of_nat (Ascii.nat_of_ascii c)) <$> String.list_ascii_of_string s.

Definition print_string_init : TM Z :=
  print_string (bytes_of "The module has been inserted.  Hello world!" ++ [0]) ;; ret 0.
Definition print_string_exit : TM unit :=
  print_string (bytes_of "The module has been removed.  Farewell world!" ++ [0]).

(** What a terminal [tty] shows after the writes of a trace. *)
Definition screen (tty : Z) (t : list tty_ev) : list Z :=
  concat ((λ e, match e with TvWrite y bytes count => if y =? tty then take (Z.to_nat count) bytes else [] end) <$> t).

Lemma screen_app tty t1 t2 : screen tty (t1 ++ t2) = screen tty t1 ++ screen tty t2.
Proof. unfold screen. by rewrite fmap_app, concat_app. Qed.

(** A string without NUL appears on the terminal followed by carriage return
    and line feed; without a terminal nothing happens. *)
Lemma print_string_ok k t s :
  no_nul s →
  ∃ ev, print_string (s ++ [0]) k tt t = (Ok tt, tt, t ++ ev) ∧
    match tk_tty k t with
    | None => ev = []
    | Some tty => ∀ y, screen y ev = if y =? tty then s ++ [13; 10] else []
    end.
Proof.
  intros Hs. unfold print_string. erewrite bind_ok by reflexivity.
  destruct (tk_tty k t) as [tty|]; [|exists []; unfold ret; by rewrite app_nil_r].
  unfold strlen. rewrite cstr_app by done. erewrite bind_ok by reflexivity.
  assert (slice 0 (Z.to_nat (Z.of_nat (length s))) (s ++ [0]) = Some s) as ->.
  { rewrite Nat2Z.id. unfold slice. rewrite decide_True by (rewrite length_app; simpl; lia).
    by rewrite drop_0, take_app_length. }
  do 2 (erewrite bind_ok by reflexivity). eexists. split; [unfold emit; by rewrite <-app_assoc|].
  intros y. unfold screen. simpl. rewrite (Z.eqb_sym tty y), Nat2Z.id. destruct (y =? tty); [|done].
  by rewrite take_ge by lia.
Qed.
End Tty.

(** ** [usermodehelper.c] *)

Module Umh.

Definition UMH_WAIT_EXEC : Z := 1.

Inductive umh_ev :=
| HvEntry
| HvCall (path : string) (argv envp : list string) (wait ret : Z)
| HvRet (ret : Z)
| HvExit.

Record umh_kernel := { hk_call : list umh_ev → Z }.

Definition HM (A : Type) : Type := M umh_kernel unit umh_ev A.

(** The arrays without their NULL terminators. *)
Definition uhm_test : HM Z :=
  let argv := ["/bin/ls"%string] in
  let envp := ["HOME=/"%string; "TERM=linux"%string; "PATH=/sbin:/bin:/usr/sbin:/usr/bin"%string] in
  path <- index (argv !! 0%nat) ;;
  r <- kcall hk_call (HvCall path argv envp UMH_WAIT_EXEC) ;;
  emit (HvRet r) ;;
  ret r.

Definition mod_entry_func : HM Z := emit HvEntry ;; uhm_test.
Definition mod_exit_func : HM unit := emit HvExit.

(** Loading fails exactly when the helper could not be started. *)
Lemma mod_entry_func_ok k t :
  ∃ r t', mod_entry_func k tt t = (Ok r, tt, t') ∧ r = hk_call k (t ++ [HvEntry]) ∧ last t' = Some (HvRet r).
Proof. eexists _, _. split; [reflexivity|]. split; [done|]. by rewrite last_snoc. Qed.
End Umh.

(** ** The module of [multifile/] *)

Module Multifile.

Inductive level := KERN_INFO | KERN_DEBUG.
Inductive mf_ev := MfPrintk (l : level) (s : string).

Definition FM (A : Type) : Type := M unit unit mf_ev A.

Definition newline : string := String (Ascii.ascii_of_nat 10) EmptyString.

(** world.c *)
Definition kernel_speak (words : string) : FM unit := emit (MfPrintk KERN_DEBUG words).

(** start.c *)
Definition init_module : FM Z :=
  kernel_speak "initializaion" ;;
  emit (MfPrintk KERN_INFO ("Hello world - this is the kernel speaking" +:+ newline)) ;;
  ret 0.

(** stop.c *)
Definition cleanup_module : FM unit :=
  kernel_speak "finalization" ;;
  emit (MfPrintk KERN_INFO "Short is the life of a kernel module").

(** hello.c *)
Definition show : FM unit := emit (MfPrintk KERN_INFO ("Hello world" +:+ newline)).

Example multifile_run :
  (init_module ;; cleanup_module) tt tt [] =
  (Ok tt, tt, [MfPrintk KERN_DEBUG "initializaion"; MfPrintk KERN_INFO ("Hello world - this is the kernel speaking" +:+ newline);
    MfPrintk KERN_DEBUG "finalization"; MfPrintk KERN_INFO "Short is the life of a kernel module"]).
Proof. reflexivity. Qed.
End Multifile.
